(** * shockpkg core: catalog engine, install pipeline and stream primitives

    A shallow embedding of the TypeScript sources ([stream.ts], [package.ts],
    [packages.ts], [manager.ts]) together with the properties of the
    specification that were checked against them.

    Conventions of the embedding.
    - A JavaScript [number] that the code uses as a byte count or an offset is
      an integer of [Z]; the result of a string-to-number conversion is a
      [number] that may also be [NaN].
    - A [Buffer] is a list of bytes; a stream is the list of the chunks that
      flow through it.
    - Methods that read or write the file system, the network, the catalogue
      object or the listeners run in a state-and-exception monad over a
      [World]; a JavaScript [throw] is the [Throw] result, and the state
      reached so far is kept when a method throws. *)

From Stdlib Require Import ZArith Lia.
From Stdlib.Strings Require Import Byte Ascii.
From stdpp Require Import gmap strings list pretty sorting.

#[global] Set Warnings "-register-all".
#[global] Open Scope Z_scope.

(** ** Stream primitives ([stream.ts]) *)

Module Stream.

Section SliceStream.
(** The element type of a buffer; the transform never inspects the bytes. *)
Context {A : Type}.

(** [Buffer.subarray(b, e)]: negative indices count from the end and both
  ends are clamped to the buffer. *)
Definition clamp_index (len i : Z) : Z :=
if i <? 0 then Z.max (len + i) 0 else Z.min i len.

Definition subarray (c : list A) (b e : Z) : list A :=
let len := Z.of_nat (length c) in
let b' := clamp_index len b in
let e' := clamp_index len e in
take (Z.to_nat (e' - b')) (drop (Z.to_nat b') c).

(** [c.subarray(b)]: to the end of the buffer. *)
Definition subarray_from (c : list A) (b : Z) : list A :=
subarray c b (Z.of_nat (length c)).

(** The fields of a [SliceStream] object. *)
Record SliceStream := mkSliceStream {
start : Z;
size : Z;
_transformed : Z
}.

(** [new SliceStream(start, size)]; the defaults are [0] and [-1]. *)
Definition SliceStream_new (start size : Z) : SliceStream :=
mkSliceStream start size 0.

Definition SliceStream_default : SliceStream := SliceStream_new 0 (-1).

(** [this._transformed += n] *)
Definition advance (s : SliceStream) (n : Z) : SliceStream :=
mkSliceStream (start s) (size s) (_transformed s + n).

Definition blen (c : list A) : Z := Z.of_nat (length c).

(** [SliceStream._transform(chunk, encoding, callback)] for a chunk that is
  already a buffer: the new state of the object and the buffers handed to
  [this.push], in order. *)
Definition _transform (s : SliceStream) (c : list A)
: SliceStream * list (list A) :=
(* If size is 0, then nothing to do. *)
if size s =? 0 then (advance s (blen c), [])
(* If size is less than 0, from start to infinity. *)
else if size s <? 0 then
  let i := _transformed s - start s in
  if i + blen c <=? 0 then (advance s (blen c), [])
  else
    let '(s1, c1) :=
      if i <? 0 then (advance s (- i), subarray_from c (- i)) else (s, c) in
    (advance s1 (blen c1), [subarray_from c1 0])
(* Discard if all past end. *)
else if start s + size s <=? _transformed s then (advance s (blen c), [])
else
  let i := _transformed s - start s in
  (* Discard if all before start. *)
  if i + blen c <=? 0 then (advance s (blen c), [])
  else
    (* Skip over any data before start. *)
    let '(s1, c1, i1) :=
      if i <? 0 then (advance s (- i), subarray_from c (- i), 0)
      else (s, c, i) in
    (* If chunk length more than remaining. *)
    let r := size s - i1 in
    if r <? blen c1 then
      (advance (advance s1 r) (blen c1 - r), [subarray c1 0 r])
    else (advance s1 (blen c1), [subarray_from c1 0]).

(** The transform driven by a readable side that delivers [chunks]: every
  chunk goes through [_transform] once, in order. The result lists every
  buffer handed to [push]; a [data] listener sees the non-empty ones. *)
Fixpoint run_from (s : SliceStream) (chunks : list (list A))
: SliceStream * list (list A) :=
match chunks with
| [] => (s, [])
| c :: rest =>
    let '(s1, out1) := _transform s c in
    let '(s2, out2) := run_from s1 rest in
    (s2, out1 ++ out2)
end.

Definition run (start size : Z) (chunks : list (list A)) : list (list A) :=
snd (run_from (SliceStream_new start size) chunks).

(** What a [data] listener records: the pushed buffers that are not empty. *)
Definition data_events (pushed : list (list A)) : list (list A) :=
filter (fun c => c ≠ []) pushed.

(** Follows the specification: the bytes of [input] whose position [p]
  satisfies [lo <= p < hi]. *)
Definition bytes_in_range (input : list A) (lo hi : Z) : list A :=
take (Z.to_nat (hi - Z.max 0 lo)) (drop (Z.to_nat (Z.max 0 lo)) input).

(** Follows the specification: the bytes of [input] from position [lo] to
  the end. *)
Definition bytes_from (input : list A) (lo : Z) : list A :=
drop (Z.to_nat lo) input.

(** Follows the specification of the byte-range filter: positions
  [start, start+size) for a positive size, nothing for size [0], and
  everything from [start] on for a negative size. *)
Definition expected_slice (start size : Z) (input : list A) : list A :=
if size =? 0 then []
else if size <? 0 then bytes_from input start
else bytes_in_range input start (start + size).

End SliceStream.

(** [EmptyStream]: [_read] pushes the end-of-stream marker at once, so the
  stream delivers no chunk. *)
Definition EmptyStream {A : Type} : list (list A) := [].

(** The readable of the test-suite: five buffers of one MiB each, byte [i] of
  a buffer being [i % 256]. *)
Definition MB : Z := 1024 * 1024.

Fixpoint cyclic_from (k : Z) (n : nat) : list Z :=
match n with
| O => []
| S n' => (k mod 256) :: cyclic_from (k + 1) n'
end.

Definition Reader_buffer : list Z := cyclic_from 0 (Z.to_nat MB).
Definition Reader : list (list Z) := replicate 5 Reader_buffer.

End Stream.

(** ** JavaScript values used by the sources *)

Module JS.

(** A [number] obtained from a string: an integer or [NaN]. Fractions and
    infinities are outside the embedding. *)
Inductive number := NaN | Num (z : Z).

#[global] Instance number_eq_dec : EqDecision number.
Proof. solve_decision. Defined.

(** [a === b] on numbers: [NaN] is not equal to anything. *)
Definition strict_eq (a b : number) : bool :=
  match a, b with Num x, Num y => x =? y | _, _ => false end.

(** [a < b] and [a > b]: false as soon as one side is [NaN]. *)
Definition lt (a b : number) : bool :=
  match a, b with Num x, Num y => x <? y | _, _ => false end.
Definition gt (a b : number) : bool := lt b a.

Definition add (a b : number) : number :=
  match a, b with Num x, Num y => Num (x + y) | _, _ => NaN end.
Definition sub (a b : number) : number :=
  match a, b with Num x, Num y => Num (x - y) | _, _ => NaN end.

(** [`${n}`] *)
Definition to_string (a : number) : string :=
  match a with Num x => pretty x | NaN => "NaN" end.

(** [s.split(sep)] for a one-character separator. *)
Fixpoint split (sep : Ascii.ascii) (s : string) : list string :=
  match s with
  | EmptyString => [EmptyString]
  | String c s' =>
      if Ascii.eqb c sep then EmptyString :: split sep s'
      else match split sep s' with
           | h :: t => String c h :: t
           | [] => [String c EmptyString]
           end
  end.

(** [s.startsWith('.')] *)
Definition startsWith (c : Ascii.ascii) (s : string) : bool :=
  match s with String d _ => Ascii.eqb d c | EmptyString => false end.

(** Truthiness of a string, and of a [string | null | undefined]. *)
Definition truthy_string (s : string) : bool :=
  match s with EmptyString => false | _ => true end.
Definition truthy (o : option string) : bool :=
  match o with Some s => truthy_string s | None => false end.

(** A decimal literal without sign, fraction or exponent. *)
Definition digit_value (c : Ascii.ascii) : option Z :=
  let n := Z.of_N (Ascii.N_of_ascii c) in
  if (48 <=? n) && (n <=? 57) then Some (n - 48) else None.

Fixpoint decimal_from (acc : Z) (s : string) : number :=
  match s with
  | EmptyString => Num acc
  | String c s' =>
      match digit_value c with
      | Some d => decimal_from (10 * acc + d) s'
      | None => NaN
      end
  end.

End JS.

(** The primitives of the platform that the sources call and that are not
    part of the repository. Every definition and theorem below is stated for
    an arbitrary [Runtime]; closed examples use [Examples.runtime]. *)
Record IPackageReceipt := mkReceipt {
  receipt_name : string;
  receipt_file : string;
  receipt_size : Z;
  receipt_sha256 : string;
  receipt_source : string
}.

#[global] Instance IPackageReceipt_eq_dec : EqDecision IPackageReceipt.
Proof. solve_decision. Defined.

(** [IPackagesListPackage]: an entry of the catalogue as it is parsed. *)
Module Info.
#[projections(primitive=no)]
Inductive IPackagesListPackage := mk {
  name : string;
  file : string;
  size : Z;
  sha256 : string;
  sha1 : string;
  md5 : string;
  source : string;
  packages : option (list IPackagesListPackage);
  zipped : option string
}.
End Info.
Abbreviation IPackagesListPackage := Info.IPackagesListPackage.

(** [IPackagesList] *)
Record IPackagesList := mkList {
  list_format : string;
  list_packages : list IPackagesListPackage
}.

(** The value [JSON.parse] returns for catalogue data, as far as [_castData]
    inspects it. The entries of a [packages] array have the type the source
    casts them to without a check. [U_object format packages] is an object
    whose [format] property is [Some s] exactly when it is the string [s], and
    whose [packages] property is [Some l] exactly when it is the array [l]. *)
Inductive unknown :=
| U_null
| U_boolean (b : bool)
| U_number (n : Z)
| U_string (s : string)
| U_array
| U_object (format : option string) (packages : option (list IPackagesListPackage)).

Class Runtime := {
  (** [Number(s)] and unary [+s]: the string-to-number conversion. *)
  Number : string -> JS.number;
  (** [JSON.parse] of catalogue data; [None] is a [SyntaxError]. *)
  JSON_parse : string -> option unknown;
  (** [JSON.parse(s) as IPackageReceipt]: [None] is a [SyntaxError],
      [Some None] a falsy value, [Some (Some r)] a truthy value, which has the
      type it is cast to. *)
  JSON_parse_receipt : string -> option (option IPackageReceipt);
  (** [JSON.stringify(_, null, '\t')] *)
  JSON_stringify : IPackagesList -> string;
  JSON_stringify_receipt : IPackageReceipt -> string;
  (** [zlib.createInflateRaw()] over the chunks of a stream; [None] when the
      decompressor reports an error. *)
  inflateRaw : list (list byte) -> option (list (list byte));
  (** [createHash('sha256')] over the bytes, digest in hexadecimal. *)
  sha256_hex : list byte -> string
}.

(** [+undefined] is [NaN]. *)
Definition Number_of `{Runtime} (o : option string) : JS.number :=
  match o with Some s => Number s | None => JS.NaN end.

(** ** Errors and the exception monads *)

(** The value a failed transport call rejects with: its [message] and, when
    it has a [cause], the [name] and the [code] of the cause. *)
Record TransportError := mkTransportError {
  message : string;
  cause : option (string * string)
}.

#[global] Instance TransportError_eq_dec : EqDecision TransportError.
Proof. solve_decision. Defined.

(** The errors the sources throw, one constructor for each message, the
    error codes of the file-system calls, and the rejection of a transport
    call ([None] for a falsy rejection value). *)
Inductive Error :=
| Rejection (reason : option TransportError)
| MissingZippedInfo (name : string)
| UnexpectedZippedInfo (name : string)
| NotAChildPackage
| UnsupportedZippedCompression (method : JS.number)
| PackagesListNotLoaded
| CannotWriteUnloadedList
| InvalidFormatVersionValue (format : string)
| InvalidFormatVersionMajor (format : string)
| InvalidFormatVersionMinor (format : string)
| DuplicatePackageName (key : string)
| DuplicatePackageSha256 (key : string)
| DuplicatePackageSha1 (key : string)
| DuplicatePackageMd5 (key : string)
| DuplicatePackageUnique (key : string)
| FailedToValidatePackages
| SyntaxError
| PackageIsNotInstalled (name : string)
| UnknownPackage (name : string)
| DefaultFetchNotAvailable
| FetchFailed (message : string)
| ResponseTextFailed
| InvalidResponseStatus (status : Z) (url : string)
| InvalidResumeStatus (status : Z) (url : string)
| InvalidResumeContentLength (cl : string) (url : string)
| CannotDownloadNegativeSize (size : JS.number)
| InvalidDownloadStatus (status : Z) (url : string)
| InvalidDownloadContentLength (cl : string) (url : string)
| InvalidExtractSize (written : Z)
| InvalidSha256Hash (hashed : string)
| InvalidFileSize (size : Z)
| StreamFailed
| ENOENT
| EEXIST
| EISDIR
| ENOTDIR
| ENOTEMPTY.

#[global] Instance Error_eq_dec : EqDecision Error.
Proof. solve_decision. Defined.

Inductive Result (A : Type) := Ok (a : A) | Throw (e : Error).
Arguments Ok {A} a.
Arguments Throw {A} e.

#[global] Instance Result_ret : MRet Result := @Ok.
#[global] Instance Result_bind : MBind Result := fun A B f m =>
  match m with Ok a => f a | Throw e => Throw e end.

Definition is_Ok {A} (r : Result A) : bool :=
  match r with Ok _ => true | Throw _ => false end.

(** State and exceptions: a method runs from a state to a result and the
    state it leaves, also when it throws. *)
Definition ST (S A : Type) : Type := S -> Result A * S.

#[global] Instance ST_ret {S} : MRet (ST S) := fun A a s => (Ok a, s).
#[global] Instance ST_bind {S} : MBind (ST S) := fun A B f m s =>
  match m s with
  | (Ok a, s') => f a s'
  | (Throw e, s') => (Throw e, s')
  end.

Section ST_operations.
Context {S : Type}.

Definition throw {A} (e : Error) : ST S A := fun s => (Throw e, s).
Definition get_state : ST S S := fun s => (Ok s, s).
Definition gets {A} (f : S -> A) : ST S A := fun s => (Ok (f s), s).
Definition modify_state (f : S -> S) : ST S unit := fun s => (Ok tt, f s).

(** A synchronous computation that may throw. *)
Definition lift_result {A} (r : Result A) : ST S A := fun s => (r, s).

(** [try { m } catch (err) { h err }] *)
Definition try_catch {A} (m : ST S A) (h : Error -> ST S A) : ST S A :=
  fun s => match m s with
           | (Ok a, s') => (Ok a, s')
           | (Throw e, s') => h e s'
           end.

(** [try { m } finally { f }]: a throw of [f] replaces the outcome of [m]. *)
Definition try_finally {A} (m : ST S A) (f : ST S unit) : ST S A :=
  fun s => match m s with
           | (r, s') => match f s' with
                        | (Ok _, s'') => (r, s'')
                        | (Throw e, s'') => (Throw e, s'')
                        end
           end.

(** [for (const x of l) { body x }] *)
Fixpoint for_of {A} (l : list A) (body : A -> ST S unit) : ST S unit :=
  match l with
  | [] => mret tt
  | x :: l' => body x ;; for_of l' body
  end.
End ST_operations.

(** A method of an object held in a field of the state. *)
Definition zoom {S T A} (get : S -> T) (set : T -> S -> S) (m : ST T A) : ST S A :=
  fun s => match m (get s) with (r, t') => (r, set t' s) end.

(** ** Package tree nodes ([package.ts]) *)

(** The stages of a transform chain. *)
Inductive Transform :=
| InflateRaw
| SliceStream (start size : JS.number).

#[global] Instance Transform_eq_dec : EqDecision Transform.
Proof. solve_decision. Defined.

Module Package.

(** A [Package] object. The object graph of the source is cyclic (a child
    is in the [packages] of its [parent]); here an object carries the chain
    of its ancestors and the descriptors of its children, and the child
    objects are rebuilt from them by [packages]. *)
#[projections(primitive=no)]
Inductive Package := mk {
  name : string;
  file : string;
  size : Z;
  sha256 : string;
  sha1 : string;
  md5 : string;
  source : string;
  zipped : option string;
  parent : option Package;
  packages_info : list IPackagesListPackage
}.

(** The checks of the constructor for a descriptor and, through
    [_createPackages], for the descriptors nested in it, in the order the
    constructors run. *)
Fixpoint constructor_check (has_parent : bool) (info : IPackagesListPackage)
  : option Error :=
  let zipped := Info.zipped info in
  if has_parent && negb (JS.truthy zipped) then
    Some (MissingZippedInfo (Info.name info))
  else if negb has_parent && JS.truthy zipped then
    Some (UnexpectedZippedInfo (Info.name info))
  else
    match Info.packages info with
    | None => None
    | Some infos =>
        (fix children (l : list IPackagesListPackage) : option Error :=
           match l with
           | [] => None
           | c :: l' =>
               match constructor_check true c with
               | Some e => Some e
               | None => children l'
               end
           end) infos
    end.

(** The fields the constructor assigns. *)
Definition build (info : IPackagesListPackage) (parent : option Package)
  : Package :=
  {| name := Info.name info;
     file := Info.file info;
     size := Info.size info;
     sha256 := Info.sha256 info;
     sha1 := Info.sha1 info;
     md5 := Info.md5 info;
     source := Info.source info;
     zipped := if JS.truthy (Info.zipped info) then Info.zipped info else None;
     parent := parent;
     packages_info := default [] (Info.packages info) |}.

(** [new Package(info, parent)] *)
Definition new (info : IPackagesListPackage) (parent : option Package)
  : Result Package :=
  match constructor_check (bool_decide (is_Some parent)) info with
  | Some e => Throw e
  | None => Ok (build info parent)
  end.

(** [this.packages] *)
Definition packages (p : Package) : list Package :=
  map (fun info => build info (Some p)) (packages_info p).

Section Zipped.
Context `{Runtime}.

(** [getZippedCompression()] *)
Definition getZippedCompression (p : Package) : Result JS.number :=
  if negb (JS.truthy (zipped p)) then Throw NotAChildPackage
  else
    let parts := JS.split "-"%char (default "" (zipped p)) in
    Ok (Number_of (parts !! 0%nat)).

(** [getZippedSlice()] *)
Definition getZippedSlice (p : Package) : Result (JS.number * JS.number) :=
  if negb (JS.truthy (zipped p)) then Throw NotAChildPackage
  else
    let parts := JS.split "-"%char (default "" (zipped p)) in
    Ok (Number_of (parts !! 1%nat), Number_of (parts !! 2%nat)).

(** [getZippedDecompressor()] *)
Definition getZippedDecompressor (p : Package) : Result (option Transform) :=
  method ← getZippedCompression p;
  if JS.strict_eq method (JS.Num 0) then Ok None
  else if JS.strict_eq method (JS.Num 8) then Ok (Some InflateRaw)
  else Throw (UnsupportedZippedCompression method).
End Zipped.

End Package.
Abbreviation Package := Package.Package.

(** ** A JavaScript [Map] with string keys, in insertion order *)

Module JSMap.
Section JSMap.
Context {V : Type}.

Fixpoint get (k : string) (m : list (string * V)) : option V :=
  match m with
  | [] => None
  | (k', v) :: m' => if decide (k' = k) then Some v else get k m'
  end.

(** [m.set(k, v)]: an existing key keeps its place. *)
Fixpoint set (k : string) (v : V) (m : list (string * V)) : list (string * V) :=
  match m with
  | [] => [(k, v)]
  | (k', v') :: m' =>
      if decide (k' = k) then (k, v) :: m' else (k', v') :: set k v m'
  end.

(** [m.delete(k)] *)
Fixpoint delete (k : string) (m : list (string * V)) : list (string * V) :=
  match m with
  | [] => []
  | (k', v') :: m' =>
      if decide (k' = k) then m' else (k', v') :: delete k m'
  end.
End JSMap.
End JSMap.

(** ** The package catalogue ([packages.ts]) *)

Definition Path := list string.

Record IPackageUpdated := mkUpdated {
  updated_name : string;
  updated_file : string;
  updated_size : Z;
  updated_sha256 : string
}.

#[global] Instance IPackageUpdated_eq_dec : EqDecision IPackageUpdated.
Proof. solve_decision. Defined.

Record Report := mkReport {
  updated : list IPackageUpdated;
  added : list IPackageUpdated;
  removed : list IPackageUpdated
}.

Module Packages.

(** The fields of a [Packages] object. The [Set] of packages is the list of
    its elements in insertion order; the objects added to it are created
    one by one by the constructors, so no two of them are the same
    object. *)
Record Packages := mk {
  _packagesList : option IPackagesList;
  _packages : list Package;
  _packagesByName : gmap string Package;
  _packagesBySha256 : gmap string Package;
  _packagesBySha1 : gmap string Package;
  _packagesByMd5 : gmap string Package;
  _packagesByUnique : gmap string Package;
  _path : Path
}.

Definition FORMAT : string := "1.2".

(** [new Packages(path)] *)
Definition new (path : Path) : Packages :=
  mk None [] ∅ ∅ ∅ ∅ ∅ path.

(** [get loaded()] *)
Definition loaded (this : Packages) : bool :=
  bool_decide (is_Some (_packagesList this)).

(** [assertLoaded()] *)
Definition assertLoaded : ST Packages unit :=
  this ← get_state;
  if negb (loaded this) then throw PackagesListNotLoaded else mret tt.

(** [*packages()]: nothing replaces the set while the callers below
    iterate, so the generator yields every element. *)
Definition packages (this : Packages) : list Package := _packages this.

Definition byName (this : Packages) (name : string) : option Package :=
  _packagesByName this !! name.
Definition bySha256 (this : Packages) (sha256 : string) : option Package :=
  _packagesBySha256 this !! sha256.
Definition bySha1 (this : Packages) (sha1 : string) : option Package :=
  _packagesBySha1 this !! sha1.
Definition byMd5 (this : Packages) (md5 : string) : option Package :=
  _packagesByMd5 this !! md5.
Definition byUnique (this : Packages) (unique : string) : option Package :=
  _packagesByUnique this !! unique.

(** [_createPackage(info)] *)
Definition _createPackage (info : IPackagesListPackage) : Result Package :=
  Package.new info None.

(** [_parsePackages(packages)]: [map] calls the constructor entry after
    entry and stops at the first that throws. *)
Fixpoint _parsePackages (packages : list IPackagesListPackage)
  : Result (list Package) :=
  match packages with
  | [] => Ok []
  | info :: rest =>
      p ← _createPackage info;
      ps ← _parsePackages rest;
      Ok (p :: ps)
  end.

(** The number of package objects below a descriptor, itself included. *)
Fixpoint info_count (info : IPackagesListPackage) : nat :=
  S (match Info.packages info with
     | None => 0
     | Some infos =>
         (fix sum (l : list IPackagesListPackage) : nat :=
            match l with [] => 0 | c :: l' => info_count c + sum l' end) infos
     end)%nat.

Definition package_count (p : Package) : nat :=
  S (sum_list (map info_count (Package.packages_info p))).

(** The loop of [_listPackages]: [itter.shift()], [r.add(entry)],
    [itter.unshift(...entry.packages)], until [itter] is empty. *)
Fixpoint _listPackages_loop (fuel : nat) (itter r : list Package)
  : list Package :=
  match fuel with
  | O => r
  | S fuel' =>
      match itter with
      | [] => r
      | entry :: rest =>
          _listPackages_loop fuel' (Package.packages entry ++ rest) (r ++ [entry])
      end
  end.

(** [_listPackages(packages)]; the loop runs once for each object of the
    forest and once more to find the list empty. *)
Definition _listPackages (packages : list Package) : list Package :=
  _listPackages_loop (S (sum_list (map package_count packages))) packages [].

(** The common loop of the five [_packagesMap...] methods: every key of
    every entry is looked up in the map under construction and added to
    it. *)
Fixpoint _packagesMapKeys (dup : string -> Error) (entry : Package)
    (keys : list string) (r : gmap string Package)
  : Result (gmap string Package) :=
  match keys with
  | [] => Ok r
  | k :: keys' =>
      if bool_decide (is_Some (r !! k)) then Throw (dup k)
      else _packagesMapKeys dup entry keys' (<[k := entry]> r)
  end.

Fixpoint _packagesMapBy (dup : string -> Error) (keys : Package -> list string)
    (packages : list Package) (r : gmap string Package)
  : Result (gmap string Package) :=
  match packages with
  | [] => Ok r
  | entry :: rest =>
      r' ← _packagesMapKeys dup entry (keys entry) r;
      _packagesMapBy dup keys rest r'
  end.

Definition _packagesMapName (packages : list Package) :=
  _packagesMapBy DuplicatePackageName (fun e => [Package.name e]) packages ∅.
Definition _packagesMapSha256 (packages : list Package) :=
  _packagesMapBy DuplicatePackageSha256 (fun e => [Package.sha256 e]) packages ∅.
Definition _packagesMapSha1 (packages : list Package) :=
  _packagesMapBy DuplicatePackageSha1 (fun e => [Package.sha1 e]) packages ∅.
Definition _packagesMapMd5 (packages : list Package) :=
  _packagesMapBy DuplicatePackageMd5 (fun e => [Package.md5 e]) packages ∅.
Definition unique_keys (e : Package) : list string :=
  [Package.name e; Package.sha256 e; Package.sha1 e; Package.md5 e].
Definition _packagesMapUnique (packages : list Package) :=
  _packagesMapBy DuplicatePackageUnique unique_keys packages ∅.

(** [_castData(packages)] *)
Definition _castData (packages : unknown) : Result IPackagesList :=
  match packages with
  | U_object (Some format) (Some l) => Ok (mkList format l)
  | _ => Throw FailedToValidatePackages
  end.

Section WithRuntime.
Context `{Runtime}.

(** An element of an array of numbers; both arrays below have the index
    in range where they are read. *)
Definition at_index (l : list JS.number) (i : nat) : JS.number :=
  default JS.NaN (l !! i).

(** [_validateFormat(format)] *)
Definition _validateFormat (format : string) : Result unit :=
  let version := map Number (JS.split "."%char FORMAT) in
  let parts := map Number (JS.split "."%char format) in
  if negb (length parts =? 2)%nat then
    Throw (InvalidFormatVersionValue format)
  else if negb (JS.strict_eq (at_index parts 0) (at_index version 0)) then
    Throw (InvalidFormatVersionMajor format)
  else if JS.lt (at_index parts 1) (at_index version 1) then
    Throw (InvalidFormatVersionMinor format)
  else Ok tt.

(** [_setPackagesList(packagesList)] *)
Definition _setPackagesList (packagesList : IPackagesList) : ST Packages unit :=
  lift_result (_validateFormat (list_format packagesList));;
  parsed ← lift_result (_parsePackages (list_packages packagesList));
  let packages := _listPackages parsed in
  (* Map out the names and hashes. *)
  byName ← lift_result (_packagesMapName packages);
  bySha256 ← lift_result (_packagesMapSha256 packages);
  bySha1 ← lift_result (_packagesMapSha1 packages);
  byMd5 ← lift_result (_packagesMapMd5 packages);
  byUnique ← lift_result (_packagesMapUnique packages);
  (* If all parsed successfully, set properties. *)
  modify_state (fun this => mk (Some packagesList) (_packages this)
    (_packagesByName this) (_packagesBySha256 this) (_packagesBySha1 this)
    (_packagesByMd5 this) (_packagesByUnique this) (_path this));;
  modify_state (fun this => mk (_packagesList this) packages
    (_packagesByName this) (_packagesBySha256 this) (_packagesBySha1 this)
    (_packagesByMd5 this) (_packagesByUnique this) (_path this));;
  modify_state (fun this => mk (_packagesList this) (_packages this)
    byName (_packagesBySha256 this) (_packagesBySha1 this)
    (_packagesByMd5 this) (_packagesByUnique this) (_path this));;
  modify_state (fun this => mk (_packagesList this) (_packages this)
    (_packagesByName this) bySha256 (_packagesBySha1 this)
    (_packagesByMd5 this) (_packagesByUnique this) (_path this));;
  modify_state (fun this => mk (_packagesList this) (_packages this)
    (_packagesByName this) (_packagesBySha256 this) bySha1
    (_packagesByMd5 this) (_packagesByUnique this) (_path this));;
  modify_state (fun this => mk (_packagesList this) (_packages this)
    (_packagesByName this) (_packagesBySha256 this) (_packagesBySha1 this)
    byMd5 (_packagesByUnique this) (_path this));;
  modify_state (fun this => mk (_packagesList this) (_packages this)
    (_packagesByName this) (_packagesBySha256 this) (_packagesBySha1 this)
    (_packagesByMd5 this) byUnique (_path this)).

(** [_parseData(data)] *)
Definition _parseData (data : string) : Result IPackagesList :=
  match JSON_parse data with
  | None => Throw SyntaxError
  | Some v => _castData v
  end.

Definition as_updated (pkg : Package) : IPackageUpdated :=
  mkUpdated (Package.name pkg) (Package.file pkg) (Package.size pkg)
            (Package.sha256 pkg).

(** The first loop of [update]: map out the current list. *)
Fixpoint update_map_out (pkgs : list Package)
    (map : list (string * IPackageUpdated)) : list (string * IPackageUpdated) :=
  match pkgs with
  | [] => map
  | pkg :: rest =>
      update_map_out rest (JSMap.set (Package.name pkg) (as_updated pkg) map)
  end.

(** The second loop of [update]: list out the changes of significance.
    The state is the map and the arrays [updated] and [added]. *)
Fixpoint update_changes (pkgs : list Package)
    (map : list (string * IPackageUpdated))
    (updated added : list IPackageUpdated)
  : list (string * IPackageUpdated) * list IPackageUpdated * list IPackageUpdated :=
  match pkgs with
  | [] => (map, updated, added)
  | pkg :: rest =>
      let obj := as_updated pkg in
      let before := JSMap.get (Package.name pkg) map in
      let map' := JSMap.delete (Package.name pkg) map in
      match before with
      | None => update_changes rest map' updated (added ++ [obj])
      | Some before =>
          if negb (String.eqb (updated_sha256 before) (Package.sha256 pkg))
             || negb (updated_size before =? Package.size pkg)
             || negb (String.eqb (updated_file before) (Package.file pkg))
          then update_changes rest map' (updated ++ [obj]) added
          else update_changes rest map' updated added
      end
  end.

(** [update(data)] *)
Definition update (data : string) : ST Packages Report :=
  (* Map out current list if any. *)
  this ← get_state;
  let map := update_map_out (packages this) [] in
  (* Actually set the data. *)
  packagesList ← lift_result (_parseData data);
  _setPackagesList packagesList;;
  (* List out the changes of significance. *)
  this ← get_state;
  let '(map, updated, added) := update_changes (packages this) map [] [] in
  let removed := map.*2 in
  mret (mkReport updated added removed).

End WithRuntime.
End Packages.
Abbreviation Packages := Packages.Packages.

(** ** The file system ([node:fs/promises])

    The tree of directories and files. A path is the list of its components
    below the root of the tree; package names and file names are single
    components. A call fails exactly when the tree makes it fail; failures of
    the device are not modelled. *)

Module FS.

Inductive Node :=
| File (data : list byte)
| Dir (entries : gmap string Node).

Definition is_dir (n : Node) : bool :=
  match n with Dir _ => true | File _ => false end.

(** Resolution of a path: [ENOENT] when a component is missing, [ENOTDIR]
    when a component that is not the last one is a file. *)
Fixpoint resolve (p : Path) (n : Node) : Result Node :=
  match p with
  | [] => Ok n
  | x :: p' =>
      match n with
      | File _ => Throw ENOTDIR
      | Dir m =>
          match m !! x with
          | None => Throw ENOENT
          | Some c => resolve p' c
          end
      end
  end.

Definition lookup (p : Path) (n : Node) : option Node :=
  match resolve p n with Ok v => Some v | Throw _ => None end.

(** [access(p)] and [lstat(p)] succeed exactly when the path resolves. *)
Definition exists_at (p : Path) (n : Node) : bool :=
  bool_decide (is_Some (lookup p n)).

Definition set_entry (x : string) (o : option Node) (m : gmap string Node)
  : gmap string Node :=
  match o with Some c => <[x := c]> m | None => delete x m end.

(** The entry at path [p] becomes [f] of what it was. When a directory on
    the way is missing, a call with [force] succeeds without a change and
    the others fail with [ENOENT]. *)
Fixpoint modify (force : bool) (f : option Node -> Result (option Node))
    (p : Path) (n : Node) : Result Node :=
  match n with
  | File _ => Throw ENOTDIR
  | Dir m =>
      match p with
      | [] => Ok n
      | x :: p' =>
          match p' with
          | [] => o ← f (m !! x); Ok (Dir (set_entry x o m))
          | _ :: _ =>
              match m !! x with
              | None => if force then Ok n else Throw ENOENT
              | Some c => c' ← modify force f p' c; Ok (Dir (<[x := c']> m))
              end
          end
      end
  end.

(** [rm(p, {recursive, force: true})] *)
Definition rm (recursive : bool) (p : Path) (n : Node) : Result Node :=
  modify true (fun o =>
    match o with
    | Some (Dir _) => if recursive then Ok None else Throw EISDIR
    | _ => Ok None
    end) p n.

(** [mkdir(p, {recursive: true})] *)
Fixpoint mkdir (p : Path) (n : Node) : Result Node :=
  match n with
  | File _ => Throw (match p with [] => EEXIST | _ => ENOTDIR end)
  | Dir m =>
      match p with
      | [] => Ok n
      | x :: p' =>
          c' ← mkdir p' (default (Dir ∅) (m !! x));
          Ok (Dir (<[x := c']> m))
      end
  end.

(** [writeFile(p, data, {flag: 'wx'})] and [open(p, 'wx')], which creates
    the file empty. *)
Definition writeFile_wx (p : Path) (data : list byte) (n : Node) : Result Node :=
  modify false (fun o =>
    match o with
    | Some _ => Throw EEXIST
    | None => Ok (Some (File data))
    end) p n.

(** A write through the descriptor of the file at [p]. *)
Definition append (p : Path) (data : list byte) (n : Node) : Result Node :=
  modify false (fun o =>
    match o with
    | Some (File d) => Ok (Some (File (d ++ data)))
    | Some (Dir _) => Throw EISDIR
    | None => Throw ENOENT
    end) p n.

(** [rename(src, dst)] *)
Definition rename (src dst : Path) (n : Node) : Result Node :=
  v ← resolve src n;
  if decide (src = dst) then Ok n
  else
    n1 ← modify false (fun o =>
      match o, v with
      | None, _ => Ok (Some v)
      | Some (File _), File _ => Ok (Some v)
      | Some (Dir _), File _ => Throw EISDIR
      | Some (File _), Dir _ => Throw ENOTDIR
      | Some (Dir m), Dir _ =>
          if decide (m = ∅) then Ok (Some v) else Throw ENOTEMPTY
      end) dst n;
    modify true (fun _ => Ok None) src n1.

(** [readFile(p)] *)
Definition readFile (p : Path) (n : Node) : Result (list byte) :=
  v ← resolve p n;
  match v with
  | File d => Ok d
  | Dir _ => Throw EISDIR
  end.

(** [readdir(p, {withFileTypes: true})]: the names with [isDirectory()]. *)
Definition readdir (p : Path) (n : Node) : Result (list (string * bool)) :=
  v ← resolve p n;
  match v with
  | File _ => Throw ENOTDIR
  | Dir m => Ok (prod_map id is_dir <$> map_to_list m)
  end.

(** [lstat(p).size]: the length of a file; for a directory the value the
    platform reports, [dsize]. *)
Definition lstat_size (dsize : Z) (p : Path) (n : Node) : Result Z :=
  v ← resolve p n;
  match v with
  | File d => Ok (Z.of_nat (length d))
  | Dir _ => Ok dsize
  end.

End FS.

(** ** The package manager ([manager.ts]) *)

Definition PACKAGES_FILE : string := "packages.json".
Definition PACKAGE_FILE : string := "package.json".
Definition MAIN_DIR : string := "shockpkg".
Definition META_DIR : string := ".shockpkg".
Definition TEMP_DIR : string := "tmp".
Definition TEMP_EXT : string := ".tmp".

(** [Package | string] *)
Inductive PackageLike :=
| ByObject (p : Package)
| ByString (s : string).

(** The notifications of the dispatchers of a [Manager]. *)
Inductive Event :=
| PackageInstallBefore (package : Package)
| PackageInstallAfter (package : Package)
| PackageInstallCurrent (package : Package)
| PackageDownloadBefore (package : Package)
| PackageDownloadAfter (package : Package)
| PackageDownloadProgress (package : Package) (total amount : Z)
| PackageCleanupBefore (package : string)
| PackageCleanupAfter (package : string) (removed : bool).

(** The body of a response: the chunks it delivers, and whether the stream
    then ends or fails. *)
Record Body := mkBody {
  body_chunks : list (list byte);
  body_completes : bool
}.

(** [IFetchResponse]; [text] is [None] when the promise rejects. *)
Record Response := mkResponse {
  status : Z;
  headers_get : string -> option string;
  body : Body;
  text : option string
}.

Record Request := mkRequest {
  request_url : string;
  request_headers : gmap string string
}.

Inductive FetchOutcome :=
| Resolved (res : Response)
| Rejected (reason : option TransportError).

(** What a run does to the outside, in the order it does it: calls of the
    transport, notifications, and calls that change the file system (also
    the calls that fail). *)
Inductive Effect :=
| Fetch (request : Request)
| Trigger (event : Event)
| Rm (recursive : bool) (path : Path)
| Mkdir (path : Path)
| Open (path : Path)
| Write (path : Path) (data : list byte)
| WriteFile (path : Path) (data : list byte)
| Rename (src dst : Path)
| Close (path : Path).

(** The state a manager works on. [transport n request] is the outcome of
    the call number [n] of the fetch function, made with [request]. *)
Record World := mkWorld {
  fs : FS.Node;
  catalog : Packages;
  transport : nat -> Request -> FetchOutcome;
  trace : list Effect
}.

Abbreviation M := (ST World).

Definition is_fetch (e : Effect) : bool :=
  match e with Fetch _ => true | _ => false end.

(** The number of calls of the fetch function so far. *)
Definition fetch_count (t : list Effect) : nat := length (filter is_fetch t).

Definition log (e : Effect) : M unit :=
  modify_state (fun w => mkWorld (fs w) (catalog w) (transport w) (trace w ++ [e])).

(** A call that changes the file system. *)
Definition fs_call (e : Effect) (op : FS.Node -> Result FS.Node) : M unit :=
  log e;;
  w ← get_state;
  n ← lift_result (op (fs w));
  modify_state (fun w => mkWorld n (catalog w) (transport w) (trace w)).

(** A call that reads the file system. *)
Definition fs_read {A} (op : FS.Node -> Result A) : M A :=
  w ← get_state; lift_result (op (fs w)).

Definition rm (recursive : bool) (p : Path) : M unit :=
  fs_call (Rm recursive p) (FS.rm recursive p).
Definition mkdir (p : Path) : M unit := fs_call (Mkdir p) (FS.mkdir p).
Definition open_wx (p : Path) : M unit := fs_call (Open p) (FS.writeFile_wx p []).
Definition write (p : Path) (data : list byte) : M unit :=
  fs_call (Write p data) (FS.append p data).
Definition writeFile_wx (p : Path) (data : string) : M unit :=
  let bytes := String.list_byte_of_string data in
  fs_call (WriteFile p bytes) (FS.writeFile_wx p bytes).
Definition rename (src dst : Path) : M unit :=
  fs_call (Rename src dst) (FS.rename src dst).
Definition close (p : Path) : M unit := log (Close p).
Definition readFile_utf8 (p : Path) : M string :=
  data ← fs_read (FS.readFile p); mret (String.string_of_list_byte data).

(** [dispatcher.trigger(event)]; the listeners only observe. *)
Definition trigger (e : Event) : M unit := log (Trigger e).

(** A method of the [Packages] object of the manager. *)
Definition on_catalog {A} (m : ST Packages A) : M A :=
  zoom catalog (fun c w => mkWorld (fs w) c (transport w) (trace w)) m.

(** [`${path}${TEMP_EXT}`]: the suffix goes to the last component. *)
Fixpoint with_ext (p : Path) (ext : string) : Path :=
  match p with
  | [] => [ext]
  | [x] => [x +:+ ext]
  | x :: p' => x :: with_ext p' ext
  end.

(** [dirname(p)] *)
Definition dirname (p : Path) : Path := removelast p.

(** The methods of [Packages] that use the file system. *)
Module PackagesFile.
Section WithRuntime.
Context `{Runtime}.

(** [exists()] *)
Definition exists_ : M bool :=
  w ← get_state;
  mret (FS.exists_at (Packages._path (catalog w)) (fs w)).

(** [read()] *)
Definition read : M unit :=
  w ← get_state;
  text ← readFile_utf8 (Packages._path (catalog w));
  packagesList ← lift_result (Packages._parseData text);
  on_catalog (Packages._setPackagesList packagesList).

(** [write()] *)
Definition write : M unit :=
  w ← get_state;
  match Packages._packagesList (catalog w) with
  | None => throw CannotWriteUnloadedList
  | Some packagesList =>
      let out := Packages._path (catalog w) in
      let prt := with_ext out TEMP_EXT in
      mkdir (dirname prt);;
      rm false prt;;
      writeFile_wx prt (JSON_stringify packagesList);;
      rename prt out
  end.

(** [readIfExists()] *)
Definition readIfExists : M bool :=
  try_catch (read;; mret true)
    (fun err => if decide (err = ENOENT) then mret false else throw err).
End WithRuntime.
End PackagesFile.

Module Manager.

(** The fields of a [Manager] that its methods read: the root path, the
    URL of the catalogue (which the getter takes from the environment or
    from the default), the headers of the requests, and whether a fetch
    function is set. *)
Record Manager := mk {
  path : Path;
  packagesUrl : string;
  headers : gmap string string;
  fetch : bool
}.

(** The [Packages] object the constructor creates. *)
Definition _createPackages (path : Path) : Packages :=
  Packages.new (path ++ [META_DIR; PACKAGES_FILE]).

(** [retry(f)]: retry once on error. *)
Definition retry {A} (f : M A) : M A := try_catch f (fun _ => f).

(** The transforms applied to the chunks of a stream. A [SliceStream] that
    was given [NaN] compares false everywhere: without a size it is
    open-ended, and without a start it drops nothing unless its size
    is [0]. *)
Definition run_slice (start size : JS.number) (chunks : list (list byte))
  : list (list byte) :=
  match start, size with
  | JS.Num a, JS.Num b => Stream.run a b chunks
  | JS.Num a, JS.NaN => Stream.run a (-1) chunks
  | JS.NaN, JS.Num b => if b =? 0 then [] else chunks
  | JS.NaN, JS.NaN => chunks
  end.

Section Methods.
Context `{Runtime} (this : Manager).

Definition packagesFile : string := PACKAGES_FILE.
Definition packageFile : string := PACKAGE_FILE.
Definition metaDir : string := META_DIR.

(** [get loaded()] *)
Definition loaded : M bool := gets (fun w => Packages.loaded (catalog w)).

(** [assertLoaded()] *)
Definition assertLoaded : M unit :=
  l ← loaded;
  if negb l then throw PackagesListNotLoaded else mret tt.

(** [load()] *)
Definition load : M unit := PackagesFile.readIfExists;; mret tt.

(** [ensureLoad()] *)
Definition ensureLoad : M unit :=
  l ← loaded;
  if negb l then load else mret tt.

(** [ensureLoaded()] *)
Definition ensureLoaded : M unit := ensureLoad;; assertLoaded.

(** [packageByName(name)] and [packageByUnique(unique)] *)
Definition packageByName (name : string) : M (option Package) :=
  ensureLoaded;;
  gets (fun w => Packages.byName (catalog w) name).

Definition packageByUnique (unique : string) : M (option Package) :=
  ensureLoaded;;
  gets (fun w => Packages.byUnique (catalog w) unique).

(** [pathTo(...parts)] and [pathToMeta(...parts)]: [pathJoin(this.path,
    ...parts)] for parts that are single path components, which
    [path.join] appends as they are. The constants of the sources and the
    names that [readdir] returns are such parts. The name, the file and the
    hash of a catalogue entry are checked nowhere in the sources: a part
    with a separator, an empty part, [.] or [..] is outside the embedding,
    and the statements about the place of a path assume the parts plain
    ([ManagerSpec.plain_component]). *)
Definition pathTo (parts : list string) : Path := path this ++ parts.
Definition pathToMeta (parts : list string) : Path := pathTo (metaDir :: parts).

(** [_asPackage(pkg)] *)
Definition _asPackage (pkg : PackageLike) : M Package :=
  ensureLoaded;;
  match pkg with
  | ByString s =>
      p ← packageByUnique s;
      match p with
      | None => throw (UnknownPackage s)
      | Some p => mret p
      end
  | ByObject p => mret p
  end.

(** [_asName(pkg)] *)
Definition _asName (pkg : PackageLike) : M string :=
  ensureLoaded;;
  match pkg with
  | ByString s =>
      p ← packageByUnique s;
      mret (match p with Some p => Package.name p | None => s end)
  | ByObject p => mret (Package.name p)
  end.

(** [pathToPackage(pkg, ...parts)] *)
Definition pathToPackage (pkg : PackageLike) (parts : list string) : M Path :=
  ensureLoaded;;
  name ← _asName pkg;
  mret (pathTo (name :: parts)).

(** [pathToPackageMeta(pkg, ...parts)] *)
Definition pathToPackageMeta (pkg : PackageLike) (parts : list string) : M Path :=
  ensureLoaded;;
  name ← _asName pkg;
  mret (pathTo (name :: metaDir :: parts)).

(** [receipt(pkg)] *)
Definition receipt (pkg : PackageLike) : M IPackageReceipt :=
  ensureLoaded;;
  name ← _asName pkg;
  pkgf ← pathToPackageMeta (ByString name) [packageFile];
  r ← try_catch
        (s ← readFile_utf8 pkgf;
         match JSON_parse_receipt s with
         | None => throw SyntaxError
         | Some r => mret r
         end)
        (fun _ => mret None);
  match r with
  | None => throw (PackageIsNotInstalled name)
  | Some r => mret r
  end.

(** [file(pkg)] *)
Definition file (pkg : PackageLike) : M Path :=
  ensureLoaded;;
  pkg ← _asPackage pkg;
  data ← receipt (ByObject pkg);
  pathToPackage (ByObject pkg) [receipt_file data].

(** [packageInstallVerify(pkg)]; [dsize] is the size [lstat] reports for a
    directory. The read stream is piped into the hash. *)
Definition packageInstallVerify (dsize : Z) (pkg : PackageLike) : M unit :=
  ensureLoaded;;
  pkg ← _asPackage pkg;
  data ← receipt (ByObject pkg);
  filePath ← pathToPackage (ByObject pkg) [receipt_file data];
  fSize ← fs_read (FS.lstat_size dsize filePath);
  if negb (fSize =? receipt_size data) then throw (InvalidFileSize fSize) else
  bytes ← fs_read (FS.readFile filePath);
  let hashsum := sha256_hex bytes in
  if negb (String.eqb hashsum (receipt_sha256 data))
  then throw (InvalidSha256Hash hashsum) else mret tt.

(** [isInstalled(pkg)] *)
Definition isInstalled (pkg : PackageLike) : M bool :=
  ensureLoaded;;
  pkg ← _asPackage pkg;
  try_catch (receipt (ByObject pkg);; mret true) (fun _ => mret false).

(** [isCurrent(pkg)] *)
Definition isCurrent (pkg : PackageLike) : M bool :=
  ensureLoaded;;
  pkg ← _asPackage pkg;
  data ← try_catch (r ← receipt (ByObject pkg); mret (Some r))
                   (fun _ => mret None);
  match data with
  | None => mret false
  | Some data =>
      mret (String.eqb (receipt_sha256 data) (Package.sha256 pkg)
            && (receipt_size data =? Package.size pkg)
            && String.eqb (receipt_file data) (Package.file pkg)
            && String.eqb (receipt_name data) (Package.name pkg))
  end.

(** [_ensureFetch()] *)
Definition _ensureFetch : M unit :=
  if fetch this then mret tt else throw DefaultFetchNotAvailable.

(** [_fetchErrorMessage(error)] *)
Definition _fetchErrorMessage (error : TransportError) : string :=
  match cause error with
  | Some (name, code) =>
      let info :=
        match JS.truthy_string name, JS.truthy_string code with
        | true, true => name +:+ " " +:+ code
        | true, false => name
        | false, true => code
        | false, false => ""
        end in
      if JS.truthy_string info then message error +:+ " (" +:+ info +:+ ")"
      else message error
  | None => message error
  end.

(** A call of the fetch function. *)
Definition fetch_call (url : string) (headers : gmap string string) : M Response :=
  w ← get_state;
  let request := mkRequest url headers in
  log (Fetch request);;
  match transport w (fetch_count (trace w)) request with
  | Resolved res => mret res
  | Rejected reason => throw (Rejection reason)
  end.

(** [retry(async () => fetch(url, init)).catch(err => ...)] *)
Definition fetch_retry (url : string) (headers : gmap string string) : M Response :=
  try_catch (retry (fetch_call url headers))
    (fun err =>
       match err with
       | Rejection (Some reason) => throw (FetchFailed (_fetchErrorMessage reason))
       | _ => throw err
       end).

(** [_requestPackages()] *)
Definition _requestPackages : M string :=
  _ensureFetch;;
  let url := packagesUrl this in
  let init_headers :=
    <["Pragma" := "no-cache"]> (<["Cache-Control" := "max-age=0"]> (headers this)) in
  res ← fetch_retry url init_headers;
  if negb (status res =? 200) then
    throw (InvalidResponseStatus (status res) url)
  else
    match text res with
    | Some data => mret data
    | None => throw ResponseTextFailed
    end.

(** [update()] *)
Definition update : M Report :=
  data ← _requestPackages;
  (* Try to determined what gets updated. *)
  try_catch ensureLoad (fun _ => mret tt);;
  report ← on_catalog (Packages.update data);
  PackagesFile.write;;
  mret report.

(** [_packageMetaReceiptFromPackage(pkg)] *)
Definition _packageMetaReceiptFromPackage (pkg : PackageLike) : M IPackageReceipt :=
  ensureLoaded;;
  pkg ← _asPackage pkg;
  mret (mkReceipt (Package.name pkg) (Package.file pkg) (Package.size pkg)
                  (Package.sha256 pkg) (Package.source pkg)).

(** [_packageMetaReceiptWrite(pkg)] *)
Definition _packageMetaReceiptWrite (pkg : PackageLike) : M unit :=
  ensureLoaded;;
  pkg ← _asPackage pkg;
  pkgf ← pathToPackageMeta (ByObject pkg) [packageFile];
  let pkgfTmp := with_ext pkgf TEMP_EXT in
  receipt ← _packageMetaReceiptFromPackage (ByObject pkg);
  rm false pkgfTmp;;
  writeFile_wx pkgfTmp (JSON_stringify_receipt receipt);;
  rename pkgfTmp pkgf.

(** [_packageDirsEnsure(pkg)] *)
Definition _packageDirsEnsure (pkg : PackageLike) : M unit :=
  ensureLoaded;;
  pkg ← _asPackage pkg;
  dir ← pathToPackage (ByObject pkg) [];
  dirMeta ← pathToPackageMeta (ByObject pkg) [];
  mkdir dir;;
  mkdir dirMeta.

(** The chain [packages] of [install]: the package and its ancestors,
    the root first. *)
Fixpoint ancestors (p : Package) : list Package :=
  match Package.parent p with
  | Some q => p :: ancestors q
  | None => [p]
  end.

Definition install_packages (pkg : Package) : list Package :=
  reverse (ancestors pkg).

(** The first loop of [install] over the chain below the root: find the
    lowest slice to read before compression. The result is the slice,
    the transforms pushed, and the packages left for the second loop. *)
Fixpoint install_slice_loop (packages : list Package)
    (slice : option (JS.number * JS.number))
  : Result (option (JS.number * JS.number) * list Transform * list Package) :=
  match packages with
  | [] => Ok (slice, [], [])
  | p :: rest =>
      '(ss, sl) ← Package.getZippedSlice p;
      let slice :=
        match slice with
        | Some (start, _) => Some (JS.add start ss, sl)
        | None => Some (ss, sl)
        end in
      d ← Package.getZippedDecompressor p;
      match d with
      | Some d => Ok (slice, [d], rest)
      | None => install_slice_loop rest slice
      end
  end.

(** The second loop: a slice stream and, when the entry is compressed,
    a decompressor for each package that is left. *)
Fixpoint install_transform_loop (packages : list Package)
    (transforms : list Transform) : Result (list Transform) :=
  match packages with
  | [] => Ok transforms
  | p :: rest =>
      '(ss, sl) ← Package.getZippedSlice p;
      let transforms := transforms ++ [SliceStream ss sl] in
      d ← Package.getZippedDecompressor p;
      match d with
      | Some d => install_transform_loop rest (transforms ++ [d])
      | None => install_transform_loop rest transforms
      end
  end.

(** The block of [install] that builds [slice] and [transforms] from
    [packages]; the index starts at [1]. *)
Definition install_transforms (packages : list Package)
  : Result (option (JS.number * JS.number) * list Transform) :=
  '(slice, transforms, rest) ← install_slice_loop (drop 1 packages) None;
  transforms ← install_transform_loop rest transforms;
  Ok (slice, transforms).

(** The response body as the input stream of the pipeline. *)
Definition Input := Body.

Definition check_content_length (res : Response) (expected : JS.number)
    (err : string -> Error) : M unit :=
  match headers_get res "content-length" with
  | Some cl =>
      if JS.truthy_string cl && negb (JS.strict_eq (Number cl) expected)
      then throw (err cl) else mret tt
  | None => mret tt
  end.

(** The block of [install] that opens the [input] stream. *)
Definition install_input (srcPkg : Package)
    (slice : option (JS.number * JS.number)) : M Input :=
  let url := Package.source srcPkg in
  match slice with
  | Some (start, size) =>
      if JS.gt size (JS.Num 0) then
        let range :=
          "bytes=" +:+ JS.to_string start +:+ "-" +:+
          JS.to_string (JS.sub (JS.add start size) (JS.Num 1)) in
        res ← fetch_retry url (<["Range" := range]> (headers this));
        if negb (status res =? 206) then
          throw (InvalidResumeStatus (status res) url)
        else
          check_content_length res size
            (fun cl => InvalidResumeContentLength cl url);;
          mret (body res)
      else if JS.strict_eq size (JS.Num 0) then
        mret (mkBody Stream.EmptyStream true)
      else throw (CannotDownloadNegativeSize size)
  | None =>
      res ← fetch_retry url (headers this);
      if negb (status res =? 200) then
        throw (InvalidDownloadStatus (status res) url)
      else
        check_content_length res (JS.Num (Package.size srcPkg))
          (fun cl => InvalidDownloadContentLength cl url);;
        mret (body res)
  end.

Definition apply_transform (t : Transform) (chunks : list (list byte))
  : option (list (list byte)) :=
  match t with
  | InflateRaw => inflateRaw chunks
  | SliceStream start size => Some (run_slice start size chunks)
  end.

Fixpoint apply_transforms (ts : list Transform) (chunks : list (list byte))
  : option (list (list byte)) :=
  match ts with
  | [] => Some chunks
  | t :: ts' => chunks' ← apply_transform t chunks; apply_transforms ts' chunks'
  end.

(** The output stream: every chunk is written to the temporary file and
    the [wrote] listener reports the bytes written so far. *)
Fixpoint write_chunks (pkg : Package) (tmpFile : Path)
    (chunks : list (list byte)) (bytesWritten : Z) : M Z :=
  match chunks with
  | [] => mret bytesWritten
  | c :: rest =>
      write tmpFile c;;
      let bytesWritten := bytesWritten + Z.of_nat (length c) in
      trigger (PackageDownloadProgress pkg (Package.size pkg) bytesWritten);;
      write_chunks pkg tmpFile rest bytesWritten
  end.

(** [pipeline(input, ...transforms, output)] with the hash of the data of
    the last readable stream: the bytes written and the digest. The
    chunks that reach the output are the non-empty ones. When the input
    or a decompressor fails the pipeline rejects; what was written to the
    temporary file before the failure is not modelled. *)
Definition install_pipeline (pkg : Package) (tmpFile : Path)
    (input : Input) (transforms : list Transform) : M (Z * string) :=
  match apply_transforms transforms (body_chunks input) with
  | Some out =>
      if body_completes input then
        let data := filter (fun c => c ≠ []) out in
        bytesWritten ← write_chunks pkg tmpFile data 0;
        mret (bytesWritten, sha256_hex (concat data))
      else throw StreamFailed
  | None => throw StreamFailed
  end.

(** The block of [install] that verifies the write size and the file hash. *)
Definition install_verify (pkg : Package) (bytesWritten : Z) (hashed : string)
  : M unit :=
  (* Verify the write size. *)
  (if negb (bytesWritten =? Package.size pkg)
   then throw (InvalidExtractSize bytesWritten) else mret tt);;
  (* Verify the file hash. *)
  (if negb (String.eqb hashed (Package.sha256 pkg))
   then throw (InvalidSha256Hash hashed) else mret tt).

(** The block of [install] that moves the final file into place and writes
    the package file; the package receipt is written last. *)
Definition install_commit (pkg : Package) (outFile tmpFile metaFile : Path)
  : M unit :=
  _packageDirsEnsure (ByObject pkg);;
  rm false metaFile;;
  rm false outFile;;
  rename tmpFile outFile;;
  _packageMetaReceiptWrite (ByObject pkg).

(** The body of the [try] of [install]. *)
Definition install_try (pkg srcPkg : Package)
    (slice : option (JS.number * JS.number)) (transforms : list Transform)
    (outFile tmpFile metaFile : Path) : M unit :=
  trigger (PackageDownloadBefore pkg);;
  trigger (PackageDownloadProgress pkg (Package.size pkg) 0);;
  input ← install_input srcPkg slice;
  '(bytesWritten, hashed) ← install_pipeline pkg tmpFile input transforms;
  install_verify pkg bytesWritten hashed;;
  trigger (PackageDownloadAfter pkg);;
  install_commit pkg outFile tmpFile metaFile.

(** The part of [install] that runs when the package is not current. *)
Definition install_run (pkg : Package) : M (list Package) :=
  (* Find the closest current installed parent, if any. *)
  let packages := install_packages pkg in
  let srcPkg := hd pkg packages in
  (* Find the lowest slice to read before compression. *)
  '(slice, transforms) ← lift_result (install_transforms packages);
  trigger (PackageInstallBefore pkg);;
  outFile ← pathToPackage (ByObject pkg) [Package.file pkg];
  tmpDir ← pathToPackageMeta (ByObject pkg) [TEMP_DIR];
  let tmpFile := tmpDir ++ [Package.sha256 pkg +:+ TEMP_EXT] in
  metaFile ← pathToPackageMeta (ByObject pkg) [packageFile];
  (* Create temporary directory, cleanup on failure. *)
  rm true tmpDir;;
  mkdir tmpDir;;
  open_wx tmpFile;;
  try_finally
    (install_try pkg srcPkg slice transforms outFile tmpFile metaFile)
    (close tmpFile;;
     rm true tmpDir);;
  trigger (PackageInstallAfter pkg);;
  mret packages.

(** [install(pkg)] *)
Definition install (pkg : PackageLike) : M (list Package) :=
  ensureLoaded;;
  pkg ← _asPackage pkg;
  _ensureFetch;;
  (* If current version is installed, skip. *)
  installed ← isCurrent (ByObject pkg);
  if (installed : bool) then
    (trigger (PackageInstallCurrent pkg);;
     mret ([] : list Package))
  else install_run pkg.

(** [remove(pkg)] *)
Definition remove (pkg : PackageLike) : M bool :=
  ensureLoaded;;
  dir ← pathToPackage pkg [];
  stat ← fs_read (fun n => Ok (FS.exists_at dir n));
  if negb stat then mret false
  else
    dirMeta ← pathToPackageMeta pkg [];
    (* Remove meta directory first, avoid partial installed state. *)
    rm true dirMeta;;
    rm true dir;;
    mret true.

(** [isObsolete(pkg)] *)
Definition isObsolete (pkg : string) : M bool :=
  ensureLoaded;;
  if JS.startsWith "."%char pkg then mret false
  else
    p ← packageByName pkg;
    if bool_decide (is_Some p) then mret false
    else
      dirMeta ← pathToPackageMeta (ByString pkg) [];
      fs_read (fun n => Ok (FS.exists_at dirMeta n)).

(** [_packageDirectories()] *)
Definition _packageDirectories : M (list string) :=
  entries ← fs_read (FS.readdir (path this));
  mret (merge_sort (fun a b => String.leb a b)
          ((filter (fun e => negb (JS.startsWith "."%char e.1) && e.2) entries).*1)).

(** [obsolete()] *)
Fixpoint obsolete_loop (entries : list string) (names : list string)
  : M (list string) :=
  match entries with
  | [] => mret names
  | entry :: rest =>
      o ← isObsolete entry;
      obsolete_loop rest (if (o : bool) then names ++ [entry] else names)
  end.

Definition obsolete : M (list string) :=
  ensureLoaded;;
  entries ← _packageDirectories;
  obsolete_loop entries [].

(** The loop of [cleanup]; [results] is the array [list] of the source,
    a pair standing for the object [{package, removed}]. *)
Fixpoint cleanup_loop (entries : list string) (results : list (string * bool))
  : M (list (string * bool)) :=
  match entries with
  | [] => mret results
  | pkg :: rest =>
      (* Remove any temporary directory if present. *)
      tmpDir ← pathToPackageMeta (ByString pkg) [TEMP_DIR];
      rm true tmpDir;;
      o ← isObsolete pkg;
      if (o : bool) then
        trigger (PackageCleanupBefore pkg);;
        removed ← remove (ByString pkg);
        trigger (PackageCleanupAfter pkg removed);;
        cleanup_loop rest (results ++ [(pkg, removed)])
      else cleanup_loop rest results
  end.

(** [cleanup()] *)
Definition cleanup : M (list (string * bool)) :=
  ensureLoaded;;
  entries ← _packageDirectories;
  cleanup_loop entries [].

(** [installed()] *)
Fixpoint installed_loop (entries : list string) (names : list Package)
  : M (list Package) :=
  match entries with
  | [] => mret names
  | entry :: rest =>
      pkg ← packageByName entry;
      match pkg with
      | Some pkg =>
          i ← isInstalled (ByObject pkg);
          installed_loop rest (if (i : bool) then names ++ [pkg] else names)
      | None => installed_loop rest names
      end
  end.

Definition installed : M (list Package) :=
  ensureLoaded;;
  entries ← _packageDirectories;
  installed_loop entries [].

(** [outdated()] *)
Fixpoint outdated_loop (entries : list string) (names : list Package)
  : M (list Package) :=
  match entries with
  | [] => mret names
  | entry :: rest =>
      pkg ← packageByName entry;
      match pkg with
      | Some pkg =>
          c ← isCurrent (ByObject pkg);
          outdated_loop rest (if negb c then names ++ [pkg] else names)
      | None => outdated_loop rest names
      end
  end.

Definition outdated : M (list Package) :=
  ensureLoaded;;
  entries ← _packageDirectories;
  outdated_loop entries [].

(** [upgrade()]; a pair stands for the object [{package, install}]. *)
Fixpoint upgrade_loop (pkgs : list Package)
    (results : list (Package * list Package))
  : M (list (Package * list Package)) :=
  match pkgs with
  | [] => mret results
  | pkg :: rest =>
      i ← install (ByObject pkg);
      upgrade_loop rest (results ++ [(pkg, i)])
  end.

Definition upgrade : M (list (Package * list Package)) :=
  ensureLoaded;;
  outdated ← outdated;
  upgrade_loop outdated [].
End Methods.
End Manager.

(** ** What the methods of the manager compute on a loaded catalogue *)

Module ManagerSpec.

(** The world after further effects. *)
Definition with_effects (w : World) (effects : list Effect) : World :=
  mkWorld (fs w) (catalog w) (transport w) (trace w ++ effects).

(** The world with another file system. *)
Definition with_fs (w : World) (n : FS.Node) : World :=
  mkWorld n (catalog w) (transport w) (trace w).

(** The catalogue of the world is loaded. *)
Definition loaded_world (w : World) : Prop :=
  Packages.loaded (catalog w) = true.

(** A run from [w] to [w'] keeps the catalogue and the transport and adds
    the effects [effects] to the trace. *)
Definition steps (w w' : World) (effects : list Effect) : Prop :=
  catalog w' = catalog w /\ transport w' = transport w /\
  trace w' = trace w ++ effects.

(** A run from [w] to [w'] that leaves the file system, the trace and the
    transport alone and keeps the path of the catalogue file; the
    catalogue may have been loaded or replaced. *)
Definition reads_only (w w' : World) : Prop :=
  fs w' = fs w /\ trace w' = trace w /\ transport w' = transport w /\
  Packages._path (catalog w') = Packages._path (catalog w).

(** An effect of a run that stays with one package: a request goes to
    [url], and a call on the file system names paths at or below [dir]. *)
Definition confined_effect (dir : Path) (url : string) (e : Effect) : Prop :=
  match e with
  | Fetch request => request_url request = url
  | Trigger _ => True
  | Rm _ q | Mkdir q | Open q | Write q _ | WriteFile q _ | Close q =>
      dir `prefix_of` q
  | Rename src dst => dir `prefix_of` src /\ dir `prefix_of` dst
  end.

(** The entries of [root] with another name than [name] are as they
    were. *)
Definition same_elsewhere (root : Path) (name : string) (n n' : FS.Node)
  : Prop :=
  forall x q, x <> name ->
    FS.resolve (root ++ x :: q) n' = FS.resolve (root ++ x :: q) n.

(** A computation that, on a loaded catalogue, keeps the catalogue and the
    transport, logs only effects confined to the directory [name] of
    [root] and to [url], and leaves the other entries of [root] alone. *)
Definition confined (root : Path) (name url : string) {A} (m : M A) : Prop :=
  forall w r w', loaded_world w -> m w = (r, w') ->
    exists effects,
      steps w w' effects /\
      Forall (confined_effect (root ++ [name]) url) effects /\
      same_elsewhere root name (fs w) (fs w').

(** The ancestor of a package that has no parent. *)
Fixpoint root_of (p : Package) : Package :=
  match Package.parent p with
  | Some q => root_of q
  | None => p
  end.

(** A package object as the constructors let it be: a root has no zipped
    info; every other package has some, and its parent is such an object. *)
Fixpoint well_formed (p : Package) : Prop :=
  match Package.parent p with
  | Some q => JS.truthy (Package.zipped p) = true /\ well_formed q
  | None => Package.zipped p = None
  end.

(** A part that [path.join] appends as it is, as one component: it has no
    separator (a slash, or the backslash of Windows, character 92) and is
    not empty, [.] or [..]. *)
Definition plain_component (s : string) : bool :=
  bool_decide (JS.split "/"%char s = [s])
  && bool_decide (JS.split (Ascii.ascii_of_nat 92) s = [s])
  && negb (bool_decide (s ∈ [EmptyString; "."; ".."])).

(** The parts of the paths of [install] that come from the catalogue entry
    are plain: the name, the file, and the name of the temporary file. *)
Definition plain_package (p : Package) : Prop :=
  plain_component (Package.name p) = true /\
  plain_component (Package.file p) = true /\
  plain_component (Package.sha256 p +:+ TEMP_EXT) = true.

(** A computation that, on a loaded catalogue, keeps the catalogue and the
    transport and makes no request. *)
Definition quiet {A} (m : M A) : Prop :=
  forall w r w', loaded_world w -> m w = (r, w') ->
    exists effects,
      steps w w' effects /\ Forall (fun e => is_fetch e = false) effects.

(** The effects of a run from [w] to [w']. *)
Definition effects_since (w w' : World) : list Effect :=
  drop (length (trace w)) (trace w').

Section WithRuntime.
Context `{Runtime} (this : Manager.Manager).

(** The name [_asName] gives for a string: the name of the package that has
    the string as one of its keys, or the string itself. *)
Definition resolved_name (c : Packages) (s : string) : string :=
  match Packages.byUnique c s with
  | Some p => Package.name p
  | None => s
  end.

Definition name_of (c : Packages) (pkg : PackageLike) : string :=
  match pkg with
  | ByString s => resolved_name c s
  | ByObject p => Package.name p
  end.

(** The package [_asPackage] gives, if any. *)
Definition as_package (c : Packages) (pkg : PackageLike) : option Package :=
  match pkg with
  | ByString s => Packages.byUnique c s
  | ByObject p => Some p
  end.

(** The paths of [pathToPackage] and [pathToPackageMeta]. *)
Definition package_path (c : Packages) (pkg : PackageLike) (parts : list string)
  : Path :=
  Manager.pathTo this (name_of c pkg :: parts).

Definition package_meta_path (c : Packages) (pkg : PackageLike)
    (parts : list string) : Path :=
  Manager.pathTo this (name_of c pkg :: META_DIR :: parts).

(** The file [receipt] reads: it resolves the name of the package once
    more. *)
Definition receipt_path (c : Packages) (pkg : PackageLike) : Path :=
  package_meta_path c (ByString (name_of c pkg)) [PACKAGE_FILE].

(** The receipt that can be read and parsed from a file, if any. *)
Definition read_receipt (n : FS.Node) (path : Path) : option IPackageReceipt :=
  match FS.readFile path n with
  | Ok data =>
      match JSON_parse_receipt (String.string_of_list_byte data) with
      | Some (Some r) => Some r
      | _ => None
      end
  | Throw _ => None
  end.

(** The receipt file cannot be read, or its content is not JSON. *)
Inductive receipt_failure (n : FS.Node) (path : Path) : Prop :=
| receipt_read_fails e :
    FS.readFile path n = Throw e -> receipt_failure n path
| receipt_parse_fails data :
    FS.readFile path n = Ok data ->
    JSON_parse_receipt (String.string_of_list_byte data) = None ->
    receipt_failure n path.

(** The outcome of a request with one retry, read off the transport: the
    first call, and a second call exactly when the first is rejected. *)
Definition retry_outcome (w : World) (request : Request) : Result Response * World :=
  let n := fetch_count (trace w) in
  match transport w n request with
  | Resolved res => (Ok res, with_effects w [Fetch request])
  | Rejected _ =>
      (match transport w (S n) request with
       | Resolved res => Ok res
       | Rejected (Some reason) =>
           Throw (FetchFailed (Manager._fetchErrorMessage reason))
       | Rejected None => Throw (Rejection None)
       end, with_effects w [Fetch request; Fetch request])
  end.

(** A content-length header is present when the lookup gives a non-empty
    string (the test [cl && ...] of the source); a present header has to
    convert to the expected number. *)
Definition content_length_ok (res : Response) (expected : JS.number) : bool :=
  match headers_get res "content-length" with
  | Some cl => negb (JS.truthy_string cl) || JS.strict_eq (Number cl) expected
  | None => true
  end.

(** The request of the ranged fetch of [install]. *)
Definition range_request (srcPkg : Package) (start size : JS.number) : Request :=
  mkRequest (Package.source srcPkg)
    (<["Range" := "bytes=" +:+ JS.to_string start +:+ "-" +:+
                  JS.to_string (JS.sub (JS.add start size) (JS.Num 1))]>
       (Manager.headers this)).

(** The request of the plain fetch of [install]. *)
Definition plain_request (srcPkg : Package) : Request :=
  mkRequest (Package.source srcPkg) (Manager.headers this).

(** The request of [_requestPackages]. *)
Definition packages_request : Request :=
  mkRequest (Manager.packagesUrl this)
    (<["Pragma" := "no-cache"]>
       (<["Cache-Control" := "max-age=0"]> (Manager.headers this))).

(** The request that an install of [p] makes for a slice, if it makes one,
    and the status it asks of the response: a ranged request and 206 for a
    slice of positive length, no request for another slice, a plain request
    and 200 without a slice. The request goes to the source of the
    ancestor of [p] that has no parent. *)
Definition install_request (p : Package)
    (slice : option (JS.number * JS.number)) : option Request :=
  match slice with
  | Some (start, size) =>
      if JS.gt size (JS.Num 0) then Some (range_request (root_of p) start size)
      else None
  | None => Some (plain_request (root_of p))
  end.

Definition expected_status (slice : option (JS.number * JS.number)) : Z :=
  match slice with
  | Some _ => 206
  | None => 200
  end.

(** The length that a content-length header of the response has to give:
    the length of the slice, or the size of the root without a slice. *)
Definition expected_length (p : Package)
    (slice : option (JS.number * JS.number)) : JS.number :=
  match slice with
  | Some (_, size) => size
  | None => JS.Num (Package.size (root_of p))
  end.

(** The run of [install] got as far as its download: the event before the
    download is among its effects. *)
Definition download_started (p : Package) (w w' : World) : Prop :=
  Trigger (PackageDownloadBefore p) ∈ effects_since w w'.

(** The requests among the effects of a run. *)
Definition requests_since (w w' : World) : list Effect :=
  filter is_fetch (effects_since w w').

(** The paths of an install of the package [p]. *)
Definition install_dir (p : Package) : Path :=
  Manager.pathTo this [Package.name p].
Definition install_dirMeta (p : Package) : Path :=
  Manager.pathTo this [Package.name p; META_DIR].
Definition install_outFile (p : Package) : Path :=
  Manager.pathTo this [Package.name p; Package.file p].
Definition install_tmpDir (p : Package) : Path :=
  Manager.pathTo this [Package.name p; META_DIR; TEMP_DIR].
Definition install_tmpFile (p : Package) : Path :=
  Manager.pathTo this
    [Package.name p; META_DIR; TEMP_DIR; Package.sha256 p +:+ TEMP_EXT].
Definition install_metaFile (p : Package) : Path :=
  Manager.pathTo this [Package.name p; META_DIR; PACKAGE_FILE].
Definition install_receiptTmp (p : Package) : Path :=
  Manager.pathTo this [Package.name p; META_DIR; PACKAGE_FILE +:+ TEMP_EXT].

(** The file system kept everything of the package directory [dir] that
    is outside the temporary directory of its meta directory, and a file
    in the place of the meta directory. *)
Definition outside_tmp (dir : Path) (n n' : FS.Node) : Prop :=
  (forall x q, x <> TEMP_DIR ->
     FS.resolve (dir ++ META_DIR :: x :: q) n' =
     FS.resolve (dir ++ META_DIR :: x :: q) n) /\
  (forall x q, x <> META_DIR ->
     FS.resolve (dir ++ x :: q) n' = FS.resolve (dir ++ x :: q) n) /\
  (forall d, FS.resolve (dir ++ [META_DIR]) n = Ok (FS.File d) ->
     FS.resolve (dir ++ [META_DIR]) n' = Ok (FS.File d)).

(** The effects of an install that stage the download: events, requests,
    and the calls on the temporary directory and the temporary file. *)
Definition staging_effect (p : Package) (e : Effect) : Prop :=
  match e with
  | Fetch _ | Trigger _ | Open _ | Write _ _ | Close _ => True
  | Rm recursive _ => recursive = true
  | Mkdir q => q = install_tmpDir p
  | WriteFile _ _ | Rename _ _ => False
  end.

(** A directory that [cleanup] visits: an entry of the root directory that
    is a directory and whose name does not start with a dot. *)
Definition visited (n : FS.Node) (d : string) : Prop :=
  JS.startsWith "."%char d = false /\
  exists m, FS.lookup (Manager.pathTo this [d]) n = Some (FS.Dir m).

(** The directories [_packageDirectories] lists in the file system [n]. *)
Definition local_directories (n : FS.Node) : list string :=
  match FS.readdir (Manager.path this) n with
  | Ok entries =>
      merge_sort (fun a b => String.leb a b)
        ((filter (fun e => negb (JS.startsWith "."%char e.1) && e.2) entries).*1)
  | Throw _ => []
  end.

(** The directory [d] is obsolete: no package of the catalogue has the name
    [d], and the meta directory of [d] exists. *)
Definition obsolete_dir (c : Packages) (n : FS.Node) (d : string) : bool :=
  match Packages.byName c d with
  | Some _ => false
  | None => FS.exists_at (package_meta_path c (ByString d) []) n
  end.

(** The calls and events of [cleanup] for the directory [d]: the temporary
    directory is removed, and an obsolete directory is removed, the meta
    directory first, between its two events. *)
Definition cleanup_effects (c : Packages) (n : FS.Node) (d : string)
  : list Effect :=
  Rm true (Manager.pathTo this [d; META_DIR; TEMP_DIR]) ::
  if obsolete_dir c n d then
    [ Trigger (PackageCleanupBefore d);
      Rm true (Manager.pathTo this [d; META_DIR]);
      Rm true (Manager.pathTo this [d]);
      Trigger (PackageCleanupAfter d true) ]
  else [].

(** The content of the receipt file of [p]. *)
Definition receipt_bytes (p : Package) : list byte :=
  String.list_byte_of_string
    (JSON_stringify_receipt
       (mkReceipt (Package.name p) (Package.file p) (Package.size p)
                  (Package.sha256 p) (Package.source p))).

(** The commit of an install: the calls that touch the destination, in
    order; the receipt is renamed into place last. *)
Definition commit_effects (p : Package) : list Effect :=
  [ Mkdir (install_dir p);
    Mkdir (install_dirMeta p);
    Rm false (install_metaFile p);
    Rm false (install_outFile p);
    Rename (install_tmpFile p) (install_outFile p);
    Rm false (install_receiptTmp p);
    WriteFile (install_receiptTmp p) (receipt_bytes p);
    Rename (install_receiptTmp p) (install_metaFile p) ].

(** The bytes written to a file by the writes of a run. *)
Definition written_data (file : Path) (effects : list Effect) : list byte :=
  flat_map (fun e => match e with
                     | Write q data => if decide (q = file) then data else []
                     | _ => []
                     end) effects.

(** The streamed output has the declared size and the declared digest. *)
Definition verified (p : Package) (data : list byte) : Prop :=
  Z.of_nat (length data) = Package.size p /\
  sha256_hex data = Package.sha256 p.

(** The bytes that the pipeline of [install] gives for an input and a chain
    of transforms, when the input completes and no transform fails: the
    output of the last transform. *)
Definition piped (transforms : list Transform) (input : Manager.Input)
  : option (list byte) :=
  match Manager.apply_transforms transforms (body_chunks input) with
  | Some out => if body_completes input then Some (concat out) else None
  | None => None
  end.

(** The input of the pipeline of an install of [p] in the world [w], for
    the slice of its chain: the body of the response to the request of the
    slice, a response that has the status and the length asked for; for a
    slice of length 0, for which no request is made, the empty stream. *)
Definition install_source (p : Package)
    (slice : option (JS.number * JS.number)) (w : World)
    (input : Manager.Input) : Prop :=
  match install_request p slice with
  | Some request =>
      exists res,
        fst (retry_outcome w request) = Ok res /\
        status res = expected_status slice /\
        content_length_ok res (expected_length p slice) = true /\
        input = body res
  | None =>
      (exists start, slice = Some (start, JS.Num 0)) /\
      input = mkBody Stream.EmptyStream true
  end.

(** The comparison of [isCurrent]. *)
Definition receipt_matches (data : IPackageReceipt) (pkg : Package) : bool :=
  String.eqb (receipt_sha256 data) (Package.sha256 pkg)
  && (receipt_size data =? Package.size pkg)
  && String.eqb (receipt_file data) (Package.file pkg)
  && String.eqb (receipt_name data) (Package.name pkg).

(** The tests of [isInstalled] and [isCurrent] on the receipt that can be
    read for the package. *)
Definition is_installed (c : Packages) (n : FS.Node) (p : Package) : bool :=
  bool_decide (is_Some (read_receipt n (receipt_path c (ByObject p)))).

Definition is_current (c : Packages) (n : FS.Node) (p : Package) : bool :=
  match read_receipt n (receipt_path c (ByObject p)) with
  | Some data => receipt_matches data p
  | None => false
  end.

(** The packages that directories are named after and that pass a test, in
    the order of the directories. *)
Definition listed (test : Package -> bool) (c : Packages) (dirs : list string)
  : list Package :=
  omap (fun d => match Packages.byName c d with
                 | Some p => if test p then Some p else None
                 | None => None
                 end) dirs.

(** The receipt of a package written by [JSON.stringify] is read back by
    [JSON.parse]. *)
Definition receipt_round_trip (p : Package) : Prop :=
  let r := mkReceipt (Package.name p) (Package.file p) (Package.size p)
             (Package.sha256 p) (Package.source p) in
  JSON_parse_receipt (JSON_stringify_receipt r) = Some (Some r).

(** The install file of a package is sound: the receipt can be read, and
    the file it names in the directory of the package has the size and the
    hash of the receipt. *)
Definition install_file_sound (c : Packages) (n : FS.Node) (p : Package)
  : Prop :=
  exists data bytes,
    read_receipt n (receipt_path c (ByObject p)) = Some data /\
    FS.lookup (Manager.pathTo this [Package.name p; receipt_file data]) n =
      Some (FS.File bytes) /\
    Z.of_nat (length bytes) = receipt_size data /\
    sha256_hex bytes = receipt_sha256 data.

(** The failure of a chain of packages: the compression method of one of
    them is neither 0 nor 8. *)
Definition unsupported (l : list Package) (e : Error) : Prop :=
  exists q method,
    q ∈ l /\ Package.getZippedCompression q = Ok method /\
    JS.strict_eq method (JS.Num 0) = false /\
    JS.strict_eq method (JS.Num 8) = false /\
    e = UnsupportedZippedCompression method.

(** A package that a directory of the file system [n] is named after. *)
Definition walked (c : Packages) (n : FS.Node) (p : Package) : Prop :=
  exists d, visited n d /\ Packages.byName c d = Some p.

End WithRuntime.
End ManagerSpec.

(** ** The transform chain as the specification describes it *)

Module ChainSpec.
Section WithRuntime.
Context `{Runtime}.

(** What the walk reads from a node: its byte slice and its
    decompressor. *)
Record NodeView := mkView {
  view_offset : JS.number;
  view_length : JS.number;
  view_decompressor : option Transform
}.

Definition read_node (p : Package) : Result NodeView :=
  '(offset, len) ← Package.getZippedSlice p;
  d ← Package.getZippedDecompressor p;
  Ok (mkView offset len d).

Fixpoint read_nodes (nodes : list Package) : Result (list NodeView) :=
  match nodes with
  | [] => Ok []
  | p :: rest => v ← read_node p; vs ← read_nodes rest; Ok (v :: vs)
  end.

(** The state of the walk: the accumulator slice, whether a
    decompression layer has been opened, and the transform chain. *)
Record Walk := mkWalk {
  accumulator : option (JS.number * JS.number);
  opened : bool;
  chain : list Transform
}.

Definition walk_start : Walk := mkWalk None false [].

(** Follows the specification, step 4 of the install pipeline, for one
    node of the chain. *)
Definition walk_step (w : Walk) (v : NodeView) : Walk :=
  if opened w then
    (* a byte-range filter with the node's own slice, then its own
       decompressor if non-null *)
    mkWalk (accumulator w) true
      (chain w ++ [SliceStream (view_offset v) (view_length v)]
               ++ option_list (view_decompressor v))
  else
    (* the slice is relative to the still-undecompressed root stream *)
    let acc :=
      match accumulator w with
      | Some (offset, _) => (JS.add offset (view_offset v), view_length v)
      | None => (view_offset v, view_length v)
      end in
    mkWalk (Some acc)
      (bool_decide (is_Some (view_decompressor v)))
      (chain w ++ option_list (view_decompressor v)).

Definition walk (views : list NodeView) : Walk := foldl walk_step walk_start views.

(** The sum of the offsets of a run of nodes, from a starting offset. *)
Definition sum_offsets (start : JS.number) (views : list NodeView) : JS.number :=
  foldl (fun o v => JS.add o (view_offset v)) start views.

(** The filters of the nodes behind the first decompression layer. *)
Definition peel (views : list NodeView) : list Transform :=
  flat_map (fun v => SliceStream (view_offset v) (view_length v)
                       :: option_list (view_decompressor v)) views.
End WithRuntime.
End ChainSpec.

(** ** The catalogue as the specification describes it *)

Module CatalogSpec.

(** The objects below a descriptor in pre-order: the object built from the
    descriptor, followed by the whole subtree of each of its children. *)
Fixpoint preorder_info (parent : option Package) (info : IPackagesListPackage)
  : list Package :=
  let p := Package.build info parent in
  p :: match Info.packages info with
       | None => []
       | Some infos =>
           (fix subtrees (l : list IPackagesListPackage) : list Package :=
              match l with
              | [] => []
              | c :: l' => preorder_info (Some p) c ++ subtrees l'
              end) infos
       end.

(** A package followed by its entire subtree. *)
Definition preorder (p : Package) : list Package :=
  p :: flat_map (preorder_info (Some p)) (Package.packages_info p).

(** The flattened forest of a list of roots. *)
Definition flatten (roots : list Package) : list Package :=
  flat_map preorder roots.

(** The four index spaces. *)
Inductive KeySpace := ByName | BySha256 | BySha1 | ByMd5.

Definition key_of (space : KeySpace) (p : Package) : string :=
  match space with
  | ByName => Package.name p
  | BySha256 => Package.sha256 p
  | BySha1 => Package.sha1 p
  | ByMd5 => Package.md5 p
  end.

Section WithRuntime.
Context `{Runtime}.

(** A format that passes the gate of the sources: two parts, of which the
    first converts to the number that [1] converts to and the second to a
    number that does not compare below the one of [2]. A second part that
    does not convert to a number compares below nothing. *)
Definition format_passes (format : string) : Prop :=
  exists major minor,
    JS.split "."%char format = [major; minor] /\
    JS.strict_eq (Number major) (Number "1") = true /\
    JS.lt (Number minor) (Number "2") = false.

(** What makes a load fail. The raw input does not parse, or parses to a
    malformed shape, or its format does not pass the gate, or its flattened
    forest repeats a key in one of the four spaces. *)
Inductive load_rejected (data : string) : Prop :=
| rejected_syntax :
    JSON_parse data = None -> load_rejected data
| rejected_shape v :
    JSON_parse data = Some v ->
    (forall format packages, v <> U_object (Some format) (Some packages)) ->
    load_rejected data
| rejected_format format packages :
    JSON_parse data = Some (U_object (Some format) (Some packages)) ->
    ~ format_passes format ->
    load_rejected data
| rejected_duplicate format packages roots space :
    JSON_parse data = Some (U_object (Some format) (Some packages)) ->
    Packages._parsePackages packages = Ok roots ->
    ~ NoDup (map (key_of space) (flatten roots)) ->
    load_rejected data.

(** Follows the specification: a non-negative integer in decimal digits. *)
Definition nonneg_integer (s : string) : option Z :=
  match s with
  | EmptyString => None
  | _ => match JS.decimal_from 0 s with
         | JS.Num z => Some z
         | JS.NaN => None
         end
  end.

(** Follows the specification: a format is supported when it is two
    non-negative integers MAJOR.MINOR, the major equal to the major of the
    engine, 1, and the minor not below the minor of the engine, 2. Every
    other format is a format-version mismatch. *)
Definition format_supported (format : string) : bool :=
  match JS.split "."%char format with
  | [major; minor] =>
      match nonneg_integer major, nonneg_integer minor with
      | Some a, Some b => (a =? 1) && (2 <=? b)
      | _, _ => false
      end
  | _ => false
  end.

(** The names of the entries of a report, and of a list of packages. *)
Definition report_names (l : list IPackageUpdated) : list string :=
  map updated_name l.
Definition package_names (l : list Package) : list string :=
  map Package.name l.

(** The entry of the map of [update] for a package, and the test of the
    second loop against the map. *)
Definition map_entry (p : Package) : string * IPackageUpdated :=
  (Package.name p, Packages.as_updated p).

Definition changed_since (map : list (string * IPackageUpdated)) (pkg : Package)
  : bool :=
  match JSMap.get (Package.name pkg) map with
  | Some before =>
      negb (String.eqb (updated_sha256 before) (Package.sha256 pkg))
      || negb (updated_size before =? Package.size pkg)
      || negb (String.eqb (updated_file before) (Package.file pkg))
  | None => false
  end.

(** Follows the specification: a package is updated when its file, its size
    or its sha256 changed. *)
Definition significant_change (before after : Package) : Prop :=
  Package.file before <> Package.file after \/
  Package.size before <> Package.size after \/
  Package.sha256 before <> Package.sha256 after.

End WithRuntime.
End CatalogSpec.

(** ** Data of the closed examples *)

Module Examples.

Definition package (name : string) (zipped : option string)
    (parent : option Package) : Package :=
  Package.mk name (name +:+ ".bin") 4 (name +:+ "-sha256") (name +:+ "-sha1")
    (name +:+ "-md5") ("https://example.com/" +:+ name) zipped parent [].

(** A root archive and four levels nested in it. *)
Definition pkg_root : Package := package "root" None None.
Definition pkg_a : Package := package "a" (Some "0-10-100") (Some pkg_root).
Definition pkg_b : Package := package "b" (Some "8-5-50") (Some pkg_a).
Definition pkg_c : Package := package "c" (Some "0-3-7") (Some pkg_b).
Definition pkg_d : Package := package "d" (Some "8-1-2") (Some pkg_c).

(** A stored entry of the root archive: the four bytes from offset 10. *)
Definition pkg_leaf : Package := package "leaf" (Some "0-10-4") (Some pkg_root).

(** Catalogue entries. *)
Definition info (name : string) (size : Z) (source : string)
    (packages : option (list IPackagesListPackage)) (zipped : option string)
  : IPackagesListPackage :=
  Info.mk name (name +:+ ".bin") size (name +:+ "-sha256") (name +:+ "-sha1")
    (name +:+ "-md5") source packages zipped.

(** A first catalogue: an archive with one stored child, a single package
    and a package that the second catalogue drops. *)
Definition catalog_1 : list IPackagesListPackage :=
  [ info "archive" 100 "https://example.com/archive"
      (Some [info "child" 4 "child.bin" None (Some "0-10-4")]) None;
    info "single" 6 "https://example.com/single" None None;
    info "old" 4 "https://example.com/old" None None ].

(** A second catalogue: the archive moved to another source, the single
    package changed its size, and a package was added. *)
Definition catalog_2 : list IPackagesListPackage :=
  [ info "archive" 100 "https://mirror.example.com/archive"
      (Some [info "child" 4 "child.bin" None (Some "0-10-4")]) None;
    info "single" 7 "https://example.com/single" None None;
    info "new" 4 "https://example.com/new" None None ].

(** A catalogue in which a nested entry repeats the name of a root. *)
Definition catalog_duplicate : list IPackagesListPackage :=
  [ info "archive" 100 "https://example.com/archive"
      (Some [info "single" 4 "child.bin" None (Some "0-10-4")]) None;
    info "single" 4 "https://example.com/single" None None ].

(** A runtime for the closed examples. [Number] converts the empty string
    and unsigned decimal literals and takes the other strings of the
    examples, none of which is numeric, to [NaN]; the JSON texts are the
    names of the catalogues above; a receipt text is the name of the package
    it describes; [inflateRaw] is the identity and the digest of a payload is
    the payload read as text, followed by [-sha256], so that the payload of
    a package of the examples is its name. *)
Definition parse (data : string) : option unknown :=
  if String.eqb data "catalog-1" then Some (U_object (Some "1.2") (Some catalog_1))
  else if String.eqb data "catalog-2" then Some (U_object (Some "1.3") (Some catalog_2))
  else if String.eqb data "catalog-duplicate" then
    Some (U_object (Some "1.2") (Some catalog_duplicate))
  else if String.eqb data "catalog-1.x" then Some (U_object (Some "1.x") (Some catalog_1))
  else if String.eqb data "catalog-1.0" then Some (U_object (Some "1.0") (Some catalog_1))
  else if String.eqb data "array" then Some U_array
  else if String.eqb data "null" then Some U_null
  else if String.eqb data "no-packages" then Some (U_object (Some "1.2") None)
  else None.

Definition parse_receipt (data : string) : option (option IPackageReceipt) :=
  if String.eqb data "null" then Some None
  else if String.eqb data "single" then
    Some (Some (mkReceipt "single" "single.bin" 6 "single-sha256"
                  "https://example.com/single"))
  else None.

Definition runtime : Runtime := {|
  Number := JS.decimal_from 0;
  JSON_parse := parse;
  JSON_parse_receipt := parse_receipt;
  JSON_stringify := fun l => list_format l;
  JSON_stringify_receipt := fun r => receipt_name r;
  inflateRaw := fun chunks => Some chunks;
  sha256_hex := fun data => String.string_of_list_byte data +:+ "-sha256"
|}.


(** The same runtime with a [JSON.stringify] that [parse] reads back: the
    list of format [1.3] is written as the text of the second catalogue
    and the others as the text of the first. *)
Definition runtime_files : Runtime := {|
  Number := JS.decimal_from 0;
  JSON_parse := parse;
  JSON_parse_receipt := parse_receipt;
  JSON_stringify := fun l =>
    if String.eqb (list_format l) "1.3" then "catalog-2" else "catalog-1";
  JSON_stringify_receipt := fun r => receipt_name r;
  inflateRaw := fun chunks => Some chunks;
  sha256_hex := fun data => String.string_of_list_byte data +:+ "-sha256"
|}.

(** A manager rooted at [shockpkg], and its catalogue after the first
    catalogue was loaded. *)
Definition manager : Manager.Manager :=
  Manager.mk [MAIN_DIR] "https://example.com/packages.json" ∅ true.

Definition loaded_catalog : Packages :=
  snd (@Packages.update runtime "catalog-1"
         (Manager._createPackages (Manager.path manager))).

Definition pkg_single : Package :=
  Package.build (info "single" 6 "https://example.com/single" None None) None.

Definition dir (entries : list (string * FS.Node)) : FS.Node :=
  FS.Dir (list_to_map entries).
Definition file (content : string) : FS.Node :=
  FS.File (String.list_byte_of_string content).

(** A transport that answers every call with a rejection. *)
Definition offline : nat -> Request -> FetchOutcome :=
  fun _ _ => Rejected (Some (mkTransportError "fetch failed" None)).

(** A response, and transports that answer every call with it, or reject the
    first call and then answer with it. *)
Definition response (status : Z) (content_length : option string)
    (chunks : list (list byte)) : Response :=
  mkResponse status
    (fun header => if String.eqb header "content-length" then content_length
                   else None)
    (mkBody chunks true) (Some "catalog-2").

Definition always (res : Response) : nat -> Request -> FetchOutcome :=
  fun _ _ => Resolved res.

Definition flaky (res : Response) : nat -> Request -> FetchOutcome :=
  fun n _ => match n with
             | O => Rejected (Some (mkTransportError "fetch failed"
                                      (Some ("Error", "ECONNRESET"))))
             | S _ => Resolved res
             end.

(** A world with an empty root directory and a given transport. *)
Definition world_with (transport : nat -> Request -> FetchOutcome) : World :=
  mkWorld (dir [(MAIN_DIR, dir [])]) loaded_catalog transport [].

(** A world in which [single] is installed from an older catalogue (its
    receipt is not current) and the server answers with the new payload. *)
Definition world_outdated : World :=
  mkWorld
    (dir [(MAIN_DIR, dir [("single", dir [
       ("single.bin", file "old!");
       (META_DIR, dir [(PACKAGE_FILE, file "old")])])])])
    loaded_catalog
    (always (response 200 (Some "6") [String.list_byte_of_string "sin";
                                      String.list_byte_of_string "gle"]))
    [].

(** The same with a server that sends a payload of the wrong size. *)
Definition world_short_payload : World :=
  mkWorld (fs world_outdated) loaded_catalog
    (always (response 200 None [String.list_byte_of_string "sing"])) [].

(** A world with three directories under the root: [single], a package of
    the catalogue with a temporary directory left behind; [gone], which has
    a meta directory and is not in the catalogue; and [stray], which is not
    in the catalogue either and has no meta directory. *)
Definition world_leftovers : World :=
  mkWorld
    (dir [(MAIN_DIR, dir [
       ("single", dir [
          ("single.bin", file "single");
          (META_DIR, dir [(PACKAGE_FILE, file "single");
                          (TEMP_DIR, dir [("x.tmp", file "si")])])]);
       ("gone", dir [
          ("gone.bin", file "data");
          (META_DIR, dir [(PACKAGE_FILE, file "gone")])]);
       ("stray", dir [("notes.txt", file "text")])])])
    loaded_catalog offline [].

(** A world in which the receipt of [single] is not JSON. *)
Definition world_corrupt_receipt : World :=
  mkWorld
    (dir [(MAIN_DIR, dir [("single", dir [
       ("single.bin", file "data");
       (META_DIR, dir [(PACKAGE_FILE, file "{ not json")])])])])
    loaded_catalog offline [].

(** A world before the first update: the catalogue is not loaded and its
    file does not exist. *)
Definition world_unloaded : World :=
  mkWorld (dir [(MAIN_DIR, dir [])])
    (Manager._createPackages (Manager.path manager)) offline [].

End Examples.

(* ===================================================================== *)
(** * Properties *)
(* ===================================================================== *)

(** ** The byte-range filter *)

Module StreamFacts.
Import Stream.

Example slice_small_1 :
run 3 4 [[0;1]; [2;3;4]; [5;6;7;8]; [9]] = [[3;4]; [5;6]].
Proof. reflexivity. Qed.

Example slice_small_2 :
run 3 (-1) [[0;1]; [2;3;4]; [5;6;7;8]; [9]] = [[3;4]; [5;6;7;8]; [9]].
Proof. reflexivity. Qed.

Example slice_small_3 :
run 3 0 [[0;1]; [2;3;4]; [5;6;7;8]; [9]] = [].
Proof. reflexivity. Qed.

Example slice_small_4 :
run (-5) 10 [[0;1;2]; [3;4;5;6]] = [[0;1;2]; [3;4]].
Proof. reflexivity. Qed.

Section SliceProofs.
Context {A : Type}.
Implicit Types (c input : list A) (chunks : list (list A)).

Lemma subarray_from_drop c k :
0 <= k <= blen c -> subarray_from c k = drop (Z.to_nat k) c.
Proof.
intros Hk. unfold subarray_from, subarray, clamp_index, blen in *.
destruct (Z.ltb_spec k 0); [lia|].
destruct (Z.ltb_spec (Z.of_nat (length c)) 0); [lia|].
replace (Z.min k (Z.of_nat (length c))) with k by lia.
apply take_ge. rewrite length_drop. lia.
Qed.

Lemma subarray_from_0 c : subarray_from c 0 = c.
Proof. rewrite subarray_from_drop; [done | unfold blen; lia]. Qed.

Lemma subarray_0_take c r :
0 <= r -> subarray c 0 r = take (Z.to_nat r) c.
Proof.
intros Hr. unfold subarray, clamp_index.
destruct (Z.ltb_spec r 0); [lia|]. simpl.
replace (Z.min 0 (Z.of_nat (length c))) with 0 by lia.
rewrite Z.sub_0_r. simpl.
destruct (Z.le_ge_cases r (Z.of_nat (length c))).
- replace (Z.min r (Z.of_nat (length c))) with r by lia.
  change (Z.to_nat 0) with 0%nat. by rewrite drop_0.
- replace (Z.min r (Z.of_nat (length c))) with (Z.of_nat (length c)) by lia.
  change (Z.to_nat 0) with 0%nat. rewrite drop_0.
  rewrite !take_ge; [done | lia | lia].
Qed.

Lemma bytes_in_range_app input1 input2 lo hi :
bytes_in_range (input1 ++ input2) lo hi =
bytes_in_range input1 lo hi ++
bytes_in_range input2 (lo - blen input1) (hi - blen input1).
Proof.
unfold bytes_in_range, blen.
rewrite drop_app, take_app, length_drop.
f_equal.
destruct (Z.le_gt_cases (Z.max 0 lo) (Z.of_nat (length input1))) as [Hle|Hgt].
- replace (Z.to_nat (Z.max 0 lo) - length input1)%nat with 0%nat by lia.
  replace (Z.to_nat (Z.max 0 (lo - Z.of_nat (length input1)))) with 0%nat by lia.
  simpl. f_equal. lia.
- replace (Z.to_nat (Z.max 0 (lo - Z.of_nat (length input1))))
    with (Z.to_nat (Z.max 0 lo) - length input1)%nat by lia.
  f_equal. lia.
Qed.

Lemma bytes_in_range_nil lo hi : bytes_in_range (@nil A) lo hi = [].
Proof. unfold bytes_in_range. by rewrite drop_nil, take_nil. Qed.

Lemma bytes_from_app input1 input2 lo :
bytes_from (input1 ++ input2) lo =
bytes_from input1 lo ++ bytes_from input2 (lo - blen input1).
Proof.
unfold bytes_from, blen. rewrite drop_app. f_equal. f_equal. lia.
Qed.

(** One call of [_transform] at stream position [t] emits the part of the
  chunk that lies in the window, seen from the chunk, and counts the
  whole chunk as processed. *)
Lemma _transform_positive (s : SliceStream) c :
0 < size s ->
_transform s c =
  (advance s (blen c),
   snd (_transform s c)) /\
concat (snd (_transform s c)) =
  bytes_in_range c (start s - _transformed s)
                   (start s + size s - _transformed s).
Proof.
intros Hsz. unfold _transform.
destruct (Z.eqb_spec (size s) 0); [lia|].
destruct (Z.ltb_spec (size s) 0); [lia|].
destruct (Z.leb_spec (start s + size s) (_transformed s)).
{ split; [done|]. simpl. unfold bytes_in_range.
  replace (Z.to_nat _) with 0%nat by lia. done. }
destruct (Z.leb_spec (_transformed s - start s + blen c) 0).
{ split; [done|]. simpl. unfold bytes_in_range, blen in *.
  rewrite drop_ge by lia. by rewrite take_nil. }
destruct (Z.ltb_spec (_transformed s - start s) 0).
- rewrite subarray_from_drop by lia.
  set (k := Z.to_nat (- (_transformed s - start s))).
  assert (Hlen : blen (drop k c) = blen c - Z.of_nat k).
  { unfold blen. rewrite length_drop. unfold blen in *. lia. }
  rewrite Hlen.
  destruct (Z.ltb_spec (size s - 0) (blen c - Z.of_nat k)).
  + split.
    { unfold advance; simpl. do 2 f_equal. lia. }
    simpl. rewrite app_nil_r, subarray_0_take by lia.
    unfold bytes_in_range. f_equal; [lia|]. f_equal. lia.
  + split.
    { unfold advance; simpl. do 2 f_equal. lia. }
    simpl. rewrite app_nil_r, subarray_from_0.
    unfold bytes_in_range.
    replace (Z.to_nat (Z.max 0 (start s - _transformed s))) with k by lia.
    symmetry. apply take_ge. rewrite length_drop. unfold blen in *. lia.
- destruct (Z.ltb_spec (size s - (_transformed s - start s)) (blen c)).
  + split.
    { unfold advance; simpl. do 2 f_equal. lia. }
    simpl. rewrite app_nil_r, subarray_0_take by lia.
    unfold bytes_in_range.
    replace (Z.to_nat (Z.max 0 (start s - _transformed s))) with 0%nat by lia.
    simpl. f_equal. lia.
  + split; [done|].
    simpl. rewrite app_nil_r, subarray_from_0.
    unfold bytes_in_range.
    replace (Z.to_nat (Z.max 0 (start s - _transformed s))) with 0%nat by lia.
    simpl. symmetry. apply take_ge. unfold blen in *. lia.
Qed.

Lemma _transform_negative (s : SliceStream) c :
size s < 0 ->
_transform s c = (advance s (blen c), snd (_transform s c)) /\
concat (snd (_transform s c)) = bytes_from c (start s - _transformed s).
Proof.
intros Hsz. unfold _transform.
destruct (Z.eqb_spec (size s) 0); [lia|].
destruct (Z.ltb_spec (size s) 0); [|lia].
destruct (Z.leb_spec (_transformed s - start s + blen c) 0).
{ split; [done|]. simpl. unfold bytes_from, blen in *.
  by rewrite drop_ge by lia. }
destruct (Z.ltb_spec (_transformed s - start s) 0).
- rewrite subarray_from_drop by lia. split.
  { unfold advance, blen in *; simpl. do 2 f_equal.
    rewrite length_drop. lia. }
  simpl. rewrite app_nil_r, subarray_from_0. unfold bytes_from.
  f_equal. lia.
- split; [done|]. simpl. rewrite app_nil_r, subarray_from_0.
  unfold bytes_from. by replace (Z.to_nat _) with 0%nat by lia.
Qed.

Lemma _transform_zero (s : SliceStream) c :
size s = 0 -> _transform s c = (advance s (blen c), []).
Proof. intros Hsz. unfold _transform. by rewrite Hsz. Qed.

Lemma run_from_positive (s : SliceStream) chunks :
0 < size s ->
concat (snd (run_from s chunks)) =
  bytes_in_range (concat chunks) (start s - _transformed s)
                 (start s + size s - _transformed s).
Proof.
intros Hsz. revert s Hsz.
induction chunks as [|c rest IH]; intros s Hsz; simpl.
- by rewrite bytes_in_range_nil.
- destruct (_transform_positive s c Hsz) as [Hst Hout].
  rewrite Hst. specialize (IH (advance s (blen c)) Hsz).
  destruct (run_from (advance s (blen c)) rest) as [s2 out2].
  simpl in *. rewrite concat_app, Hout, IH, bytes_in_range_app.
  f_equal. f_equal; lia.
Qed.

Lemma run_from_negative (s : SliceStream) chunks :
size s < 0 ->
concat (snd (run_from s chunks)) =
  bytes_from (concat chunks) (start s - _transformed s).
Proof.
intros Hsz. revert s Hsz.
induction chunks as [|c rest IH]; intros s Hsz; simpl.
- unfold bytes_from. by rewrite drop_nil.
- destruct (_transform_negative s c Hsz) as [Hst Hout].
  rewrite Hst. specialize (IH (advance s (blen c)) Hsz).
  destruct (run_from (advance s (blen c)) rest) as [s2 out2].
  simpl in *. rewrite concat_app, Hout, IH, bytes_from_app.
  f_equal. f_equal; lia.
Qed.

Lemma run_from_zero (s : SliceStream) chunks :
size s = 0 -> snd (run_from s chunks) = [].
Proof.
intros Hsz. revert s Hsz.
induction chunks as [|c rest IH]; intros s Hsz; simpl; [done|].
rewrite _transform_zero by done.
specialize (IH (advance s (blen c)) Hsz).
by destruct (run_from (advance s (blen c)) rest) as [s2 out2]; simpl in *; subst.
Qed.

(** The bytes emitted by the filter, whatever the chunking of the input. *)
Lemma run_expected_slice (start size : Z) chunks :
concat (run start size chunks) = expected_slice start size (concat chunks).
Proof.
unfold run, expected_slice.
destruct (Z.eqb_spec size 0) as [->|Hne].
- by rewrite run_from_zero.
- destruct (Z.ltb_spec size 0).
  + rewrite run_from_negative by done. simpl. f_equal. lia.
  + rewrite run_from_positive by (simpl; lia). simpl. f_equal; lia.
Qed.

(** The processed counter is the number of bytes received so far. *)
Lemma run_from_transformed (s : SliceStream) chunks :
_transformed (fst (run_from s chunks)) =
  _transformed s + blen (concat chunks).
Proof.
revert s. induction chunks as [|c rest IH]; intros s; simpl.
- unfold blen; simpl; lia.
- assert (Hst : fst (_transform s c) = advance s (blen c)).
  { destruct (Z.eqb_spec (size s) 0).
    - by rewrite _transform_zero.
    - destruct (Z.ltb_spec (size s) 0).
      + destruct (_transform_negative s c) as [-> _]; [lia|done].
      + destruct (_transform_positive s c) as [-> _]; [lia|done]. }
  destruct (_transform s c) as [s1 out1]. simpl in Hst. subst s1.
  specialize (IH (advance s (blen c))).
  destruct (run_from (advance s (blen c)) rest) as [s2 out2].
  simpl in *. rewrite IH. unfold blen. rewrite length_app. lia.
Qed.

End SliceProofs.

(** *** The readable of the test-suite *)

Lemma cyclic_from_length k n : length (cyclic_from k n) = n.
Proof. revert k. induction n as [|n IH]; intros k; simpl; [done|]. by rewrite IH. Qed.

Lemma cyclic_from_take10 n :
(10 <= n)%nat -> take 10 (cyclic_from 0 n) = [0; 1; 2; 3; 4; 5; 6; 7; 8; 9].
Proof.
intros Hn. do 10 (destruct n as [|n]; [lia|]). reflexivity.
Qed.

Lemma Reader_buffer_length : Z.of_nat (length Reader_buffer) = MB.
Proof. unfold Reader_buffer. rewrite cyclic_from_length. unfold MB. lia. Qed.

Section ReaderSlices.
(** Any five equal buffers of one MiB. *)
Context {A : Type} (B : list A).
Hypothesis B_length : Z.of_nat (length B) = MB.

Lemma five_buffers_2MB_10 :
concat (run (2 * MB) 10 (replicate 5 B)) = take 10 B.
Proof using B_length.
rewrite run_expected_slice. unfold expected_slice, bytes_in_range.
change (10 =? 0) with false. change (10 <? 0) with false. cbv iota.
replace (Z.to_nat (2 * MB + 10 - Z.max 0 (2 * MB))) with 10%nat by (unfold MB; lia).
replace (Z.to_nat (Z.max 0 (2 * MB))) with (length B + length B)%nat
  by (unfold MB in *; lia).
simpl. rewrite <- drop_drop, !drop_app_length.
apply take_app_le. unfold MB in *. lia.
Qed.

Lemma five_buffers_4MB1_open :
concat (run (4 * MB + 1) (-1) (replicate 5 B)) = drop 1 B.
Proof using B_length.
rewrite run_expected_slice. unfold expected_slice, bytes_from.
change (-1 =? 0) with false. change (-1 <? 0) with true. cbv iota.
replace (Z.to_nat (4 * MB + 1))
  with (length B + (length B + (length B + (length B + 1))))%nat
  by (unfold MB in *; lia).
simpl. rewrite <- !drop_drop, !drop_app_length. by rewrite app_nil_r.
Qed.

Lemma five_buffers_length : blen (concat (replicate 5 B)) = 5 * MB.
Proof using B_length.
unfold blen. simpl. rewrite !length_app. simpl. lia.
Qed.

Lemma five_buffers_4MB1_open_length :
blen (concat (run (4 * MB + 1) (-1) (replicate 5 B))) = MB - 1.
Proof using B_length.
rewrite five_buffers_4MB1_open. unfold blen. rewrite length_drop. unfold MB in *. lia.
Qed.
End ReaderSlices.

(** C2. For every input and every way of cutting it into chunks,
  [SliceStream(start, size)] emits the input bytes at positions
  [start, start+size) when [size > 0], pushes nothing at all when
  [size = 0], and emits the input from position [start] to its end when
  [size < 0] (this is [expected_slice]). On the five one-MiB buffers of the
  test-suite, a start of 2 MiB with size 10 gives the bytes [0..9], and a
  start of 4 MiB + 1 with size -1 gives the last MiB - 1 bytes of the
  input. *)
Theorem SliceStream_emits_byte_range :
(forall (A : Type) (start size : Z) (chunks : list (list A)),
    concat (run start size chunks) = expected_slice start size (concat chunks))
/\ (forall (A : Type) (start : Z) (chunks : list (list A)),
    run start 0 chunks = [])
/\ concat (run (2 * MB) 10 Reader) = [0; 1; 2; 3; 4; 5; 6; 7; 8; 9]
/\ concat (run (4 * MB + 1) (-1) Reader) = bytes_from (concat Reader) (4 * MB + 1)
/\ blen (concat Reader) = 5 * MB
/\ blen (concat (run (4 * MB + 1) (-1) Reader)) = MB - 1.
Proof.
split; [intros; apply run_expected_slice|].
split; [intros; unfold run; by apply run_from_zero|].
split.
{ unfold Reader. rewrite (five_buffers_2MB_10 _ Reader_buffer_length).
  unfold Reader_buffer. apply cyclic_from_take10. unfold MB. lia. }
split.
{ by rewrite run_expected_slice. }
split.
{ apply (five_buffers_length _ Reader_buffer_length). }
apply (five_buffers_4MB1_open_length _ Reader_buffer_length).
Qed.

End StreamFacts.

(** ** Monadic computations *)

Section ST_facts.
Context {S : Type}.

Lemma bind_Ok {A B} (m : ST S A) (f : A -> ST S B) s a s' :
  m s = (Ok a, s') -> (m ≫= f) s = f a s'.
Proof. intros Hm. unfold mbind, ST_bind. by rewrite Hm. Qed.

Lemma bind_Throw {A B} (m : ST S A) (f : A -> ST S B) s e s' :
  m s = (Throw e, s') -> (m ≫= f) s = (Throw e, s').
Proof. intros Hm. unfold mbind, ST_bind. by rewrite Hm. Qed.

Lemma bind_Ok_inv {A B} (m : ST S A) (f : A -> ST S B) s b s'' :
  (m ≫= f) s = (Ok b, s'') ->
  exists a s', m s = (Ok a, s') /\ f a s' = (Ok b, s'').
Proof.
  unfold mbind, ST_bind. destruct (m s) as [[a|e] s']; [eauto | done].
Qed.

Lemma bind_Throw_inv {A B} (m : ST S A) (f : A -> ST S B) s e s'' :
  (m ≫= f) s = (Throw e, s'') ->
  m s = (Throw e, s'') \/
  exists a s', m s = (Ok a, s') /\ f a s' = (Throw e, s'').
Proof.
  unfold mbind, ST_bind. destruct (m s) as [[a|e'] s']; [by eauto|].
  intros [= <- <-]. by left.
Qed.

Lemma lift_result_inv {A} (r : Result A) (s : S) r' s' :
  lift_result r s = (r', s') -> r' = r /\ s' = s.
Proof. by intros [= <- <-]. Qed.

Lemma modify_state_inv (f : S -> S) (s : S) r s' :
  modify_state f s = (r, s') -> r = Ok tt /\ s' = f s.
Proof. by intros [= <- <-]. Qed.

End ST_facts.

(** ** The transform chain of [install] *)

Module ChainFacts.
Import ChainSpec Manager ManagerSpec.

Section WithRuntime.
Context `{Runtime}.

Lemma read_node_Ok p v :
  read_node p = Ok v ->
  Package.getZippedSlice p = Ok (view_offset v, view_length v) /\
  Package.getZippedDecompressor p = Ok (view_decompressor v).
Proof.
  unfold read_node. destruct (Package.getZippedSlice p) as [[o l]|e]; simpl; [|done].
  destruct (Package.getZippedDecompressor p) as [d|e]; simpl; [|done].
  intros [= <-]. done.
Qed.

Lemma read_nodes_cons p rest views :
  read_nodes (p :: rest) = Ok views ->
  exists v vs, views = v :: vs /\ read_node p = Ok v /\ read_nodes rest = Ok vs.
Proof.
  simpl. destruct (read_node p) as [v|e]; simpl; [|done].
  destruct (read_nodes rest) as [vs|e]; simpl; [|done].
  intros [= <-]. eauto.
Qed.

(** The second loop appends the filters of the nodes that are left. *)
Lemma install_transform_loop_peel nodes views transforms :
  read_nodes nodes = Ok views ->
  install_transform_loop nodes transforms = Ok (transforms ++ peel views).
Proof.
  revert views transforms.
  induction nodes as [|p rest IH]; intros views transforms Hread.
  - simpl in Hread. injection Hread as <-. simpl. by rewrite app_nil_r.
  - apply read_nodes_cons in Hread as (v & vs & -> & Hv & Hvs).
    apply read_node_Ok in Hv as [Hs Hd]. simpl.
    rewrite Hs. simpl. rewrite Hd. simpl.
    destruct (view_decompressor v) as [d|]; rewrite (IH vs) by done; simpl;
      f_equal; by rewrite <- ?app_assoc.
Qed.

Lemma walk_step_closed slice v :
  walk_step (mkWalk slice false []) v =
  mkWalk (Some match slice with
               | Some (offset, _) =>
                   (JS.add offset (view_offset v), view_length v)
               | None => (view_offset v, view_length v)
               end)
         (bool_decide (is_Some (view_decompressor v)))
         (option_list (view_decompressor v)).
Proof. reflexivity. Qed.

Lemma walk_step_opened acc transforms v :
  walk_step (mkWalk acc true transforms) v =
  mkWalk acc true
    (transforms ++ [SliceStream (view_offset v) (view_length v)]
                ++ option_list (view_decompressor v)).
Proof. reflexivity. Qed.

#[local] Arguments walk_step : simpl never.

(** The walk of the specification once a layer is open. *)
Lemma walk_opened views acc transforms :
  foldl walk_step (mkWalk acc true transforms) views =
  mkWalk acc true (transforms ++ peel views).
Proof.
  revert transforms. induction views as [|v vs IH]; intros transforms; simpl.
  - by rewrite app_nil_r.
  - rewrite walk_step_opened, IH. f_equal.
    by rewrite <- !app_assoc.
Qed.

(** Both loops against the walk, from any accumulator. *)
Lemma install_loops_walk nodes views slice :
  read_nodes nodes = Ok views ->
  ('(slice', transforms, rest) ← install_slice_loop nodes slice;
   transforms ← install_transform_loop rest transforms;
   Ok (slice', transforms)) =
  Ok (let w := foldl walk_step (mkWalk slice false []) views in
      (accumulator w, chain w)).
Proof.
  revert views slice.
  induction nodes as [|p rest IH]; intros views slice Hread.
  - simpl in Hread. injection Hread as <-. done.
  - apply read_nodes_cons in Hread as (v & vs & -> & Hv & Hvs).
    apply read_node_Ok in Hv as [Hs Hd].
    cbn [install_slice_loop foldl]. rewrite Hs. cbn. rewrite Hd. cbn.
    rewrite walk_step_closed.
    destruct (view_decompressor v) as [d|]; cbn.
    + rewrite (install_transform_loop_peel rest vs) by done. cbn.
      rewrite walk_opened. cbn. by destruct slice as [[? ?]|].
    + rewrite <- (IH vs) by done. by destruct slice as [[? ?]|].
Qed.

Lemma install_transforms_walk root nodes views :
  read_nodes nodes = Ok views ->
  install_transforms (root :: nodes) =
  Ok (accumulator (walk views), chain (walk views)).
Proof.
  intros Hread. unfold install_transforms. simpl drop.
  exact (install_loops_walk nodes views None Hread).
Qed.

Lemma last_cons_default {A} (b d d' : A) l :
  List.last (b :: l) d = List.last (b :: l) d'.
Proof.
  revert b. induction l as [|c l IH]; intros b; [done|].
  change (List.last (c :: l) d = List.last (c :: l) d'). apply IH.
Qed.

Lemma last_cons_cons {A} (a b d : A) l :
  List.last (a :: b :: l) d = List.last (b :: l) a.
Proof.
  change (List.last (b :: l) d = List.last (b :: l) a).
  apply last_cons_default.
Qed.

(** The walk over nodes that are all stored: one merged slice, whose
    offset is the sum of the offsets and whose length is the last
    length. *)
Lemma walk_stored v vs acc :
  Forall (fun v => view_decompressor v = None) (v :: vs) ->
  foldl walk_step (mkWalk acc false []) (v :: vs) =
  mkWalk (Some (sum_offsets
                  (match acc with
                   | Some (o, _) => JS.add o (view_offset v)
                   | None => view_offset v
                   end) vs,
                view_length (List.last vs v))) false [].
Proof.
  revert v acc. induction vs as [|v' vs IH]; intros v acc Hall.
  - cbn [foldl]. rewrite walk_step_closed.
    apply Forall_cons in Hall as [-> _]. cbn. by destruct acc as [[? ?]|].
  - apply Forall_cons in Hall as [Hv Hall].
    change (foldl walk_step (mkWalk acc false []) (v :: v' :: vs))
      with (foldl walk_step (walk_step (mkWalk acc false []) v) (v' :: vs)).
    rewrite walk_step_closed, Hv. cbn [option_list].
    rewrite bool_decide_eq_false_2 by (by intros [? ?]).
    rewrite (IH v' _ Hall).
    assert (Hlast : List.last (v' :: vs) v = List.last vs v')
      by (destruct vs; [done | apply last_cons_cons]).
    rewrite Hlast. by destruct acc as [[? ?]|].
Qed.

(** The walk over stored nodes, a compressed node and the nodes behind
    it. *)
Lemma walk_compressed pre c post t :
  Forall (fun v => view_decompressor v = None) pre ->
  view_decompressor c = Some t ->
  walk (pre ++ c :: post) =
  mkWalk (Some (sum_offsets (view_offset (hd c pre)) (tail (pre ++ [c])),
                view_length c))
         true (t :: peel post).
Proof.
  intros Hpre Hc. unfold walk, walk_start. rewrite foldl_app.
  destruct pre as [|v0 pre].
  - cbn [foldl app hd tail]. rewrite walk_step_closed, Hc. cbn.
    by rewrite walk_opened.
  - rewrite (walk_stored v0 pre None Hpre).
    cbn [foldl app hd tail]. rewrite walk_step_closed, Hc. cbn.
    rewrite walk_opened. cbn. f_equal. f_equal. f_equal.
    unfold sum_offsets. by rewrite foldl_app.
Qed.

(** *** The chain of [install] *)

Lemma ancestors_last : forall q, last (ancestors q) = Some (root_of q).
Proof.
  fix IH 1. intros [n f sz s256 s1 m5 src z [q|] infos]; [|done].
  cbn [ancestors root_of Package.parent]. rewrite last_cons. by rewrite IH.
Qed.

Lemma install_packages_root q : hd q (install_packages q) = root_of q.
Proof.
  unfold install_packages.
  assert (head (reverse (ancestors q)) = Some (root_of q)) as Hhead
    by by rewrite head_reverse, ancestors_last.
  destruct (reverse (ancestors q)) as [|x l]; [done|]. cbn in Hhead.
  by injection Hhead as ->.
Qed.

Lemma root_of_parent : forall q, Package.parent (root_of q) = None.
Proof.
  fix IH 1. intros [n f sz s256 s1 m5 src z [q|] infos]; [|done].
  cbn [root_of Package.parent]. apply IH.
Qed.

Lemma ancestors_head q : exists l, ancestors q = q :: l.
Proof.
  destruct q as [n f sz s256 s1 m5 src z [q|] infos];
    cbn [ancestors Package.parent]; eauto.
Qed.

(** In the list of a package and its ancestors every element is followed
    by its parent. *)
Lemma ancestors_adjacent : forall q l1 b a l2,
  ancestors q = l1 ++ b :: a :: l2 -> Package.parent b = Some a.
Proof.
  fix IH 1. intros [n f sz s256 s1 m5 src z [q|] infos] l1 b a l2 Hl.
  - cbn [ancestors Package.parent] in Hl. destruct l1 as [|x l1]; cbn in Hl.
    + injection Hl as <- Hq. destruct (ancestors_head q) as (l & Hhead).
      rewrite Hhead in Hq. by injection Hq as -> _.
    + injection Hl as _ Hq. by eapply IH.
  - cbn [ancestors Package.parent] in Hl.
    destruct l1 as [|x [|y l1]]; discriminate.
Qed.

(** The chain of [install]: the root ancestor first, every package in front
    of its children, the target last. *)
Lemma install_packages_chain p :
  exists nodes,
    install_packages p = root_of p :: nodes /\
    last (install_packages p) = Some p /\
    forall pre a b post,
      install_packages p = pre ++ a :: b :: post -> Package.parent b = Some a.
Proof.
  pose proof (install_packages_root p) as Hroot.
  destruct (ancestors_head p) as (l & Hhead).
  unfold install_packages in *.
  exists (drop 1 (reverse (ancestors p))). split; [|split].
  - destruct (reverse (ancestors p)) as [|x nodes] eqn:Hrev.
    + apply (f_equal length) in Hrev. rewrite length_reverse, Hhead in Hrev.
      discriminate.
    + cbn in Hroot. by rewrite Hroot.
  - by rewrite last_reverse, Hhead.
  - intros pre a b post Hchain.
    apply (f_equal reverse) in Hchain. rewrite reverse_involutive in Hchain.
    rewrite reverse_app, !reverse_cons, <- !app_assoc in Hchain.
    cbn [app] in Hchain. by eapply ancestors_adjacent.
Qed.

End WithRuntime.

End ChainFacts.

(** ** The catalogue *)

Module CatalogFacts.
Import Packages CatalogSpec.

(** *** The flattened set is the forest in pre-order *)

Lemma preorder_build info parent :
  preorder (Package.build info parent) = preorder_info parent info.
Proof.
  unfold preorder. destruct info as [n f sz h256 h1 h5 src pk z].
  cbn [Package.build Package.packages_info Info.packages preorder_info].
  f_equal. destruct pk as [infos|]; [|done]. cbn [default id].
  generalize (Package.build (Info.mk n f sz h256 h1 h5 src (Some infos) z) parent).
  intros p. induction infos as [|c l IH]; [done|].
  cbn [flat_map]. by rewrite IH.
Qed.

Lemma package_count_build info parent :
  package_count (Package.build info parent) = info_count info.
Proof.
  unfold package_count. destruct info as [n f sz h256 h1 h5 src pk z].
  cbn [Package.build Package.packages_info Info.packages info_count].
  f_equal. destruct pk as [infos|]; [|done]. cbn [default id].
  induction infos as [|c l IH]; [done|].
  cbn [map sum_list]. by rewrite IH.
Qed.

Lemma packages_count p :
  sum_list (map package_count (Package.packages p)) = pred (package_count p).
Proof.
  assert (Hsum : forall infos parent,
    sum_list (map package_count
                (map (fun info => Package.build info parent) infos)) =
    sum_list (map info_count infos)).
  { intros infos parent. induction infos as [|c l IH]; [done|].
    cbn [map sum_list]. by rewrite package_count_build, IH. }
  unfold Package.packages. rewrite Hsum. done.
Qed.

Lemma packages_preorder p :
  flat_map preorder (Package.packages p) =
  flat_map (preorder_info (Some p)) (Package.packages_info p).
Proof.
  unfold Package.packages.
  induction (Package.packages_info p) as [|c l IH]; [done|].
  cbn [map flat_map]. by rewrite preorder_build, IH.
Qed.

Lemma _listPackages_loop_flatten fuel itter r :
  (sum_list (map package_count itter) < fuel)%nat ->
  _listPackages_loop fuel itter r = r ++ flatten itter.
Proof.
  revert itter r. induction fuel as [|fuel IH]; intros itter r Hfuel; [lia|].
  destruct itter as [|entry rest]; cbn [_listPackages_loop].
  - by rewrite app_nil_r.
  - rewrite IH.
    + unfold flatten. rewrite flat_map_app, packages_preorder.
      cbn [flat_map]. unfold preorder at 2. by rewrite <- !app_assoc.
    + rewrite map_app, sum_list_with_app, packages_count.
      cbn [map sum_list_with] in Hfuel.
      change (id (package_count entry)) with (package_count entry) in Hfuel.
      assert (0 < package_count entry)%nat by (unfold package_count; lia). lia.
Qed.

(** [_listPackages] returns, with the fuel it is given, every package of
    the forest: each root followed at once by its entire subtree. *)
Lemma _listPackages_flatten roots : _listPackages roots = flatten roots.
Proof. unfold _listPackages. rewrite _listPackages_loop_flatten; [done | lia]. Qed.

(** *** The index maps refuse a repeated key *)

Lemma _packagesMapKeys_Ok dup entry keys r r' :
  _packagesMapKeys dup entry keys r = Ok r' ->
  NoDup keys /\ (forall k, k ∈ keys -> r !! k = None) /\
  (forall k, r' !! k = if bool_decide (k ∈ keys) then Some entry else r !! k).
Proof.
  revert r. induction keys as [|k keys IH]; intros r; cbn [_packagesMapKeys].
  - intros [= <-]. split; [constructor|]. split; [by intros k ?%elem_of_nil|].
    intros k. rewrite bool_decide_eq_false_2; [done | apply not_elem_of_nil].
  - case_bool_decide as Hk; [done|]. intros Hrest.
    apply IH in Hrest as (Hnd & Hfresh & Hlook).
    assert (Hnone : r !! k = None).
    { destruct (r !! k) eqn:E; [exfalso; apply Hk; eauto | done]. }
    assert (Hnotin : k ∉ keys).
    { intros Hin. specialize (Hfresh k Hin). by rewrite lookup_insert_eq in Hfresh. }
    split; [by constructor|]. split.
    + intros k' [->|Hin]%elem_of_cons; [done|].
      specialize (Hfresh k' Hin).
      destruct (decide (k = k')) as [->|Hne]; [done|].
      by rewrite lookup_insert_ne in Hfresh.
    + intros k'. rewrite Hlook.
      destruct (decide (k' ∈ keys)) as [Hin|Hnin].
      * rewrite !bool_decide_eq_true_2; [done | by right | done].
      * rewrite (bool_decide_eq_false_2 (k' ∈ keys)) by done.
        destruct (decide (k = k')) as [->|Hne].
        -- rewrite lookup_insert_eq, bool_decide_eq_true_2; [done | by left].
        -- rewrite lookup_insert_ne by done.
           rewrite bool_decide_eq_false_2; [done|].
           by intros [->|?]%elem_of_cons.
Qed.

Lemma _packagesMapBy_Ok dup keys packages r r' :
  _packagesMapBy dup keys packages r = Ok r' ->
  NoDup (flat_map keys packages) /\
  (forall k, k ∈ flat_map keys packages -> r !! k = None).
Proof.
  revert r. induction packages as [|entry rest IH]; intros r; cbn [_packagesMapBy].
  - intros _. split; [constructor | by intros k ?%elem_of_nil].
  - destruct (_packagesMapKeys dup entry (keys entry) r) as [r1|e] eqn:E; [|done].
    cbn. intros Hrest. apply IH in Hrest as (Hnd & Hfresh).
    apply _packagesMapKeys_Ok in E as (Hnd1 & Hfresh1 & Hlook1).
    cbn [flat_map]. split.
    + apply NoDup_app. split; [done|]. split; [|done].
      intros k Hk Hin. specialize (Hfresh k Hin).
      rewrite Hlook1, bool_decide_eq_true_2 in Hfresh; done.
    + intros k [Hk|Hk]%elem_of_app; [by apply Hfresh1|].
      specialize (Hfresh k Hk). rewrite Hlook1 in Hfresh.
      by case_bool_decide.
Qed.

Lemma flat_map_singleton {A B} (f : A -> B) (l : list A) :
  flat_map (fun x => [f x]) l = map f l.
Proof. induction l as [|x l IH]; [done|]. cbn. by rewrite IH. Qed.

(** A key of one space that is repeated among the packages makes the map
    of that space fail, and the combined map with it. *)
Lemma _packagesMapBy_key_NoDup dup (key : Package -> string) packages r' :
  _packagesMapBy dup (fun e => [key e]) packages ∅ = Ok r' ->
  NoDup (map key packages).
Proof.
  intros Hmap. apply _packagesMapBy_Ok in Hmap as [Hnd _].
  by rewrite flat_map_singleton in Hnd.
Qed.


(** *** The format gate *)

Section Format.
Context `{Runtime}.

(** What [_validateFormat] accepts: two parts, a major part that converts
    to the number the major part of [FORMAT] converts to, and a minor part
    that does not compare below the minor part of [FORMAT]. *)
Lemma _validateFormat_Ok_iff format :
  _validateFormat format = Ok tt <-> format_passes format.
Proof.
  unfold format_passes, _validateFormat.
  change (JS.split "." FORMAT) with ["1"; "2"].
  destruct (JS.split "." format) as [|major [|minor [|extra parts]]] eqn:E;
    cbn [map length Nat.eqb negb at_index lookup list_lookup default id].
  - split; [done | by intros (? & ? & [=] & _)].
  - split; [done | by intros (? & ? & [=] & _)].
  - unfold at_index. cbn.
    destruct (JS.strict_eq (Number major) (Number "1")) eqn:Emajor; cbn.
    + destruct (JS.lt (Number minor) (Number "2")) eqn:Eminor; cbn.
      * split; [done|]. intros (? & ? & [= <- <-] & _ & ?). congruence.
      * split; [|done]. intros _. by exists major, minor.
    + split; [done|]. intros (? & ? & [= <- <-] & ? & _). congruence.
  - split; [done | by intros (? & ? & [=] & _)].
Qed.

End Format.

(** *** Loading is all or nothing *)

Section Loading.
Context `{Runtime}.

(** The state a successful load installs: every field but the path comes
    from the new list. *)
Lemma _setPackagesList_Ok packagesList this this' :
  _setPackagesList packagesList this = (Ok tt, this') ->
  exists roots byName bySha256 bySha1 byMd5 byUnique,
    _validateFormat (list_format packagesList) = Ok tt /\
    _parsePackages (list_packages packagesList) = Ok roots /\
    _packagesMapName (flatten roots) = Ok byName /\
    _packagesMapSha256 (flatten roots) = Ok bySha256 /\
    _packagesMapSha1 (flatten roots) = Ok bySha1 /\
    _packagesMapMd5 (flatten roots) = Ok byMd5 /\
    _packagesMapUnique (flatten roots) = Ok byUnique /\
    this' = Packages.mk (Some packagesList) (flatten roots) byName bySha256
              bySha1 byMd5 byUnique (_path this).
Proof.
  unfold _setPackagesList. intros Hrun.
  apply bind_Ok_inv in Hrun as ([] & s1 & [Hf ->]%lift_result_inv & Hrun).
  apply bind_Ok_inv in Hrun as (roots & s1 & [Hr ->]%lift_result_inv & Hrun).
  rewrite _listPackages_flatten in Hrun.
  apply bind_Ok_inv in Hrun as (byName & s1 & [Hn ->]%lift_result_inv & Hrun).
  apply bind_Ok_inv in Hrun as (bySha256 & s1 & [H256 ->]%lift_result_inv & Hrun).
  apply bind_Ok_inv in Hrun as (bySha1 & s1 & [H1 ->]%lift_result_inv & Hrun).
  apply bind_Ok_inv in Hrun as (byMd5 & s1 & [H5 ->]%lift_result_inv & Hrun).
  apply bind_Ok_inv in Hrun as (byUnique & s1 & [Hu ->]%lift_result_inv & Hrun).
  injection Hrun as <-.
  exists roots, byName, bySha256, bySha1, byMd5, byUnique.
  repeat split; by symmetry.
Qed.

(** A load that throws has assigned none of the fields. *)
Lemma _setPackagesList_Throw packagesList this e this' :
  _setPackagesList packagesList this = (Throw e, this') -> this' = this.
Proof.
  unfold _setPackagesList. intros Hrun.
  repeat (apply bind_Throw_inv in Hrun
            as [[_ ->]%lift_result_inv
               |(? & s1 & [_ ->]%lift_result_inv & Hrun)]; [done|]).
  done.
Qed.

Lemma update_unfold data this :
  update data this =
  match _parseData data with
  | Throw e => (Throw e, this)
  | Ok packagesList =>
      match _setPackagesList packagesList this with
      | (Ok _, this') =>
          (Ok (let '(map, updated, added) :=
                 update_changes (packages this')
                   (update_map_out (packages this) []) [] [] in
               mkReport updated added map.*2), this')
      | (Throw e, this') => (Throw e, this')
      end
  end.
Proof.
  unfold update, mbind, ST_bind, get_state, lift_result.
  destruct (_parseData data) as [l|e]; [|done].
  destruct (_setPackagesList l this) as [[[]|e] this']; [|done].
  by destruct (update_changes _ _ _ _) as [[? ?] ?].
Qed.

(** An [update] that throws leaves the catalogue as it was. *)
Lemma update_Throw_unchanged data this e this' :
  update data this = (Throw e, this') -> this' = this.
Proof.
  rewrite update_unfold.
  destruct (_parseData data) as [l|e']; [|by intros [= _ <-]].
  destruct (_setPackagesList l this) as [[[]|e'] this''] eqn:E; [done|].
  intros [= _ <-]. by apply _setPackagesList_Throw in E.
Qed.

Lemma update_fails_if data this :
  (forall packagesList this',
     _parseData data = Ok packagesList ->
     _setPackagesList packagesList this <> (Ok tt, this')) ->
  exists e, update data this = (Throw e, this).
Proof.
  intros Hfail. rewrite update_unfold.
  destruct (_parseData data) as [l|e]; [|by eauto].
  destruct (_setPackagesList l this) as [[[]|e] this'] eqn:E.
  - by destruct (Hfail l this').
  - apply _setPackagesList_Throw in E as ->. eauto.
Qed.

(** Loading is all or nothing. When the raw input does not parse or parses
    to a malformed shape, when its format does not pass the gate, or when
    the flattened forest repeats a key in one of the four index spaces
    (name, sha256, sha1, md5), [update] throws; and whenever [update]
    throws, for these or any other reason, the catalogue object, that is
    its list, its set and its five lookup maps, is exactly what it was: the
    previous generation, or the unloaded state. *)
Theorem load_all_or_nothing (this : Packages) (data : string) :
  (load_rejected data -> exists e, update data this = (Throw e, this)) /\
  (forall e this', update data this = (Throw e, this') -> this' = this).
Proof.
  split; [|intros e this'; apply update_Throw_unchanged].
  intros Hrej. apply update_fails_if. intros l this' Hparse Hset.
  unfold _parseData in Hparse.
  destruct Hrej as [Hsyn | v Hv Hshape | format pk Hv Hfmt
                   | format pk roots space Hv Hroots Hdup].
  - by rewrite Hsyn in Hparse.
  - rewrite Hv in Hparse.
    destruct v as [| | | | |[format|] [pk|]]; try done.
    by destruct (Hshape format pk).
  - rewrite Hv in Hparse. injection Hparse as <-.
    apply _setPackagesList_Ok in Hset as (? & ? & ? & ? & ? & ? & Hf & _).
    cbn in Hf. by apply _validateFormat_Ok_iff in Hf.
  - rewrite Hv in Hparse. injection Hparse as <-.
    apply _setPackagesList_Ok in Hset
      as (roots' & ? & ? & ? & ? & ? & _ & Hr & Hn & H256 & H1 & H5 & _).
    cbn in Hr. rewrite Hroots in Hr. injection Hr as <-.
    apply Hdup. destruct space; cbn [key_of].
    + by apply _packagesMapBy_key_NoDup in Hn.
    + by apply _packagesMapBy_key_NoDup in H256.
    + by apply _packagesMapBy_key_NoDup in H1.
    + by apply _packagesMapBy_key_NoDup in H5.
Qed.

End Loading.

(** *** The report of [update] *)

Section FilterFacts.
Context {A : Type}.

Lemma filter_all (P : A -> Prop) `{!forall x, Decision (P x)} (l : list A) :
  Forall P l -> filter P l = l.
Proof.
  induction 1 as [|x l Hx Hl IH]; [done|].
  by rewrite filter_cons_True, IH.
Qed.

Lemma filter_none (P : A -> Prop) `{!forall x, Decision (P x)} (l : list A) :
  Forall (fun x => ~ P x) l -> filter P l = [].
Proof.
  induction 1 as [|x l Hx Hl IH]; [done|].
  by rewrite filter_cons_False, IH.
Qed.

Lemma filter_ext_in (P Q : A -> Prop) `{!forall x, Decision (P x)}
    `{!forall x, Decision (Q x)} (l : list A) :
  (forall x, x ∈ l -> P x <-> Q x) -> filter P l = filter Q l.
Proof.
  induction l as [|x l IH]; intros Hext; [done|].
  rewrite !filter_cons.
  assert (Hl : filter P l = filter Q l).
  { apply IH. intros y Hy. apply Hext. by right. }
  destruct (decide (P x)) as [HP|HP], (decide (Q x)) as [HQ|HQ].
  - by rewrite Hl.
  - destruct HQ. apply Hext; [by left | done].
  - destruct HP. apply Hext; [by left | done].
  - done.
Qed.
End FilterFacts.

Section JSMapFacts.
Context {V : Type}.
Implicit Types (m : list (string * V)) (k : string).

Lemma JSMap_get_None k m : JSMap.get k m = None <-> k ∉ m.*1.
Proof.
  induction m as [|[k' v] m IH]; cbn.
  - split; [intros _; apply not_elem_of_nil | done].
  - destruct (decide (k' = k)) as [->|Hne].
    + split; [done | intros Hk; destruct Hk; by left].
    + rewrite IH. split.
      * intros Hk [->|?]%elem_of_cons; done.
      * intros Hk Hin. apply Hk. by right.
Qed.

Lemma JSMap_get_Some k v m :
  NoDup m.*1 -> JSMap.get k m = Some v <-> (k, v) ∈ m.
Proof.
  induction m as [|[k' v'] m IH]; cbn; intros Hnd.
  - split; [done | by intros ?%elem_of_nil].
  - apply NoDup_cons in Hnd as [Hk' Hnd].
    destruct (decide (k' = k)) as [->|Hne].
    + split; [intros [= ->]; by left|].
      intros [[= ->]|Hin]%elem_of_cons; [done|].
      destruct Hk'. apply list_elem_of_fmap. by exists (k, v).
    + rewrite (IH Hnd). split; [by right|].
      by intros [[= -> ->]|Hin]%elem_of_cons.
Qed.

Lemma JSMap_set_fresh k v m : k ∉ m.*1 -> JSMap.set k v m = m ++ [(k, v)].
Proof.
  induction m as [|[k' v'] m IH]; cbn; intros Hk; [done|].
  destruct (decide (k' = k)) as [->|Hne]; [destruct Hk; by left|].
  rewrite IH; [done|]. intros Hin. apply Hk. by right.
Qed.

Lemma JSMap_delete_filter k m :
  NoDup m.*1 -> JSMap.delete k m = filter (fun kv => kv.1 ≠ k) m.
Proof.
  induction m as [|[k' v'] m IH]; cbn [JSMap.delete]; intros Hnd; [done|].
  rewrite fmap_cons in Hnd. apply NoDup_cons in Hnd as [Hk' Hnd].
  destruct (decide (k' = k)) as [->|Hne].
  - rewrite filter_cons_False by (cbn; by intros ?).
    symmetry. apply filter_all. apply Forall_forall.
    intros [k1 v1] Hin Heq. cbn in Heq. subst k1.
    apply Hk'. apply list_elem_of_fmap. by exists (k, v1).
  - rewrite filter_cons_True by done. by rewrite IH.
Qed.

End JSMapFacts.

Section Report.
Context `{Runtime}.

Lemma update_map_out_entries pkgs m :
  NoDup (m.*1 ++ package_names pkgs) ->
  update_map_out pkgs m = m ++ (map_entry <$> pkgs).
Proof.
  revert m. induction pkgs as [|p rest IH]; intros m Hnd; cbn [update_map_out].
  - by rewrite app_nil_r.
  - assert (Hfresh : Package.name p ∉ m.*1).
    { apply NoDup_app in Hnd as (_ & Hdisj & _). intros Hin.
      apply (Hdisj _ Hin). by left. }
    rewrite JSMap_set_fresh by done. rewrite IH.
    + by rewrite <- app_assoc.
    + rewrite fmap_app, <- app_assoc. done.
Qed.

Lemma map_entry_keys pkgs : (map_entry <$> pkgs).*1 = package_names pkgs.
Proof. unfold package_names. by rewrite <- list_fmap_compose. Qed.

Lemma update_changes_spec new m updated added :
  NoDup (package_names new) -> NoDup m.*1 ->
  update_changes new m updated added =
    (filter (fun kv => kv.1 ∉ package_names new) m,
     updated ++ (as_updated <$> filter (fun p => changed_since m p) new),
     added ++ (as_updated <$>
                 filter (fun p => JSMap.get (Package.name p) m = None) new)).
Proof.
  revert m updated added.
  induction new as [|p rest IH]; intros m updated added Hnew Hm.
  - cbn. rewrite !app_nil_r. f_equal. f_equal. symmetry. apply filter_all.
    apply Forall_forall. intros kv _. apply not_elem_of_nil.
  - cbn [package_names map] in Hnew. apply NoDup_cons in Hnew as [Hp Hrest].
    assert (Hm' : NoDup (JSMap.delete (Package.name p) m).*1).
    { rewrite JSMap_delete_filter by done.
      apply (NoDup_fmap_2_strong fst).
      - intros [k1 v1] [k2 v2] [_ H1]%list_elem_of_filter
          [_ H2]%list_elem_of_filter Hk. cbn in Hk. subst k2. f_equal.
        apply (JSMap_get_Some k1 v1 m Hm) in H1.
        apply (JSMap_get_Some k1 v2 m Hm) in H2. congruence.
      - apply NoDup_filter. eapply NoDup_fmap_1. exact Hm. }
    assert (Hget : forall q, q ∈ rest ->
              JSMap.get (Package.name q) (JSMap.delete (Package.name p) m) =
              JSMap.get (Package.name q) m).
    { intros q Hq.
      assert (Hne : Package.name q ≠ Package.name p).
      { intros Heq. apply Hp. rewrite <- Heq.
        apply list_elem_of_fmap. by exists q. }
      destruct (JSMap.get (Package.name q) m) as [v|] eqn:E.
      - apply JSMap_get_Some; [done|]. rewrite JSMap_delete_filter by done.
        apply list_elem_of_filter. split; [done|]. by apply JSMap_get_Some.
      - apply JSMap_get_None. apply JSMap_get_None in E.
        rewrite JSMap_delete_filter by done. intros Hin. apply E.
        apply list_elem_of_fmap in Hin as ([k v] & -> & Hin).
        apply list_elem_of_filter in Hin as [_ Hin].
        apply list_elem_of_fmap. by exists (k, v). }
    assert (Hmap : filter (fun kv => kv.1 ∉ package_names rest)
                     (JSMap.delete (Package.name p) m) =
                   filter (fun kv => kv.1 ∉ package_names (p :: rest)) m).
    { rewrite JSMap_delete_filter by done. rewrite list_filter_filter.
      apply filter_ext_in. intros [k v] _. cbn. split.
      - intros [Hk Hne] [->|Hin]%elem_of_cons; done.
      - intros Hk. split; [intros Hin; apply Hk; by right|].
        intros ->. apply Hk. by left. }
    assert (Hupd : filter (fun q => changed_since
                             (JSMap.delete (Package.name p) m) q) rest =
                   filter (fun q => changed_since m q) rest).
    { apply filter_ext_in. intros q Hq. unfold changed_since.
      by rewrite (Hget q Hq). }
    assert (Hadd : filter (fun q => JSMap.get (Package.name q)
                             (JSMap.delete (Package.name p) m) = None) rest =
                   filter (fun q => JSMap.get (Package.name q) m = None) rest).
    { apply filter_ext_in. intros q Hq. by rewrite (Hget q Hq). }
    cbn [update_changes]. rewrite !filter_cons.
    destruct (JSMap.get (Package.name p) m) as [before|] eqn:Ebefore.
    + assert (Hc : changed_since m p =
                   negb (updated_sha256 before =? Package.sha256 p)%string
                   || negb (updated_size before =? Package.size p)
                   || negb (updated_file before =? Package.file p)%string).
      { unfold changed_since. by rewrite Ebefore. }
      rewrite (decide_False (P := Some before = None)) by done.
      destruct (negb (updated_sha256 before =? Package.sha256 p)%string
                || negb (updated_size before =? Package.size p)
                || negb (updated_file before =? Package.file p)%string) eqn:Ediff.
      * rewrite IH by done. rewrite Hmap, Hupd, Hadd.
        rewrite decide_True by (rewrite Hc; exact I).
        rewrite fmap_cons, <- app_assoc. done.
      * rewrite IH by done. rewrite Hmap, Hupd, Hadd.
        rewrite decide_False by (rewrite Hc; exact id). done.
    + assert (Hc : changed_since m p = false).
      { unfold changed_since. by rewrite Ebefore. }
      rewrite IH by done. rewrite Hmap, Hupd, Hadd.
      rewrite decide_False by (rewrite Hc; exact id).
      rewrite decide_True by done.
      rewrite fmap_cons, <- app_assoc. done.
Qed.

Lemma update_Ok_inv data this report this' :
  update data this = (Ok report, this') ->
  exists packagesList,
    _parseData data = Ok packagesList /\
    _setPackagesList packagesList this = (Ok tt, this') /\
    report =
      (let '(map, updated, added) :=
         update_changes (packages this')
           (update_map_out (packages this) []) [] [] in
       mkReport updated added map.*2).
Proof.
  rewrite update_unfold.
  destruct (_parseData data) as [l|e]; [|done].
  destruct (_setPackagesList l this) as [[[]|e] this''] eqn:E; [|done].
  intros [= <- <-]. by exists l.
Qed.

(** The names of the catalogue a load installs are pairwise different. *)
Lemma _setPackagesList_names packagesList this this' :
  _setPackagesList packagesList this = (Ok tt, this') ->
  NoDup (package_names (packages this')).
Proof.
  intros Hset. apply _setPackagesList_Ok in Hset
    as (roots & ? & ? & ? & ? & ? & _ & _ & Hn & _ & _ & _ & _ & ->).
  by apply _packagesMapBy_key_NoDup in Hn.
Qed.

(** A second load of the same list installs the same catalogue. *)
Lemma _setPackagesList_again packagesList this this' :
  _setPackagesList packagesList this = (Ok tt, this') ->
  _setPackagesList packagesList this' = (Ok tt, this').
Proof.
  intros Hset. apply _setPackagesList_Ok in Hset
    as (roots & byName & bySha256 & bySha1 & byMd5 & byUnique
        & Hf & Hr & Hn & H256 & H1 & H5 & Hu & ->).
  unfold _setPackagesList.
  rewrite Hf. erewrite bind_Ok by reflexivity.
  rewrite Hr. erewrite bind_Ok by reflexivity.
  rewrite _listPackages_flatten.
  rewrite Hn. erewrite bind_Ok by reflexivity.
  rewrite H256. erewrite bind_Ok by reflexivity.
  rewrite H1. erewrite bind_Ok by reflexivity.
  rewrite H5. erewrite bind_Ok by reflexivity.
  rewrite Hu. erewrite bind_Ok by reflexivity.
  reflexivity.
Qed.

Lemma NoDup_fmap_eq {A B} (f : A -> B) (l : list A) x y :
  NoDup (f <$> l) -> x ∈ l -> y ∈ l -> f x = f y -> x = y.
Proof.
  induction l as [|a l IH]; [by intros _ ?%elem_of_nil|].
  rewrite fmap_cons. intros [Ha Hnd]%NoDup_cons.
  intros [->|Hx]%elem_of_cons [->|Hy]%elem_of_cons Heq; [done| | |by apply IH].
  - destruct Ha. rewrite Heq. apply list_elem_of_fmap. by exists y.
  - destruct Ha. rewrite <- Heq. apply list_elem_of_fmap. by exists x.
Qed.

Lemma report_names_of (P : Package -> Prop) `{!forall p, Decision (P p)}
    (pkgs : list Package) n :
  n ∈ report_names (as_updated <$> filter P pkgs) <->
  exists q, q ∈ pkgs /\ P q /\ Package.name q = n.
Proof.
  unfold report_names. rewrite <- list_fmap_compose. split.
  - intros (q & -> & [HP Hq]%list_elem_of_filter)%list_elem_of_fmap. by exists q.
  - intros (q & Hq & HP & <-). apply list_elem_of_fmap. exists q.
    split; [done|]. by apply list_elem_of_filter.
Qed.

Lemma get_map_entry_None old k :
  JSMap.get k (map_entry <$> old) = None <-> k ∉ package_names old.
Proof. by rewrite JSMap_get_None, map_entry_keys. Qed.

Lemma get_map_entry_Some old p :
  NoDup (package_names old) -> p ∈ old ->
  JSMap.get (Package.name p) (map_entry <$> old) = Some (as_updated p).
Proof.
  intros Hnd Hp. apply JSMap_get_Some; [by rewrite map_entry_keys|].
  apply list_elem_of_fmap. by exists p.
Qed.

Lemma significant_change_bool p q :
  negb (Package.sha256 p =? Package.sha256 q)%string
  || negb (Package.size p =? Package.size q)
  || negb (Package.file p =? Package.file q)%string = true <->
  significant_change p q.
Proof.
  unfold significant_change.
  rewrite !orb_true_iff, !negb_true_iff, !String.eqb_neq, Z.eqb_neq. tauto.
Qed.

Lemma changed_since_old old q :
  NoDup (package_names old) ->
  changed_since (map_entry <$> old) q <->
  exists p, p ∈ old /\ Package.name p = Package.name q /\ significant_change p q.
Proof.
  intros Hnd. unfold changed_since.
  destruct (JSMap.get (Package.name q) (map_entry <$> old)) as [before|] eqn:E.
  - apply JSMap_get_Some in E; [|by rewrite map_entry_keys].
    apply list_elem_of_fmap in E as (p & [= Hname ->] & Hp).
    change (updated_sha256 (as_updated p)) with (Package.sha256 p).
    change (updated_size (as_updated p)) with (Package.size p).
    change (updated_file (as_updated p)) with (Package.file p).
    rewrite Is_true_true, significant_change_bool. split.
    + intros Hsig. by exists p.
    + intros (p' & Hp' & Hname' & Hsig).
      assert (p' = p) as ->; [|done].
      apply (NoDup_fmap_eq Package.name old); [done..|congruence].
  - split; [done|]. intros (p & Hp & Hname & _).
    apply get_map_entry_None in E. destruct E. rewrite <- Hname.
    apply list_elem_of_fmap. by exists p.
Qed.

Lemma removed_names old new n :
  n ∈ report_names
        (filter (fun kv => kv.1 ∉ package_names new) (map_entry <$> old)).*2 <->
  n ∈ package_names old /\ n ∉ package_names new.
Proof.
  unfold report_names. split.
  - intros (v & -> & Hv)%list_elem_of_fmap.
    apply list_elem_of_fmap in Hv as ([k v'] & [= <-] & Hin).
    apply list_elem_of_filter in Hin as [Hk Hin].
    apply list_elem_of_fmap in Hin as (p & [= -> ->] & Hp). cbn in Hk.
    split; [|done]. apply list_elem_of_fmap. by exists p.
  - intros [(p & -> & Hp)%list_elem_of_fmap Hnew].
    apply list_elem_of_fmap. exists (as_updated p). split; [done|].
    apply list_elem_of_fmap. exists (map_entry p). split; [done|].
    apply list_elem_of_filter. split; [done|].
    apply list_elem_of_fmap. by exists p.
Qed.

(** The report of an [update] that succeeds, in closed form. *)
Lemma update_report data this report this' :
  NoDup (package_names (packages this)) ->
  update data this = (Ok report, this') ->
  NoDup (package_names (packages this')) /\
  report =
    mkReport
      (as_updated <$>
         filter (fun q => changed_since (map_entry <$> packages this) q)
           (packages this'))
      (as_updated <$>
         filter (fun q => JSMap.get (Package.name q)
                            (map_entry <$> packages this) = None)
           (packages this'))
      (filter (fun kv => kv.1 ∉ package_names (packages this'))
         (map_entry <$> packages this)).*2.
Proof.
  intros Hold (l & _ & Hset & ->)%update_Ok_inv.
  pose proof (_setPackagesList_names _ _ _ Hset) as Hnew.
  split; [done|].
  rewrite update_map_out_entries by done. cbn [app].
  rewrite update_changes_spec; [done | done | by rewrite map_entry_keys].
Qed.

(** C6. [update] sorts every package name into exactly one of added,
    updated, removed or unchanged. A name is added exactly when it is in
    the new catalogue only, removed exactly when it is in the old one only,
    and updated exactly when it is in both and the file, the size or the
    sha256 differs; a name in both whose entries differ in nothing or in the
    source only is in none of the three lists. Loading the same content
    again reports nothing. The names of the previous catalogue are pairwise
    different, as they are after every load. *)
Theorem update_classifies (this : Packages) (data : string) (report : Report)
    (this' : Packages) :
  NoDup (package_names (packages this)) ->
  update data this = (Ok report, this') ->
  let old := packages this in
  let new := packages this' in
  (forall n, n ∈ report_names (added report) <->
             n ∈ package_names new /\ n ∉ package_names old) /\
  (forall n, n ∈ report_names (removed report) <->
             n ∈ package_names old /\ n ∉ package_names new) /\
  (forall n, n ∈ report_names (updated report) <->
             exists p q, p ∈ old /\ q ∈ new /\ Package.name p = n /\
                         Package.name q = n /\ significant_change p q) /\
  (forall n, (n ∈ report_names (added report) ->
              ((n ∉ report_names (updated report)) /\
               (n ∉ report_names (removed report)))) /\
             (n ∈ report_names (updated report) ->
              n ∉ report_names (removed report))) /\
  (forall p q, p ∈ old -> q ∈ new -> Package.name p = Package.name q ->
               ~ significant_change p q ->
               ((Package.name q ∉ report_names (added report)) /\
                (Package.name q ∉ report_names (updated report)) /\
                (Package.name q ∉ report_names (removed report)))) /\
  update data this' = (Ok (mkReport [] [] []), this').
Proof.
  intros Hold Hrun old new.
  destruct (update_report _ _ _ _ Hold Hrun) as [Hnew Hreport].
  assert (Hadded : forall n, n ∈ report_names (added report) <->
                             n ∈ package_names new /\ n ∉ package_names old).
  { intros n. rewrite Hreport. cbn [added]. rewrite report_names_of. split.
    - intros (q & Hq & Hnone%get_map_entry_None & <-).
      split; [|done]. apply list_elem_of_fmap. by exists q.
    - intros [(q & -> & Hq)%list_elem_of_fmap Hn]. exists q.
      split; [done|]. split; [|done]. by apply get_map_entry_None. }
  assert (Hremoved : forall n, n ∈ report_names (removed report) <->
                               n ∈ package_names old /\ n ∉ package_names new).
  { intros n. rewrite Hreport. cbn [removed]. apply removed_names. }
  assert (Hupdated : forall n, n ∈ report_names (updated report) <->
            exists p q, p ∈ old /\ q ∈ new /\ Package.name p = n /\
                        Package.name q = n /\ significant_change p q).
  { intros n. rewrite Hreport. cbn [updated]. rewrite report_names_of. split.
    - intros (q & Hq & (p & Hp & Hname & Hsig)%changed_since_old & <-); [|done].
      by exists p, q.
    - intros (p & q & Hp & Hq & Hnp & Hnq & Hsig). exists q.
      split; [done|]. split; [|done]. apply changed_since_old; [done|].
      exists p. split; [done|]. split; [congruence | done]. }
  split; [done|]. split; [done|]. split; [done|]. split; [|split].
  - intros n. split.
    + intros [Hin Hnot]%Hadded. split.
      * intros (p & q & Hp & _ & <- & _)%Hupdated. apply Hnot.
        apply list_elem_of_fmap. by exists p.
      * by intros [_ ?]%Hremoved.
    + intros (p & q & _ & Hq & _ & <- & _)%Hupdated [_ Hnot]%Hremoved.
      apply Hnot. apply list_elem_of_fmap. by exists q.
  - intros p q Hp Hq Hname Hsame. split; [|split].
    + intros [_ Hnot]%Hadded. apply Hnot. rewrite <- Hname.
      apply list_elem_of_fmap. by exists p.
    + intros (p' & q' & Hp' & Hq' & Hnp & Hnq & Hsig)%Hupdated.
      assert (p' = p) as ->
        by (apply (NoDup_fmap_eq Package.name old); [done..|congruence]).
      assert (q' = q) as ->
        by (apply (NoDup_fmap_eq Package.name new); [done..|congruence]).
      done.
    + intros [_ Hnot]%Hremoved. apply Hnot.
      apply list_elem_of_fmap. by exists q.
  - apply update_Ok_inv in Hrun as (l & Hparse & Hset & _).
    apply _setPackagesList_again in Hset.
    rewrite update_unfold, Hparse, Hset.
    rewrite update_map_out_entries by done. cbn [app].
    rewrite update_changes_spec; [|done|by rewrite map_entry_keys].
    f_equal. fold new.
    assert (Hu : filter (fun q => changed_since (map_entry <$> new) q) new = []).
    { apply filter_none. apply Forall_forall.
      intros q Hq (p & Hp & Hname & Hsig)%changed_since_old; [|done].
      assert (p = q) as ->
        by (apply (NoDup_fmap_eq Package.name new); done).
      destruct Hsig as [?|[?|?]]; done. }
    assert (Ha : filter (fun q => JSMap.get (Package.name q)
                                    (map_entry <$> new) = None) new = []).
    { apply filter_none. apply Forall_forall.
      intros q Hq Hnone%get_map_entry_None. apply Hnone.
      apply list_elem_of_fmap. by exists q. }
    assert (Hr : filter (fun kv => kv.1 ∉ package_names new)
                   (map_entry <$> new) = []).
    { apply filter_none. apply Forall_forall.
      intros [k v] (p & [= -> ->] & Hp)%list_elem_of_fmap Hnot. apply Hnot.
      apply list_elem_of_fmap. by exists p. }
    by rewrite Hu, Ha, Hr.
Qed.

End Report.


(** The format gate of the test-suite against the engine format 1.2. *)
Example format_gate :
  @_validateFormat Examples.runtime "0.0" = Throw (InvalidFormatVersionMajor "0.0") /\
  @_validateFormat Examples.runtime "2.0" = Throw (InvalidFormatVersionMajor "2.0") /\
  @_validateFormat Examples.runtime "1.0" = Throw (InvalidFormatVersionMinor "1.0") /\
  @_validateFormat Examples.runtime "1.2" = Ok tt /\
  @_validateFormat Examples.runtime "1.3" = Ok tt /\
  @_validateFormat Examples.runtime "1" = Throw (InvalidFormatVersionValue "1") /\
  @_validateFormat Examples.runtime "x.2" = Throw (InvalidFormatVersionMajor "x.2").
Proof. repeat split; reflexivity. Qed.

(** C5, the failing input. The format ["1.x"] is not two non-negative
    integers: its minor part converts to [NaN]. The comparison of the minor
    part is false for [NaN], so [_validateFormat] returns without throwing
    and a catalogue with this format loads. *)
Theorem validateFormat_accepts_non_numeric_minor :
  @Number Examples.runtime "x" = JS.NaN /\
  JS.lt JS.NaN (JS.Num 2) = false /\
  @_validateFormat Examples.runtime "1.x" = Ok tt /\
  is_Ok (fst (@update Examples.runtime "catalog-1.x"
                (Packages.new [META_DIR; PACKAGES_FILE]))) = true.
Proof. repeat split; vm_compute; reflexivity. Qed.

(** The catalogue of the examples after a first load. *)
Lemma example_first_load :
  exists report,
    @update Examples.runtime "catalog-1" (Packages.new [META_DIR; PACKAGES_FILE]) =
    (Ok report, snd (@update Examples.runtime "catalog-1"
                       (Packages.new [META_DIR; PACKAGES_FILE]))).
Proof. eexists. vm_compute. reflexivity. Qed.

(** A catalogue that repeats the name [single] in a nested entry is refused
    and the first catalogue stays loaded. *)
Lemma load_all_or_nothing_witness :
  let loaded1 :=
    snd (@update Examples.runtime "catalog-1"
           (Packages.new [META_DIR; PACKAGES_FILE])) in
  @load_rejected Examples.runtime "catalog-duplicate" /\
  exists e, @update Examples.runtime "catalog-duplicate" loaded1 = (Throw e, loaded1).
Proof.
  intros loaded1.
  assert (Hrej : @load_rejected Examples.runtime "catalog-duplicate").
  { eapply (@rejected_duplicate Examples.runtime _ _ _ _ ByName);
      [reflexivity | reflexivity |].
    vm_compute. intros Hnd.
    apply NoDup_cons in Hnd as [_ Hnd]. apply NoDup_cons in Hnd as [Hnotin _].
    apply Hnotin. left. }
  split; [exact Hrej|].
  exact (proj1 (@load_all_or_nothing Examples.runtime loaded1
                  "catalog-duplicate") Hrej).
Defined.

(** C4, the failing input. A catalogue whose format is ["1.x"] has a
    format-version mismatch: the format is not two non-negative integers.
    Its load does not fail: on a catalogue object that holds the second
    catalogue of the examples, [update] returns and replaces the list, the
    set and the indexes by those of the new input; the package [old], which
    the previous generation does not have, is found afterwards. The gate
    lets the format through for the reason of C5: the minor part converts
    to [NaN], which compares below nothing. *)
Theorem load_accepts_format_mismatch :
  let previous :=
    snd (@update Examples.runtime "catalog-2"
           (Packages.new [META_DIR; PACKAGES_FILE])) in
  let run := @update Examples.runtime "catalog-1.x" previous in
  @JSON_parse Examples.runtime "catalog-1.x" =
    Some (U_object (Some "1.x") (Some Examples.catalog_1)) /\
  format_supported "1.x" = false /\
  @format_passes Examples.runtime "1.x" /\
  is_Ok run.1 = true /\
  _packagesList previous = Some (mkList "1.3" Examples.catalog_2) /\
  _packagesList run.2 = Some (mkList "1.x" Examples.catalog_1) /\
  package_names (packages previous) = ["archive"; "child"; "single"; "new"] /\
  package_names (packages run.2) = ["archive"; "child"; "single"; "old"] /\
  byName previous "old" = None /\
  is_Some (byName run.2 "old").
Proof.
  intros previous run.
  split; [reflexivity|]. split; [reflexivity|].
  split; [by exists "1", "x"|].
  split; [vm_compute; reflexivity|]. split; [vm_compute; reflexivity|].
  split; [vm_compute; reflexivity|]. split; [vm_compute; reflexivity|].
  split; [vm_compute; reflexivity|]. split; [vm_compute; reflexivity|].
  vm_compute. by eexists.
Qed.


(** The second catalogue of the examples against the first: [new] is added,
    [old] is removed, [single] changed its size, and [archive], which only
    moved to another source, is not reported. *)
Lemma update_classifies_witness :
  let loaded1 :=
    snd (@update Examples.runtime "catalog-1"
           (Packages.new [META_DIR; PACKAGES_FILE])) in
  let second := @update Examples.runtime "catalog-2" loaded1 in
  let report :=
    mkReport [mkUpdated "single" "single.bin" 7 "single-sha256"]
             [mkUpdated "new" "new.bin" 4 "new-sha256"]
             [mkUpdated "old" "old.bin" 4 "old-sha256"] in
  NoDup (package_names (packages loaded1)) /\
  second = (Ok report, snd second) /\
  @update Examples.runtime "catalog-2" (snd second) =
    (Ok (mkReport [] [] []), snd second).
Proof.
  intros loaded1 second report.
  assert (Hnames : NoDup (package_names (packages loaded1))).
  { apply (bool_decide_unpack _). vm_compute. exact I. }
  assert (Hsecond : second = (Ok report, snd second)).
  { vm_compute. reflexivity. }
  split; [exact Hnames|]. split; [exact Hsecond|].
  exact (proj2 (proj2 (proj2 (proj2 (proj2
    (@update_classifies Examples.runtime loaded1 "catalog-2" report
       (snd second) Hnames Hsecond)))))).
Defined.

End CatalogFacts.

(** ** The manager on a loaded catalogue *)

Module ManagerFacts.
Import Manager ManagerSpec.

Section Loaded.
Context `{Runtime} (this : Manager).
Implicit Types (w : World) (pkg : PackageLike).

Lemma loaded_run w : loaded w = (Ok (Packages.loaded (catalog w)), w).
Proof. reflexivity. Qed.

Lemma ensureLoaded_run w : loaded_world w -> ensureLoaded w = (Ok tt, w).
Proof.
  intros Hl. unfold ensureLoaded.
  erewrite bind_Ok.
  2:{ unfold ensureLoad. erewrite bind_Ok by apply loaded_run.
      rewrite Hl. reflexivity. }
  unfold assertLoaded. erewrite bind_Ok by apply loaded_run.
  rewrite Hl. reflexivity.
Qed.

Lemma packageByUnique_run w unique :
  loaded_world w ->
  packageByUnique unique w = (Ok (Packages.byUnique (catalog w) unique), w).
Proof.
  intros Hl. unfold packageByUnique.
  by erewrite bind_Ok by by apply ensureLoaded_run.
Qed.

Lemma packageByName_run w name :
  loaded_world w ->
  packageByName name w = (Ok (Packages.byName (catalog w) name), w).
Proof.
  intros Hl. unfold packageByName.
  by erewrite bind_Ok by by apply ensureLoaded_run.
Qed.

Lemma _asName_run w pkg :
  loaded_world w -> _asName pkg w = (Ok (name_of (catalog w) pkg), w).
Proof.
  intros Hl. unfold _asName.
  erewrite bind_Ok by by apply ensureLoaded_run.
  destruct pkg as [p|s]; [done|].
  by erewrite bind_Ok by by apply packageByUnique_run.
Qed.

Lemma _asPackage_run w pkg :
  loaded_world w ->
  _asPackage pkg w =
    (match pkg with
     | ByObject p => Ok p
     | ByString s =>
         match Packages.byUnique (catalog w) s with
         | Some p => Ok p
         | None => Throw (UnknownPackage s)
         end
     end, w).
Proof.
  intros Hl. unfold _asPackage.
  erewrite bind_Ok by by apply ensureLoaded_run.
  destruct pkg as [p|s]; [done|].
  erewrite bind_Ok by by apply packageByUnique_run.
  by destruct (Packages.byUnique (catalog w) s).
Qed.

Lemma pathToPackage_run w pkg parts :
  loaded_world w ->
  pathToPackage this pkg parts w = (Ok (package_path this (catalog w) pkg parts), w).
Proof.
  intros Hl. unfold pathToPackage.
  erewrite bind_Ok by by apply ensureLoaded_run.
  by erewrite bind_Ok by by apply _asName_run.
Qed.

Lemma pathToPackageMeta_run w pkg parts :
  loaded_world w ->
  pathToPackageMeta this pkg parts w =
    (Ok (package_meta_path this (catalog w) pkg parts), w).
Proof.
  intros Hl. unfold pathToPackageMeta.
  erewrite bind_Ok by by apply ensureLoaded_run.
  by erewrite bind_Ok by by apply _asName_run.
Qed.

(** [receipt] returns the receipt that can be read and parsed, and throws
    "Package is not installed" in every other case. *)
Lemma receipt_run w pkg :
  loaded_world w ->
  receipt this pkg w =
    (match read_receipt (fs w) (receipt_path this (catalog w) pkg) with
     | Some r => Ok r
     | None => Throw (PackageIsNotInstalled (name_of (catalog w) pkg))
     end, w).
Proof.
  intros Hl. unfold receipt.
  erewrite bind_Ok by by apply ensureLoaded_run.
  erewrite bind_Ok by by apply _asName_run.
  erewrite bind_Ok by by apply pathToPackageMeta_run.
  unfold read_receipt, receipt_path, packageFile.
  set (pkgf := package_meta_path this (catalog w) _ _).
  unfold try_catch, readFile_utf8, fs_read, mbind, ST_bind, get_state,
    lift_result, mret, ST_ret, throw.
  destruct (FS.readFile pkgf (fs w)) as [data|e]; [|done].
  by destruct (JSON_parse_receipt (String.string_of_list_byte data)) as [[r|]|].
Qed.

Lemma isInstalled_run w pkg p :
  loaded_world w -> as_package (catalog w) pkg = Some p ->
  isInstalled this pkg w =
    (Ok (bool_decide (is_Some (read_receipt (fs w)
                                 (receipt_path this (catalog w) (ByObject p))))), w).
Proof.
  intros Hl Hp. unfold isInstalled.
  erewrite bind_Ok by by apply ensureLoaded_run.
  erewrite bind_Ok.
  2:{ rewrite _asPackage_run by done. destruct pkg as [q|s]; cbn in Hp.
      - by injection Hp as ->.
      - by rewrite Hp. }
  unfold try_catch. unfold mbind at 1, ST_bind at 1.
  rewrite receipt_run by done.
  by destruct (read_receipt _ _).
Qed.

Lemma isCurrent_run w pkg p :
  loaded_world w -> as_package (catalog w) pkg = Some p ->
  isCurrent this pkg w =
    (Ok (match read_receipt (fs w) (receipt_path this (catalog w) (ByObject p)) with
         | Some data => receipt_matches data p
         | None => false
         end), w).
Proof.
  intros Hl Hp. unfold isCurrent.
  erewrite bind_Ok by by apply ensureLoaded_run.
  erewrite bind_Ok.
  2:{ rewrite _asPackage_run by done. destruct pkg as [q|s]; cbn in Hp.
      - by injection Hp as ->.
      - by rewrite Hp. }
  unfold try_catch. unfold mbind at 1, ST_bind at 1.
  unfold mbind at 1, ST_bind at 1.
  rewrite receipt_run by done.
  by destruct (read_receipt _ _).
Qed.

Lemma receipt_failure_read n path :
  receipt_failure n path -> read_receipt n path = None.
Proof.
  unfold read_receipt. intros [e He|data Hd Hp]; [by rewrite He|].
  by rewrite Hd, Hp.
Qed.

(** C10. On a loaded catalogue and for a package the manager knows, every
    failure to read the receipt file (a missing file, a directory in its
    place, a path that cannot be resolved) and every failure to parse its
    content as JSON makes [receipt] throw "Package is not installed", and
    [isInstalled] and [isCurrent] return false instead of propagating the
    error; the world is left as it was. *)
Theorem corrupt_receipt_is_not_installed (w : World) (pkg : PackageLike)
    (p : Package) :
  loaded_world w ->
  as_package (catalog w) pkg = Some p ->
  receipt_failure (fs w) (receipt_path this (catalog w) (ByObject p)) ->
  receipt this (ByObject p) w =
    (Throw (PackageIsNotInstalled (Package.name p)), w) /\
  isInstalled this pkg w = (Ok false, w) /\
  isCurrent this pkg w = (Ok false, w).
Proof.
  intros Hl Hp Hfail%receipt_failure_read.
  rewrite receipt_run, (isInstalled_run w pkg p), (isCurrent_run w pkg p) by done.
  rewrite Hfail. split; [done|]. split; [|done].
  rewrite bool_decide_eq_false_2; [done | by intros [? ?]].
Qed.

End Loaded.

(** *** Requests *)

Section Requests.
Context `{Runtime} (this : Manager).
Implicit Types (w : World).

Lemma fetch_count_snoc t request :
  fetch_count (t ++ [Fetch request]) = S (fetch_count t).
Proof.
  unfold fetch_count. rewrite filter_app, length_app.
  rewrite filter_cons_True by exact I. cbn. lia.
Qed.

Lemma fetch_call_run w url headers :
  fetch_call url headers w =
    (match transport w (fetch_count (trace w)) (mkRequest url headers) with
     | Resolved res => Ok res
     | Rejected reason => Throw (Rejection reason)
     end, with_effects w [Fetch (mkRequest url headers)]).
Proof.
  unfold fetch_call, mbind, ST_bind, get_state, log, modify_state. cbn.
  by destruct (transport w _ _).
Qed.

(** [retry] calls the fetch function once, and once more exactly when the
    first call is rejected; the answer of a call that resolves is returned
    whatever its status. *)
Lemma fetch_retry_run w url headers :
  fetch_retry url headers w = retry_outcome w (mkRequest url headers).
Proof.
  unfold fetch_retry, retry, try_catch, retry_outcome.
  rewrite fetch_call_run.
  destruct (transport w (fetch_count (trace w)) _) as [res|reason]; [done|].
  rewrite fetch_call_run. cbn [trace with_effects transport].
  rewrite fetch_count_snoc.
  unfold with_effects. cbn [fs catalog transport trace].
  rewrite <- app_assoc. cbn [app].
  destruct (transport w (S (fetch_count (trace w))) _) as [res|[reason'|]]; done.
Qed.

(** The effects of a request: one or two calls with the same request. *)
Lemma retry_outcome_effects w request :
  exists calls,
    (calls = [Fetch request] \/ calls = [Fetch request; Fetch request]) /\
    snd (retry_outcome w request) = with_effects w calls.
Proof.
  unfold retry_outcome.
  destruct (transport w (fetch_count (trace w)) request); cbn; eauto.
Qed.

Lemma check_content_length_run w res expected err :
  check_content_length res expected err w =
    (if content_length_ok res expected then Ok tt
     else Throw (err (default "" (headers_get res "content-length"))), w).
Proof.
  unfold check_content_length, content_length_ok.
  destruct (headers_get res "content-length") as [cl|]; [|done]. cbn.
  destruct (JS.truthy_string cl); cbn; [|done].
  by destruct (JS.strict_eq (Number cl) expected).
Qed.

(** The ranged fetch of [install]. *)
Lemma install_input_ranged w srcPkg start size :
  JS.gt size (JS.Num 0) = true ->
  install_input this srcPkg (Some (start, size)) w =
    (match fst (retry_outcome w (range_request this srcPkg start size)) with
     | Ok res =>
         if negb (status res =? 206) then
           Throw (InvalidResumeStatus (status res) (Package.source srcPkg))
         else if content_length_ok res size then Ok (body res)
         else Throw (InvalidResumeContentLength
                       (default "" (headers_get res "content-length"))
                       (Package.source srcPkg))
     | Throw e => Throw e
     end, snd (retry_outcome w (range_request this srcPkg start size))).
Proof.
  intros Hsize. unfold install_input. rewrite Hsize.
  unfold mbind at 1, ST_bind at 1. rewrite fetch_retry_run.
  fold (range_request this srcPkg start size).
  destruct (retry_outcome w _) as [[res|e] w']; [|done]. cbn [fst snd].
  destruct (negb (status res =? 206)); [done|].
  unfold mbind, ST_bind. rewrite check_content_length_run.
  by destruct (content_length_ok res size).
Qed.

(** The plain fetch of [install]. *)
Lemma install_input_plain w srcPkg :
  install_input this srcPkg None w =
    (match fst (retry_outcome w (plain_request this srcPkg)) with
     | Ok res =>
         if negb (status res =? 200) then
           Throw (InvalidDownloadStatus (status res) (Package.source srcPkg))
         else if content_length_ok res (JS.Num (Package.size srcPkg))
         then Ok (body res)
         else Throw (InvalidDownloadContentLength
                       (default "" (headers_get res "content-length"))
                       (Package.source srcPkg))
     | Throw e => Throw e
     end, snd (retry_outcome w (plain_request this srcPkg))).
Proof.
  unfold install_input.
  unfold mbind at 1, ST_bind at 1. rewrite fetch_retry_run.
  fold (plain_request this srcPkg).
  destruct (retry_outcome w _) as [[res|e] w']; [|done]. cbn [fst snd].
  destruct (negb (status res =? 200)); [done|].
  unfold mbind, ST_bind. rewrite check_content_length_run.
  by destruct (content_length_ok res _).
Qed.

(** [_requestPackages] with a fetch function. *)
Lemma _requestPackages_run w :
  fetch this = true ->
  _requestPackages this w =
    (match fst (retry_outcome w (packages_request this)) with
     | Ok res =>
         if negb (status res =? 200) then
           Throw (InvalidResponseStatus (status res) (packagesUrl this))
         else match text res with
              | Some data => Ok data
              | None => Throw ResponseTextFailed
              end
     | Throw e => Throw e
     end, snd (retry_outcome w (packages_request this))).
Proof.
  intros Hfetch. unfold _requestPackages, _ensureFetch. rewrite Hfetch.
  erewrite bind_Ok by reflexivity.
  unfold mbind at 1, ST_bind at 1. rewrite fetch_retry_run.
  fold (packages_request this).
  destruct (retry_outcome w _) as [[res|e] w']; [|done]. cbn [fst snd].
  destruct (negb (status res =? 200)); [done|].
  by destruct (text res).
Qed.

End Requests.

(** The package [single] whose receipt file is not JSON. *)
Lemma corrupt_receipt_is_not_installed_witness :
  let w := Examples.world_corrupt_receipt in
  let this := Examples.manager in
  loaded_world w /\
  as_package (catalog w) (ByString "single") = Some Examples.pkg_single /\
  @receipt_failure Examples.runtime (fs w)
    (receipt_path this (catalog w) (ByObject Examples.pkg_single)) /\
  @isInstalled Examples.runtime this (ByString "single") w = (Ok false, w) /\
  @isCurrent Examples.runtime this (ByString "single") w = (Ok false, w).
Proof.
  intros w this.
  assert (Hl : loaded_world w) by (vm_compute; reflexivity).
  assert (Hp : as_package (catalog w) (ByString "single") = Some Examples.pkg_single)
    by (vm_compute; reflexivity).
  assert (Hf : @receipt_failure Examples.runtime (fs w)
                 (receipt_path this (catalog w) (ByObject Examples.pkg_single))).
  { eapply (@receipt_parse_fails Examples.runtime); vm_compute; reflexivity. }
  split; [exact Hl|]. split; [exact Hp|]. split; [exact Hf|].
  exact (proj2 (@corrupt_receipt_is_not_installed Examples.runtime this w
                  (ByString "single") Examples.pkg_single Hl Hp Hf)).
Defined.

End ManagerFacts.

(** ** The file system *)

Module FSFacts.
Import FS.

Implicit Types (n : Node) (p q a : Path) (x y : string).

Lemma resolve_app p q n :
  resolve (p ++ q) n = resolve p n ≫= resolve q.
Proof.
  revert n. induction p as [|x p IH]; intros n; cbn; [done|].
  destruct n as [d|m]; [done|]. by destruct (m !! x).
Qed.

Lemma lookup_resolve p n v : lookup p n = Some v <-> resolve p n = Ok v.
Proof.
  unfold lookup. destruct (resolve p n); split; intros; by simplify_eq.
Qed.

Lemma lookup_None_resolve p n : lookup p n = None <-> exists e, resolve p n = Throw e.
Proof.
  unfold lookup. destruct (resolve p n) as [v|e]; split; try done.
  - by intros [? ?].
  - eauto.
Qed.

(** What lies above a path that resolves is a directory. *)
Lemma resolve_above p y q n v :
  resolve (p ++ y :: q) n = Ok v -> exists m, resolve p n = Ok (Dir m).
Proof.
  rewrite resolve_app. destruct (resolve p n) as [[d|m]|e]; cbn; [done|eauto|done].
Qed.

Lemma set_entry_lookup_ne x y o (m : gmap string Node) :
  x ≠ y -> set_entry y o m !! x = m !! x.
Proof.
  intros Hne. destruct o; cbn.
  - by rewrite lookup_insert_ne.
  - by rewrite lookup_delete_ne.
Qed.

Lemma set_entry_lookup x o (m : gmap string Node) : set_entry x o m !! x = o.
Proof.
  destruct o; cbn; [by rewrite lookup_insert_eq | by rewrite lookup_delete_eq].
Qed.

(** [modify] on a path with at least two components. *)
Lemma modify_cons2 force f x y p (m : gmap string Node) :
  modify force f (x :: y :: p) (Dir m) =
  match m !! x with
  | None => if force then Ok (Dir m) else Throw ENOENT
  | Some c => c' ← modify force f (y :: p) c; Ok (Dir (<[x := c']> m))
  end.
Proof. reflexivity. Qed.

Lemma modify_cons1 force f x (m : gmap string Node) :
  modify force f [x] (Dir m) = o ← f (m !! x); Ok (Dir (set_entry x o m)).
Proof. reflexivity. Qed.

(** A change at a path leaves alone what branches off it. *)
Lemma modify_diverge force f a x y p q n n' :
  x ≠ y ->
  modify force f (a ++ y :: p) n = Ok n' ->
  resolve (a ++ x :: q) n' = resolve (a ++ x :: q) n.
Proof.
  intros Hne. revert n n'. induction a as [|z a IH]; intros n n'.
  - cbn [app]. destruct n as [d|m]; [done|].
    destruct p as [|y' p].
    + rewrite modify_cons1. destruct (f (m !! y)) as [o|e]; [|done].
      cbn. intros [= <-]. cbn. by rewrite set_entry_lookup_ne.
    + rewrite modify_cons2. destruct (m !! y) as [c|] eqn:E.
      * destruct (modify force f (y' :: p) c) as [c'|e]; [|done].
        cbn. intros [= <-]. cbn. by rewrite lookup_insert_ne.
      * destruct force; [|done]. by intros [= <-].
  - destruct n as [d|m]; [done|].
    assert (Hcons : exists y' p', a ++ y :: p = y' :: p').
    { destruct a; cbn; eauto. }
    destruct Hcons as (y' & p' & Hp). cbn [app]. rewrite Hp, modify_cons2.
    rewrite <- Hp.
    destruct (m !! z) as [c|] eqn:E.
    + destruct (modify force f (a ++ y :: p) c) as [c'|e] eqn:Ec; [|done].
      cbn. intros [= <-]. cbn. rewrite lookup_insert_eq, E. by apply IH.
    + destruct force; [|done]. by intros [= <-].
Qed.

(** A change below a file fails. *)
Lemma modify_through_file force f a y p n d :
  resolve a n = Ok (File d) ->
  modify force f (a ++ y :: p) n = Throw ENOTDIR.
Proof.
  intros Hres. revert n Hres. induction a as [|z a IH]; intros n Hres.
  - cbn in Hres. injection Hres as ->. done.
  - destruct n as [d'|m]; [done|]. cbn in Hres.
    destruct (m !! z) as [c|] eqn:E; [|done].
    assert (Hcons : exists y' p', a ++ y :: p = y' :: p').
    { destruct a; cbn; eauto. }
    destruct Hcons as (y' & p' & Hp). cbn [app]. rewrite Hp, modify_cons2, E.
    rewrite <- Hp. by rewrite (IH c Hres).
Qed.

(** What a change does at its own path. When a directory on the way is
    missing the tree is unchanged; otherwise the entry is [f] of what it
    was. *)
Lemma modify_target force f a x n n' :
  modify force f (a ++ [x]) n = Ok n' ->
  (n' = n /\ lookup (a ++ [x]) n = None /\ force = true /\ lookup a n = None) \/
  (exists m o, resolve a n = Ok (Dir m) /\ f (m !! x) = Ok o /\
               lookup (a ++ [x]) n' = o /\
               resolve a n' = Ok (Dir (set_entry x o m))).
Proof.
  revert n n'. induction a as [|z a IH]; intros n n'.
  - cbn [app]. destruct n as [d|m]; [done|]. rewrite modify_cons1.
    destruct (f (m !! x)) as [o|e] eqn:Ef; [|done]. cbn. intros [= <-].
    right. exists m, o. split; [done|]. split; [done|]. split; [|done].
    unfold lookup. cbn. rewrite set_entry_lookup. by destruct o.
  - destruct n as [d|m]; [done|].
    assert (Hcons : exists y' p', a ++ [x] = y' :: p').
    { destruct a; cbn; eauto. }
    destruct Hcons as (y' & p' & Hp). cbn [app]. rewrite Hp, modify_cons2.
    rewrite <- Hp.
    destruct (m !! z) as [c|] eqn:E.
    + destruct (modify force f (a ++ [x]) c) as [c'|e] eqn:Ec; [|done].
      cbn. intros [= <-].
      destruct (IH c c' Ec) as [(-> & Hnone & Hforce & Ha)|(m' & o & Ha & Hf & Ho & Ha')].
      * left. rewrite insert_id by done. split; [done|].
        unfold lookup in *. cbn. rewrite E. done.
      * right. exists m', o. unfold lookup in *. cbn.
        rewrite lookup_insert_eq, E. done.
    + destruct force; [|done]. intros [= <-]. left.
      unfold lookup. cbn. rewrite E. done.
Qed.


Lemma resolve_empty x q : resolve (x :: q) (Dir ∅) = Throw ENOENT.
Proof. cbn. by rewrite lookup_empty. Qed.

(** [mkdir] leaves alone what branches off its path. *)
Lemma mkdir_diverge a x y p q n n' :
  x ≠ y ->
  mkdir (a ++ y :: p) n = Ok n' ->
  resolve (a ++ x :: q) n' = resolve (a ++ x :: q) n.
Proof.
  intros Hne. revert n n'. induction a as [|z a IH]; intros n n'.
  - cbn [app mkdir]. destruct n as [d|m]; [done|].
    destruct (mkdir p (default (Dir ∅) (m !! y))) as [c'|e]; [|done].
    cbn. intros [= <-]. cbn. by rewrite lookup_insert_ne.
  - cbn [app mkdir]. destruct n as [d|m]; [done|].
    destruct (mkdir (a ++ y :: p) (default (Dir ∅) (m !! z))) as [c'|e] eqn:Ec;
      [|done].
    cbn. intros [= <-]. cbn. rewrite lookup_insert_eq.
    rewrite (IH _ _ Ec). destruct (m !! z) as [c|]; [done|].
    cbn [default id]. destruct a; apply resolve_empty.
Qed.

(** After [mkdir] every directory on the path exists. *)
Lemma mkdir_above a p n n' :
  mkdir (a ++ p) n = Ok n' -> exists m, resolve a n' = Ok (Dir m).
Proof.
  revert n n'. induction a as [|z a IH]; intros n n'.
  - cbn [app]. destruct n as [d|m].
    + by destruct p.
    + destruct p as [|x p]; cbn.
      * intros [= <-]. eauto.
      * destruct (mkdir p _) as [c'|e]; [|done]. cbn. intros [= <-]. eauto.
  - cbn [app mkdir]. destruct n as [d|m]; [done|].
    destruct (mkdir (a ++ p) (default (Dir ∅) (m !! z))) as [c'|e] eqn:Ec; [|done].
    cbn. intros [= <-]. cbn. rewrite lookup_insert_eq. by eapply IH.
Qed.

(** [mkdir] of a directory that exists changes nothing. *)
Lemma mkdir_existing p n m :
  resolve p n = Ok (Dir m) -> mkdir p n = Ok n.
Proof.
  revert n. induction p as [|x p IH]; intros n.
  - cbn. by intros [= ->].
  - cbn. destruct n as [d|m']; [done|].
    destruct (m' !! x) as [c|] eqn:E; [|done]. intros Hc.
    cbn [default id]. rewrite (IH c Hc). cbn. by rewrite insert_id.
Qed.

(** [rm] leaves nothing at its path, and keeps the directories above it. *)
Lemma rm_target recursive a x n n' :
  rm recursive (a ++ [x]) n = Ok n' -> lookup (a ++ [x]) n' = None.
Proof.
  intros [(-> & Hnone & _)|(m & o & _ & Hf & Ho & _)]%modify_target; [done|].
  rewrite Ho. destruct (m !! x) as [[d|m']|]; cbn in Hf; try by injection Hf.
  destruct recursive; [by injection Hf | done].
Qed.

Lemma lookup_below_None p q n : lookup p n = None -> lookup (p ++ q) n = None.
Proof.
  unfold lookup. rewrite resolve_app. by destruct (resolve p n).
Qed.

Lemma modify_parent force f a x n n' :
  modify force f (a ++ [x]) n = Ok n' ->
  is_dir <$> lookup a n' = is_dir <$> lookup a n.
Proof.
  intros [(-> & _)|(m & o & Ha & _ & _ & Ha')]%modify_target; [done|].
  unfold lookup. by rewrite Ha, Ha'.
Qed.

(** A change below a directory leaves it a directory. *)
Lemma modify_above force f a y p n n' m :
  resolve a n = Ok (Dir m) ->
  modify force f (a ++ y :: p) n = Ok n' ->
  exists m', resolve a n' = Ok (Dir m').
Proof.
  revert n n'. induction a as [|z a IH]; intros n n' Hr Hm.
  - cbn in Hr. injection Hr as ->. cbn [app] in Hm.
    destruct p as [|y' p].
    + rewrite modify_cons1 in Hm. destruct (f (m !! y)); [|done].
      injection Hm as <-. by eexists.
    + rewrite modify_cons2 in Hm. destruct (m !! y) as [c|].
      * destruct (modify force f (y' :: p) c); [|done].
        injection Hm as <-. by eexists.
      * destruct force; [|done]. injection Hm as <-. by eexists.
  - destruct n as [d|e]; [done|]. cbn in Hr.
    destruct (e !! z) as [c|] eqn:Hz; [|done].
    assert (exists y' p', a ++ y :: p = y' :: p') as (y' & p' & E)
      by (destruct a; cbn; eauto).
    cbn [app] in Hm. rewrite E, modify_cons2, Hz, <- E in Hm.
    destruct (modify force f (a ++ y :: p) c) as [c'|] eqn:Hc; [|done].
    injection Hm as <-. cbn. rewrite lookup_insert_eq.
    by eapply IH.
Qed.

(** [writeFile] with the flag [wx] creates the file. *)
Lemma writeFile_wx_target a x data n n' :
  writeFile_wx (a ++ [x]) data n = Ok n' ->
  lookup (a ++ [x]) n' = Some (File data).
Proof.
  intros [(_ & _ & [=] & _)|(m & o & _ & Hf & Ho & _)]%modify_target.
  rewrite Ho. destruct (m !! x); cbn in Hf; [done | by injection Hf].
Qed.

(** A write through the descriptor appends to the file. *)
Lemma append_target a x data n n' :
  append (a ++ [x]) data n = Ok n' ->
  exists d, lookup (a ++ [x]) n = Some (File d) /\
            lookup (a ++ [x]) n' = Some (File (d ++ data)).
Proof.
  intros [(_ & _ & [=] & _)|(m & o & Ha & Hf & Ho & _)]%modify_target.
  destruct (m !! x) as [[d|m']|] eqn:E; cbn in Hf; try done.
  injection Hf as <-. exists d. split; [|done].
  unfold lookup. rewrite resolve_app, Ha. cbn. by rewrite E.
Qed.

(** [rename] as the two changes it makes. *)
Lemma rename_inv src dst n n' :
  rename src dst n = Ok n' -> src ≠ dst ->
  exists v n1,
    resolve src n = Ok v /\
    modify false (fun o =>
      match o, v with
      | None, _ => Ok (Some v)
      | Some (File _), File _ => Ok (Some v)
      | Some (Dir _), File _ => Throw EISDIR
      | Some (File _), Dir _ => Throw ENOTDIR
      | Some (Dir m), Dir _ =>
          if decide (m = ∅) then Ok (Some v) else Throw ENOTEMPTY
      end) dst n = Ok n1 /\
    modify true (fun _ => Ok None) src n1 = Ok n'.
Proof.
  unfold rename. intros Hrun Hne.
  destruct (resolve src n) as [v|e]; [|done]. cbn in Hrun.
  rewrite decide_False in Hrun by done.
  destruct (modify false _ dst n) as [n1|e] eqn:E1; [|done]. cbn in Hrun.
  by exists v, n1.
Qed.

(** A file renamed to a path that branches off its own arrives there. *)
Lemma rename_target a x y p n n' :
  x ≠ y ->
  rename (a ++ y :: p) (a ++ [x]) n = Ok n' ->
  exists v, resolve (a ++ y :: p) n = Ok v /\ lookup (a ++ [x]) n' = Some v.
Proof.
  intros Hne Hrun. apply rename_inv in Hrun as (v & n1 & Hv & Hput & Hdel).
  2:{ intros Heq. apply app_inv_head in Heq. by injection Heq. }
  exists v. split; [done|].
  unfold lookup. change [x] with (x :: []).
  rewrite (modify_diverge _ _ _ _ _ _ _ _ _ Hne Hdel).
  apply modify_target in Hput as [(_ & _ & [=] & _)|(m & o & _ & Hf & Ho & _)].
  unfold lookup in Ho. destruct (resolve (a ++ [x]) n1) as [v'|e]; subst o.
  - destruct (m !! x) as [[d|m']|], v; cbn in Hf; try done;
      try (by injection Hf as ->).
    destruct (decide (m' = ∅)); [by injection Hf as -> | done].
  - destruct (m !! x) as [[d|m']|], v; cbn in Hf; try done.
    destruct (decide (m' = ∅)); done.
Qed.

(** [rename] leaves alone what branches off both of its paths. *)
Lemma rename_diverge a x y z p q n n' :
  x ≠ y -> x ≠ z ->
  rename (a ++ y :: p) (a ++ [z]) n = Ok n' ->
  resolve (a ++ x :: q) n' = resolve (a ++ x :: q) n.
Proof.
  intros Hy Hz Hrun.
  destruct (decide (a ++ y :: p = a ++ [z])) as [Heq|Hne].
  - unfold rename in Hrun. destruct (resolve _ n); [|done]. cbn in Hrun.
    rewrite decide_True in Hrun by done. by injection Hrun as ->.
  - apply rename_inv in Hrun as (v & n1 & Hv & Hput & Hdel); [|done].
    rewrite (modify_diverge _ _ _ _ _ _ _ _ _ Hy Hdel).
    change [z] with (z :: []) in Hput.
    by rewrite (modify_diverge _ _ _ _ _ _ _ _ _ Hz Hput).
Qed.

End FSFacts.

(** ** Installing *)

Module InstallFacts.
Import Manager ManagerSpec ManagerFacts FSFacts.

Section Steps.
Implicit Types (w : World).

Lemma steps_refl w : steps w w [].
Proof. unfold steps. by rewrite app_nil_r. Qed.

Lemma steps_trans w w1 w2 e1 e2 :
  steps w w1 e1 -> steps w1 w2 e2 -> steps w w2 (e1 ++ e2).
Proof.
  intros (Hc1 & Ht1 & He1) (Hc2 & Ht2 & He2). unfold steps.
  rewrite Hc2, Ht2, He2, He1, app_assoc. done.
Qed.

Lemma steps_effects_since w w' effects :
  steps w w' effects -> effects_since w w' = effects.
Proof.
  intros (_ & _ & He). unfold effects_since. rewrite He.
  by rewrite drop_app_length.
Qed.

Lemma steps_loaded w w' effects :
  steps w w' effects -> loaded_world w -> loaded_world w'.
Proof. intros (Hc & _) Hl. unfold loaded_world. by rewrite Hc. Qed.

Lemma steps_with_effects w effects : steps w (with_effects w effects) effects.
Proof. done. Qed.

Lemma steps_with_fs w w' effects n :
  steps w w' effects -> steps w (with_fs w' n) effects.
Proof. done. Qed.

Lemma bind_inv {S A B} (m : ST S A) (f : A -> ST S B) s r s'' :
  (m ≫= f) s = (r, s'') ->
  (exists e, m s = (Throw e, s'') /\ r = Throw e) \/
  (exists a s', m s = (Ok a, s') /\ f a s' = (r, s'')).
Proof.
  unfold mbind, ST_bind. destruct (m s) as [[a|e] s']; [by eauto|].
  intros [= <- <-]. left. eauto.
Qed.

Lemma log_run e w : log e w = (Ok tt, with_effects w [e]).
Proof. reflexivity. Qed.

(** A call that changes the file system is recorded; when it fails the
    file system is as it was. *)
Lemma fs_call_inv e op w r w' :
  fs_call e op w = (r, w') ->
  (exists err, op (fs w) = Throw err /\ r = Throw err /\
               w' = with_effects w [e]) \/
  (exists n, op (fs w) = Ok n /\ r = Ok tt /\
             w' = with_fs (with_effects w [e]) n).
Proof.
  unfold fs_call, mbind, ST_bind, log, modify_state, get_state, lift_result.
  cbn. destruct (op (fs w)) as [n|err]; intros [= <- <-]; eauto.
Qed.

Lemma bind_fs_call_inv {B} e op (k : unit -> M B) w r w' :
  (fs_call e op ≫= k) w = (r, w') ->
  (exists err, op (fs w) = Throw err /\ r = Throw err /\
               w' = with_effects w [e]) \/
  (exists n, op (fs w) = Ok n /\ k tt (with_fs (with_effects w [e]) n) = (r, w')).
Proof.
  intros Hb. apply bind_inv in Hb as [(err & Hc & ->)|([] & w1 & Hc & Hk)];
    apply fs_call_inv in Hc as [(err' & Hop & Hr & ->)|(n & Hop & Hr & ->)];
    try discriminate.
  - injection Hr as ->. left. eauto.
  - right. eauto.
Qed.

End Steps.
Ltac names :=
  solve [ assumption | by apply not_eq_sym
        | unfold TEMP_DIR, META_DIR, PACKAGE_FILE, TEMP_EXT; cbn; discriminate ].

Ltac fs_step H :=
  apply bind_fs_call_inv in H as [(?err & ?Hop & ?Hr & ?Hw)|(?n & ?Hop & H)];
  [first [discriminate Hr | injection Hr as ?; subst | subst]|];
  cbn [fs with_fs with_effects] in *.

Ltac steps_done :=
  unfold steps; cbn [catalog transport trace fs with_fs with_effects];
  split; [reflexivity|split; [reflexivity|]];
  rewrite <- ?app_assoc; reflexivity.

Section CommitFS.
Variables (A : Path) (f t : string) (bytes data : list byte).
Implicit Types (n : FS.Node).

Let tmpFile : Path := A ++ [META_DIR; TEMP_DIR; t].
Let metaFile : Path := A ++ [META_DIR; PACKAGE_FILE].
Let outFile : Path := A ++ [f].
Let receiptTmp : Path := A ++ [META_DIR; PACKAGE_FILE +:+ TEMP_EXT].

Lemma lookup_eq p q n n' :
  FS.resolve p n' = FS.resolve q n -> FS.lookup p n' = FS.lookup q n.
Proof. unfold FS.lookup. by intros ->. Qed.

Lemma meta_split x q : A ++ META_DIR :: x :: q = (A ++ [META_DIR]) ++ x :: q.
Proof. by rewrite <- app_assoc. Qed.

Lemma rm_false_dir a x n m :
  FS.resolve (a ++ [x]) n = Ok (FS.Dir m) -> FS.rm false (a ++ [x]) n = Throw EISDIR.
Proof.
  revert n. induction a as [|y a IH]; intros n Hr.
  - destruct n as [|e]; [done|]. cbn in Hr. unfold FS.rm. cbn [app].
    rewrite modify_cons1.
    destruct (e !! x) as [c|]; [|done]. cbn in Hr. by injection Hr as ->.
  - destruct n as [|e]; [done|]. cbn in Hr.
    destruct (e !! y) as [c|] eqn:Hy; [|done].
    unfold FS.rm. destruct a as [|z a].
    + cbn [app] in *. rewrite modify_cons2, Hy. specialize (IH c Hr).
      unfold FS.rm in IH. cbn [app] in IH. by rewrite IH.
    + cbn [app] in *. rewrite modify_cons2, Hy. specialize (IH c Hr).
      unfold FS.rm in IH. by rewrite IH.
Qed.

Lemma rm_true_Ok a x n m :
  FS.resolve a n = Ok (FS.Dir m) -> exists n', FS.rm true (a ++ [x]) n = Ok n'.
Proof.
  revert n. induction a as [|y a IH]; intros n Hr.
  - cbn in Hr. injection Hr as ->. unfold FS.rm. cbn [app]. rewrite modify_cons1.
    destruct (m !! x) as [[|]|]; cbn; eauto.
  - destruct n as [|e]; [done|]. cbn in Hr.
    destruct (e !! y) as [c|] eqn:Hy; [|done].
    destruct (IH c Hr) as (n' & Hn'). unfold FS.rm in *.
    destruct a as [|z a]; cbn [app] in *; rewrite modify_cons2, Hy, Hn'; cbn; eauto.
Qed.

Lemma rm_diverge recursive a x y p q n n' :
  x ≠ y -> FS.rm recursive (a ++ y :: p) n = Ok n' ->
  FS.resolve (a ++ x :: q) n' = FS.resolve (a ++ x :: q) n.
Proof. unfold FS.rm. apply modify_diverge. Qed.

Lemma commit_rm_meta n n' :
  FS.rm false metaFile n = Ok n' ->
  FS.lookup metaFile n' = None /\
  FS.lookup tmpFile n' = FS.lookup tmpFile n /\
  (forall x q, x <> META_DIR ->
     FS.resolve (A ++ x :: q) n' = FS.resolve (A ++ x :: q) n).
Proof.
  intros Hrm. split; [|split].
  - unfold metaFile in *. rewrite meta_split in *. by eapply rm_target.
  - unfold metaFile, tmpFile in *. cbn [app]. rewrite !meta_split in *.
    apply lookup_eq. eapply rm_diverge; [|exact Hrm]. names.
  - intros x q Hx. eapply rm_diverge; [|exact Hrm]. names.
Qed.

Lemma commit_rm_out n n' :
  FS.lookup tmpFile n = Some (FS.File data) ->
  FS.rm false outFile n = Ok n' ->
  f <> META_DIR /\
  FS.lookup metaFile n' = FS.lookup metaFile n /\
  FS.lookup tmpFile n' = FS.lookup tmpFile n.
Proof.
  intros Htmp Hrm.
  assert (f <> META_DIR) as Hf.
  { intros ->. apply lookup_resolve in Htmp. unfold tmpFile in Htmp.
    rewrite meta_split in Htmp. apply resolve_above in Htmp as (m & Hm).
    unfold outFile in Hrm. by rewrite (rm_false_dir _ _ _ _ Hm) in Hrm. }
  split; [done|]. unfold outFile, metaFile, tmpFile in *.
  split; apply lookup_eq; eapply rm_diverge; [| exact Hrm | | exact Hrm]; names.
Qed.

Lemma rename_diverge2 a x y z p q r n n' :
  x ≠ y -> x ≠ z ->
  FS.rename (a ++ y :: p) (a ++ z :: r) n = Ok n' ->
  FS.resolve (a ++ x :: q) n' = FS.resolve (a ++ x :: q) n.
Proof.
  intros Hy Hz Hrn.
  destruct (decide (a ++ y :: p = a ++ z :: r)) as [Heq|Hne].
  - unfold FS.rename in Hrn. destruct (FS.resolve _ n); [|done]. cbn in Hrn.
    rewrite decide_True in Hrn by done. by injection Hrn as ->.
  - apply rename_inv in Hrn as (v & n1 & _ & H1 & H2); [|done].
    transitivity (FS.resolve (a ++ x :: q) n1).
    + by eapply modify_diverge; [|exact H2].
    + by eapply modify_diverge; [|exact H1].
Qed.

Lemma commit_rename_out n n' :
  f <> META_DIR ->
  FS.lookup tmpFile n = Some (FS.File data) ->
  FS.rename tmpFile outFile n = Ok n' ->
  FS.lookup metaFile n' = FS.lookup metaFile n /\
  FS.lookup outFile n' = Some (FS.File data).
Proof.
  intros Hf Htmp Hrn. split.
  - unfold tmpFile, outFile, metaFile in *.
    apply rename_inv in Hrn as (v & n1 & _ & H1 & H2).
    + apply lookup_eq.
      transitivity (FS.resolve (A ++ [META_DIR; PACKAGE_FILE]) n1).
      * rewrite !meta_split in *. eapply modify_diverge; [|exact H2]. names.
      * eapply modify_diverge; [|exact H1]. names.
    + intros Heq. apply app_inv_head in Heq. discriminate.
  - unfold tmpFile, outFile in *.
    apply rename_target in Hrn as (v & Hv & Hl); [|names].
    apply lookup_resolve in Htmp. rewrite Htmp in Hv. by injection Hv as <-.
Qed.

Lemma commit_rm_receiptTmp n n' :
  f <> META_DIR ->
  FS.rm false receiptTmp n = Ok n' ->
  FS.lookup metaFile n' = FS.lookup metaFile n /\
  FS.lookup outFile n' = FS.lookup outFile n.
Proof.
  intros Hf Hrm. unfold receiptTmp, metaFile, outFile in *.
  split; apply lookup_eq.
  - rewrite !meta_split in *. eapply rm_diverge; [|exact Hrm]. names.
  - eapply rm_diverge; [|exact Hrm]. names.
Qed.

Lemma commit_write_receiptTmp n n' :
  f <> META_DIR ->
  FS.writeFile_wx receiptTmp bytes n = Ok n' ->
  FS.lookup metaFile n' = FS.lookup metaFile n /\
  FS.lookup outFile n' = FS.lookup outFile n /\
  FS.lookup receiptTmp n' = Some (FS.File bytes).
Proof.
  intros Hf Hwr. unfold receiptTmp, metaFile, outFile in *.
  split; [|split].
  - apply lookup_eq. rewrite !meta_split in *. unfold FS.writeFile_wx in Hwr.
    eapply modify_diverge; [|exact Hwr]. names.
  - apply lookup_eq. unfold FS.writeFile_wx in Hwr.
    eapply modify_diverge; [|exact Hwr]. names.
  - rewrite meta_split in *. by eapply writeFile_wx_target.
Qed.

Lemma commit_rename_receipt n n' :
  f <> META_DIR ->
  FS.lookup receiptTmp n = Some (FS.File bytes) ->
  FS.rename receiptTmp metaFile n = Ok n' ->
  FS.lookup metaFile n' = Some (FS.File bytes) /\
  FS.lookup outFile n' = FS.lookup outFile n.
Proof.
  intros Hf Htmp Hrn. unfold receiptTmp, metaFile, outFile in *. split.
  - rewrite !meta_split in *.
    apply rename_target in Hrn as (v & Hv & Hl); [|names].
    apply lookup_resolve in Htmp. rewrite Htmp in Hv. by injection Hv as <-.
  - apply lookup_eq. eapply rename_diverge2; [| |exact Hrn]; names.
Qed.

Lemma mkdir_through_file a y q n d :
  FS.resolve a n = Ok (FS.File d) -> FS.mkdir (a ++ y :: q) n = Throw ENOTDIR.
Proof.
  revert n. induction a as [|x a IH]; intros n Hr.
  - cbn in Hr. by injection Hr as ->.
  - destruct n as [|m]; [done|]. cbn in Hr.
    destruct (m !! x) as [c|] eqn:Hx; [|done].
    cbn [app FS.mkdir]. rewrite Hx. cbn [default from_option id]. by rewrite (IH c Hr).
Qed.

Lemma outside_tmp_refl n : outside_tmp A n n.
Proof. by repeat split. Qed.

Lemma outside_tmp_trans n1 n2 n3 :
  outside_tmp A n1 n2 -> outside_tmp A n2 n3 -> outside_tmp A n1 n3.
Proof.
  intros (H1 & H2 & H3) (H4 & H5 & H6). repeat split.
  - intros x q Hx. by rewrite H4, H1.
  - intros x q Hx. by rewrite H5, H2.
  - intros d Hd. eauto.
Qed.

Lemma outside_tmp_modify force g q n n' :
  FS.modify force g (A ++ META_DIR :: TEMP_DIR :: q) n = Ok n' ->
  outside_tmp A n n'.
Proof.
  intros Hm. repeat split.
  - intros x q' Hx. rewrite !meta_split in *. by eapply modify_diverge; [|exact Hm].
  - intros x q' Hx. by eapply modify_diverge; [|exact Hm].
  - intros d Hd. rewrite meta_split in Hm.
    by rewrite (modify_through_file _ _ _ _ _ _ _ Hd) in Hm.
Qed.

Lemma outside_tmp_mkdir q n n' :
  FS.mkdir (A ++ META_DIR :: TEMP_DIR :: q) n = Ok n' -> outside_tmp A n n'.
Proof.
  intros Hm. repeat split.
  - intros x q' Hx. rewrite !meta_split in *. by eapply mkdir_diverge; [|exact Hm].
  - intros x q' Hx. by eapply mkdir_diverge; [|exact Hm].
  - intros d Hd. rewrite meta_split in Hm.
    by rewrite (mkdir_through_file _ _ _ _ _ Hd) in Hm.
Qed.

Lemma outside_tmp_metaFile n n' :
  outside_tmp A n n' -> FS.lookup metaFile n' = FS.lookup metaFile n.
Proof. intros (H1 & _). apply lookup_eq, H1. names. Qed.

Lemma outside_tmp_outFile n n' d :
  outside_tmp A n n' ->
  FS.lookup outFile n = Some (FS.File d) ->
  FS.lookup outFile n' = Some (FS.File d).
Proof.
  intros (_ & H2 & H3) Hd. unfold outFile in *.
  destruct (decide (f = META_DIR)) as [->|Hf].
  - apply lookup_resolve. apply H3. by apply lookup_resolve.
  - rewrite <- Hd. apply lookup_eq, H2. names.
Qed.

End CommitFS.

Lemma with_ext_app a x q ext : with_ext (a ++ x :: q) ext = a ++ with_ext (x :: q) ext.
Proof.
  induction a as [|y a IH]; [done|].
  cbn [app]. change (with_ext (y :: a ++ x :: q) ext) with
    (match a ++ x :: q with [] => [y +:+ ext] | _ => y :: with_ext (a ++ x :: q) ext end).
  rewrite IH. by destruct a.
Qed.

Section Install.
Context `{Runtime} (this : Manager) (p : Package).
Implicit Types (w : World).

Let A : Path := install_dir this p.

Lemma install_paths :
  install_dirMeta this p = A ++ [META_DIR] /\
  install_outFile this p = A ++ [Package.file p] /\
  install_tmpDir this p = A ++ [META_DIR; TEMP_DIR] /\
  install_tmpFile this p =
    A ++ [META_DIR; TEMP_DIR; Package.sha256 p +:+ TEMP_EXT] /\
  install_metaFile this p = A ++ [META_DIR; PACKAGE_FILE] /\
  install_receiptTmp this p = A ++ [META_DIR; PACKAGE_FILE +:+ TEMP_EXT].
Proof.
  unfold A, install_dir, install_dirMeta, install_outFile, install_tmpDir,
    install_tmpFile, install_metaFile, install_receiptTmp, pathTo.
  by rewrite <- !app_assoc.
Qed.

Lemma _packageDirsEnsure_run w :
  loaded_world w ->
  _packageDirsEnsure this (ByObject p) w =
  (mkdir (install_dir this p);; mkdir (install_dirMeta this p)) w.
Proof.
  intros Hl. unfold _packageDirsEnsure.
  erewrite bind_Ok by by apply ensureLoaded_run.
  erewrite bind_Ok by (by rewrite _asPackage_run).
  erewrite bind_Ok by by apply pathToPackage_run.
  erewrite bind_Ok by by apply pathToPackageMeta_run.
  done.
Qed.

Lemma _packageMetaReceiptWrite_run w :
  loaded_world w ->
  _packageMetaReceiptWrite this (ByObject p) w =
  (rm false (install_receiptTmp this p);;
   fs_call (WriteFile (install_receiptTmp this p) (receipt_bytes p))
     (FS.writeFile_wx (install_receiptTmp this p) (receipt_bytes p));;
   rename (install_receiptTmp this p) (install_metaFile this p)) w.
Proof.
  intros Hl. unfold _packageMetaReceiptWrite.
  erewrite bind_Ok by by apply ensureLoaded_run.
  erewrite bind_Ok by (by rewrite _asPackage_run).
  erewrite bind_Ok by by apply pathToPackageMeta_run.
  unfold _packageMetaReceiptFromPackage.
  erewrite bind_Ok; cycle 1.
  { erewrite bind_Ok by by apply ensureLoaded_run.
    erewrite bind_Ok by (by rewrite _asPackage_run). done. }
  assert (with_ext (package_meta_path this (catalog w) (ByObject p) [packageFile])
            TEMP_EXT = install_receiptTmp this p) as ->.
  { unfold package_meta_path, install_receiptTmp, pathTo. cbn [name_of].
    by rewrite with_ext_app. }
  done.
Qed.

Lemma install_commit_inv w r w' data :
  loaded_world w ->
  FS.lookup (install_tmpFile this p) (fs w) = Some (FS.File data) ->
  install_commit this p (install_outFile this p) (install_tmpFile this p)
    (install_metaFile this p) w = (r, w') ->
  exists k, steps w w' (take k (commit_effects this p)) /\
    match r with
    | Ok _ =>
        k = 8%nat /\
        FS.lookup (install_outFile this p) (fs w') = Some (FS.File data) /\
        FS.lookup (install_metaFile this p) (fs w') =
          Some (FS.File (receipt_bytes p))
    | Throw _ =>
        fs w' = fs w \/ FS.lookup (install_metaFile this p) (fs w') = None
    end.
Proof.
  intros Hl Htmp Hrun. unfold install_commit in Hrun.
  destruct install_paths as (EB & Eout & EtmpDir & Etmp & Emeta & Ertmp).
  assert (exists m, FS.resolve A (fs w) = Ok (FS.Dir m)) as (mA & HA).
  { apply lookup_resolve in Htmp. rewrite Etmp in Htmp.
    by apply resolve_above in Htmp. }
  assert (exists m, FS.resolve (A ++ [META_DIR]) (fs w) = Ok (FS.Dir m))
    as (mB & HB).
  { apply lookup_resolve in Htmp. rewrite Etmp, meta_split in Htmp.
    by apply resolve_above in Htmp. }
  apply bind_inv in Hrun as [(e & Hc & ->)|([] & w1 & Hc & Hrun)];
    rewrite _packageDirsEnsure_run in Hc by done.
  { unfold mkdir in Hc. fs_step Hc.
    - fold A in Hop. by rewrite (mkdir_existing _ _ _ HA) in Hop.
    - apply fs_call_inv in Hc as [(err & Hop2 & _ & ->)|(n2 & Hop2 & [=] & _)].
      cbn [fs with_fs with_effects] in *.
      fold A in Hop. rewrite (mkdir_existing _ _ _ HA) in Hop.
      injection Hop as <-. rewrite EB in Hop2.
      by rewrite (mkdir_existing _ _ _ HB) in Hop2. }
  unfold mkdir in Hc. fs_step Hc.
  apply fs_call_inv in Hc as [(err & Hop2 & [=] & _)|(n2 & Hop2 & _ & ->)].
  cbn [fs with_fs with_effects] in *.
  fold A in Hop. rewrite (mkdir_existing _ _ _ HA) in Hop. injection Hop as <-.
  rewrite EB in Hop2. rewrite (mkdir_existing _ _ _ HB) in Hop2.
  injection Hop2 as <-.
  rewrite Etmp in Htmp.
  unfold rm in Hrun. fs_step Hrun.
  { exists 3%nat. split; [steps_done|]. by left. }
  rewrite Emeta in Hop.
  apply commit_rm_meta with (t := Package.sha256 p +:+ TEMP_EXT)
    in Hop as (Hmeta & Htmp' & _).
  rewrite Htmp in Htmp'.
  fs_step Hrun.
  { exists 4%nat. split; [steps_done|]. right. by rewrite Emeta. }
  rewrite Eout in Hop.
  eapply commit_rm_out in Hop as (Hf & Hmeta' & Htmp''); [|exact Htmp'].
  rewrite Hmeta in Hmeta'. rewrite Htmp' in Htmp''.
  unfold rename in Hrun. fs_step Hrun.
  { exists 5%nat. split; [steps_done|]. right. by rewrite Emeta. }
  rewrite Eout, Etmp in Hop.
  eapply commit_rename_out in Hop as (Hmeta'' & Hout); [|done|exact Htmp''].
  rewrite Hmeta' in Hmeta''.
  rewrite _packageMetaReceiptWrite_run in Hrun by done.
  unfold rm in Hrun. fs_step Hrun.
  { exists 6%nat. split; [steps_done|]. right. by rewrite Emeta. }
  rewrite Ertmp in Hop.
  eapply commit_rm_receiptTmp in Hop as (Hmeta3 & Hout3); [|done].
  rewrite Hmeta'' in Hmeta3. rewrite Hout in Hout3.
  fs_step Hrun.
  { exists 7%nat. split; [steps_done|]. right. by rewrite Emeta. }
  rewrite Ertmp in Hop.
  eapply commit_write_receiptTmp in Hop as (Hmeta4 & Hout4 & Hrtmp); [|done].
  rewrite Hmeta3 in Hmeta4. rewrite Hout3 in Hout4.
  unfold rename in Hrun.
  apply fs_call_inv in Hrun as [(err & Hop & -> & ->)|(n' & Hop & -> & ->)];
    cbn [fs with_fs with_effects] in *.
  { exists 8%nat. split; [steps_done|]. right. by rewrite Emeta. }
  rewrite Ertmp, Emeta in Hop.
  eapply commit_rename_receipt in Hop as (Hmeta5 & Hout5); [|done|exact Hrtmp].
  rewrite Hout4 in Hout5.
  exists 8%nat. split; [steps_done|]. by rewrite Eout, Emeta.
Qed.

Lemma staging_not_commit e :
  staging_effect this p e -> e ∉ commit_effects this p.
Proof.
  intros Hs Hin. destruct install_paths as (EB & _ & EtmpDir & _).
  unfold commit_effects in Hin.
  repeat (apply elem_of_cons in Hin as [->|Hin]); cbn in Hs; try done.
  - rewrite EtmpDir in Hs. apply (f_equal length) in Hs. fold A in Hs.
    rewrite length_app in Hs. cbn in Hs. lia.
  - rewrite EtmpDir, EB in Hs. apply app_inv_head in Hs. discriminate.
  - by apply elem_of_nil in Hin.
Qed.

Lemma written_data_app file e1 e2 :
  written_data file (e1 ++ e2) = written_data file e1 ++ written_data file e2.
Proof. apply flat_map_app. Qed.


Lemma written_data_fetch file effects :
  Forall (fun e => is_fetch e = true) effects -> written_data file effects = [].
Proof.
  induction 1 as [|e effects He _ IH]; [done|].
  by destruct e.
Qed.

Lemma trigger_bind {B} ev (k : unit -> M B) w :
  (trigger ev ≫= k) w = k tt (with_effects w [Trigger ev]).
Proof. reflexivity. Qed.

Lemma write_chunks_inv chunks : forall bytesWritten w r w',
  write_chunks p (install_tmpFile this p) chunks bytesWritten w = (r, w') ->
  exists effects,
    steps w w' effects /\
    Forall (staging_effect this p) effects /\
    outside_tmp A (fs w) (fs w') /\
    forall total, r = Ok total ->
      written_data (install_tmpFile this p) effects = concat chunks /\
      total = bytesWritten + Z.of_nat (length (concat chunks)) /\
      forall d, FS.lookup (install_tmpFile this p) (fs w) = Some (FS.File d) ->
        FS.lookup (install_tmpFile this p) (fs w') =
          Some (FS.File (d ++ concat chunks)).
Proof.
  destruct install_paths as (_ & _ & _ & Etmp & _).
  induction chunks as [|c rest IH]; intros bytesWritten w r w' Hrun.
  - injection Hrun as <- <-. exists []. split; [apply steps_refl|].
    split; [done|]. split; [apply outside_tmp_refl|].
    intros total [= <-]. cbn. split; [done|]. split; [lia|].
    intros d ->. by rewrite app_nil_r.
  - cbn [write_chunks] in Hrun. unfold write in Hrun. fs_step Hrun.
    { exists [Write (install_tmpFile this p) c]. split; [steps_done|].
      split; [by repeat constructor|]. split; [apply outside_tmp_refl|done]. }
    rewrite trigger_bind in Hrun.
    apply IH in Hrun as (effects & Hsteps & Hstaging & Hout & Hok).
    cbn [fs with_fs with_effects] in *.
    exists ([Write (install_tmpFile this p) c;
             Trigger (PackageDownloadProgress p (Package.size p)
                        (bytesWritten + Z.of_nat (length c)))] ++ effects).
    split; [|split; [|split]].
    + eapply steps_trans; [|exact Hsteps]. steps_done.
    + by repeat constructor.
    + eapply outside_tmp_trans; [|exact Hout].
      rewrite Etmp in Hop. unfold FS.append in Hop.
      by eapply outside_tmp_modify.
    + intros total ->. destruct (Hok _ eq_refl) as (Hdata & -> & Hfile).
      split; [|split].
      * rewrite written_data_app, Hdata. cbn.
        rewrite decide_True by done. by rewrite app_nil_r.
      * cbn [concat]. rewrite length_app. lia.
      * intros d Hd. cbn [concat]. rewrite app_assoc. apply Hfile.
        assert (install_tmpFile this p =
                (A ++ [META_DIR; TEMP_DIR]) ++ [Package.sha256 p +:+ TEMP_EXT])
          as Esplit by by rewrite Etmp, <- app_assoc.
        rewrite Esplit in *.
        apply append_target in Hop as (d' & Hd' & Hn).
        rewrite Hd in Hd'. by injection Hd' as <-.
Qed.

Lemma install_pipeline_inv input transforms w r w' :
  install_pipeline p (install_tmpFile this p) input transforms w = (r, w') ->
  exists effects,
    steps w w' effects /\
    Forall (staging_effect this p) effects /\
    outside_tmp A (fs w) (fs w') /\
    forall bytesWritten hashed, r = Ok (bytesWritten, hashed) ->
      let data := written_data (install_tmpFile this p) effects in
      bytesWritten = Z.of_nat (length data) /\
      hashed = sha256_hex data /\
      forall d, FS.lookup (install_tmpFile this p) (fs w) = Some (FS.File d) ->
        FS.lookup (install_tmpFile this p) (fs w') = Some (FS.File (d ++ data)).
Proof.
  unfold install_pipeline. intros Hrun.
  assert (forall e, (r, w') = (Throw e, w) ->
    exists effects, steps w w' effects /\
      Forall (staging_effect this p) effects /\
      outside_tmp A (fs w) (fs w') /\
      forall bytesWritten hashed, r = Ok (bytesWritten, hashed) ->
        let data := written_data (install_tmpFile this p) effects in
        bytesWritten = Z.of_nat (length data) /\
        hashed = sha256_hex data /\
        forall d, FS.lookup (install_tmpFile this p) (fs w) = Some (FS.File d) ->
          FS.lookup (install_tmpFile this p) (fs w') = Some (FS.File (d ++ data)))
    as Hthrow.
  { intros e [= -> ->]. exists []. split; [apply steps_refl|].
    split; [done|]. split; [apply outside_tmp_refl|done]. }
  destruct (apply_transforms transforms (body_chunks input)) as [out|];
    [|by eapply Hthrow].
  destruct (body_completes input); [|by eapply Hthrow]. clear Hthrow.
  apply bind_inv in Hrun as [(e & Hc & ->)|(total & w1 & Hc & Hrun)].
  - apply write_chunks_inv in Hc as (effects & Hsteps & Hstaging & Hout & _).
    by exists effects.
  - injection Hrun as <- <-.
    apply write_chunks_inv in Hc as (effects & Hsteps & Hstaging & Hout & Hok).
    exists effects. do 3 (split; [done|]).
    intros bytesWritten hashed [= <- <-].
    destruct (Hok _ eq_refl) as (Hdata & -> & Hfile). cbn zeta.
    rewrite Hdata. split; [lia|]. split; [done|]. exact Hfile.
Qed.

Lemma fetch_retry_inv url headers w r w' :
  fetch_retry url headers w = (r, w') ->
  exists effects, w' = with_effects w effects /\
                  Forall (fun e => is_fetch e = true) effects.
Proof.
  rewrite fetch_retry_run. unfold retry_outcome.
  destruct (transport w _ _); intros [= <- <-]; eexists; split; try done;
    by repeat constructor.
Qed.

Lemma install_input_inv srcPkg slice w r w' :
  install_input this srcPkg slice w = (r, w') ->
  exists effects, steps w w' effects /\
                  Forall (fun e => is_fetch e = true) effects /\
                  fs w' = fs w.
Proof.
  assert (forall (r0 : Result Input), (r, w') = (r0, w) ->
    exists effects, steps w w' effects /\
      Forall (fun e => is_fetch e = true) effects /\ fs w' = fs w) as Hpure.
  { intros r0 [= -> ->]. exists []. split; [apply steps_refl|done]. }
  assert (forall url headers (k : Response -> M Input),
    (forall res w1, exists r1, k res w1 = (r1, w1)) ->
    (fetch_retry url headers ≫= k) w = (r, w') ->
    exists effects, steps w w' effects /\
      Forall (fun e => is_fetch e = true) effects /\ fs w' = fs w) as Hfetch.
  { intros url headers k Hk Hrun.
    apply bind_inv in Hrun as [(e & Hc & ->)|(res & w1 & Hc & Hrun)];
      apply fetch_retry_inv in Hc as (effects & -> & Hf).
    - by exists effects.
    - destruct (Hk res (with_effects w effects)) as (r1 & Hr1).
      rewrite Hr1 in Hrun. injection Hrun as <- <-. by exists effects. }
  unfold install_input. intros Hrun.
  destruct slice as [[start size]|].
  - destruct (JS.gt size (JS.Num 0)).
    + eapply Hfetch; [|exact Hrun]. intros res w1. cbn beta.
      destruct (negb (status res =? 206)); [by eexists|].
      unfold mbind, ST_bind. rewrite check_content_length_run.
      destruct (content_length_ok _ _); by eexists.
    + destruct (JS.strict_eq size (JS.Num 0)); by eapply Hpure.
  - eapply Hfetch; [|exact Hrun]. intros res w1. cbn beta.
    destruct (negb (status res =? 200)); [by eexists|].
    unfold mbind, ST_bind. rewrite check_content_length_run.
    destruct (content_length_ok _ _); by eexists.
Qed.

Lemma install_verify_inv bytesWritten hashed w r w' :
  install_verify p bytesWritten hashed w = (r, w') ->
  w' = w /\
  (r = Ok tt -> bytesWritten = Package.size p /\ hashed = Package.sha256 p).
Proof.
  unfold install_verify, mbind, ST_bind.
  destruct (bytesWritten =? Package.size p) eqn:Hsize; cbn.
  - destruct (String.eqb hashed (Package.sha256 p)) eqn:Hhash; cbn;
      intros [= <- <-]; split; try done.
    intros _. split; [lia|]. by apply String.eqb_eq.
  - by intros [= <- <-].
Qed.

Lemma fetch_staging effects :
  Forall (fun e => is_fetch e = true) effects ->
  Forall (staging_effect this p) effects.
Proof. intros Hf. eapply Forall_impl; [exact Hf|]. by intros []. Qed.

Lemma install_try_inv srcPkg slice transforms w r w' :
  loaded_world w ->
  FS.lookup (install_tmpFile this p) (fs w) = Some (FS.File []) ->
  install_try this p srcPkg slice transforms (install_outFile this p)
    (install_tmpFile this p) (install_metaFile this p) w = (r, w') ->
  exists pre, Forall (staging_effect this p) pre /\
    (((exists e, r = Throw e) /\ steps w w' pre /\
      outside_tmp A (fs w) (fs w')) \/
     (verified p (written_data (install_tmpFile this p) pre) /\
      exists k,
        steps w w' (pre ++ Trigger (PackageDownloadAfter p) ::
                      take k (commit_effects this p)) /\
        match r with
        | Ok _ =>
            k = 8%nat /\
            FS.lookup (install_outFile this p) (fs w') =
              Some (FS.File (written_data (install_tmpFile this p) pre)) /\
            FS.lookup (install_metaFile this p) (fs w') =
              Some (FS.File (receipt_bytes p))
        | Throw _ =>
            outside_tmp A (fs w) (fs w') \/
            FS.lookup (install_metaFile this p) (fs w') = None
        end)).
Proof.
  intros Hl Htmp Hrun. unfold install_try in Hrun.
  rewrite !trigger_bind in Hrun.
  set (w0 := with_effects (with_effects w _) _) in Hrun.
  set (E0 := [Trigger (PackageDownloadBefore p);
              Trigger (PackageDownloadProgress p (Package.size p) 0)]).
  assert (steps w w0 E0) as Hs0 by (unfold w0, E0; steps_done).
  assert (Forall (staging_effect this p) E0) as Hst0 by by repeat constructor.
  apply bind_inv in Hrun as [(e & Hc & ->)|(input & w1 & Hc & Hrun)];
    apply install_input_inv in Hc as (E1 & Hs1 & Hf1 & Hfs1).
  { exists (E0 ++ E1). split; [|left; split; [by eexists|split]].
    - apply Forall_app. split; [done|by apply fetch_staging].
    - by eapply steps_trans.
    - rewrite Hfs1. apply outside_tmp_refl. }
  pose proof (steps_trans _ _ _ _ _ Hs0 Hs1) as Hs01.
  assert (Forall (staging_effect this p) (E0 ++ E1)) as Hst01.
  { apply Forall_app. split; [done|by apply fetch_staging]. }
  assert (written_data (install_tmpFile this p) (E0 ++ E1) = []) as Hwd01.
  { rewrite written_data_app, (written_data_fetch _ _ Hf1). done. }
  assert (fs w1 = fs w) as Hfs01 by done.
  clearbody w0 E0. clear Hs0 Hs1 Hfs1 Hst0.
  apply bind_inv in Hrun as [(e & Hc & ->)|([bytesWritten hashed] & w2 & Hc & Hrun)];
    apply install_pipeline_inv in Hc as (E2 & Hs2 & Hst2 & Hout2 & Hok2).
  { exists ((E0 ++ E1) ++ E2). split; [|left; split; [by eexists|split]].
    - apply Forall_app. split; [exact Hst01|exact Hst2].
    - by eapply steps_trans.
    - by rewrite <- Hfs01. }
  destruct (Hok2 _ _ eq_refl) as (Hbytes & Hhash & Hfile). cbn zeta in *.
  rewrite Hfs01 in Hout2, Hfile. specialize (Hfile _ Htmp). cbn [app] in Hfile.
  pose proof (steps_trans _ _ _ _ _ Hs01 Hs2) as Hs012.
  set (pre := (E0 ++ E1) ++ E2) in *.
  assert (Forall (staging_effect this p) pre) as Hpre.
  { apply Forall_app. by split. }
  assert (written_data (install_tmpFile this p) pre =
          written_data (install_tmpFile this p) E2) as Hwd.
  { unfold pre. by rewrite written_data_app, Hwd01. }
  rewrite <- Hwd in Hbytes, Hhash, Hfile.
  clear Hok2 Hs01 Hs2 Hst01 Hst2 Hwd01 Hwd. clearbody pre.
  exists pre. split; [done|].
  apply bind_inv in Hrun as [(e & Hc & ->)|([] & w3 & Hc & Hrun)];
    apply install_verify_inv in Hc as (-> & Hver).
  { left. split; [by eexists|by split]. }
  destruct (Hver eq_refl) as (Hsize & Hsha). right. split.
  { split; [by rewrite <- Hbytes|by rewrite <- Hhash]. }
  rewrite trigger_bind in Hrun.
  apply install_commit_inv with (data := written_data (install_tmpFile this p) pre)
    in Hrun as (k & Hsc & Hres).
  - exists k. split.
    + eapply steps_trans in Hsc; [|eapply steps_trans; [exact Hs012|]].
      2:{ apply (steps_with_effects _ [Trigger (PackageDownloadAfter p)]). }
      by rewrite <- app_assoc in Hsc.
    + cbn [fs with_effects] in Hres. destruct r as [[]|e]; [done|].
      destruct Hres as [->|Hnone]; [by left|by right].
  - eapply steps_loaded; [|exact Hl].
    eapply steps_trans; [exact Hs012|apply steps_with_effects].
  - done.
Qed.

Lemma try_finally_inv {S B} (m : ST S B) (f : ST S unit) s r s'' :
  try_finally m f s = (r, s'') ->
  exists r0 s' rf, m s = (r0, s') /\ f s' = (rf, s'') /\
    r = match rf with Ok _ => r0 | Throw e => Throw e end.
Proof.
  unfold try_finally. destruct (m s) as [r0 s'].
  destruct (f s') as [[[]|e] s3] eqn:Hf; intros [= <- <-];
    exists r0, s'; eexists; by rewrite Hf.
Qed.

Lemma install_finally_inv w r w' :
  (close (install_tmpFile this p);; rm true (install_tmpDir this p)) w = (r, w') ->
  steps w w' [Close (install_tmpFile this p); Rm true (install_tmpDir this p)] /\
  outside_tmp A (fs w) (fs w') /\
  ((exists m, FS.resolve (A ++ [META_DIR]) (fs w) = Ok (FS.Dir m)) -> r = Ok tt).
Proof.
  destruct install_paths as (_ & _ & EtmpDir & _).
  intros Hrun. change (close (install_tmpFile this p) ≫= ?k) with
    (fun w => k tt (with_effects w [Close (install_tmpFile this p)])) in Hrun.
  cbn beta in Hrun. unfold rm in Hrun.
  apply fs_call_inv in Hrun as [(err & Hop & -> & ->)|(n & Hop & -> & ->)];
    cbn [fs with_fs with_effects] in *; (split; [steps_done|]).
  - split; [apply outside_tmp_refl|]. intros (m & Hm).
    rewrite EtmpDir in Hop.
    destruct (rm_true_Ok (A ++ [META_DIR]) TEMP_DIR _ _ Hm) as (n' & Hn').
    rewrite <- app_assoc in Hn'. cbn [app] in Hn'. by rewrite Hn' in Hop.
  - split; [|done]. rewrite EtmpDir in Hop. unfold FS.rm in Hop.
    by eapply (outside_tmp_modify _ _ _ []).
Qed.

Lemma install_run_inv w r w' :
  loaded_world w ->
  install_run this p w = (r, w') ->
  exists pre, Forall (staging_effect this p) pre /\
    (((exists e, r = Throw e) /\ steps w w' pre /\
      outside_tmp A (fs w) (fs w')) \/
     (verified p (written_data (install_tmpFile this p) pre) /\
      exists k tail,
        steps w w' (pre ++ Trigger (PackageDownloadAfter p) ::
                      take k (commit_effects this p) ++
                      Close (install_tmpFile this p) ::
                      Rm true (install_tmpDir this p) :: tail) /\
        match r with
        | Ok pkgs =>
            pkgs = install_packages p /\ k = 8%nat /\
            tail = [Trigger (PackageInstallAfter p)] /\
            FS.lookup (install_outFile this p) (fs w') =
              Some (FS.File (written_data (install_tmpFile this p) pre)) /\
            FS.lookup (install_metaFile this p) (fs w') =
              Some (FS.File (receipt_bytes p))
        | Throw _ =>
            tail = [] /\
            (FS.lookup (install_metaFile this p) (fs w') = None \/
             outside_tmp A (fs w) (fs w'))
        end)).
Proof.
  intros Hl Hrun. unfold install_run in Hrun.
  destruct install_paths as (EB & Eout & EtmpDir & Etmp & Emeta & Ertmp).
  apply bind_inv in Hrun as [(e & Hc & ->)|([slice transforms] & w0 & Hc & Hrun)];
    apply lift_result_inv in Hc as (Hc & ->).
  { exists []. split; [done|]. left. split; [by eexists|].
    split; [apply steps_refl|apply outside_tmp_refl]. }
  clear Hc. rewrite trigger_bind in Hrun.
  set (w1 := with_effects w [Trigger (PackageInstallBefore p)]) in *.
  assert (loaded_world w1) as Hl1 by done.
  erewrite bind_Ok in Hrun by by apply pathToPackage_run.
  erewrite bind_Ok in Hrun by by apply pathToPackageMeta_run.
  erewrite bind_Ok in Hrun by by apply pathToPackageMeta_run.
  change (package_path this (catalog w1) (ByObject p) [Package.file p])
    with (install_outFile this p) in Hrun.
  change (package_meta_path this (catalog w1) (ByObject p) [TEMP_DIR])
    with (install_tmpDir this p) in Hrun.
  change (package_meta_path this (catalog w1) (ByObject p) [packageFile])
    with (install_metaFile this p) in Hrun.
  assert (install_tmpDir this p ++ [Package.sha256 p +:+ TEMP_EXT] =
          install_tmpFile this p) as EtmpFile.
  { by rewrite EtmpDir, Etmp, <- app_assoc. }
  rewrite EtmpFile in Hrun.
  unfold rm at 1 in Hrun. fs_step Hrun.
  { exists [Trigger (PackageInstallBefore p); Rm true (install_tmpDir this p)].
    split; [by repeat constructor|]. left. split; [by eexists|].
    split; [unfold w1; steps_done|apply outside_tmp_refl]. }
  assert (outside_tmp A (fs w) n) as Hout1.
  { rewrite EtmpDir in Hop. unfold FS.rm in Hop.
    by eapply (outside_tmp_modify _ _ _ []). }
  unfold mkdir at 1 in Hrun. fs_step Hrun.
  { exists [Trigger (PackageInstallBefore p); Rm true (install_tmpDir this p);
            Mkdir (install_tmpDir this p)].
    split; [by repeat constructor|]. left. split; [by eexists|].
    split; [unfold w1; steps_done|done]. }
  assert (outside_tmp A (fs w) n0) as Hout2.
  { eapply outside_tmp_trans; [exact Hout1|]. rewrite EtmpDir in Hop0.
    by eapply (outside_tmp_mkdir _ []). }
  unfold open_wx at 1 in Hrun. fs_step Hrun.
  { exists [Trigger (PackageInstallBefore p); Rm true (install_tmpDir this p);
            Mkdir (install_tmpDir this p); Open (install_tmpFile this p)].
    split; [by repeat constructor|]. left. split; [by eexists|].
    split; [unfold w1; steps_done|done]. }
  assert (outside_tmp A (fs w) n1) as Hout3.
  { eapply outside_tmp_trans; [exact Hout2|]. rewrite Etmp in Hop1.
    unfold FS.writeFile_wx in Hop1. by eapply outside_tmp_modify. }
  assert (FS.lookup (install_tmpFile this p) n1 = Some (FS.File [])) as Htmp.
  { rewrite <- EtmpFile in *. by eapply writeFile_wx_target. }
  set (E0 := [Trigger (PackageInstallBefore p); Rm true (install_tmpDir this p);
              Mkdir (install_tmpDir this p); Open (install_tmpFile this p)]).
  assert (Forall (staging_effect this p) E0) as Hst0 by by repeat constructor.
  assert (forall pre, written_data (install_tmpFile this p) (E0 ++ pre) =
                      written_data (install_tmpFile this p) pre) as Hwd0 by done.
  set (w3 := with_fs (with_effects _ [Open _]) n1) in Hrun.
  assert (steps w w3 E0) as Hs0 by (unfold w3, w1, E0; steps_done).
  assert (fs w3 = n1) as Hfs3 by done.
  assert (loaded_world w3) as Hl3 by done.
  clearbody w3 E0. clear Hop Hop0 Hop1 Hout1 Hout2 w1 Hl1 n n0.
  rewrite <- Hfs3 in Htmp, Hout3. clear Hfs3 n1.
  apply bind_inv in Hrun as [(e & Hc & ->)|([] & w5 & Hc & Hrun)];
    apply try_finally_inv in Hc as (r0 & w4 & rf & Htry & Hfin & Hr);
    apply install_try_inv in Htry as (pre & Hpre & Htry); try done;
    apply install_finally_inv in Hfin as (Hs45 & Hout45 & Hfin).
  - destruct Htry as [((e0 & ->) & Hs34 & Hout34)|(Hver & k & Hs34 & Hres)].
    + exists (E0 ++ pre ++ [Close (install_tmpFile this p);
                             Rm true (install_tmpDir this p)]).
      split; [by repeat (apply Forall_app; split); repeat constructor|].
      left. split; [by eexists|]. split.
      * eapply steps_trans; [exact Hs0|]. by eapply steps_trans.
      * eapply outside_tmp_trans; [exact Hout3|]. by eapply outside_tmp_trans.
    + exists (E0 ++ pre). split; [by apply Forall_app|]. right.
      rewrite Hwd0. split; [done|]. exists k, []. split.
      * pose proof (steps_trans _ _ _ _ _ Hs0
                      (steps_trans _ _ _ _ _ Hs34 Hs45)) as Hs.
        by rewrite <- !app_assoc in *.
      * split; [done|]. destruct r0 as [[]|e0].
        -- destruct Hres as (_ & _ & Hmeta). left.
           apply lookup_resolve in Hmeta. rewrite Emeta, meta_split in Hmeta.
           apply resolve_above in Hmeta. rewrite (Hfin Hmeta) in Hr. done.
        -- destruct Hres as [Hout34|Hnone].
           ++ right. eapply outside_tmp_trans; [exact Hout3|].
              by eapply outside_tmp_trans.
           ++ left. rewrite Emeta in *.
              by rewrite (outside_tmp_metaFile _ _ _ Hout45).
  - injection Hrun as <- <-. cbn [fs with_effects].
    destruct rf as [[]|e]; [subst r0|done].
    destruct Htry as [((e0 & [=]) & _)|(Hver & k & Hs34 & (-> & Hout & Hmeta))].
    exists (E0 ++ pre). split; [by apply Forall_app|]. right.
    rewrite Hwd0. split; [done|].
    exists 8%nat, [Trigger (PackageInstallAfter p)]. split.
    + pose proof (steps_trans _ _ _ _ _ Hs0
                    (steps_trans _ _ _ _ _ Hs34 Hs45)) as Hs.
      pose proof (steps_trans _ _ _ _ _ Hs
        (steps_with_effects w5 [Trigger (PackageInstallAfter p)])) as Hs'.
      by rewrite <- !app_assoc in *.
    + do 3 (split; [done|]). split.
      * rewrite Eout in *. by eapply outside_tmp_outFile.
      * rewrite Emeta in *. by rewrite (outside_tmp_metaFile _ _ _ Hout45).
Qed.




End Install.


(** A payload of the wrong size: the run throws the size error, nothing of
    the commit is called and the installed payload and its receipt stay. *)
Lemma install_short_payload_example :
  let this := Examples.manager in
  let w := Examples.world_short_payload in
  let p := Examples.pkg_single in
  let run := @install Examples.runtime this (ByString "single") w in
  run.1 = Throw (InvalidExtractSize 4) /\
  Forall (fun e => e ∉ @commit_effects Examples.runtime this p)
    (effects_since w run.2) /\
  FS.lookup (install_outFile this p) (fs run.2) =
    Some (FS.File (String.list_byte_of_string "old!")) /\
  FS.lookup (install_metaFile this p) (fs run.2) =
    Some (FS.File (String.list_byte_of_string "old")).
Proof.
  intros this w p run. split; [by vm_compute|]. split.
  - apply Forall_forall. intros e He. apply staging_not_commit.
    revert e He. apply Forall_forall. vm_compute. by repeat constructor.
  - split; by vm_compute.
Qed.

End InstallFacts.

(** ** Removing packages and cleaning up *)

Module CleanupFacts.
Import Manager ManagerSpec ManagerFacts FSFacts InstallFacts.

Section CleanupFS.
Implicit Types (n : FS.Node).

Lemma modify_force_missing f a x y q n m :
  FS.resolve a n = Ok (FS.Dir m) -> m !! x = None ->
  FS.modify true f (a ++ x :: y :: q) n = Ok n.
Proof.
  revert n. induction a as [|z a IH]; intros n Hr Hx.
  - cbn in Hr. injection Hr as ->. cbn [app]. by rewrite modify_cons2, Hx.
  - destruct n as [|e]; [done|]. cbn in Hr.
    destruct (e !! z) as [c|] eqn:Hz; [|done].
    specialize (IH c Hr Hx).
    destruct a as [|z' a]; cbn [app] in *; rewrite modify_cons2, Hz, IH; cbn;
      by rewrite insert_id.
Qed.

Lemma rm_true_below a x y n m :
  FS.resolve a n = Ok (FS.Dir m) ->
  (forall data, m !! x <> Some (FS.File data)) ->
  exists n', FS.rm true (a ++ [x; y]) n = Ok n'.
Proof.
  intros Hr Hx. destruct (m !! x) as [[data|mm]|] eqn:Hmx.
  - by destruct (Hx data).
  - assert (FS.resolve (a ++ [x]) n = Ok (FS.Dir mm)) as Hr'.
    { rewrite resolve_app, Hr. cbn. by rewrite Hmx. }
    destruct (rm_true_Ok _ y _ _ Hr') as (n' & Hn').
    rewrite <- app_assoc in Hn'. by exists n'.
  - exists n. unfold FS.rm. by eapply modify_force_missing.
Qed.

Lemma resolve_snoc a x n m :
  FS.resolve a n = Ok (FS.Dir m) ->
  FS.lookup (a ++ [x]) n = m !! x.
Proof.
  intros Hr. unfold FS.lookup. rewrite resolve_app, Hr. cbn.
  by destruct (m !! x).
Qed.

Lemma exists_at_parent force f a x n n' :
  FS.modify force f (a ++ [x]) n = Ok n' ->
  FS.exists_at a n' = FS.exists_at a n.
Proof.
  intros Hm. apply modify_parent in Hm. unfold FS.exists_at.
  destruct (FS.lookup a n'), (FS.lookup a n); try done.
Qed.

End CleanupFS.

Section Cleanup.
Context `{Runtime} (this : Manager).
Implicit Types (w : World) (d : string).

Let P : Path := path this.

Ltac path_steps_done :=
  unfold steps; cbn [catalog transport trace fs with_fs with_effects];
  split; [reflexivity|split; [reflexivity|]];
  rewrite <- ?app_assoc; unfold pathTo; fold P; cbn [app]; reflexivity.

Lemma fs_call_run e op w n :
  op (fs w) = Ok n -> fs_call e op w = (Ok tt, with_fs (with_effects w [e]) n).
Proof.
  intros Hop. unfold fs_call, mbind, ST_bind, log, modify_state, get_state,
    lift_result. cbn. by rewrite Hop.
Qed.

Lemma isObsolete_run w d :
  loaded_world w -> JS.startsWith "."%char d = false ->
  isObsolete this d w = (Ok (obsolete_dir this (catalog w) (fs w) d), w).
Proof.
  intros Hl Hdot. unfold isObsolete.
  erewrite bind_Ok by by apply ensureLoaded_run.
  rewrite Hdot.
  erewrite bind_Ok by by apply packageByName_run.
  unfold obsolete_dir. destruct (Packages.byName (catalog w) d) as [q|].
  - rewrite bool_decide_true by by eexists. done.
  - rewrite bool_decide_false by by intros [? [=]].
    erewrite bind_Ok by by apply pathToPackageMeta_run. done.
Qed.

Lemma isObsolete_dotted w d :
  loaded_world w -> JS.startsWith "."%char d = true ->
  isObsolete this d w = (Ok false, w).
Proof.
  intros Hl Hdot. unfold isObsolete.
  erewrite bind_Ok by by apply ensureLoaded_run.
  by rewrite Hdot.
Qed.

Lemma remove_run w pkg :
  loaded_world w ->
  remove this pkg w =
    if FS.exists_at (package_path this (catalog w) pkg []) (fs w)
    then (rm true (package_meta_path this (catalog w) pkg []);;
          rm true (package_path this (catalog w) pkg []);; mret true) w
    else (Ok false, w).
Proof.
  intros Hl. unfold remove.
  erewrite bind_Ok by by apply ensureLoaded_run.
  erewrite bind_Ok by by apply pathToPackage_run.
  unfold fs_read at 1.
  change ((get_state ≫= ?k) ≫= ?k') with (fun w => (k w ≫= k') w). cbn beta.
  change (lift_result (Ok ?b) ≫= ?k) with (k b). cbn beta.
  destruct (FS.exists_at _ _); cbn [negb]; [|done].
  erewrite bind_Ok by by apply pathToPackageMeta_run. done.
Qed.

Lemma cleanup_entry d rest results w m :
  loaded_world w ->
  resolved_name (catalog w) d = d ->
  JS.startsWith "."%char d = false ->
  FS.resolve (P ++ [d]) (fs w) = Ok (FS.Dir m) ->
  (forall data, m !! META_DIR <> Some (FS.File data)) ->
  exists w1,
    cleanup_loop this (d :: rest) results w =
      cleanup_loop this rest
        (if obsolete_dir this (catalog w) (fs w) d
         then results ++ [(d, true)] else results) w1 /\
    steps w w1 (cleanup_effects this (catalog w) (fs w) d) /\
    (forall x q, x <> d ->
       FS.resolve (P ++ x :: q) (fs w1) = FS.resolve (P ++ x :: q) (fs w)) /\
    FS.lookup (P ++ [d; META_DIR; TEMP_DIR]) (fs w1) = None /\
    (exists mp, FS.resolve P (fs w1) = Ok (FS.Dir mp)) /\
    if obsolete_dir this (catalog w) (fs w) d
    then FS.lookup (P ++ [d]) (fs w1) = None
    else
      (forall x q, x <> META_DIR ->
         FS.resolve (P ++ d :: x :: q) (fs w1) =
         FS.resolve (P ++ d :: x :: q) (fs w)) /\
      (forall x q, x <> TEMP_DIR ->
         FS.resolve (P ++ d :: META_DIR :: x :: q) (fs w1) =
         FS.resolve (P ++ d :: META_DIR :: x :: q) (fs w)) /\
      FS.is_dir <$> FS.lookup (P ++ [d; META_DIR]) (fs w1) =
      FS.is_dir <$> FS.lookup (P ++ [d; META_DIR]) (fs w).
Proof.
  intros Hl Hres Hdot Hdir Hmeta. cbn [cleanup_loop].
  erewrite bind_Ok by by apply pathToPackageMeta_run.
  unfold package_meta_path. cbn [name_of]. rewrite Hres.
  change (pathTo this [d; META_DIR; TEMP_DIR]) with (P ++ [d; META_DIR; TEMP_DIR]).
  destruct (rm_true_below _ META_DIR TEMP_DIR _ _ Hdir Hmeta) as (n1 & Hn1).
  rewrite <- app_assoc in Hn1. cbn [app] in Hn1.
  unfold rm at 1. erewrite bind_Ok by by apply fs_call_run.
  set (w1 := with_fs (with_effects w _) n1).
  assert (forall x q, x <> d ->
            FS.resolve (P ++ x :: q) n1 = FS.resolve (P ++ x :: q) (fs w))
    as Hframe1 by (intros x q Hx; by eapply rm_diverge).
  assert (P ++ [d; META_DIR; TEMP_DIR] = (P ++ [d; META_DIR]) ++ [TEMP_DIR])
    as E3 by by rewrite <- app_assoc.
  assert (P ++ [d; META_DIR] = (P ++ [d]) ++ [META_DIR])
    as E2 by by rewrite <- app_assoc.
  assert (FS.lookup (P ++ [d; META_DIR; TEMP_DIR]) n1 = None) as Htmp1.
  { rewrite E3 in *. by eapply rm_target. }
  assert (FS.exists_at (P ++ [d; META_DIR]) n1 =
          FS.exists_at (P ++ [d; META_DIR]) (fs w)) as Hex1.
  { unfold FS.rm in Hn1. rewrite E3 in Hn1. by eapply exists_at_parent. }
  assert (FS.is_dir <$> FS.lookup (P ++ [d; META_DIR]) n1 =
          FS.is_dir <$> FS.lookup (P ++ [d; META_DIR]) (fs w)) as Hkind1.
  { unfold FS.rm in Hn1. rewrite E3 in Hn1. by eapply modify_parent. }
  assert (exists mp, FS.resolve P n1 = Ok (FS.Dir mp)) as Hroot1.
  { change (P ++ [d]) with (P ++ d :: []) in Hdir.
    destruct (resolve_above _ _ _ _ _ Hdir) as (m0 & Hm0).
    unfold FS.rm in Hn1. by eapply modify_above. }
  erewrite bind_Ok by by apply isObsolete_run.
  assert (forall n, obsolete_dir this (catalog w) n d =
            match Packages.byName (catalog w) d with
            | Some _ => false
            | None => FS.exists_at (P ++ [d; META_DIR]) n
            end) as Hobs_eq.
  { intros n. unfold obsolete_dir, package_meta_path. cbn [name_of].
    by rewrite Hres. }
  assert (obsolete_dir this (catalog w1) (fs w1) d =
          obsolete_dir this (catalog w) (fs w) d) as Hobs.
  { cbn [catalog fs w1 with_fs with_effects]. rewrite !Hobs_eq.
    destruct (Packages.byName (catalog w) d); [done|exact Hex1]. }
  rewrite Hobs. unfold cleanup_effects.
  destruct (obsolete_dir this (catalog w) (fs w) d) eqn:Ho.
  - rewrite trigger_bind.
    set (w2 := with_effects w1 _).
    assert (FS.exists_at (P ++ [d; META_DIR]) n1 = true) as Hex.
    { rewrite Hex1. rewrite Hobs_eq in Ho.
      by destruct (Packages.byName (catalog w) d). }
    assert (exists md, FS.resolve (P ++ [d]) n1 = Ok (FS.Dir md)) as (md & Hd1).
    { unfold FS.exists_at in Hex. apply bool_decide_eq_true in Hex as (v & Hv).
      apply lookup_resolve in Hv. rewrite E2 in Hv.
      by apply resolve_above in Hv. }
    destruct (rm_true_Ok (P ++ [d]) META_DIR _ _ Hd1) as (n2 & Hn2).
    rewrite <- app_assoc in Hn2. cbn [app] in Hn2.
    assert (exists mp, FS.resolve P n2 = Ok (FS.Dir mp)) as (mp & HP2).
    { assert (FS.is_dir <$> FS.lookup (P ++ [d]) n2 = Some true) as Hd2.
      { unfold FS.rm in Hn2. rewrite E2 in Hn2.
        rewrite (modify_parent _ _ _ _ _ _ Hn2).
        apply lookup_resolve in Hd1. by rewrite Hd1. }
      destruct (FS.lookup (P ++ [d]) n2) as [v|] eqn:Hv; [|done].
      apply lookup_resolve in Hv. by apply resolve_above in Hv. }
    destruct (rm_true_Ok P d _ _ HP2) as (n3 & Hn3).
    erewrite bind_Ok; cycle 1.
    { rewrite remove_run by done.
      unfold package_path, package_meta_path. cbn [name_of].
      unfold w2, w1. cbn [catalog fs with_fs with_effects]. rewrite Hres.
      change (pathTo this [d]) with (P ++ [d]).
      change (pathTo this [d; META_DIR]) with (P ++ [d; META_DIR]).
      assert (FS.exists_at (P ++ [d]) n1 = true) as ->.
      { unfold FS.exists_at. apply bool_decide_eq_true.
        apply lookup_resolve in Hd1. by rewrite Hd1. }
      unfold rm. erewrite bind_Ok by (apply fs_call_run; exact Hn2).
      erewrite bind_Ok by (apply fs_call_run; exact Hn3).
      reflexivity. }
    rewrite trigger_bind.
    eexists. split; [reflexivity|]. split; [unfold w2, w1; path_steps_done|].
    cbn [fs with_fs with_effects].
    assert (FS.lookup (P ++ [d]) n3 = None) as Hgone by by eapply rm_target.
    assert (exists mp', FS.resolve P n3 = Ok (FS.Dir mp')) as Hroot3.
    { unfold FS.rm in Hn3. by eapply modify_above. }
    split; [|split; [|done]].
    + intros x q Hx. rewrite <- Hframe1 by done.
      transitivity (FS.resolve (P ++ x :: q) n2).
      * by eapply rm_diverge.
      * by eapply rm_diverge.
    + change (P ++ [d; META_DIR; TEMP_DIR]) with (P ++ [d] ++ [META_DIR; TEMP_DIR]).
      rewrite app_assoc. by apply lookup_below_None.
  - exists w1. split; [reflexivity|]. split; [unfold w1; path_steps_done|].
    cbn [fs w1 with_fs with_effects]. split; [done|]. split; [done|].
    split; [done|]. split; [|split; [|exact Hkind1]].
    + intros x q Hx.
      assert (forall l, P ++ d :: l = (P ++ [d]) ++ l) as E
        by (intros l; by rewrite <- app_assoc).
      rewrite (E (x :: q)). rewrite (E [META_DIR; TEMP_DIR]) in Hn1.
      by eapply rm_diverge.
    + intros x q Hx.
      assert (forall l, P ++ d :: META_DIR :: l = (P ++ [d; META_DIR]) ++ l) as E
        by (intros l; by rewrite <- app_assoc).
      rewrite (E (x :: q)). rewrite (E [TEMP_DIR]) in Hn1.
      by eapply rm_diverge.
Qed.

Lemma obsolete_dir_frame c n n' d :
  (forall q, FS.resolve (P ++ resolved_name c d :: q) n' =
             FS.resolve (P ++ resolved_name c d :: q) n) ->
  obsolete_dir this c n' d = obsolete_dir this c n d.
Proof.
  intros Hframe. unfold obsolete_dir, package_meta_path, FS.exists_at, FS.lookup.
  cbn [name_of]. unfold pathTo. fold P. by rewrite Hframe.
Qed.

Lemma flat_map_ext_elem {A B} (f g : A -> list B) l :
  (forall x, x ∈ l -> f x = g x) -> flat_map f l = flat_map g l.
Proof.
  induction l as [|x l IH]; intros Hext; [done|]. cbn.
  rewrite (Hext x) by by left. rewrite IH; [done|].
  intros y Hy. apply Hext. by right.
Qed.

Lemma cleanup_loop_run entries : forall results w,
  loaded_world w -> NoDup entries ->
  (forall d, d ∈ entries ->
     resolved_name (catalog w) d = d /\ JS.startsWith "."%char d = false /\
     exists m, FS.resolve (P ++ [d]) (fs w) = Ok (FS.Dir m) /\
               forall data, m !! META_DIR <> Some (FS.File data)) ->
  exists w',
    cleanup_loop this entries results w =
      (Ok (results ++
           ((fun d => (d, true)) <$>
            filter (fun d => obsolete_dir this (catalog w) (fs w) d = true)
              entries)), w') /\
    steps w w' (flat_map (cleanup_effects this (catalog w) (fs w)) entries) /\
    (forall x q, x ∉ entries ->
       FS.resolve (P ++ x :: q) (fs w') = FS.resolve (P ++ x :: q) (fs w)) /\
    ((exists mp, FS.resolve P (fs w) = Ok (FS.Dir mp)) ->
     exists mp, FS.resolve P (fs w') = Ok (FS.Dir mp)) /\
    (forall d, d ∈ entries ->
       FS.lookup (P ++ [d; META_DIR; TEMP_DIR]) (fs w') = None /\
       if obsolete_dir this (catalog w) (fs w) d
       then FS.lookup (P ++ [d]) (fs w') = None
       else
         (forall x q, x <> META_DIR ->
            FS.resolve (P ++ d :: x :: q) (fs w') =
            FS.resolve (P ++ d :: x :: q) (fs w)) /\
         (forall x q, x <> TEMP_DIR ->
            FS.resolve (P ++ d :: META_DIR :: x :: q) (fs w') =
            FS.resolve (P ++ d :: META_DIR :: x :: q) (fs w)) /\
         FS.is_dir <$> FS.lookup (P ++ [d; META_DIR]) (fs w') =
         FS.is_dir <$> FS.lookup (P ++ [d; META_DIR]) (fs w)).
Proof.
  induction entries as [|d rest IH]; intros results w Hl Hnd Hready.
  - exists w. cbn. rewrite app_nil_r. split; [done|].
    split; [apply steps_refl|]. split; [done|]. split; [done|].
    intros d Hd. by apply elem_of_nil in Hd.
  - apply NoDup_cons in Hnd as (Hd & Hnd).
    destruct (Hready d) as (Hres & Hdot & m & Hdir & Hmeta); [by left|].
    destruct (cleanup_entry d rest results w m Hl Hres Hdot Hdir Hmeta)
      as (w1 & Hrun & Hs1 & Hframe1 & Htmp1 & Hroot1 & Hd1).
    assert (catalog w1 = catalog w) as Hc1 by apply Hs1.
    assert (forall d', d' ∈ rest -> d' <> d) as Hne.
    { intros d' Hd' ->. done. }
    assert (forall d', d' ∈ rest ->
              obsolete_dir this (catalog w1) (fs w1) d' =
              obsolete_dir this (catalog w) (fs w) d') as Hobs.
    { intros d' Hd'. rewrite Hc1. apply obsolete_dir_frame. intros q.
      destruct (Hready d') as (Hres' & _); [by right|]. rewrite Hres'.
      apply Hframe1. by apply Hne. }
    destruct (IH (if obsolete_dir this (catalog w) (fs w) d
                  then results ++ [(d, true)] else results) w1)
      as (w' & Hrun' & Hs' & Hframe' & Hroot' & Hfacts').
    { by eapply steps_loaded. }
    { done. }
    { intros d' Hd'.
      destruct (Hready d') as (Hres' & Hdot' & m' & Hdir' & Hmeta'); [by right|].
      rewrite Hc1. split; [done|]. split; [done|]. exists m'.
      split; [|done]. rewrite <- Hdir'. apply Hframe1. by apply Hne. }
    exists w'. split; [|split; [|split; [|split; [intros _; by apply Hroot'|]]]].
    + rewrite Hrun, Hrun'. f_equal. f_equal.
      rewrite (CatalogFacts.filter_ext_in _
                 (fun d' => obsolete_dir this (catalog w) (fs w) d' = true) rest);
        cycle 1.
      { intros d' Hd'. by rewrite Hobs. }
      rewrite filter_cons.
      destruct (obsolete_dir this (catalog w) (fs w) d) eqn:Ho.
      * rewrite decide_True by done. cbn. by rewrite <- app_assoc.
      * rewrite decide_False by done. done.
    + cbn [flat_map]. eapply steps_trans; [exact Hs1|].
      rewrite (flat_map_ext_elem _ (cleanup_effects this (catalog w1) (fs w1)));
        [done|].
      intros d' Hd'. unfold cleanup_effects. by rewrite Hobs.
    + intros x q Hx. apply not_elem_of_cons in Hx as (Hxd & Hx).
      rewrite Hframe' by done. by apply Hframe1.
    + intros d' Hd'. apply elem_of_cons in Hd' as [->|Hd'].
      * assert (forall q, FS.resolve (P ++ d :: q) (fs w') =
                          FS.resolve (P ++ d :: q) (fs w1)) as Hkeep
          by (intros q; by apply Hframe').
        split.
        { unfold FS.lookup. change (P ++ [d; META_DIR; TEMP_DIR])
            with (P ++ d :: [META_DIR; TEMP_DIR]) in *.
          by rewrite Hkeep. }
        destruct (obsolete_dir this (catalog w) (fs w) d).
        -- unfold FS.lookup in *. by rewrite (Hkeep []).
        -- destruct Hd1 as (Hk1 & Hk2 & Hk3). split; [|split].
           ++ intros x q Hx. rewrite Hkeep. by apply Hk1.
           ++ intros x q Hx. rewrite Hkeep. by apply Hk2.
           ++ rewrite <- Hk3. unfold FS.lookup.
              change (P ++ [d; META_DIR]) with (P ++ d :: [META_DIR]).
              by rewrite Hkeep.
      * destruct (Hfacts' d' Hd') as (Htmp' & Hrest').
        assert (forall q, FS.resolve (P ++ d' :: q) (fs w1) =
                          FS.resolve (P ++ d' :: q) (fs w)) as Hkeep
          by (intros q; apply Hframe1; by apply Hne).
        split; [done|]. rewrite Hobs in Hrest' by done.
        destruct (obsolete_dir this (catalog w) (fs w) d'); [done|].
        destruct Hrest' as (Hk1 & Hk2 & Hk3). split; [|split].
        -- intros x q Hx. rewrite Hk1 by done. apply Hkeep.
        -- intros x q Hx. rewrite Hk2 by done. apply Hkeep.
        -- rewrite Hk3. unfold FS.lookup.
           change (P ++ [d'; META_DIR]) with (P ++ d' :: [META_DIR]).
           by rewrite Hkeep.
Qed.

Lemma _packageDirectories_run w :
  _packageDirectories this w =
    (match FS.readdir (path this) (fs w) with
     | Ok _ => Ok (local_directories this (fs w))
     | Throw e => Throw e
     end, w).
Proof.
  unfold _packageDirectories, local_directories, fs_read, mbind, ST_bind,
    get_state, lift_result.
  by destruct (FS.readdir (path this) (fs w)).
Qed.

Lemma local_directories_spec n m :
  FS.resolve P n = Ok (FS.Dir m) ->
  NoDup (local_directories this n) /\
  forall d, d ∈ local_directories this n <-> visited this n d.
Proof.
  intros HP. unfold local_directories, FS.readdir. fold P. rewrite HP. cbn.
  set (entries := prod_map id FS.is_dir <$> map_to_list m).
  assert (entries.*1 = (map_to_list m).*1) as Hfst.
  { unfold entries. rewrite <- list_fmap_compose. by apply list_fmap_ext. }
  split.
  - rewrite merge_sort_Permutation.
    eapply sublist_NoDup; [|apply fmap_sublist, sublist_filter].
    rewrite Hfst. apply NoDup_fst_map_to_list.
  - intros d. rewrite merge_sort_Permutation. unfold visited.
    change (pathTo this [d]) with (P ++ [d]). rewrite (resolve_snoc _ _ _ _ HP).
    rewrite list_elem_of_fmap. split.
    + intros ([d' b] & -> & Hin). apply list_elem_of_filter in Hin as (Hg & Hin).
      cbn in *. unfold entries in Hin.
      apply list_elem_of_fmap in Hin as ([d'' v] & [= -> ->] & Hin).
      apply elem_of_map_to_list in Hin. cbn in Hg.
      apply andb_prop_elim in Hg as (Hdot & Hdir).
      split; [by destruct (JS.startsWith _ _)|].
      destruct v as [data|m']; [done|]. by exists m'.
    + intros (Hdot & m' & Hm'). exists (d, true). split; [done|].
      apply list_elem_of_filter. split.
      * cbn. by rewrite Hdot.
      * unfold entries. apply list_elem_of_fmap. exists (d, FS.Dir m').
        split; [done|]. by apply elem_of_map_to_list.
Qed.

Lemma obsolete_loop_run entries : forall names w,
  loaded_world w ->
  Forall (fun d => JS.startsWith "."%char d = false) entries ->
  obsolete_loop this entries names w =
    (Ok (names ++
         filter (fun d => obsolete_dir this (catalog w) (fs w) d = true) entries),
     w).
Proof.
  induction entries as [|d rest IH]; intros names w Hl Hdot.
  - cbn. by rewrite app_nil_r.
  - apply Forall_cons in Hdot as (Hd & Hdot). cbn [obsolete_loop].
    erewrite bind_Ok by by apply isObsolete_run.
    rewrite IH by done. rewrite filter_cons.
    destruct (obsolete_dir this (catalog w) (fs w) d).
    + rewrite decide_True by done. by rewrite <- app_assoc.
    + rewrite decide_False by done. done.
Qed.

(** [obsolete()] on a loaded catalogue reads only. It returns, in the
    order of the listing, the non-dotted directories [d] of the root that
    no package of the catalogue is named after and for which a meta
    directory exists under the name that [d] resolves to: a directory name
    that is a hash key of a package resolves to the name of that package,
    so that the meta directory of that package is the one tested; every
    other name resolves to itself, and then it is the meta directory of
    [d]. The world is left as it was. *)
Theorem obsolete_lists (w : World) :
  loaded_world w ->
  FS.is_dir <$> FS.lookup (path this) (fs w) = Some true ->
  let c := catalog w in
  let dirs := local_directories this (fs w) in
  obsolete this w =
    (Ok (filter
           (fun d =>
              negb (bool_decide (is_Some (Packages.byName c d)))
              && FS.exists_at (pathTo this [resolved_name c d; META_DIR]) (fs w)
              = true)
           dirs), w) /\
  (forall d, d ∈ dirs <-> visited this (fs w) d) /\
  (forall d q, Packages.byUnique c d = Some q ->
     resolved_name c d = Package.name q) /\
  (forall d, Packages.byUnique c d = None -> resolved_name c d = d).
Proof.
  intros Hl Hroot c dirs.
  assert (exists m, FS.resolve P (fs w) = Ok (FS.Dir m)) as (m & HP).
  { fold P in Hroot. destruct (FS.lookup P (fs w)) as [[|m]|] eqn:Hv; try done.
    exists m. by apply lookup_resolve. }
  destruct (local_directories_spec _ _ HP) as (Hnd & Hdirs).
  split; [|split; [done|split]].
  - unfold obsolete.
    erewrite bind_Ok by by apply ensureLoaded_run.
    erewrite bind_Ok; cycle 1.
    { rewrite _packageDirectories_run. unfold FS.readdir. fold P.
      rewrite HP. reflexivity. }
    rewrite obsolete_loop_run; [|done|].
    + f_equal. f_equal. apply CatalogFacts.filter_ext_in. intros d _.
      unfold obsolete_dir, package_meta_path. cbn [name_of]. fold c.
      destruct (Packages.byName c d) as [q|].
      * rewrite bool_decide_true by by eexists. done.
      * rewrite bool_decide_false by by intros [? [=]]. done.
    + apply Forall_forall. intros d Hd. by apply Hdirs in Hd as (Hdot & _).
  - intros d q Hq. unfold resolved_name. by rewrite Hq.
  - intros d Hd. unfold resolved_name. by rewrite Hd.
Qed.

(** [remove(pkg)] on a loaded catalogue, for a name that is a single path
    component (it has no separator and is not empty, [.] or [..]): when
    the directory of the package does not exist nothing is done and the
    result is [false]; when it is a directory the meta directory is
    removed, then the directory, the result is [true], the directory is
    gone and the entries of the root with another name are kept. *)
Theorem remove_meta_first (w : World) (pkg : PackageLike) :
  loaded_world w ->
  plain_component (name_of (catalog w) pkg) = true ->
  let dir := package_path this (catalog w) pkg [] in
  let dirMeta := package_meta_path this (catalog w) pkg [] in
  (FS.lookup dir (fs w) = None -> remove this pkg w = (Ok false, w)) /\
  (forall m, FS.lookup dir (fs w) = Some (FS.Dir m) ->
     exists w',
       remove this pkg w = (Ok true, w') /\
       effects_since w w' = [Rm true dirMeta; Rm true dir] /\
       FS.lookup dir (fs w') = None /\
       forall x q, x <> name_of (catalog w) pkg ->
         FS.resolve (pathTo this (x :: q)) (fs w') =
         FS.resolve (pathTo this (x :: q)) (fs w)).
Proof.
  intros Hl _ dir dirMeta. rewrite remove_run by done. fold dir dirMeta.
  unfold FS.exists_at. split.
  - intros ->. rewrite bool_decide_false; [done|]. by intros [? [=]].
  - intros m Hm. rewrite Hm. rewrite bool_decide_true by by eexists.
    set (name := name_of (catalog w) pkg).
    assert (dir = P ++ [name]) as Edir by done.
    assert (dirMeta = (P ++ [name]) ++ [META_DIR]) as Emeta.
    { unfold dirMeta, package_meta_path, pathTo. fold name P.
      by rewrite <- app_assoc. }
    apply lookup_resolve in Hm. rewrite Edir in Hm.
    destruct (rm_true_Ok (P ++ [name]) META_DIR _ _ Hm) as (n1 & Hn1).
    assert (exists mp, FS.resolve P n1 = Ok (FS.Dir mp)) as (mp & HP1).
    { assert (FS.is_dir <$> FS.lookup (P ++ [name]) n1 = Some true) as Hd.
      { unfold FS.rm in Hn1. rewrite (modify_parent _ _ _ _ _ _ Hn1).
        apply lookup_resolve in Hm. by rewrite Hm. }
      destruct (FS.lookup (P ++ [name]) n1) as [v|] eqn:Hv; [|done].
      apply lookup_resolve in Hv. by apply resolve_above in Hv. }
    destruct (rm_true_Ok P name _ _ HP1) as (n2 & Hn2).
    rewrite <- Emeta in Hn1. rewrite <- Edir in Hn2.
    unfold rm. erewrite bind_Ok by (apply fs_call_run; exact Hn1).
    erewrite bind_Ok by (apply fs_call_run; exact Hn2).
    eexists. split; [reflexivity|]. cbn [fs with_fs with_effects].
    split; [|split].
    + apply steps_effects_since. unfold steps.
      cbn [catalog transport trace with_fs with_effects].
      by rewrite <- app_assoc.
    + rewrite Edir in *. by eapply rm_target.
    + intros x q Hx. change (pathTo this (x :: q)) with (P ++ x :: q).
      transitivity (FS.resolve (P ++ x :: q) n1).
      * rewrite Edir in Hn2. by eapply rm_diverge.
      * rewrite Emeta, <- app_assoc in Hn1. by eapply rm_diverge.
Qed.

(** [cleanup()] on a loaded catalogue: when the root is a directory, no
    listed directory name is a hash key of a package of the catalogue, and
    no listed directory has a regular file in the place of its meta
    directory, [cleanup] visits the non-dotted directories of the root
    (each once), removes the temporary directory of each, and removes, the
    meta directory first and between the two events, exactly those that no
    package of the catalogue is named after and that have a meta directory;
    these are reported as removed. Everything else of the visited
    directories, and every other entry of the root, is kept. *)
Theorem cleanup_removes_obsolete (w : World) :
  loaded_world w ->
  FS.is_dir <$> FS.lookup (path this) (fs w) = Some true ->
  Forall (fun d =>
            resolved_name (catalog w) d = d /\
            FS.is_dir <$> FS.lookup (pathTo this [d; META_DIR]) (fs w)
              <> Some false)
         (local_directories this (fs w)) ->
  let dirs := local_directories this (fs w) in
  let obsolete := obsolete_dir this (catalog w) (fs w) in
  NoDup dirs /\
  (forall d, d ∈ dirs <-> visited this (fs w) d) /\
  exists w',
    cleanup this w =
      (Ok ((fun d => (d, true)) <$> filter (fun d => obsolete d = true) dirs),
       w') /\
    effects_since w w' =
      flat_map (cleanup_effects this (catalog w) (fs w)) dirs /\
    (forall d, d ∈ dirs ->
       FS.lookup (pathTo this [d; META_DIR; TEMP_DIR]) (fs w') = None /\
       if obsolete d
       then FS.lookup (pathTo this [d]) (fs w') = None
       else
         (forall x q, x <> META_DIR ->
            FS.resolve (pathTo this (d :: x :: q)) (fs w') =
            FS.resolve (pathTo this (d :: x :: q)) (fs w)) /\
         (forall x q, x <> TEMP_DIR ->
            FS.resolve (pathTo this (d :: META_DIR :: x :: q)) (fs w') =
            FS.resolve (pathTo this (d :: META_DIR :: x :: q)) (fs w))) /\
    (forall x q, x ∉ dirs ->
       FS.resolve (pathTo this (x :: q)) (fs w') =
       FS.resolve (pathTo this (x :: q)) (fs w)).
Proof.
  intros Hl Hroot Hready dirs obsolete.
  assert (exists m, FS.resolve P (fs w) = Ok (FS.Dir m)) as (m & HP).
  { fold P in Hroot. destruct (FS.lookup P (fs w)) as [[|m]|] eqn:Hv; try done.
    exists m. by apply lookup_resolve. }
  destruct (local_directories_spec _ _ HP) as (Hnd & Hdirs).
  split; [done|]. split; [done|].
  destruct (cleanup_loop_run dirs [] w Hl Hnd)
    as (w' & Hrun & Hs & Hframe & _ & Hfacts).
  { intros d Hd. rewrite Forall_forall in Hready.
    destruct (Hready d Hd) as (Hres & Hmeta). split; [done|].
    apply Hdirs in Hd as (Hdot & m' & Hm'). split; [done|].
    exists m'. apply lookup_resolve in Hm'. split; [done|].
    intros data Hdata. apply Hmeta.
    change (pathTo this [d; META_DIR]) with (P ++ [d; META_DIR]).
    assert (P ++ [d; META_DIR] = (P ++ [d]) ++ [META_DIR]) as ->
      by by rewrite <- app_assoc.
    change (pathTo this [d]) with (P ++ [d]) in Hm'.
    by rewrite (resolve_snoc _ _ _ _ Hm'), Hdata. }
  exists w'. split; [|split; [|split]].
  - unfold cleanup. erewrite bind_Ok by by apply ensureLoaded_run.
    erewrite bind_Ok; cycle 1.
    { rewrite _packageDirectories_run. unfold FS.readdir. fold P.
      rewrite HP. reflexivity. }
    exact Hrun.
  - by apply steps_effects_since.
  - intros d Hd. destruct (Hfacts d Hd) as (Htmp & Hrest). split; [done|].
    unfold obsolete.
    destruct (obsolete_dir this (catalog w) (fs w) d); [done|].
    destruct Hrest as (Hk1 & Hk2 & _). by split.
  - exact Hframe.
Qed.

End Cleanup.

(** In the world with the three directories [obsolete] lists [gone]
    only. *)
Lemma obsolete_lists_witness :
  let this := Examples.manager in
  let w := Examples.world_leftovers in
  loaded_world w /\
  @obsolete Examples.runtime this w = (Ok ["gone"], w).
Proof.
  intros this w.
  assert (Hl : loaded_world w) by reflexivity.
  assert (Hroot : FS.is_dir <$> FS.lookup (path this) (fs w) = Some true)
    by (vm_compute; reflexivity).
  split; [exact Hl|].
  destruct (@obsolete_lists Examples.runtime this w Hl Hroot) as (Hrun & _).
  rewrite Hrun. vm_compute. reflexivity.
Defined.

(** Removing [gone] there: the meta directory goes first and the directory
    is gone. *)
Lemma remove_meta_first_witness :
  let this := Examples.manager in
  let w := Examples.world_leftovers in
  loaded_world w /\
  exists w',
    @remove Examples.runtime this (ByString "gone") w = (Ok true, w') /\
    effects_since w w' =
      [Rm true [MAIN_DIR; "gone"; META_DIR]; Rm true [MAIN_DIR; "gone"]] /\
    FS.lookup [MAIN_DIR; "gone"] (fs w') = None.
Proof.
  intros this w.
  assert (Hl : loaded_world w) by reflexivity.
  assert (Hplain : plain_component (@name_of (catalog w) (ByString "gone")) = true)
    by (vm_compute; reflexivity).
  split; [exact Hl|].
  destruct (proj2 (@remove_meta_first Examples.runtime this w (ByString "gone")
                     Hl Hplain)
              (list_to_map [("gone.bin", Examples.file "data");
                            (META_DIR, Examples.dir
                               [(PACKAGE_FILE, Examples.file "gone")])]))
    as (w' & Hrun & Heff & Hgone & _).
  { vm_compute. reflexivity. }
  exists w'. split; [exact Hrun|]. split; [exact Heff|exact Hgone].
Defined.

(** Cleaning the world with the three directories: [gone] is removed and
    reported, the temporary directory of [single] is removed, and [stray],
    which has no meta directory, stays. *)
Lemma cleanup_removes_obsolete_witness :
  let this := Examples.manager in
  let w := Examples.world_leftovers in
  loaded_world w /\
  exists w',
    @cleanup Examples.runtime this w = (Ok [("gone", true)], w') /\
    FS.lookup [MAIN_DIR; "gone"] (fs w') = None /\
    FS.lookup [MAIN_DIR; "single"; META_DIR; TEMP_DIR] (fs w') = None /\
    FS.resolve [MAIN_DIR; "stray"; "notes.txt"] (fs w') =
      Ok (Examples.file "text").
Proof.
  intros this w.
  assert (Hl : loaded_world w) by reflexivity.
  assert (Hroot : FS.is_dir <$> FS.lookup (path this) (fs w) = Some true)
    by (vm_compute; reflexivity).
  assert (Hdirs : local_directories this (fs w) = ["gone"; "single"; "stray"])
    by (vm_compute; reflexivity).
  assert (Hready :
    Forall (fun d =>
              @resolved_name (catalog w) d = d /\
              FS.is_dir <$> FS.lookup (pathTo this [d; META_DIR]) (fs w)
                <> Some false)
           (local_directories this (fs w))).
  { rewrite Hdirs.
    repeat (constructor; [split; [vm_compute; reflexivity
                                 |vm_compute; discriminate]|]).
    constructor. }
  split; [exact Hl|].
  destruct (@cleanup_removes_obsolete Examples.runtime this w Hl Hroot Hready)
    as (_ & _ & w' & Hrun & _ & Hfacts & _).
  exists w'. split; [|split; [|split]].
  - rewrite Hrun. f_equal.
  - destruct (Hfacts "gone") as (_ & Hgone).
    { rewrite Hdirs. constructor. }
    assert (obsolete_dir this (catalog w) (fs w) "gone" = true)
      as Ho by (vm_compute; reflexivity).
    rewrite Ho in Hgone. exact Hgone.
  - destruct (Hfacts "single") as (Htmp & _); [|exact Htmp].
    rewrite Hdirs. do 2 constructor.
  - destruct (Hfacts "stray") as (_ & Hstray).
    { rewrite Hdirs. do 3 constructor. }
    assert (obsolete_dir this (catalog w) (fs w) "stray" = false)
      as Ho by (vm_compute; reflexivity).
    rewrite Ho in Hstray. destruct Hstray as (Hkept & _).
    change [MAIN_DIR; "stray"; "notes.txt"]
      with (pathTo this ("stray" :: "notes.txt" :: [])).
    rewrite Hkept; [|vm_compute; discriminate].
    vm_compute. reflexivity.
Defined.

End CleanupFacts.

(** ** What an install leaves behind *)

Module InstallOutcomes.
Import Manager ManagerSpec ManagerFacts FSFacts InstallFacts.

Section Outcomes.
Context `{Runtime} (this : Manager) (p : Package).
Implicit Types (w : World).

(** The comparison of [isCurrent] on the outcome of reading the receipt. *)
Lemma install_unfold w pkg :
  loaded_world w -> as_package (catalog w) pkg = Some p ->
  install this pkg w =
    if fetch this then
      if match read_receipt (fs w) (receipt_path this (catalog w) (ByObject p)) with
         | Some data => receipt_matches data p
         | None => false
         end
      then (Ok [], with_effects w [Trigger (PackageInstallCurrent p)])
      else install_run this p w
    else (Throw DefaultFetchNotAvailable, w).
Proof.
  intros Hl Has. unfold install.
  erewrite bind_Ok by by apply ensureLoaded_run.
  erewrite bind_Ok; cycle 1.
  { rewrite _asPackage_run by done. destruct pkg as [q|s]; cbn in Has.
    - by injection Has as ->.
    - by rewrite Has. }
  unfold _ensureFetch. destruct (fetch this); [|done].
  change (mret tt ≫= ?k) with (k tt). cbn beta.
  erewrite bind_Ok by by apply (isCurrent_run this w (ByObject p) p).
  by destruct (match read_receipt _ _ with Some _ => _ | None => _ end).
Qed.

(** [install] of a package whose receipt is current: nothing is requested
    and nothing is written; the only effect is the event, and the list of
    installed packages is empty. *)
Theorem install_current_is_skipped (w : World) (pkg : PackageLike)
    (data : IPackageReceipt) :
  loaded_world w ->
  as_package (catalog w) pkg = Some p ->
  fetch this = true ->
  read_receipt (fs w) (receipt_path this (catalog w) (ByObject p)) = Some data ->
  receipt_matches data p = true ->
  install this pkg w =
    (Ok [], with_effects w [Trigger (PackageInstallCurrent p)]).
Proof.
  intros Hl Has Hfetch Hread Hmatch.
  rewrite install_unfold by done. by rewrite Hfetch, Hread, Hmatch.
Qed.

Lemma receipt_matches_own :
  receipt_matches
    (mkReceipt (Package.name p) (Package.file p) (Package.size p)
       (Package.sha256 p) (Package.source p)) p = true.
Proof.
  unfold receipt_matches. cbn.
  by rewrite !String.eqb_refl, Z.eqb_refl.
Qed.

(** After an install that ran, the package is current: [isCurrent] answers
    [true] and another [install] is skipped. The receipt has to survive
    [JSON.stringify] and [JSON.parse], and the name of the package has to
    resolve to itself. *)
Theorem install_makes_current (w : World) (pkg : PackageLike)
    (pkgs : list Package) (w' : World) :
  loaded_world w ->
  as_package (catalog w) pkg = Some p ->
  resolved_name (catalog w) (Package.name p) = Package.name p ->
  (let r := mkReceipt (Package.name p) (Package.file p) (Package.size p)
              (Package.sha256 p) (Package.source p) in
   JSON_parse_receipt (JSON_stringify_receipt r) = Some (Some r)) ->
  install this pkg w = (Ok pkgs, w') ->
  pkgs <> [] ->
  isInstalled this (ByObject p) w' = (Ok true, w') /\
  isCurrent this (ByObject p) w' = (Ok true, w') /\
  install this (ByObject p) w' =
    (Ok [], with_effects w' [Trigger (PackageInstallCurrent p)]).
Proof.
  intros Hl Has Hname Hjson Hrun Hne.
  rewrite install_unfold in Hrun by done.
  destruct (fetch this) eqn:Hfetch; [|done].
  destruct (match read_receipt _ _ with Some _ => _ | None => _ end).
  { injection Hrun as <- _. done. }
  apply install_run_inv in Hrun as (pre & _ & Hshape); [|done].
  destruct Hshape as [((e & [=]) & _)|(_ & k & tail & Hsteps & Hres)].
  destruct Hres as (_ & _ & _ & _ & Hmeta).
  assert (loaded_world w') as Hl' by by eapply steps_loaded.
  assert (catalog w' = catalog w) as Hc by apply Hsteps.
  assert (read_receipt (fs w') (receipt_path this (catalog w') (ByObject p)) =
          Some (mkReceipt (Package.name p) (Package.file p) (Package.size p)
                  (Package.sha256 p) (Package.source p))) as Hread.
  { unfold read_receipt, receipt_path, package_meta_path. cbn [name_of].
    rewrite Hc, Hname. fold (install_metaFile this p).
    unfold FS.readFile. apply lookup_resolve in Hmeta. rewrite Hmeta. cbn.
    unfold receipt_bytes. rewrite String.string_of_list_byte_of_string.
    cbn zeta in Hjson. by rewrite Hjson. }
  split; [|split].
  - rewrite (isInstalled_run this w' (ByObject p) p) by done.
    by rewrite Hread.
  - rewrite (isCurrent_run this w' (ByObject p) p) by done.
    by rewrite Hread, receipt_matches_own.
  - rewrite install_unfold by done.
    by rewrite Hfetch, Hread, receipt_matches_own.
Qed.

End Outcomes.

(** Once [single] has been installed over its outdated copy, installing it
    again only reports that it is current. *)
Lemma install_current_is_skipped_witness :
  let this := Examples.manager in
  let p := Examples.pkg_single in
  let w := (@install Examples.runtime this (ByString "single")
              Examples.world_outdated).2 in
  loaded_world w /\
  @install Examples.runtime this (ByString "single") w =
    (Ok [], with_effects w [Trigger (PackageInstallCurrent p)]).
Proof.
  intros this p w.
  assert (Hl : loaded_world w) by reflexivity.
  split; [exact Hl|].
  apply (@install_current_is_skipped Examples.runtime this p w
           (ByString "single")
           (mkReceipt "single" "single.bin" 6 "single-sha256"
              "https://example.com/single")).
  - exact Hl.
  - vm_compute. reflexivity.
  - reflexivity.
  - vm_compute. reflexivity.
  - vm_compute. reflexivity.
Defined.

(** The same for the run itself: after the install of [single] the package
    is installed and current. *)
Lemma install_makes_current_witness :
  let this := Examples.manager in
  let p := Examples.pkg_single in
  let w := Examples.world_outdated in
  let run := @install Examples.runtime this (ByString "single") w in
  run.1 = Ok [p] /\
  @isInstalled Examples.runtime this (ByObject p) run.2 = (Ok true, run.2) /\
  @isCurrent Examples.runtime this (ByObject p) run.2 = (Ok true, run.2).
Proof.
  intros this p w run.
  assert (Hl : loaded_world w) by reflexivity.
  assert (Has : @as_package (catalog w) (ByString "single") = Some p)
    by (vm_compute; reflexivity).
  assert (Hname : @resolved_name (catalog w) (Package.name p) = Package.name p)
    by (vm_compute; reflexivity).
  assert (Hr : run.1 = Ok [p]) by (vm_compute; reflexivity).
  assert (Hrun : @install Examples.runtime this (ByString "single") w =
                 (Ok [p], run.2)) by (vm_compute; reflexivity).
  split; [exact Hr|].
  destruct (@install_makes_current Examples.runtime this p w (ByString "single")
              [p] run.2 Hl Has Hname ltac:(vm_compute; reflexivity) Hrun
              ltac:(discriminate)) as (Hinst & Hcur & _).
  split; [exact Hinst|exact Hcur].
Defined.

End InstallOutcomes.

(** ** Updating and loading the catalogue file *)

Module UpdateFacts.
Import Manager ManagerSpec ManagerFacts FSFacts InstallFacts.

Section UpdateFS.
Implicit Types (n : FS.Node).

Lemma append_ne (x ext : string) : ext <> "" -> x +:+ ext <> x.
Proof.
  intros Hext. induction x as [|a s IH]; cbn; [done|].
  intros [= Heq]. by apply IH.
Qed.

(** [mkdir] keeps what is below the directory it ensures. *)
Lemma mkdir_keeps_below p x q n n' :
  FS.mkdir p n = Ok n' ->
  FS.lookup (p ++ x :: q) n' = FS.lookup (p ++ x :: q) n.
Proof.
  revert n n'. induction p as [|y p IH]; intros n n' Hmk.
  - destruct n as [|m]; [done|]. cbn in Hmk. by injection Hmk as <-.
  - destruct n as [|m]; [done|]. cbn [FS.mkdir] in Hmk.
    destruct (FS.mkdir p (default (FS.Dir ∅) (m !! y))) as [c'|e] eqn:Hc;
      [|done].
    cbn in Hmk. injection Hmk as <-. apply IH in Hc.
    unfold FS.lookup in *. cbn [app FS.resolve].
    rewrite lookup_insert_eq. rewrite Hc.
    destruct (m !! y) as [c|]; cbn [default from_option id]; [done|].
    destruct p; cbn [app]; by rewrite resolve_empty.
Qed.

End UpdateFS.

Section Update.
Context `{Runtime} (this : Manager).
Implicit Types (w : World) (c : Packages).

Lemma on_catalog_inv {A} (m : ST Packages A) w r w' :
  on_catalog m w = (r, w') ->
  exists c', m (catalog w) = (r, c') /\
             w' = mkWorld (fs w) c' (transport w) (trace w).
Proof.
  unfold on_catalog, zoom. destruct (m (catalog w)) as [r0 c'].
  intros [= <- <-]. by exists c'.
Qed.

Lemma _setPackagesList_path packagesList c r c' :
  Packages._setPackagesList packagesList c = (r, c') ->
  Packages._path c' = Packages._path c.
Proof.
  intros Hset. destruct r as [[]|e].
  - apply CatalogFacts._setPackagesList_Ok in Hset
      as (? & ? & ? & ? & ? & ? & _ & _ & _ & _ & _ & _ & _ & ->). done.
  - apply CatalogFacts._setPackagesList_Throw in Hset as ->. done.
Qed.

Lemma _setPackagesList_list packagesList c c' :
  Packages._setPackagesList packagesList c = (Ok tt, c') ->
  Packages._packagesList c' = Some packagesList.
Proof.
  intros Hset. apply CatalogFacts._setPackagesList_Ok in Hset
    as (? & ? & ? & ? & ? & ? & _ & _ & _ & _ & _ & _ & _ & ->). done.
Qed.

Lemma Packages_update_inv data c r c' :
  Packages.update data c = (r, c') ->
  Packages._path c' = Packages._path c /\
  forall report, r = Ok report ->
    exists packagesList,
      Packages._parseData data = Ok packagesList /\
      Packages._packagesList c' = Some packagesList.
Proof.
  intros Hup. destruct r as [report|e].
  - apply CatalogFacts.update_Ok_inv in Hup as (l & Hparse & Hset & _).
    split; [by eapply _setPackagesList_path|].
    intros _ _. exists l. split; [done|by eapply _setPackagesList_list].
  - apply CatalogFacts.update_Throw_unchanged in Hup as ->. done.
Qed.

Lemma reads_only_refl w : reads_only w w.
Proof. done. Qed.

Lemma reads_only_trans w1 w2 w3 :
  reads_only w1 w2 -> reads_only w2 w3 -> reads_only w1 w3.
Proof.
  intros (H1 & H2 & H3 & H4) (H5 & H6 & H7 & H8).
  repeat split; congruence.
Qed.

Lemma read_inv w r w' :
  @PackagesFile.read _ w = (r, w') -> reads_only w w'.
Proof.
  unfold PackagesFile.read, readFile_utf8, fs_read. intros Hrun.
  change (get_state ≫= ?k) with (fun w => k w w) in Hrun. cbn beta in Hrun.
  apply bind_inv in Hrun as [(e & Hc & _)|(text & w1 & Hc & Hrun)].
  - unfold mbind, ST_bind, get_state, lift_result in Hc.
    destruct (FS.readFile _ _); [done|by injection Hc as _ <-].
  - assert (w1 = w) as ->.
    { unfold mbind, ST_bind, get_state, lift_result in Hc.
      destruct (FS.readFile _ _); [|done]. by injection Hc as _ <-. }
    apply bind_inv in Hrun as [(e & Hc' & _)|(l & w2 & Hc' & Hrun)];
      apply lift_result_inv in Hc' as (_ & ->); [done|].
    apply on_catalog_inv in Hrun as (c' & Hset & ->).
    repeat split. cbn. by eapply _setPackagesList_path.
Qed.

Lemma readIfExists_inv w r w' :
  @PackagesFile.readIfExists _ w = (r, w') -> reads_only w w'.
Proof.
  unfold PackagesFile.readIfExists, try_catch.
  destruct ((PackagesFile.read;; mret true) w) as [[b|e] w1] eqn:Hread.
  - intros [= _ <-].
    apply bind_Ok_inv in Hread as ([] & w2 & Hread & [= _ <-]).
    by apply read_inv in Hread.
  - apply bind_Throw_inv in Hread as [Hread|([] & w2 & _ & [=])].
    apply read_inv in Hread.
    destruct (decide (e = ENOENT)); by intros [= _ <-].
Qed.

Lemma ensureLoad_inv w r w' :
  ensureLoad w = (r, w') -> reads_only w w'.
Proof.
  unfold ensureLoad. rewrite (bind_Ok _ _ _ _ _ (loaded_run w)).
  destruct (negb (Packages.loaded (catalog w))); [|by intros [= _ <-]].
  unfold load. intros Hrun.
  apply bind_inv in Hrun as [(e & Hc & _)|(b & w1 & Hc & [= _ <-])];
    by apply readIfExists_inv in Hc.
Qed.

Lemma try_ensureLoad_inv w r w' :
  try_catch ensureLoad (fun _ => mret tt) w = (r, w') ->
  r = Ok tt /\ reads_only w w'.
Proof.
  unfold try_catch.
  destruct (ensureLoad w) as [[[]|e] w1] eqn:Hload; intros [= <- <-];
    (split; [done|]); by apply ensureLoad_inv in Hload.
Qed.

Lemma _requestPackages_inv w r w' :
  _requestPackages this w = (r, w') ->
  fs w' = fs w /\ catalog w' = catalog w.
Proof.
  unfold _requestPackages, _ensureFetch. destruct (fetch this); [|by intros [= _ <-]].
  change (mret tt ≫= ?k) with (k tt). cbn beta. intros Hrun.
  apply bind_inv in Hrun as [(e & Hc & _)|(res & w1 & Hc & Hrun)];
    apply fetch_retry_inv in Hc as (effects & -> & _); [done|].
  destruct (negb (status res =? 200)); [by injection Hrun as _ <-|].
  destruct (text res); by injection Hrun as _ <-.
Qed.

Lemma write_inv w a x packagesList r w' :
  Packages._path (catalog w) = a ++ [x] ->
  Packages._packagesList (catalog w) = Some packagesList ->
  @PackagesFile.write _ w = (r, w') ->
  catalog w' = catalog w /\
  match r with
  | Ok _ =>
      FS.lookup (a ++ [x]) (fs w') =
        Some (FS.File (String.list_byte_of_string (JSON_stringify packagesList)))
  | Throw _ => FS.lookup (a ++ [x]) (fs w') = FS.lookup (a ++ [x]) (fs w)
  end.
Proof.
  intros Hpath Hlist. unfold PackagesFile.write.
  change (get_state ≫= ?k) with (fun w => k w w). cbn beta.
  rewrite Hlist, Hpath.
  replace (with_ext (a ++ [x]) TEMP_EXT) with (a ++ [x +:+ TEMP_EXT])
    by by rewrite with_ext_app.
  unfold dirname. rewrite removelast_last.
  assert (x <> x +:+ TEMP_EXT) as Hx
    by (apply not_eq_sym, append_ne; discriminate).
  intros Hrun. unfold mkdir in Hrun. fs_step Hrun; [done|].
  assert (FS.lookup (a ++ [x]) n = FS.lookup (a ++ [x]) (fs w)) as H1
    by by eapply mkdir_keeps_below.
  unfold rm in Hrun. fs_step Hrun; [done|].
  assert (FS.lookup (a ++ [x]) n0 = FS.lookup (a ++ [x]) (fs w)) as H2.
  { rewrite <- H1. apply lookup_eq. by eapply rm_diverge. }
  unfold writeFile_wx in Hrun. fs_step Hrun; [done|].
  assert (FS.lookup (a ++ [x]) n1 = FS.lookup (a ++ [x]) (fs w)) as H3.
  { rewrite <- H2. apply lookup_eq. unfold FS.writeFile_wx in Hop1.
    by eapply modify_diverge. }
  apply writeFile_wx_target in Hop1 as Htmp.
  unfold rename in Hrun.
  apply fs_call_inv in Hrun as [(err & Hop2 & -> & ->)|(n2 & Hop2 & -> & ->)];
    cbn [fs catalog with_fs with_effects]; (split; [done|]); [done|].
  cbn [fs with_fs with_effects] in Hop2.
  apply rename_target in Hop2 as (v & Hv & Hout); [|done].
  apply lookup_resolve in Htmp. rewrite Htmp in Hv. by injection Hv as <-.
Qed.

(** [update()] replaces the catalogue file atomically. When the path of
    the catalogue file has a last component: a run that returns a report
    leaves the new list loaded, and the file holds exactly its
    serialisation; a run that throws, whether the request, the validation
    or a step of the write fails, leaves the entry of the catalogue file
    as it was. *)
Theorem update_replaces_file_atomically (w : World) (a : Path) (x : string)
    (r : Result Report) (w' : World) :
  Packages._path (catalog w) = a ++ [x] ->
  update this w = (r, w') ->
  match r with
  | Ok _ =>
      exists packagesList,
        Packages._packagesList (catalog w') = Some packagesList /\
        FS.lookup (a ++ [x]) (fs w') =
          Some (FS.File (String.list_byte_of_string
                           (JSON_stringify packagesList)))
  | Throw _ => FS.lookup (a ++ [x]) (fs w') = FS.lookup (a ++ [x]) (fs w)
  end.
Proof.
  intros Hpath Hrun. unfold update in Hrun.
  apply bind_inv in Hrun as [(e & Hc & ->)|(data & w1 & Hc & Hrun)];
    apply _requestPackages_inv in Hc as (Hfs1 & Hc1); [by rewrite Hfs1|].
  apply bind_inv in Hrun as [(e & Hc & ->)|([] & w2 & Hc & Hrun)];
    apply try_ensureLoad_inv in Hc as (Hr & Hfs2 & _ & _ & Hp2); [done|].
  clear Hr.
  apply bind_inv in Hrun as [(e & Hc & ->)|(report & w3 & Hc & Hrun)];
    apply on_catalog_inv in Hc as (c3 & Hup & ->);
    apply Packages_update_inv in Hup as (Hp3 & Hok).
  { cbn [fs]. by rewrite Hfs2, Hfs1. }
  destruct (Hok _ eq_refl) as (l & _ & Hlist).
  apply bind_inv in Hrun as [(e & Hc & ->)|([] & w4 & Hc & [= <- <-])];
    eapply write_inv in Hc as (Hc4 & Hfile).
  - cbn [fs] in Hfile. by rewrite Hfile, Hfs2, Hfs1.
  - cbn [catalog]. by rewrite Hp3, Hp2, Hc1.
  - done.
  - exists l. rewrite Hc4. done.
  - cbn [catalog]. by rewrite Hp3, Hp2, Hc1.
  - done.
Qed.

Lemma _setPackagesList_any packagesList c c' c0 :
  Packages._setPackagesList packagesList c = (Ok tt, c') ->
  Packages._path c0 = Packages._path c ->
  Packages._setPackagesList packagesList c0 = (Ok tt, c').
Proof.
  intros Hset Hp. apply CatalogFacts._setPackagesList_Ok in Hset
    as (roots & byName & bySha256 & bySha1 & byMd5 & byUnique
        & Hf & Hr & Hn & H256 & H1 & H5 & Hu & ->).
  unfold Packages._setPackagesList.
  rewrite Hf. erewrite bind_Ok by reflexivity.
  rewrite Hr. erewrite bind_Ok by reflexivity.
  rewrite CatalogFacts._listPackages_flatten.
  rewrite Hn. erewrite bind_Ok by reflexivity.
  rewrite H256. erewrite bind_Ok by reflexivity.
  rewrite H1. erewrite bind_Ok by reflexivity.
  rewrite H5. erewrite bind_Ok by reflexivity.
  rewrite Hu. erewrite bind_Ok by reflexivity.
  rewrite <- Hp. reflexivity.
Qed.

(** The catalogue file written by [update()] loads back: when
    [JSON.parse] reads what [JSON.stringify] wrote for the new list, a
    manager that starts unloaded on the file system the update left
    loads, with [load()], exactly the catalogue the update left. *)
Theorem update_then_load (w : World) (a : Path) (x : string)
    (report : Report) (w' : World) :
  Packages._path (catalog w) = a ++ [x] ->
  update this w = (Ok report, w') ->
  (forall packagesList,
     Packages._packagesList (catalog w') = Some packagesList ->
     JSON_parse (JSON_stringify packagesList) =
       Some (U_object (Some (list_format packagesList))
                      (Some (list_packages packagesList)))) ->
  load (mkWorld (fs w') (Packages.new (a ++ [x])) (transport w') (trace w'))
    = (Ok tt, w').
Proof.
  intros Hpath Hrun Hjson. unfold update in Hrun.
  apply bind_inv in Hrun as [(e & Hc & [=])|(data & w1 & Hc & Hrun)].
  apply _requestPackages_inv in Hc as (Hfs1 & Hc1).
  apply bind_inv in Hrun as [(e & Hc & [=])|([] & w2 & Hc & Hrun)].
  apply try_ensureLoad_inv in Hc as (_ & Hfs2 & _ & _ & Hp2).
  apply bind_inv in Hrun as [(e & Hc & [=])|(report' & w3 & Hc & Hrun)].
  apply on_catalog_inv in Hc as (c3 & Hup & ->).
  apply CatalogFacts.update_Ok_inv in Hup as (l & Hparse & Hset & _).
  pose proof (_setPackagesList_path _ _ _ _ Hset) as Hp3.
  pose proof (_setPackagesList_list _ _ _ Hset) as Hlist.
  apply bind_inv in Hrun as [(e & Hc & [=])|([] & w4 & Hc & [= _ <-])].
  eapply write_inv in Hc as (Hc4 & Hfile);
    [|cbn [catalog]; by rewrite Hp3, Hp2, Hc1|exact Hlist].
  cbn [catalog] in Hc4.
  assert (Packages._path c3 = a ++ [x]) as Hp by by rewrite Hp3, Hp2, Hc1.
  unfold load, PackagesFile.readIfExists, try_catch.
  assert (@PackagesFile.read _
            (mkWorld (fs w4) (Packages.new (a ++ [x])) (transport w4) (trace w4))
          = (Ok tt, w4)) as Hread.
  { set (w0 := mkWorld (fs w4) (Packages.new (a ++ [x])) (transport w4)
                 (trace w4)).
    assert (readFile_utf8 (a ++ [x]) w0 = (Ok (JSON_stringify l), w0)) as Htext.
    { unfold readFile_utf8, fs_read, mbind, ST_bind, get_state, lift_result,
        FS.readFile.
      apply (proj1 (lookup_resolve _ _ _)) in Hfile. cbn [fs w0].
      rewrite Hfile. cbn. by rewrite String.string_of_list_byte_of_string. }
    unfold PackagesFile.read.
    change (get_state ≫= ?k) with (fun w => k w w). cbn beta.
    change (Packages._path (catalog w0)) with (a ++ [x]).
    erewrite bind_Ok by exact Htext.
    unfold Packages._parseData. rewrite (Hjson l) by by rewrite Hc4.
    cbn [Packages._castData].
    assert (mkList (list_format l) (list_packages l) = l) as -> by by destruct l.
    erewrite bind_Ok by reflexivity.
    unfold on_catalog, zoom. cbn [catalog w0].
    rewrite (_setPackagesList_any _ _ _ (Packages.new (a ++ [x])) Hset)
      by (cbn; by rewrite Hp2, Hc1, Hpath).
    cbn [fs transport trace w0]. rewrite <- Hc4. by destruct w4. }
  unfold mbind, ST_bind. unfold mbind, ST_bind in Hread. by rewrite Hread.
Qed.

End Update.

(** The server answers with the second catalogue: the update returns a
    report and the catalogue file holds the list that is now loaded. *)
Lemma update_replaces_file_atomically_witness :
  let this := Examples.manager in
  let w := Examples.world_with (Examples.always (Examples.response 200 None [])) in
  let run := @update Examples.runtime this w in
  Packages._path (catalog w) = [MAIN_DIR; META_DIR] ++ [PACKAGES_FILE] /\
  (exists report, run.1 = Ok report) /\
  exists packagesList,
    Packages._packagesList (catalog run.2) = Some packagesList /\
    FS.lookup ([MAIN_DIR; META_DIR] ++ [PACKAGES_FILE]) (fs run.2) =
      Some (FS.File (String.list_byte_of_string
                       (@JSON_stringify Examples.runtime packagesList))).
Proof.
  intros this w run.
  assert (Hpath : Packages._path (catalog w) =
                  [MAIN_DIR; META_DIR] ++ [PACKAGES_FILE]) by reflexivity.
  assert (Hok : exists report, run.1 = Ok report)
    by (eexists; vm_compute; reflexivity).
  assert (Hrun : @update Examples.runtime this w = (run.1, run.2))
    by (vm_compute; reflexivity).
  split; [exact Hpath|]. split; [exact Hok|].
  pose proof (@update_replaces_file_atomically Examples.runtime this w
                [MAIN_DIR; META_DIR] PACKAGES_FILE run.1 run.2 Hpath Hrun)
    as Hthm.
  destruct Hok as (report & Hr). rewrite Hr in Hthm. exact Hthm.
Defined.

(** With a [JSON.stringify] that [JSON.parse] reads back, a manager that
    starts on the file system the update left loads the updated
    catalogue. *)
Lemma update_then_load_witness :
  let this := Examples.manager in
  let w := Examples.world_with (Examples.always (Examples.response 200 None [])) in
  let run := @update Examples.runtime_files this w in
  (exists report, run.1 = Ok report) /\
  @load Examples.runtime_files
    (mkWorld (fs run.2) (Packages.new ([MAIN_DIR; META_DIR] ++ [PACKAGES_FILE]))
       (transport run.2) (trace run.2)) = (Ok tt, run.2).
Proof.
  intros this w run.
  assert (Hpath : Packages._path (catalog w) =
                  [MAIN_DIR; META_DIR] ++ [PACKAGES_FILE]) by reflexivity.
  assert (Hok : exists report, run.1 = Ok report)
    by (eexists; vm_compute; reflexivity).
  split; [exact Hok|]. destruct Hok as (report & Hr).
  assert (Hrun : @update Examples.runtime_files this w = (Ok report, run.2)).
  { rewrite <- Hr. vm_compute. reflexivity. }
  apply (@update_then_load Examples.runtime_files this w [MAIN_DIR; META_DIR]
           PACKAGES_FILE report run.2 Hpath Hrun).
  intros packagesList Hlist. vm_compute in Hlist.
  injection Hlist as <-. vm_compute. reflexivity.
Defined.

End UpdateFacts.

(** ** The indexes of the catalogue *)

Module IndexFacts.
Import Packages CatalogSpec CatalogFacts.

Section Indexes.
Context `{Runtime}.

Lemma _packagesMapBy_lookup dup keys packages : forall r r',
  _packagesMapBy dup keys packages r = Ok r' ->
  (forall e k, e ∈ packages -> k ∈ keys e -> r' !! k = Some e) /\
  (forall k, k ∉ flat_map keys packages -> r' !! k = r !! k).
Proof.
  induction packages as [|entry rest IH]; intros r r' Hmap.
  - cbn in Hmap. injection Hmap as <-. split; [|done].
    intros e k He. by apply elem_of_nil in He.
  - cbn [_packagesMapBy] in Hmap.
    destruct (_packagesMapKeys dup entry (keys entry) r) as [r1|e] eqn:Hkeys;
      [|done].
    cbn in Hmap.
    apply _packagesMapKeys_Ok in Hkeys as (_ & _ & Hr1).
    destruct (IH _ _ Hmap) as (Hin & Hout).
    apply _packagesMapBy_Ok in Hmap as (_ & Hfresh).
    split.
    + intros e k He Hk. apply elem_of_cons in He as [->|He]; [|by eapply Hin].
      rewrite Hout.
      * rewrite Hr1. by rewrite bool_decide_true.
      * intros Hk'. apply Hfresh in Hk'. rewrite Hr1 in Hk'.
        by rewrite bool_decide_true in Hk'.
    + intros k Hk. cbn [flat_map] in Hk. apply not_elem_of_app in Hk as (Hk1 & Hk2).
      rewrite Hout by done. rewrite Hr1. by rewrite bool_decide_false.
Qed.

Lemma _packagesMapBy_lookup_inv dup keys packages r' k e :
  _packagesMapBy dup keys packages ∅ = Ok r' ->
  r' !! k = Some e -> e ∈ packages /\ k ∈ keys e.
Proof.
  intros Hmap Hk. destruct (_packagesMapBy_lookup _ _ _ _ _ Hmap) as (Hin & Hout).
  destruct (decide (k ∈ flat_map keys packages)) as [Hmem|Hmem].
  - apply list_elem_of_In, in_flat_map in Hmem as (e' & He' & Hk').
    apply list_elem_of_In in He', Hk'.
    rewrite (Hin e' k He' Hk') in Hk. by injection Hk as <-.
  - rewrite Hout in Hk by done. by rewrite lookup_empty in Hk.
Qed.

(** After a catalogue was set, the five indexes find exactly its packages:
    every package of the list is the answer for its name and for each of
    its hashes, in its own index and in the index of all keys, and an
    answer of any of the five indexes is a package of the list that has
    the key. *)
Theorem indexes_find_the_packages (data : string) (this : Packages)
    (report : Report) (this' : Packages) :
  update data this = (Ok report, this') ->
  (forall p, p ∈ packages this' ->
     byName this' (Package.name p) = Some p /\
     bySha256 this' (Package.sha256 p) = Some p /\
     bySha1 this' (Package.sha1 p) = Some p /\
     byMd5 this' (Package.md5 p) = Some p /\
     forall k, k ∈ unique_keys p -> byUnique this' k = Some p) /\
  (forall k p, byName this' k = Some p ->
     p ∈ packages this' /\ Package.name p = k) /\
  (forall k p, bySha256 this' k = Some p ->
     p ∈ packages this' /\ Package.sha256 p = k) /\
  (forall k p, bySha1 this' k = Some p ->
     p ∈ packages this' /\ Package.sha1 p = k) /\
  (forall k p, byMd5 this' k = Some p ->
     p ∈ packages this' /\ Package.md5 p = k) /\
  (forall k p, byUnique this' k = Some p ->
     p ∈ packages this' /\ k ∈ unique_keys p).
Proof.
  intros Hup. apply update_Ok_inv in Hup as (l & _ & Hset & _).
  apply _setPackagesList_Ok in Hset
    as (roots & byName & bySha256 & bySha1 & byMd5 & byUnique
        & _ & _ & Hn & H256 & H1 & H5 & Hu & ->).
  unfold Packages.byName, Packages.bySha256, Packages.bySha1, Packages.byMd5,
    Packages.byUnique, packages. cbn.
  split; [|split; [|split; [|split; [|split]]]].
  - intros p Hp.
    destruct (_packagesMapBy_lookup _ _ _ _ _ Hn) as (Hin_n & _).
    destruct (_packagesMapBy_lookup _ _ _ _ _ H256) as (Hin_256 & _).
    destruct (_packagesMapBy_lookup _ _ _ _ _ H1) as (Hin_1 & _).
    destruct (_packagesMapBy_lookup _ _ _ _ _ H5) as (Hin_5 & _).
    destruct (_packagesMapBy_lookup _ _ _ _ _ Hu) as (Hin_u & _).
    split; [apply Hin_n; [done|by constructor]|].
    split; [apply Hin_256; [done|by constructor]|].
    split; [apply Hin_1; [done|by constructor]|].
    split; [apply Hin_5; [done|by constructor]|].
    intros k Hk. by apply Hin_u.
  - intros k p Hk.
    destruct (_packagesMapBy_lookup_inv _ _ _ _ _ _ Hn Hk) as (Hp & Hkey).
    split; [done|]. by apply list_elem_of_singleton in Hkey.
  - intros k p Hk.
    destruct (_packagesMapBy_lookup_inv _ _ _ _ _ _ H256 Hk) as (Hp & Hkey).
    split; [done|]. by apply list_elem_of_singleton in Hkey.
  - intros k p Hk.
    destruct (_packagesMapBy_lookup_inv _ _ _ _ _ _ H1 Hk) as (Hp & Hkey).
    split; [done|]. by apply list_elem_of_singleton in Hkey.
  - intros k p Hk.
    destruct (_packagesMapBy_lookup_inv _ _ _ _ _ _ H5 Hk) as (Hp & Hkey).
    split; [done|]. by apply list_elem_of_singleton in Hkey.
  - intros k p Hk.
    by destruct (_packagesMapBy_lookup_inv _ _ _ _ _ _ Hu Hk).
Qed.

End Indexes.

(** In the first catalogue of the examples [single] is found by its name
    and by its sha256. *)
Lemma indexes_find_the_packages_witness :
  let run := @update Examples.runtime "catalog-1"
               (Manager._createPackages (Manager.path Examples.manager)) in
  (exists report, run.1 = Ok report) /\
  byName run.2 "single" = Some Examples.pkg_single /\
  byUnique run.2 "single-sha256" = Some Examples.pkg_single.
Proof.
  intros run.
  assert (Hok : exists report, run.1 = Ok report)
    by (eexists; vm_compute; reflexivity).
  split; [exact Hok|]. destruct Hok as (report & Hr).
  assert (Hrun : @update Examples.runtime "catalog-1"
                   (Manager._createPackages (Manager.path Examples.manager)) =
                 (Ok report, run.2)).
  { rewrite <- Hr. vm_compute. reflexivity. }
  destruct (@indexes_find_the_packages Examples.runtime _ _ _ _ Hrun)
    as (Hfind & _).
  destruct (Hfind Examples.pkg_single) as (Hname & _ & _ & _ & Hunique).
  { vm_compute. repeat constructor. }
  split; [exact Hname|]. apply (Hunique "single-sha256").
  vm_compute. repeat constructor.
Defined.

End IndexFacts.

(** ** Composition and length of slices *)

Module SliceFacts.
Import Stream StreamFacts.

Section Slices.
Context {A : Type}.
Implicit Types (chunks : list (list A)) (input : list A).

Lemma expected_slice_length (start size : Z) input :
  0 <= start -> 0 <= size ->
  blen (expected_slice start size input) =
    Z.min size (Z.max 0 (blen input - start)).
Proof.
  intros Hstart Hsize. unfold expected_slice, bytes_in_range, blen.
  destruct (size =? 0) eqn:H0; [cbn; lia|].
  destruct (size <? 0) eqn:Hneg; [lia|].
  rewrite length_take, length_drop. lia.
Qed.

(** The number of bytes a [SliceStream] of a non-negative range lets
    through: the size of the range, or what the input has from [start] on
    when that is less. *)
Theorem SliceStream_output_length (start size : Z) chunks :
  0 <= start -> 0 <= size ->
  blen (concat (run start size chunks)) =
    Z.min size (Z.max 0 (blen (concat chunks) - start)).
Proof.
  intros Hstart Hsize. rewrite run_expected_slice.
  by apply expected_slice_length.
Qed.


End Slices.

(** Three bytes from the third on of an input of six bytes in two chunks,
    and of an input that ends one byte later. *)
Lemma SliceStream_output_length_witness :
  blen (concat (run 2 3 [[1; 2; 3]; [4; 5; 6]])) = 3 /\
  blen (concat (run 2 3 [[1; 2]; [3]])) = 1.
Proof.
  split.
  - by rewrite (SliceStream_output_length 2 3 [[1; 2; 3]; [4; 5; 6]]).
  - by rewrite (SliceStream_output_length 2 3 [[1; 2]; [3]]).
Defined.


End SliceFacts.

(** ** An install stays with its package *)

Module ConfinedFacts.
Import Manager ManagerSpec ChainFacts ManagerFacts FSFacts InstallFacts
  InstallOutcomes.

Section Confined.
Variables (root : Path) (name url : string).
Implicit Types (w : World) (n : FS.Node).

Let dir : Path := root ++ [name].

Lemma same_elsewhere_refl n : same_elsewhere root name n n.
Proof. done. Qed.

Lemma same_elsewhere_trans n1 n2 n3 :
  same_elsewhere root name n1 n2 -> same_elsewhere root name n2 n3 ->
  same_elsewhere root name n1 n3.
Proof. intros H1 H2 x q Hx. by rewrite H2, H1. Qed.

Lemma confined_ret {A} (a : A) : confined root name url (mret a).
Proof.
  intros w r w' _ [= <- <-]. exists []. split; [apply steps_refl|done].
Qed.

Lemma confined_pure {A} (m : M A) :
  (forall w, exists r, m w = (r, w)) -> confined root name url m.
Proof.
  intros Hm w r w' _ Hrun. destruct (Hm w) as (r0 & Hr0).
  rewrite Hr0 in Hrun. injection Hrun as <- <-.
  exists []. split; [apply steps_refl|done].
Qed.

Lemma confined_bind {A B} (m : M A) (f : A -> M B) :
  confined root name url m -> (forall a, confined root name url (f a)) ->
  confined root name url (m ≫= f).
Proof.
  intros Hm Hf w r w' Hl Hrun.
  apply bind_inv in Hrun as [(e & Hc & ->)|(a & w1 & Hc & Hrun)].
  - destruct (Hm _ _ _ Hl Hc) as (effs & Hs & Hq & Hfs). by exists effs.
  - destruct (Hm _ _ _ Hl Hc) as (effs1 & Hs1 & Hq1 & Hfs1).
    destruct (Hf a _ _ _ (steps_loaded _ _ _ Hs1 Hl) Hrun)
      as (effs2 & Hs2 & Hq2 & Hfs2).
    exists (effs1 ++ effs2). split; [by eapply steps_trans|].
    split; [by apply Forall_app|by eapply same_elsewhere_trans].
Qed.

(** A step whose outcome on a loaded catalogue is known. *)
Lemma confined_bind_run {A B} (m : M A) (f : A -> M B) (a : A) :
  (forall w, loaded_world w -> m w = (Ok a, w)) ->
  confined root name url (f a) -> confined root name url (m ≫= f).
Proof.
  intros Hm Hf w r w' Hl Hrun. rewrite (bind_Ok _ _ _ _ _ (Hm w Hl)) in Hrun.
  by apply (Hf w r w').
Qed.

Lemma confined_ext {A} (m m' : M A) :
  (forall w, loaded_world w -> m w = m' w) ->
  confined root name url m' -> confined root name url m.
Proof.
  intros Hext Hm w r w' Hl Hrun. rewrite Hext in Hrun by done.
  by apply (Hm w r w').
Qed.

Lemma confined_log e :
  confined_effect dir url e -> confined root name url (log e).
Proof.
  intros He w r w' _ [= <- <-]. exists [e]. split; [done|].
  split; [by constructor|done].
Qed.

Lemma confined_fs_call e op :
  confined_effect dir url e ->
  (forall n n', op n = Ok n' -> same_elsewhere root name n n') ->
  confined root name url (fs_call e op).
Proof.
  intros He Hop w r w' _ Hrun.
  apply fs_call_inv in Hrun as [(err & _ & -> & ->)|(n & Hn & -> & ->)];
    exists [e]; (split; [done|]); (split; [by constructor|]); cbn; [done|].
  by apply Hop.
Qed.

Lemma confined_try_finally {A} (m : M A) (f : M unit) :
  confined root name url m -> confined root name url f ->
  confined root name url (try_finally m f).
Proof.
  intros Hm Hf w r w' Hl Hrun.
  apply try_finally_inv in Hrun as (r0 & w1 & rf & Hm1 & Hf1 & _).
  destruct (Hm _ _ _ Hl Hm1) as (effs1 & Hs1 & Hq1 & Hfs1).
  destruct (Hf _ _ _ (steps_loaded _ _ _ Hs1 Hl) Hf1)
    as (effs2 & Hs2 & Hq2 & Hfs2).
  exists (effs1 ++ effs2). split; [by eapply steps_trans|].
  split; [by apply Forall_app|by eapply same_elsewhere_trans].
Qed.

Lemma prefix_dir rest : dir `prefix_of` dir ++ rest.
Proof. by exists rest. Qed.

Lemma modify_elsewhere force f rest n n' :
  FS.modify force f (dir ++ rest) n = Ok n' -> same_elsewhere root name n n'.
Proof.
  unfold dir. rewrite <- app_assoc. intros Hm x q Hx.
  by eapply modify_diverge.
Qed.

Lemma mkdir_elsewhere rest n n' :
  FS.mkdir (dir ++ rest) n = Ok n' -> same_elsewhere root name n n'.
Proof.
  unfold dir. rewrite <- app_assoc. intros Hm x q Hx.
  by eapply mkdir_diverge.
Qed.

Lemma rename_elsewhere rest1 rest2 n n' :
  FS.rename (dir ++ rest1) (dir ++ rest2) n = Ok n' ->
  same_elsewhere root name n n'.
Proof.
  unfold dir. rewrite <- !app_assoc. intros Hm x q Hx.
  by eapply rename_diverge2.
Qed.

Lemma confined_rm recursive rest : confined root name url (rm recursive (dir ++ rest)).
Proof.
  apply confined_fs_call; [apply prefix_dir|]. intros n n'. apply modify_elsewhere.
Qed.

Lemma confined_mkdir rest : confined root name url (mkdir (dir ++ rest)).
Proof.
  apply confined_fs_call; [apply prefix_dir|]. intros n n'. apply mkdir_elsewhere.
Qed.

Lemma confined_open_wx rest : confined root name url (open_wx (dir ++ rest)).
Proof.
  apply confined_fs_call; [apply prefix_dir|]. intros n n'. apply modify_elsewhere.
Qed.

Lemma confined_write rest data : confined root name url (write (dir ++ rest) data).
Proof.
  apply confined_fs_call; [apply prefix_dir|]. intros n n'. apply modify_elsewhere.
Qed.

Lemma confined_writeFile_wx rest data :
  confined root name url (writeFile_wx (dir ++ rest) data).
Proof.
  apply confined_fs_call; [apply prefix_dir|]. intros n n'. apply modify_elsewhere.
Qed.

Lemma confined_rename rest1 rest2 :
  confined root name url (rename (dir ++ rest1) (dir ++ rest2)).
Proof.
  apply confined_fs_call; [split; apply prefix_dir|].
  intros n n'. apply rename_elsewhere.
Qed.

Lemma confined_fetch_retry headers :
  confined root name url (fetch_retry url headers).
Proof.
  intros w r w' _ Hrun. rewrite fetch_retry_run in Hrun.
  destruct (retry_outcome_effects w (mkRequest url headers))
    as (calls & Hcalls & Hw).
  rewrite (surjective_pairing (retry_outcome _ _)) in Hrun.
  injection Hrun as _ <-. rewrite Hw. exists calls. split; [done|].
  split; [|done]. destruct Hcalls as [->| ->]; by repeat constructor.
Qed.

End Confined.

Section InstallConfined.
Context `{Runtime} (this : Manager) (p : Package).

Let root : Path := path this.
Let name : string := Package.name p.
Let srcPkg : Package := hd p (install_packages p).
Let url : string := Package.source srcPkg.

#[local] Abbreviation ok := (confined root name url).

Lemma confined_throw {A} e : ok (throw e : M A).
Proof. apply confined_pure. intros w. by eexists. Qed.

Lemma confined_lift_result {A} (r : Result A) : ok (lift_result r).
Proof. apply confined_pure. intros w. by eexists. Qed.

Lemma confined_trigger ev : ok (trigger ev).
Proof. by apply confined_log. Qed.

Lemma tmpFile_dir :
  install_tmpFile this p =
  (root ++ [name]) ++ [META_DIR; TEMP_DIR; Package.sha256 p +:+ TEMP_EXT].
Proof. by destruct (install_paths this p) as (_ & _ & _ & -> & _). Qed.

Lemma confined_write_chunks chunks : forall bytesWritten,
  ok (write_chunks p (install_tmpFile this p) chunks bytesWritten).
Proof.
  induction chunks as [|c rest IH]; intros bytesWritten; cbn [write_chunks].
  - apply confined_ret.
  - apply confined_bind; [rewrite tmpFile_dir; apply confined_write|intros _].
    apply confined_bind; [apply confined_trigger|intros _]. apply IH.
Qed.

Lemma confined_pipeline input transforms :
  ok (install_pipeline p (install_tmpFile this p) input transforms).
Proof.
  unfold install_pipeline.
  destruct (apply_transforms _ _); [|apply confined_throw].
  destruct (body_completes input); [|apply confined_throw].
  apply confined_bind; [apply confined_write_chunks|intros bw].
  apply confined_ret.
Qed.

Lemma confined_check_content_length res expected err :
  ok (check_content_length res expected err).
Proof.
  apply confined_pure. intros w. rewrite check_content_length_run. by eexists.
Qed.

Lemma confined_input slice : ok (install_input this srcPkg slice).
Proof.
  unfold install_input. fold url. destruct slice as [[start size]|].
  - destruct (JS.gt size (JS.Num 0)).
    + apply confined_bind; [apply confined_fetch_retry|intros res].
      destruct (negb (status res =? 206)); [apply confined_throw|].
      apply confined_bind; [apply confined_check_content_length|intros _].
      apply confined_ret.
    + destruct (JS.strict_eq size (JS.Num 0));
        [apply confined_ret|apply confined_throw].
  - apply confined_bind; [apply confined_fetch_retry|intros res].
    destruct (negb (status res =? 200)); [apply confined_throw|].
    apply confined_bind; [apply confined_check_content_length|intros _].
    apply confined_ret.
Qed.

Lemma confined_verify bytesWritten hashed :
  ok (install_verify p bytesWritten hashed).
Proof.
  apply confined_pure. intros w. unfold install_verify, mbind, ST_bind.
  destruct (negb (bytesWritten =? Package.size p)); cbn; [by eexists|].
  destruct (negb (String.eqb hashed (Package.sha256 p))); by eexists.
Qed.

Lemma confined_commit :
  ok (install_commit this p (install_outFile this p) (install_tmpFile this p)
        (install_metaFile this p)).
Proof.
  destruct (install_paths this p) as (EB & Eout & EtmpDir & Etmp & Emeta & Ertmp).
  change (install_dir this p) with (root ++ [name]) in *.
  unfold install_commit.
  apply confined_bind.
  { eapply confined_ext; [intros w Hl; by apply _packageDirsEnsure_run|].
    change (install_dir this p) with (root ++ [name]).
    apply confined_bind.
    - pose proof (confined_mkdir root name url []) as Hm.
      by rewrite app_nil_r in Hm.
    - intros _. rewrite EB. apply confined_mkdir. }
  intros _. apply confined_bind; [rewrite Emeta; apply confined_rm|intros _].
  apply confined_bind; [rewrite Eout; apply confined_rm|intros _].
  apply confined_bind; [rewrite Etmp, Eout; apply confined_rename|intros _].
  eapply confined_ext; [intros w Hl; by apply _packageMetaReceiptWrite_run|].
  rewrite Ertmp, Emeta.
  apply confined_bind; [apply confined_rm|intros _].
  apply confined_bind; [|intros _; apply confined_rename].
  apply confined_fs_call; [apply prefix_dir|].
  intros n n'. apply modify_elsewhere.
Qed.

Lemma confined_try slice transforms :
  ok (install_try this p srcPkg slice transforms (install_outFile this p)
        (install_tmpFile this p) (install_metaFile this p)).
Proof.
  unfold install_try.
  apply confined_bind; [apply confined_trigger|intros _].
  apply confined_bind; [apply confined_trigger|intros _].
  apply confined_bind; [apply confined_input|intros input].
  apply confined_bind; [apply confined_pipeline|intros [bw hashed]].
  apply confined_bind; [apply confined_verify|intros _].
  apply confined_bind; [apply confined_trigger|intros _].
  apply confined_commit.
Qed.

Lemma confined_run : ok (install_run this p).
Proof.
  destruct (install_paths this p) as (EB & Eout & EtmpDir & Etmp & Emeta & Ertmp).
  change (install_dir this p) with (root ++ [name]) in *.
  unfold install_run. fold srcPkg.
  apply confined_bind; [apply confined_lift_result|intros [slice transforms]].
  apply confined_bind; [apply confined_trigger|intros _].
  apply (confined_bind_run _ _ _ _ _ (install_outFile this p));
    [intros w Hl; by rewrite pathToPackage_run|].
  apply (confined_bind_run _ _ _ _ _ (install_tmpDir this p));
    [intros w Hl; by rewrite pathToPackageMeta_run|].
  apply (confined_bind_run _ _ _ _ _ (install_metaFile this p));
    [intros w Hl; by rewrite pathToPackageMeta_run|].
  assert (install_tmpDir this p ++ [Package.sha256 p +:+ TEMP_EXT] =
          install_tmpFile this p) as ->.
  { by rewrite EtmpDir, Etmp, <- app_assoc. }
  apply confined_bind; [rewrite EtmpDir; apply confined_rm|intros _].
  apply confined_bind; [rewrite EtmpDir; apply confined_mkdir|intros _].
  apply confined_bind; [rewrite Etmp; apply confined_open_wx|intros _].
  apply confined_bind.
  - apply confined_try_finally; [apply confined_try|].
    apply confined_bind; [|intros _; rewrite EtmpDir; apply confined_rm].
    apply confined_log. rewrite Etmp. apply prefix_dir.
  - intros _. apply confined_bind; [apply confined_trigger|intros _].
    apply confined_ret.
Qed.

Lemma install_frame (w : World) (pkg : PackageLike)
    (r : Result (list Package)) (w' : World) :
  loaded_world w ->
  as_package (catalog w) pkg = Some p ->
  install this pkg w = (r, w') ->
  exists effects,
    steps w w' effects /\
    Forall (confined_effect (root ++ [name]) url) effects /\
    same_elsewhere root name (fs w) (fs w').
Proof.
  intros Hl Has Hrun. rewrite (install_unfold this p) in Hrun by done.
  destruct (fetch this).
  - destruct (match read_receipt _ _ with Some _ => _ | None => _ end).
    + injection Hrun as <- <-.
      exists [Trigger (PackageInstallCurrent p)]. split; [done|].
      split; [by repeat constructor|done].
    + by apply (confined_run w r w').
  - injection Hrun as <- <-. exists []. split; [apply steps_refl|done].
Qed.

(** [install] stays with its package. On a loaded catalogue, whatever
    the outcome: the catalogue and the transport are as they were, and
    every request of the run goes to the source of the root ancestor of
    the package (the ancestor without a parent). For a package whose name,
    file and temporary file name are single path components: every call on
    the file system names paths in the directory of the package, and the
    entries of the root that have another name are unchanged. *)
Theorem install_is_confined (w : World) (pkg : PackageLike)
    (r : Result (list Package)) (w' : World) :
  loaded_world w ->
  as_package (catalog w) pkg = Some p ->
  install this pkg w = (r, w') ->
  catalog w' = catalog w /\ transport w' = transport w /\
  Package.parent (root_of p) = None /\
  (forall request, Fetch request ∈ effects_since w w' ->
     request_url request = Package.source (root_of p)) /\
  (plain_package p ->
     Forall (confined_effect (pathTo this [Package.name p])
               (Package.source (root_of p)))
            (effects_since w w') /\
     same_elsewhere (path this) (Package.name p) (fs w) (fs w')).
Proof.
  intros Hl Has Hrun.
  destruct (install_frame w pkg r w' Hl Has Hrun) as (effects & Hs & Hq & Hfs).
  split; [apply Hs|]. split; [apply Hs|]. split; [apply root_of_parent|].
  rewrite (steps_effects_since _ _ _ Hs).
  unfold url, srcPkg in Hq. rewrite install_packages_root in Hq.
  split; [|by split].
  intros request Hin. rewrite Forall_forall in Hq. exact (Hq _ Hin).
Qed.

End InstallConfined.

(** The install of [single] over its outdated copy requests the source of
    [single] only and stays in its directory. *)
Lemma install_is_confined_witness :
  let this := Examples.manager in
  let p := Examples.pkg_single in
  let w := Examples.world_outdated in
  let run := @install Examples.runtime this (ByString "single") w in
  Forall (confined_effect [MAIN_DIR; "single"] "https://example.com/single")
         (effects_since w run.2) /\
  same_elsewhere [MAIN_DIR] "single" (fs w) (fs run.2).
Proof.
  intros this p w run.
  assert (Hl : loaded_world w) by reflexivity.
  assert (Has : @as_package (catalog w) (ByString "single") = Some p)
    by (vm_compute; reflexivity).
  assert (Hrun : @install Examples.runtime this (ByString "single") w =
                 (run.1, run.2)) by (vm_compute; reflexivity).
  assert (Hplain : plain_package p) by (repeat split; vm_compute; reflexivity).
  destruct (@install_is_confined Examples.runtime this p w (ByString "single")
              run.1 run.2 Hl Has Hrun) as (_ & _ & _ & _ & Hpaths).
  exact (Hpaths Hplain).
Defined.

End ConfinedFacts.

(** ** Listing installed and outdated packages, and upgrading them *)

Module ListingFacts.
Import Manager ManagerSpec ManagerFacts FSFacts InstallFacts CleanupFacts
  InstallOutcomes ConfinedFacts.

Section Listing.
Context `{Runtime} (this : Manager).
Implicit Types (w : World) (p : Package).

Lemma isInstalled_obj_run w p :
  loaded_world w ->
  isInstalled this (ByObject p) w =
    (Ok (is_installed this (catalog w) (fs w) p), w).
Proof. intros Hl. by rewrite (isInstalled_run this w (ByObject p) p). Qed.

Lemma isCurrent_obj_run w p :
  loaded_world w ->
  isCurrent this (ByObject p) w = (Ok (is_current this (catalog w) (fs w) p), w).
Proof. intros Hl. by rewrite (isCurrent_run this w (ByObject p) p). Qed.

Lemma listed_cons test c d dirs :
  listed test c (d :: dirs) =
    match Packages.byName c d with
    | Some p => if test p then p :: listed test c dirs else listed test c dirs
    | None => listed test c dirs
    end.
Proof.
  unfold listed. cbn. destruct (Packages.byName c d) as [p|]; [|done].
  by destruct (test p).
Qed.

Lemma installed_loop_run entries : forall names w,
  loaded_world w ->
  installed_loop this entries names w =
    (Ok (names ++ listed (is_installed this (catalog w) (fs w)) (catalog w)
                    entries), w).
Proof.
  induction entries as [|d rest IH]; intros names w Hl.
  - cbn. by rewrite app_nil_r.
  - cbn [installed_loop]. erewrite bind_Ok by by apply packageByName_run.
    rewrite listed_cons. destruct (Packages.byName (catalog w) d) as [p|].
    + erewrite bind_Ok by by apply isInstalled_obj_run.
      rewrite IH by done.
      destruct (is_installed this (catalog w) (fs w) p); [|done].
      by rewrite <- app_assoc.
    + by apply IH.
Qed.

Lemma outdated_loop_run entries : forall names w,
  loaded_world w ->
  outdated_loop this entries names w =
    (Ok (names ++
         listed (fun p => negb (is_current this (catalog w) (fs w) p))
           (catalog w) entries), w).
Proof.
  induction entries as [|d rest IH]; intros names w Hl.
  - cbn. by rewrite app_nil_r.
  - cbn [outdated_loop]. erewrite bind_Ok by by apply packageByName_run.
    rewrite listed_cons. destruct (Packages.byName (catalog w) d) as [p|].
    + erewrite bind_Ok by by apply isCurrent_obj_run.
      rewrite IH by done.
      destruct (is_current this (catalog w) (fs w) p); cbn [negb]; [done|].
      by rewrite <- app_assoc.
    + by apply IH.
Qed.

Lemma root_directory w :
  FS.is_dir <$> FS.lookup (path this) (fs w) = Some true ->
  exists m, FS.resolve (path this) (fs w) = Ok (FS.Dir m).
Proof.
  intros Hroot. destruct (FS.lookup _ _) as [[|m]|] eqn:Hv; try done.
  exists m. by apply lookup_resolve.
Qed.

Lemma directories_run w :
  FS.is_dir <$> FS.lookup (path this) (fs w) = Some true ->
  _packageDirectories this w = (Ok (local_directories this (fs w)), w).
Proof.
  intros Hroot. destruct (root_directory w Hroot) as (m & Hm).
  rewrite _packageDirectories_run. unfold FS.readdir. by rewrite Hm.
Qed.

Lemma outdated_run w :
  loaded_world w ->
  FS.is_dir <$> FS.lookup (path this) (fs w) = Some true ->
  outdated this w =
    (Ok (listed (fun p => negb (is_current this (catalog w) (fs w) p))
           (catalog w) (local_directories this (fs w))), w).
Proof.
  intros Hl Hroot. unfold outdated.
  erewrite bind_Ok by by apply ensureLoaded_run.
  erewrite bind_Ok by by apply directories_run.
  by rewrite outdated_loop_run.
Qed.

(** [installed()] and [outdated()] on a loaded catalogue whose root is a
    directory only read. Of the packages that a non-dotted directory of
    the root is named after, in the order of the listing, [installed]
    returns those whose receipt can be read and [outdated] those whose
    receipt is missing, unreadable or does not match the catalogue; so a
    package that has a directory and no receipt is outdated and not
    installed. *)
Theorem installed_and_outdated_list (w : World) :
  loaded_world w ->
  FS.is_dir <$> FS.lookup (path this) (fs w) = Some true ->
  let c := catalog w in
  let dirs := local_directories this (fs w) in
  installed this w = (Ok (listed (is_installed this c (fs w)) c dirs), w) /\
  outdated this w =
    (Ok (listed (fun p => negb (is_current this c (fs w) p)) c dirs), w) /\
  (forall d, d ∈ dirs <-> visited this (fs w) d) /\
  (forall p, is_installed this c (fs w) p = false ->
             is_current this c (fs w) p = false).
Proof.
  intros Hl Hroot c dirs. split; [|split; [|split]].
  - unfold installed.
    erewrite bind_Ok by by apply ensureLoaded_run.
    erewrite bind_Ok by by apply directories_run.
    by rewrite installed_loop_run.
  - by apply outdated_run.
  - destruct (root_directory w Hroot) as (m & Hm).
    by destruct (local_directories_spec this _ _ Hm).
  - intros p. unfold is_installed, is_current.
    destruct (read_receipt _ _); [|done].
    rewrite bool_decide_true by by eexists. done.
Qed.

Lemma listed_elem test c dirs p :
  p ∈ listed test c dirs <->
  exists d, d ∈ dirs /\ Packages.byName c d = Some p /\ test p = true.
Proof.
  unfold listed. rewrite list_elem_of_omap. split.
  - intros (d & Hd & Hp). exists d. split; [done|].
    destruct (Packages.byName c d) as [q|]; [|done].
    destruct (test q) eqn:Ht; [|done]. by injection Hp as ->.
  - intros (d & Hd & Hb & Ht). exists d. split; [done|]. by rewrite Hb, Ht.
Qed.

Lemma listed_nil test c dirs :
  (forall d p, d ∈ dirs -> Packages.byName c d = Some p -> test p = false) ->
  listed test c dirs = [].
Proof.
  intros Hnone. destruct (listed test c dirs) as [|p l] eqn:Hl; [done|].
  assert (p ∈ listed test c dirs) as Hp by (rewrite Hl; by left).
  apply listed_elem in Hp as (d & Hd & Hb & Ht).
  by rewrite (Hnone d p Hd Hb) in Ht.
Qed.

Lemma install_Ok_current w p pkgs w' :
  loaded_world w ->
  resolved_name (catalog w) (Package.name p) = Package.name p ->
  receipt_round_trip p ->
  install this (ByObject p) w = (Ok pkgs, w') ->
  is_current this (catalog w') (fs w') p = true.
Proof.
  intros Hl Hname Hjson Hrun.
  rewrite (install_unfold this p) in Hrun by done.
  destruct (fetch this); [|done].
  destruct (match read_receipt _ _ with Some _ => _ | None => _ end) eqn:Hcur.
  { injection Hrun as _ <-. exact Hcur. }
  apply install_run_inv in Hrun as (pre & _ & Hshape); [|done].
  destruct Hshape as [((e & [=]) & _)|(_ & k & tail & Hsteps & Hres)].
  destruct Hres as (_ & _ & _ & _ & Hmeta).
  assert (catalog w' = catalog w) as Hc by apply Hsteps.
  unfold is_current, read_receipt, receipt_path, package_meta_path.
  cbn [name_of]. rewrite Hc, Hname. fold (install_metaFile this p).
  unfold FS.readFile. apply lookup_resolve in Hmeta. rewrite Hmeta. cbn.
  unfold receipt_bytes. rewrite String.string_of_list_byte_of_string.
  unfold receipt_round_trip in Hjson. cbn zeta in Hjson. rewrite Hjson.
  apply receipt_matches_own.
Qed.

Lemma is_current_frame c n n' p :
  resolved_name c (Package.name p) = Package.name p ->
  (forall q, FS.resolve (path this ++ Package.name p :: q) n' =
             FS.resolve (path this ++ Package.name p :: q) n) ->
  is_current this c n' p = is_current this c n p.
Proof.
  intros Hname Hframe.
  unfold is_current, read_receipt, receipt_path, package_meta_path, FS.readFile.
  cbn [name_of]. rewrite Hname. unfold pathTo. by rewrite Hframe.
Qed.

Lemma visited_frame n n' d :
  FS.resolve (path this ++ [d]) n' = FS.resolve (path this ++ [d]) n ->
  visited this n' d <-> visited this n d.
Proof.
  intros Hframe. unfold visited, FS.lookup, pathTo. by rewrite Hframe.
Qed.

Lemma is_current_root c n p :
  resolved_name c (Package.name p) = Package.name p ->
  is_current this c n p = true ->
  FS.is_dir <$> FS.lookup (path this) n = Some true.
Proof.
  intros Hname. unfold is_current, read_receipt, receipt_path,
    package_meta_path, FS.readFile. cbn [name_of]. rewrite Hname.
  unfold pathTo.
  destruct (FS.resolve (path this ++ _) n) as [v|e] eqn:Hv; [|done].
  intros _. apply resolve_above in Hv as (m & Hm).
  apply lookup_resolve in Hm. by rewrite Hm.
Qed.

Section Loop.
Variables (c : Packages) (n0 : FS.Node).
Hypothesis catalogue_names :
  forall d p, visited this n0 d -> Packages.byName c d = Some p ->
    Package.name p = d /\ resolved_name c d = d /\ receipt_round_trip p.

Lemma walked_name p q :
  walked this c n0 p -> walked this c n0 q ->
  Package.name p = Package.name q -> p = q.
Proof.
  intros (d & Hd & Hp) (d' & Hd' & Hq) Heq.
  destruct (catalogue_names _ _ Hd Hp) as (<- & _).
  destruct (catalogue_names _ _ Hd' Hq) as (<- & _).
  rewrite Heq in Hp. rewrite Hp in Hq. by injection Hq.
Qed.

Lemma upgrade_loop_inv ps : forall results w res w',
  loaded_world w -> catalog w = c ->
  Forall (walked this c n0) ps ->
  upgrade_loop this ps results w = (Ok res, w') ->
  loaded_world w' /\ catalog w' = c /\
  res.*1 = results.*1 ++ ps /\
  (forall p, p ∈ ps -> is_current this c (fs w') p = true) /\
  (forall x q, (forall p, p ∈ ps -> Package.name p <> x) ->
     FS.resolve (path this ++ x :: q) (fs w') =
     FS.resolve (path this ++ x :: q) (fs w)).
Proof.
  induction ps as [|p rest IH]; intros results w res w' Hl Hc Hps Hrun.
  - injection Hrun as <- <-. rewrite app_nil_r.
    repeat split; try done. intros p Hp. by apply elem_of_nil in Hp.
  - apply Forall_cons in Hps as (Hp & Hrest).
    destruct Hp as (d & Hd & Hb).
    destruct (catalogue_names _ _ Hd Hb) as (Hname & Hres & Hjson).
    cbn [upgrade_loop] in Hrun.
    apply bind_Ok_inv in Hrun as (pkgs & w1 & Hinst & Hrun).
    destruct (install_frame this p w (ByObject p) _ _ Hl eq_refl Hinst)
      as (effects & Hsteps & _ & Hframe1).
    assert (catalog w1 = catalog w) as Hc1 by apply Hsteps.
    assert (is_current this c (fs w1) p = true) as Hcur1.
    { rewrite <- Hc, <- Hc1. eapply install_Ok_current; [done| |done|done].
      by rewrite Hc, Hname. }
    assert (loaded_world w1) as Hl1.
    { unfold loaded_world. by rewrite Hc1. }
    destruct (IH _ _ _ _ Hl1 (eq_trans Hc1 Hc) Hrest Hrun)
      as (Hl' & Hc' & Hres' & Hcur' & Hframe').
    split; [done|]. split; [done|]. split.
    { rewrite Hres', fmap_app. cbn. by rewrite <- app_assoc. }
    split.
    + intros q Hq. apply elem_of_cons in Hq as [->|Hq]; [|by apply Hcur'].
      destruct (decide (Package.name p ∈ Package.name <$> rest)) as [Hin|Hout].
      * apply list_elem_of_fmap in Hin as (p' & Heq & Hp').
        rewrite Forall_forall in Hrest.
        assert (p = p') as -> by
          (apply walked_name; [by exists d|by apply Hrest|done]).
        by apply Hcur'.
      * rewrite <- Hcur1. apply is_current_frame; [by rewrite Hname|].
        intros q. apply Hframe'. intros p' Hp' Heq. apply Hout.
        apply list_elem_of_fmap. by exists p'.
    + intros x q Hx. rewrite Hframe'.
      * apply Hframe1. apply not_eq_sym, Hx. by left.
      * intros p' Hp'. apply Hx. by right.
Qed.

End Loop.

(** [upgrade()] brings everything up to date. On a loaded catalogue whose
    root is a directory, when the packages that directories are named
    after carry the name of their directory, resolve to themselves, have
    a name, a file and a temporary file name that are single path
    components, and have receipts that survive [JSON.stringify] and
    [JSON.parse]: an upgrade that returns has installed, in order, the
    packages [outdated] listed, keeps the catalogue, and leaves nothing
    outdated. *)
Theorem upgrade_leaves_nothing_outdated (w : World)
    (results : list (Package * list Package)) (w' : World) :
  loaded_world w ->
  FS.is_dir <$> FS.lookup (path this) (fs w) = Some true ->
  (forall d p, visited this (fs w) d ->
     Packages.byName (catalog w) d = Some p ->
     Package.name p = d /\ resolved_name (catalog w) d = d /\
     plain_package p /\ receipt_round_trip p) ->
  upgrade this w = (Ok results, w') ->
  catalog w' = catalog w /\
  outdated this w =
    (Ok (results.*1), w) /\
  outdated this w' = (Ok [], w').
Proof.
  intros Hl Hroot Hplain Hrun.
  assert (forall d p, visited this (fs w) d ->
            Packages.byName (catalog w) d = Some p ->
            Package.name p = d /\ resolved_name (catalog w) d = d /\
            receipt_round_trip p) as Hnames.
  { intros d p Hd Hb. destruct (Hplain d p Hd Hb) as (? & ? & _ & ?). done. }
  clear Hplain.
  destruct (root_directory w Hroot) as (m & Hm).
  destruct (local_directories_spec this _ _ Hm) as (_ & Hdirs).
  unfold upgrade in Hrun.
  erewrite bind_Ok in Hrun by by apply ensureLoaded_run.
  erewrite bind_Ok in Hrun by by apply outdated_run.
  set (c := catalog w) in *.
  set (ps := listed (fun p => negb (is_current this c (fs w) p)) c
               (local_directories this (fs w))) in *.
  assert (Forall (walked this c (fs w)) ps) as Hps.
  { apply Forall_forall. intros p Hp.
    apply listed_elem in Hp as (d & Hd & Hb & _).
    exists d. split; [by apply Hdirs|done]. }
  destruct (upgrade_loop_inv c (fs w) Hnames ps [] w results w' Hl eq_refl
              Hps Hrun) as (Hl' & Hc' & Hres & Hcur & Hframe).
  split; [done|]. split.
  { rewrite outdated_run by done. by rewrite Hres. }
  assert (FS.is_dir <$> FS.lookup (path this) (fs w') = Some true) as Hroot'.
  { destruct ps as [|p ps'] eqn:Hps'.
    - injection Hrun as _ <-. done.
    - apply (is_current_root c _ p); [|apply Hcur; by left].
      apply Forall_cons in Hps as ((d & Hd & Hb) & _).
      destruct (Hnames _ _ Hd Hb) as (<- & Hres' & _). done. }
  rewrite outdated_run by done. rewrite Hc'. fold c.
  rewrite listed_nil; [done|].
  intros d p Hd Hb. apply negb_false_iff.
  destruct (root_directory w' Hroot') as (m' & Hm').
  destruct (local_directories_spec this _ _ Hm') as (_ & Hdirs').
  apply Hdirs' in Hd.
  destruct (decide (d ∈ Package.name <$> ps)) as [Hin|Hout].
  - apply list_elem_of_fmap in Hin as (p' & -> & Hp').
    rewrite Forall_forall in Hps. destruct (Hps p' Hp') as (d' & Hd' & Hb').
    destruct (Hnames _ _ Hd' Hb') as (Hname' & _).
    rewrite Hname' in Hb. rewrite Hb' in Hb. injection Hb as <-.
    by apply Hcur.
  - assert (forall q, FS.resolve (path this ++ d :: q) (fs w') =
                      FS.resolve (path this ++ d :: q) (fs w)) as Hkeep.
    { intros q. apply Hframe. intros p' Hp' Heq. apply Hout.
      apply list_elem_of_fmap. by exists p'. }
    apply (visited_frame _ _ _ (Hkeep [])) in Hd.
    destruct (Hnames _ _ Hd Hb) as (Hname & Hres' & _).
    rewrite (is_current_frame c (fs w) (fs w') p);
      [|by rewrite Hname|by rewrite Hname].
    destruct (is_current this c (fs w) p) eqn:Hcur0; [done|].
    destruct Hout. apply list_elem_of_fmap. exists p. split; [done|].
    apply listed_elem. exists d. split; [by apply Hdirs|].
    split; [done|]. by rewrite Hcur0.
Qed.

End Listing.

(** In the world with the outdated copy of [single] the receipt cannot be
    parsed: [single] is outdated and not installed. *)
Lemma installed_and_outdated_list_witness :
  let this := Examples.manager in
  let w := Examples.world_outdated in
  @installed Examples.runtime this w = (Ok [], w) /\
  @outdated Examples.runtime this w = (Ok [Examples.pkg_single], w).
Proof.
  intros this w.
  assert (Hl : loaded_world w) by reflexivity.
  assert (Hroot : FS.is_dir <$> FS.lookup (path this) (fs w) = Some true)
    by (vm_compute; reflexivity).
  destruct (@installed_and_outdated_list Examples.runtime this w Hl Hroot)
    as (Hinstalled & Houtdated & _).
  split.
  - rewrite Hinstalled. apply (f_equal (fun l => (Ok l, w))).
    vm_compute. reflexivity.
  - rewrite Houtdated. apply (f_equal (fun l => (Ok l, w))).
    vm_compute. reflexivity.
Defined.

(** The upgrade of the world with the outdated copy of [single] installs
    [single], after which nothing is outdated. *)
Lemma upgrade_leaves_nothing_outdated_witness :
  let this := Examples.manager in
  let w := Examples.world_outdated in
  let run := @upgrade Examples.runtime this w in
  run.1 = Ok [(Examples.pkg_single, [Examples.pkg_single])] /\
  @outdated Examples.runtime this w = (Ok [Examples.pkg_single], w) /\
  @outdated Examples.runtime this run.2 = (Ok [], run.2).
Proof.
  intros this w run.
  assert (Hl : loaded_world w) by reflexivity.
  assert (Hroot : FS.is_dir <$> FS.lookup (path this) (fs w) = Some true)
    by (vm_compute; reflexivity).
  assert (Hnames : forall d p, @visited this (fs w) d ->
            Packages.byName (catalog w) d = Some p ->
            Package.name p = d /\ @resolved_name (catalog w) d = d /\
            plain_package p /\ @receipt_round_trip Examples.runtime p).
  { intros d p Hd Hb.
    destruct (root_directory this w Hroot) as (m & Hm).
    apply (local_directories_spec this _ _ Hm) in Hd.
    assert (local_directories this (fs w) = ["single"]) as Hdirs
      by (vm_compute; reflexivity).
    rewrite Hdirs in Hd. apply list_elem_of_singleton in Hd as ->.
    vm_compute in Hb. injection Hb as <-.
    repeat split; vm_compute; reflexivity. }
  assert (Hrun : @upgrade Examples.runtime this w =
                 (Ok [(Examples.pkg_single, [Examples.pkg_single])], run.2))
    by (vm_compute; reflexivity).
  destruct (@upgrade_leaves_nothing_outdated Examples.runtime this w _ _
              Hl Hroot Hnames Hrun) as (_ & Hbefore & Hafter).
  split; [vm_compute; reflexivity|]. split; [exact Hbefore|exact Hafter].
Defined.

End ListingFacts.

(** ** Verifying an install *)

Module VerifyFacts.
Import Manager ManagerSpec ManagerFacts FSFacts InstallFacts CleanupFacts
  InstallOutcomes ConfinedFacts.

Section Verify.
Context `{Runtime} (this : Manager).
Implicit Types (w : World) (p : Package).

Lemma _asPackage_as w pkg p :
  loaded_world w -> as_package (catalog w) pkg = Some p ->
  _asPackage pkg w = (Ok p, w).
Proof.
  intros Hl Hp. rewrite _asPackage_run by done.
  destruct pkg as [q|s]; cbn in Hp.
  - by injection Hp as ->.
  - by rewrite Hp.
Qed.

Lemma fs_read_run {A} (op : FS.Node -> Result A) w :
  fs_read op w = (op (fs w), w).
Proof. unfold fs_read, mbind, ST_bind, lift_result. cbn. by destruct (op (fs w)). Qed.

Lemma file_run w pkg p :
  loaded_world w -> as_package (catalog w) pkg = Some p ->
  file this pkg w =
    (match read_receipt (fs w) (receipt_path this (catalog w) (ByObject p)) with
     | Some data => Ok (pathTo this [Package.name p; receipt_file data])
     | None => Throw (PackageIsNotInstalled (Package.name p))
     end, w).
Proof.
  intros Hl Hp. unfold file.
  erewrite bind_Ok by by apply ensureLoaded_run.
  erewrite bind_Ok by by apply _asPackage_as.
  destruct (read_receipt _ _) as [data|] eqn:Hr.
  - erewrite bind_Ok by (rewrite receipt_run by done; by rewrite Hr).
    by rewrite pathToPackage_run.
  - erewrite bind_Throw; [done|]. rewrite receipt_run by done. by rewrite Hr.
Qed.

Lemma packageInstallVerify_run dsize w pkg p :
  loaded_world w -> as_package (catalog w) pkg = Some p ->
  packageInstallVerify this dsize pkg w =
    (match read_receipt (fs w) (receipt_path this (catalog w) (ByObject p)) with
     | None => Throw (PackageIsNotInstalled (Package.name p))
     | Some data =>
         let filePath := pathTo this [Package.name p; receipt_file data] in
         match FS.resolve filePath (fs w) with
         | Throw e => Throw e
         | Ok (FS.Dir _) =>
             if dsize =? receipt_size data then Throw EISDIR
             else Throw (InvalidFileSize dsize)
         | Ok (FS.File bytes) =>
             if Z.of_nat (length bytes) =? receipt_size data then
               if String.eqb (sha256_hex bytes) (receipt_sha256 data)
               then Ok tt else Throw (InvalidSha256Hash (sha256_hex bytes))
             else Throw (InvalidFileSize (Z.of_nat (length bytes)))
         end
     end, w).
Proof.
  intros Hl Hp. unfold packageInstallVerify.
  erewrite bind_Ok by by apply ensureLoaded_run.
  erewrite bind_Ok by by apply _asPackage_as.
  destruct (read_receipt _ _) as [data|] eqn:Hr.
  2:{ erewrite bind_Throw; [done|]. rewrite receipt_run by done. by rewrite Hr. }
  erewrite bind_Ok by (rewrite receipt_run by done; by rewrite Hr).
  erewrite bind_Ok by by apply pathToPackage_run.
  unfold package_path. cbn [name_of]. cbn zeta.
  destruct (FS.resolve _ (fs w)) as [[bytes|m]|e] eqn:Hf.
  - erewrite bind_Ok
      by (rewrite fs_read_run; unfold FS.lstat_size; by rewrite Hf).
    destruct (_ =? _); cbn [negb]; [|done].
    erewrite bind_Ok
      by (rewrite fs_read_run; unfold FS.readFile; by rewrite Hf).
    by destruct (String.eqb _ _).
  - erewrite bind_Ok
      by (rewrite fs_read_run; unfold FS.lstat_size; by rewrite Hf).
    destruct (_ =? _); cbn [negb]; [|done].
    erewrite bind_Throw; [done|].
    rewrite fs_read_run. unfold FS.readFile. by rewrite Hf.
  - erewrite bind_Throw; [done|].
    rewrite fs_read_run. unfold FS.lstat_size. by rewrite Hf.
Qed.

(** [packageInstallVerify] checks the install file and changes nothing. On
    a loaded catalogue and for a package the manager knows, the world is
    left as it was, and the call returns exactly when the receipt can be
    read and the file it names, in the directory of the package, is a
    file with the size and the SHA-256 hash of the receipt. *)
Theorem packageInstallVerify_checks (dsize : Z) (w : World)
    (pkg : PackageLike) (p : Package) (r : Result unit) (w' : World) :
  loaded_world w ->
  as_package (catalog w) pkg = Some p ->
  packageInstallVerify this dsize pkg w = (r, w') ->
  w' = w /\
  (r = Ok tt <-> install_file_sound this (catalog w) (fs w) p).
Proof.
  intros Hl Hp Hrun. rewrite (packageInstallVerify_run _ _ _ p) in Hrun by done.
  injection Hrun as <- <-. split; [done|].
  unfold install_file_sound.
  destruct (read_receipt _ _) as [data|] eqn:Hr.
  2:{ split; [done|]. by intros (? & ? & ? & _). }
  cbn zeta.
  destruct (FS.resolve _ (fs w)) as [[bytes|m]|e] eqn:Hf.
  - destruct (_ =? _) eqn:Hsize.
    + destruct (String.eqb _ _) eqn:Hhash.
      * split; [intros _|done]. exists data, bytes. split; [done|].
        split; [by apply lookup_resolve|].
        split; [by apply Z.eqb_eq|by apply String.eqb_eq].
      * split; [done|]. intros (data' & bytes' & [= <-] & Hl' & _ & Hh).
        apply lookup_resolve in Hl'. rewrite Hf in Hl'. injection Hl' as <-.
        apply String.eqb_eq in Hh. congruence.
    + split; [done|]. intros (data' & bytes' & [= <-] & Hl' & Hs & _).
      apply lookup_resolve in Hl'. rewrite Hf in Hl'. injection Hl' as <-.
      apply Z.eqb_eq in Hs. congruence.
  - split; [by destruct (_ =? _)|].
    intros (data' & bytes' & [= <-] & Hl' & _).
    apply lookup_resolve in Hl'. rewrite Hf in Hl'. done.
  - split; [done|]. intros (data' & bytes' & [= <-] & Hl' & _).
    apply lookup_resolve in Hl'. rewrite Hf in Hl'. done.
Qed.

Lemma install_sound w p pkgs w' :
  loaded_world w ->
  resolved_name (catalog w) (Package.name p) = Package.name p ->
  receipt_round_trip p ->
  install this (ByObject p) w = (Ok pkgs, w') -> pkgs <> [] ->
  catalog w' = catalog w /\
  read_receipt (fs w') (receipt_path this (catalog w') (ByObject p)) =
    Some (mkReceipt (Package.name p) (Package.file p) (Package.size p)
            (Package.sha256 p) (Package.source p)) /\
  exists bytes,
    FS.lookup (install_outFile this p) (fs w') = Some (FS.File bytes) /\
    verified p bytes.
Proof.
  intros Hl Hname Hjson Hrun Hne.
  rewrite (install_unfold this p) in Hrun by done.
  destruct (fetch this); [|done].
  destruct (match read_receipt _ _ with Some _ => _ | None => _ end).
  { by injection Hrun as <- _. }
  apply install_run_inv in Hrun as (pre & _ & Hshape); [|done].
  destruct Hshape as [((e & [=]) & _)|(Hver & k & tail & Hsteps & Hres)].
  destruct Hres as (_ & _ & _ & Hout & Hmeta).
  assert (catalog w' = catalog w) as Hc by apply Hsteps.
  split; [done|]. split; [|by eauto].
  unfold read_receipt, receipt_path, package_meta_path.
  cbn [name_of]. rewrite Hc, Hname. fold (install_metaFile this p).
  unfold FS.readFile. apply lookup_resolve in Hmeta. rewrite Hmeta. cbn.
  unfold receipt_bytes. rewrite String.string_of_list_byte_of_string.
  unfold receipt_round_trip in Hjson. cbn zeta in Hjson. by rewrite Hjson.
Qed.

(** What [install] puts in place passes [packageInstallVerify]. After an
    install that ran, for a package whose name resolves to itself, whose
    name, file and temporary file name are single path components, and
    whose receipt survives [JSON.stringify] and [JSON.parse]: [file]
    returns the path of the file of the package in its directory, that
    file holds the payload, and [packageInstallVerify] returns without
    changing anything. *)
Theorem install_then_verify (dsize : Z) (w : World) (pkg : PackageLike)
    (p : Package) (pkgs : list Package) (w' : World) :
  loaded_world w ->
  as_package (catalog w) pkg = Some p ->
  resolved_name (catalog w) (Package.name p) = Package.name p ->
  plain_package p ->
  receipt_round_trip p ->
  install this pkg w = (Ok pkgs, w') ->
  pkgs <> [] ->
  file this (ByObject p) w' =
    (Ok (pathTo this [Package.name p; Package.file p]), w') /\
  (exists bytes,
     FS.lookup (pathTo this [Package.name p; Package.file p]) (fs w') =
       Some (FS.File bytes) /\
     Z.of_nat (length bytes) = Package.size p /\
     sha256_hex bytes = Package.sha256 p) /\
  packageInstallVerify this dsize (ByObject p) w' = (Ok tt, w').
Proof.
  intros Hl Has Hname _ Hjson Hrun Hne.
  assert (install this (ByObject p) w = (Ok pkgs, w')) as Hrun'.
  { rewrite (install_unfold this p) by done.
    by rewrite (install_unfold this p) in Hrun by done. }
  destruct (install_sound w p pkgs w' Hl Hname Hjson Hrun' Hne)
    as (Hc & Hreceipt & bytes & Hout & Hsize & Hhash).
  assert (loaded_world w') as Hl' by (unfold loaded_world; by rewrite Hc).
  split; [|split].
  - rewrite (file_run _ _ p) by done. by rewrite Hreceipt.
  - by exists bytes.
  - rewrite (packageInstallVerify_run _ _ _ p) by done.
    rewrite Hreceipt. cbn.
    change (pathTo this [Package.name p; Package.file p])
      with (install_outFile this p).
    apply lookup_resolve in Hout. rewrite Hout.
    apply Z.eqb_eq in Hsize. rewrite Hsize.
    apply String.eqb_eq in Hhash. by rewrite Hhash.
Qed.

End Verify.

(** In the world with leftovers the install file of [single] is sound and
    [packageInstallVerify] returns. *)
Lemma packageInstallVerify_checks_witness :
  let this := Examples.manager in
  let w := Examples.world_leftovers in
  @packageInstallVerify Examples.runtime this 4096 (ByString "single") w =
    (Ok tt, w) /\
  @install_file_sound Examples.runtime this (catalog w) (fs w)
    Examples.pkg_single.
Proof.
  intros this w.
  assert (Hl : loaded_world w) by reflexivity.
  assert (Has : @as_package (catalog w) (ByString "single") =
                Some Examples.pkg_single) by (vm_compute; reflexivity).
  assert (Hrun : @packageInstallVerify Examples.runtime this 4096
                   (ByString "single") w = (Ok tt, w))
    by (vm_compute; reflexivity).
  destruct (@packageInstallVerify_checks Examples.runtime this 4096 w
              (ByString "single") Examples.pkg_single (Ok tt) w Hl Has Hrun)
    as (_ & Hsound).
  split; [exact Hrun|]. by apply Hsound.
Defined.

(** The install of [single] over its outdated copy passes the check. *)
Lemma install_then_verify_witness :
  let this := Examples.manager in
  let p := Examples.pkg_single in
  let w := Examples.world_outdated in
  let run := @install Examples.runtime this (ByString "single") w in
  @file Examples.runtime this (ByObject p) run.2 =
    (Ok [MAIN_DIR; "single"; "single.bin"], run.2) /\
  @packageInstallVerify Examples.runtime this 4096 (ByObject p) run.2 =
    (Ok tt, run.2).
Proof.
  intros this p w run.
  assert (Hl : loaded_world w) by reflexivity.
  assert (Has : @as_package (catalog w) (ByString "single") = Some p)
    by (vm_compute; reflexivity).
  assert (Hname : @resolved_name (catalog w) (Package.name p) = Package.name p)
    by (vm_compute; reflexivity).
  assert (Hplain : plain_package p) by (repeat split; vm_compute; reflexivity).
  assert (Hjson : @receipt_round_trip Examples.runtime p)
    by (vm_compute; reflexivity).
  assert (Hrun : @install Examples.runtime this (ByString "single") w =
                 (Ok [p], run.2)) by (vm_compute; reflexivity).
  assert (Hne : [p] <> []) by discriminate.
  destruct (@install_then_verify Examples.runtime this 4096 w
              (ByString "single") p [p] run.2 Hl Has Hname Hplain Hjson Hrun
              Hne)
    as (Hfile & _ & Hverify).
  split; [exact Hfile|exact Hverify].
Defined.

End VerifyFacts.

(** ** What cleanup and remove leave behind *)

Module AftermathFacts.
Import Manager ManagerSpec ManagerFacts FSFacts InstallFacts CleanupFacts
  InstallOutcomes ConfinedFacts ListingFacts.

Section Again.
Context `{Runtime} (this : Manager).
Implicit Types (w : World) (d : string).
#[local] Abbreviation P := (path this).

Lemma obsolete_dir_kind c n n' d :
  resolved_name c d = d ->
  FS.is_dir <$> FS.lookup (P ++ [d; META_DIR]) n' =
  FS.is_dir <$> FS.lookup (P ++ [d; META_DIR]) n ->
  obsolete_dir this c n' d = obsolete_dir this c n d.
Proof.
  intros Hres Hkind. unfold obsolete_dir, package_meta_path, FS.exists_at.
  cbn [name_of]. rewrite Hres.
  change (pathTo this [d; META_DIR]) with (P ++ [d; META_DIR]).
  destruct (Packages.byName c d); [done|].
  destruct (FS.lookup _ n'), (FS.lookup _ n); try done.
Qed.

Lemma cleanup_aftermath w r w' :
  loaded_world w ->
  FS.is_dir <$> FS.lookup P (fs w) = Some true ->
  Forall (fun d =>
            resolved_name (catalog w) d = d /\
            FS.is_dir <$> FS.lookup (pathTo this [d; META_DIR]) (fs w)
              <> Some false)
         (local_directories this (fs w)) ->
  cleanup this w = (r, w') ->
  loaded_world w' /\ catalog w' = catalog w /\
  FS.is_dir <$> FS.lookup P (fs w') = Some true /\
  forall d, visited this (fs w') d ->
    d ∈ local_directories this (fs w) /\
    obsolete_dir this (catalog w) (fs w) d = false /\
    FS.is_dir <$> FS.lookup (P ++ [d; META_DIR]) (fs w') =
    FS.is_dir <$> FS.lookup (P ++ [d; META_DIR]) (fs w).
Proof.
  intros Hl Hroot Hready Hrun.
  destruct (root_directory this w Hroot) as (m & HP).
  destruct (local_directories_spec this _ _ HP) as (Hnd & Hdirs).
  set (dirs := local_directories this (fs w)) in *.
  destruct (cleanup_loop_run this dirs [] w Hl Hnd)
    as (w1 & Hloop & Hs & Hframe & Hroot1 & Hfacts).
  { intros d Hd. rewrite Forall_forall in Hready.
    destruct (Hready d Hd) as (Hres & Hmeta). split; [done|].
    apply Hdirs in Hd as (Hdot & m' & Hm'). split; [done|].
    exists m'. apply lookup_resolve in Hm'. split; [done|].
    intros data Hdata. apply Hmeta.
    change (pathTo this [d; META_DIR]) with (P ++ [d; META_DIR]).
    assert (P ++ [d; META_DIR] = (P ++ [d]) ++ [META_DIR]) as ->
      by by rewrite <- app_assoc.
    change (pathTo this [d]) with (P ++ [d]) in Hm'.
    by rewrite (resolve_snoc _ _ _ _ Hm'), Hdata. }
  unfold cleanup in Hrun. erewrite bind_Ok in Hrun by by apply ensureLoaded_run.
  erewrite bind_Ok in Hrun; cycle 1.
  { rewrite _packageDirectories_run. unfold FS.readdir. rewrite HP. reflexivity. }
  fold dirs in Hrun. rewrite Hloop in Hrun. injection Hrun as <- <-.
  assert (catalog w1 = catalog w) as Hc by apply Hs.
  split; [by eapply steps_loaded|]. split; [done|]. split.
  { destruct Hroot1 as (mp & Hmp); [by eauto|].
    apply lookup_resolve in Hmp. by rewrite Hmp. }
  intros d (Hdot & m' & Hm').
  destruct (decide (d ∈ dirs)) as [Hd|Hd].
  - split; [done|]. destruct (Hfacts d Hd) as (_ & Hrest).
    destruct (obsolete_dir this (catalog w) (fs w) d).
    + change (pathTo this [d]) with (P ++ [d]) in Hm'. by rewrite Hrest in Hm'.
    + split; [done|]. apply Hrest.
  - exfalso. apply Hd. apply Hdirs. split; [done|]. exists m'.
    rewrite <- Hm'. unfold FS.lookup, pathTo.
    by rewrite (Hframe d [] Hd).
Qed.

(** [cleanup()] leaves nothing to clean up. Under the conditions under
    which it runs through (a loaded catalogue, the root a directory, no
    listed directory name a hash key of a package, no regular file in the
    place of a meta directory), after [cleanup] the list of [obsolete] is
    empty, and a second [cleanup] returns and reports no removal. *)
Theorem cleanup_leaves_nothing_obsolete (w : World)
    (r : Result (list (string * bool))) (w' : World) :
  loaded_world w ->
  FS.is_dir <$> FS.lookup (path this) (fs w) = Some true ->
  Forall (fun d =>
            resolved_name (catalog w) d = d /\
            FS.is_dir <$> FS.lookup (pathTo this [d; META_DIR]) (fs w)
              <> Some false)
         (local_directories this (fs w)) ->
  cleanup this w = (r, w') ->
  obsolete this w' = (Ok [], w') /\
  exists w'', cleanup this w' = (Ok [], w'').
Proof.
  intros Hl Hroot Hready Hrun.
  destruct (cleanup_aftermath w r w' Hl Hroot Hready Hrun)
    as (Hl' & Hc & Hroot' & Hkept).
  rewrite Forall_forall in Hready.
  destruct (root_directory this w' Hroot') as (m' & HP').
  destruct (local_directories_spec this _ _ HP') as (Hnd' & Hdirs').
  set (dirs' := local_directories this (fs w')) in *.
  assert (filter (fun d => obsolete_dir this (catalog w') (fs w') d = true)
            dirs' = []) as Hnone.
  { apply CatalogFacts.filter_none, Forall_forall.
    intros d Hd. apply Hdirs' in Hd.
    destruct (Hkept d Hd) as (Hd0 & Hobs & Hkind).
    destruct (Hready d Hd0) as (Hres & _).
    rewrite Hc, (obsolete_dir_kind _ (fs w)) by done. by rewrite Hobs. }
  split.
  - unfold obsolete. erewrite bind_Ok by by apply ensureLoaded_run.
    erewrite bind_Ok; cycle 1.
    { rewrite _packageDirectories_run. unfold FS.readdir. rewrite HP'.
      reflexivity. }
    fold dirs'. rewrite obsolete_loop_run; [by rewrite Hnone|done|].
    apply Forall_forall. intros d Hd. by apply Hdirs' in Hd as (Hdot & _).
  - destruct (cleanup_loop_run this dirs' [] w' Hl' Hnd')
      as (w'' & Hloop & _).
    { intros d Hd. apply Hdirs' in Hd.
      destruct (Hkept d Hd) as (Hd0 & Hobs & Hkind).
      destruct (Hready d Hd0) as (Hres & Hmeta).
      destruct Hd as (Hdot & md & Hmd).
      rewrite Hc. split; [done|]. split; [done|].
      exists md. apply lookup_resolve in Hmd. split; [done|].
      intros data Hdata. apply Hmeta.
      change (pathTo this [d; META_DIR]) with (P ++ [d; META_DIR]).
      rewrite <- Hkind.
      assert (P ++ [d; META_DIR] = (P ++ [d]) ++ [META_DIR]) as ->
        by by rewrite <- app_assoc.
      change (pathTo this [d]) with (P ++ [d]) in Hmd.
      by rewrite (resolve_snoc _ _ _ _ Hmd), Hdata. }
    exists w''. unfold cleanup. erewrite bind_Ok by by apply ensureLoaded_run.
    erewrite bind_Ok; cycle 1.
    { rewrite _packageDirectories_run. unfold FS.readdir. rewrite HP'.
      reflexivity. }
    fold dirs'. rewrite Hloop. by rewrite Hnone.
Qed.

Lemma name_of_as c pkg p :
  as_package c pkg = Some p -> name_of c pkg = Package.name p.
Proof.
  destruct pkg as [q|s]; cbn.
  - by intros [= ->].
  - unfold resolved_name. by intros ->.
Qed.

Lemma receipt_missing c n p :
  resolved_name c (Package.name p) = Package.name p ->
  FS.lookup (pathTo this [Package.name p]) n = None ->
  read_receipt n (receipt_path this c (ByObject p)) = None.
Proof.
  intros Hres Hgone.
  unfold read_receipt, receipt_path, package_meta_path, FS.readFile.
  cbn [name_of]. rewrite Hres.
  apply (lookup_below_None _ [META_DIR; PACKAGE_FILE]) in Hgone.
  unfold pathTo in *. rewrite <- app_assoc in Hgone. cbn [app] in Hgone.
  apply lookup_None_resolve in Hgone as (e & He). by rewrite He.
Qed.

(** [remove] uninstalls. On a loaded catalogue and for a package the
    manager knows and whose name resolves to itself: when [remove] returns,
    the directory of the package does not exist, [receipt] throws "Package
    is not installed", and [isInstalled] and [isCurrent] answer false. *)
Theorem remove_uninstalls (w : World) (pkg : PackageLike) (p : Package)
    (b : bool) (w' : World) :
  loaded_world w ->
  as_package (catalog w) pkg = Some p ->
  resolved_name (catalog w) (Package.name p) = Package.name p ->
  remove this pkg w = (Ok b, w') ->
  FS.lookup (pathTo this [Package.name p]) (fs w') = None /\
  receipt this pkg w' = (Throw (PackageIsNotInstalled (Package.name p)), w') /\
  isInstalled this pkg w' = (Ok false, w') /\
  isCurrent this pkg w' = (Ok false, w').
Proof.
  intros Hl Has Hres Hrun. rewrite remove_run in Hrun by done.
  unfold package_path, package_meta_path in Hrun.
  pose proof (name_of_as _ _ _ Has) as Hname. rewrite Hname in Hrun.
  assert (FS.lookup (pathTo this [Package.name p]) (fs w') = None /\
          catalog w' = catalog w) as (Hgone & Hc).
  { destruct (FS.exists_at _ _) eqn:Hex.
    - unfold rm in Hrun.
      apply bind_fs_call_inv in Hrun as [(err & _ & [=] & _)|(n1 & Hn1 & Hrun)].
      apply bind_fs_call_inv in Hrun as [(err & _ & [=] & _)|(n2 & Hn2 & Hrun)].
      injection Hrun as _ <-. cbn [fs catalog with_fs with_effects] in *.
      split; [|done]. by eapply rm_target.
    - injection Hrun as _ <-. split; [|done].
      unfold FS.exists_at in Hex. apply bool_decide_eq_false in Hex.
      destruct (FS.lookup _ _); [|done]. destruct Hex. by eexists. }
  assert (loaded_world w') as Hl' by (unfold loaded_world; by rewrite Hc).
  assert (read_receipt (fs w') (receipt_path this (catalog w') (ByObject p)) =
          None) as Hnone.
  { apply receipt_missing; [by rewrite Hc|done]. }
  rewrite <- Hc in Has.
  split; [done|]. split; [|split].
  - rewrite receipt_run by done.
    assert (receipt_path this (catalog w') pkg =
            receipt_path this (catalog w') (ByObject p)) as ->.
    { unfold receipt_path. by rewrite (name_of_as _ _ _ Has). }
    by rewrite Hnone, (name_of_as _ _ _ Has).
  - rewrite (isInstalled_run _ _ _ p) by done. rewrite Hnone.
    rewrite bool_decide_false; [done|]. by intros [? [=]].
  - rewrite (isCurrent_run _ _ _ p) by done. by rewrite Hnone.
Qed.

End Again.

(** After [cleanup] in the world with leftovers nothing is obsolete. *)
Lemma cleanup_leaves_nothing_obsolete_witness :
  let this := Examples.manager in
  let w := Examples.world_leftovers in
  let run := @cleanup Examples.runtime this w in
  @obsolete Examples.runtime this w = (Ok ["gone"], w) /\
  @obsolete Examples.runtime this run.2 = (Ok [], run.2) /\
  exists w'', @cleanup Examples.runtime this run.2 = (Ok [], w'').
Proof.
  intros this w run.
  assert (Hl : loaded_world w) by reflexivity.
  assert (Hroot : FS.is_dir <$> FS.lookup (path this) (fs w) = Some true)
    by (vm_compute; reflexivity).
  assert (Hdirs : local_directories this (fs w) = ["gone"; "single"; "stray"])
    by (vm_compute; reflexivity).
  assert (Hready :
    Forall (fun d =>
              @resolved_name (catalog w) d = d /\
              FS.is_dir <$> FS.lookup (pathTo this [d; META_DIR]) (fs w)
                <> Some false)
           (local_directories this (fs w))).
  { rewrite Hdirs.
    repeat (constructor; [split; [vm_compute; reflexivity
                                 |vm_compute; discriminate]|]).
    constructor. }
  assert (Hrun : @cleanup Examples.runtime this w = (run.1, run.2))
    by (vm_compute; reflexivity).
  split; [vm_compute; reflexivity|].
  exact (@cleanup_leaves_nothing_obsolete Examples.runtime this w run.1 run.2
           Hl Hroot Hready Hrun).
Defined.

(** Removing the outdated copy of [single] uninstalls it. *)
Lemma remove_uninstalls_witness :
  let this := Examples.manager in
  let p := Examples.pkg_single in
  let w := Examples.world_outdated in
  let run := @remove Examples.runtime this (ByString "single") w in
  run.1 = Ok true /\
  FS.lookup [MAIN_DIR; "single"] (fs run.2) = None /\
  @isInstalled Examples.runtime this (ByString "single") run.2 =
    (Ok false, run.2).
Proof.
  intros this p w run.
  assert (Hl : loaded_world w) by reflexivity.
  assert (Has : @as_package (catalog w) (ByString "single") = Some p)
    by (vm_compute; reflexivity).
  assert (Hname : @resolved_name (catalog w) (Package.name p) = Package.name p)
    by (vm_compute; reflexivity).
  assert (Hrun : @remove Examples.runtime this (ByString "single") w =
                 (Ok true, run.2)) by (vm_compute; reflexivity).
  destruct (@remove_uninstalls Examples.runtime this w (ByString "single") p
              true run.2 Hl Has Hname Hrun) as (Hgone & _ & Hinst & _).
  split; [vm_compute; reflexivity|]. split; [exact Hgone|exact Hinst].
Defined.

End AftermathFacts.

(** ** Before the catalogue is loaded *)

Module UnloadedFacts.
Import Manager ManagerSpec ManagerFacts FSFacts InstallFacts CleanupFacts
  InstallOutcomes ConfinedFacts ListingFacts.

Section Unloaded.
Context `{Runtime} (this : Manager).
Implicit Types (w : World).

Lemma ensureLoaded_unloaded w :
  Packages.loaded (catalog w) = false ->
  FS.resolve (Packages._path (catalog w)) (fs w) = Throw ENOENT ->
  ensureLoaded w = (Throw PackagesListNotLoaded, w).
Proof.
  intros Hl Hfile.
  assert (PackagesFile.readIfExists w = (Ok false, w)) as Hread.
  { unfold PackagesFile.readIfExists, try_catch, PackagesFile.read,
      readFile_utf8, fs_read, FS.readFile, mbind, ST_bind, get_state,
      lift_result, Result_bind. cbn. rewrite Hfile. cbn.
    by rewrite decide_True. }
  unfold ensureLoaded.
  erewrite bind_Ok; cycle 1.
  { unfold ensureLoad. erewrite bind_Ok by apply loaded_run.
    rewrite Hl. cbn [negb].
    unfold load. erewrite bind_Ok by exact Hread. reflexivity. }
  unfold assertLoaded. erewrite bind_Ok by apply loaded_run.
  by rewrite Hl.
Qed.

(** Before the first update nothing works and nothing is touched. When
    the catalogue is not loaded and its file does not exist, every
    operation that consults the catalogue throws "Packages list not
    loaded" and leaves the file system, the catalogue and the trace as
    they were. *)
Theorem unloaded_operations_throw (w : World) :
  Packages.loaded (catalog w) = false ->
  FS.resolve (Packages._path (catalog w)) (fs w) = Throw ENOENT ->
  (forall name, packageByName name w = (Throw PackagesListNotLoaded, w)) /\
  (forall unique, packageByUnique unique w = (Throw PackagesListNotLoaded, w)) /\
  (forall pkg, receipt this pkg w = (Throw PackagesListNotLoaded, w)) /\
  (forall pkg, file this pkg w = (Throw PackagesListNotLoaded, w)) /\
  (forall dsize pkg,
     packageInstallVerify this dsize pkg w = (Throw PackagesListNotLoaded, w)) /\
  (forall pkg, isInstalled this pkg w = (Throw PackagesListNotLoaded, w)) /\
  (forall pkg, isCurrent this pkg w = (Throw PackagesListNotLoaded, w)) /\
  installed this w = (Throw PackagesListNotLoaded, w) /\
  outdated this w = (Throw PackagesListNotLoaded, w) /\
  upgrade this w = (Throw PackagesListNotLoaded, w) /\
  (forall pkg, install this pkg w = (Throw PackagesListNotLoaded, w)) /\
  (forall pkg, remove this pkg w = (Throw PackagesListNotLoaded, w)) /\
  (forall d, isObsolete this d w = (Throw PackagesListNotLoaded, w)) /\
  obsolete this w = (Throw PackagesListNotLoaded, w) /\
  cleanup this w = (Throw PackagesListNotLoaded, w).
Proof.
  intros Hl Hfile.
  pose proof (ensureLoaded_unloaded w Hl Hfile) as Hthrow.
  repeat split; intros;
    by (unfold packageByName, packageByUnique, receipt, file,
          packageInstallVerify, isInstalled, isCurrent, installed, outdated,
          upgrade, install, remove, isObsolete, obsolete, cleanup;
        erewrite bind_Throw by exact Hthrow).
Qed.

End Unloaded.

(** In the world before the first update [install] throws and does
    nothing. *)
Lemma unloaded_operations_throw_witness :
  let this := Examples.manager in
  let w := Examples.world_unloaded in
  @install Examples.runtime this (ByString "single") w =
    (Throw PackagesListNotLoaded, w) /\
  @cleanup Examples.runtime this w = (Throw PackagesListNotLoaded, w).
Proof.
  intros this w.
  assert (Hl : Packages.loaded (catalog w) = false) by reflexivity.
  assert (Hfile : FS.resolve (Packages._path (catalog w)) (fs w) = Throw ENOENT)
    by (vm_compute; reflexivity).
  pose proof (@unloaded_operations_throw Examples.runtime this w Hl Hfile)
    as Hall.
  split; [apply Hall|apply Hall].
Defined.


End UnloadedFacts.

(** ** The packages of a catalogue are well formed *)

Module WellFormedFacts.
Import Packages CatalogSpec CatalogFacts Manager ManagerSpec.

Section Chains.
Context `{Runtime}.
Implicit Types (p q : Package) (info : IPackagesListPackage).

Lemma info_count_children infos c :
  c ∈ infos ->
  (info_count c <=
   (fix sum (l : list IPackagesListPackage) : nat :=
      match l with [] => 0 | c :: l' => info_count c + sum l' end) infos)%nat.
Proof.
  induction infos as [|c' l IH]; intros Hc; [by apply elem_of_nil in Hc|].
  apply elem_of_cons in Hc as [->|Hc]; [lia|]. specialize (IH Hc). lia.
Qed.

Lemma constructor_check_children infos c :
  (fix children (l : list IPackagesListPackage) : option Error :=
     match l with
     | [] => None
     | c :: l' =>
         match Package.constructor_check true c with
         | Some e => Some e
         | None => children l'
         end
     end) infos = None ->
  c ∈ infos -> Package.constructor_check true c = None.
Proof.
  induction infos as [|c' l IH]; intros Hcheck Hc; [by apply elem_of_nil in Hc|].
  destruct (Package.constructor_check true c') eqn:Hc'; [done|].
  apply elem_of_cons in Hc as [->|Hc]; [done|]. by apply IH.
Qed.

Lemma preorder_info_well_formed n : forall info parent,
  (info_count info <= n)%nat ->
  Package.constructor_check (bool_decide (is_Some parent)) info = None ->
  match parent with Some q => well_formed q | None => True end ->
  Forall well_formed (preorder_info parent info).
Proof.
  induction n as [|n IH]; intros info parent Hn Hcheck Hparent.
  { destruct info. cbn in Hn. lia. }
  destruct info as [nm f sz h256 h1 h5 src pk z].
  cbn [Package.constructor_check Info.zipped Info.name Info.packages] in Hcheck.
  set (info := Info.mk nm f sz h256 h1 h5 src pk z) in *.
  assert (well_formed (Package.build info parent) /\
          match pk with
          | Some infos =>
              forall c, c ∈ infos -> Package.constructor_check true c = None
          | None => True
          end) as (Hp & Hchildren).
  { destruct parent as [q|].
    - rewrite bool_decide_true in Hcheck by by eexists.
      cbn [andb negb] in Hcheck.
      destruct (JS.truthy z) eqn:Hz; [|done]. cbn [negb] in Hcheck.
      split.
      + cbn [well_formed Package.build Package.parent Package.zipped
             Info.zipped info]. by rewrite Hz.
      + destruct pk as [infos|]; [|done].
        intros c Hc. by eapply constructor_check_children.
    - rewrite bool_decide_false in Hcheck by by intros [? [=]].
      cbn [andb negb] in Hcheck.
      destruct (JS.truthy z) eqn:Hz; [done|].
      split.
      + cbn [well_formed Package.build Package.parent Package.zipped
             Info.zipped info]. by rewrite Hz.
      + destruct pk as [infos|]; [|done].
        intros c Hc. by eapply constructor_check_children. }
  cbn [preorder_info Info.packages info]. fold info.
  apply Forall_cons. split; [done|].
  destruct pk as [infos|]; [|done].
  assert (forall c, c ∈ infos -> (info_count c <= n)%nat) as Hsize.
  { intros c Hc. apply info_count_children in Hc.
    cbn [info_count Info.packages info] in Hn. lia. }
  revert Hp. generalize (Package.build info parent). intros p0 Hp0.
  clear Hn Hcheck. clear info. induction infos as [|c l IHl]; [done|].
  apply Forall_app. split.
  - apply IH.
    + apply Hsize. by left.
    + rewrite bool_decide_true by by eexists. apply Hchildren. by left.
    + done.
  - apply IHl.
    + intros c' Hc'. apply Hchildren. by right.
    + intros c' Hc'. apply Hsize. by right.
Qed.

Lemma _parsePackages_well_formed infos : forall roots,
  _parsePackages infos = Ok roots -> Forall well_formed (flatten roots).
Proof.
  induction infos as [|info rest IH]; intros roots Hparse.
  - injection Hparse as <-. done.
  - cbn [_parsePackages] in Hparse. unfold _createPackage, Package.new in Hparse.
    destruct (Package.constructor_check _ info) eqn:Hcheck; [done|].
    cbn in Hparse. destruct (_parsePackages rest) as [ps|]; [|done].
    injection Hparse as <-. unfold flatten. cbn [flat_map].
    apply Forall_app. split; [|by apply IH].
    rewrite preorder_build.
    by apply (preorder_info_well_formed (info_count info)).
Qed.

Lemma root_has_no_parent : forall q, Package.parent (root_of q) = None.
Proof.
  fix IH 1. intros [n f sz s256 s1 m5 src z [q|] infos]; [|done].
  cbn [root_of Package.parent]. apply IH.
Qed.

(** The chain of a package object below its root ancestor. *)
Lemma ancestors_well_formed : forall p,
  well_formed p ->
  exists chain,
    ancestors p = chain ++ [root_of p] /\
    Forall (fun q => JS.truthy (Package.zipped q) = true) chain.
Proof.
  fix IH 1. intros [n f sz s256 s1 m5 src z [q|] infos] Hwf.
  - cbn [well_formed Package.parent Package.zipped] in Hwf.
    destruct Hwf as (Hz & Hq). destruct (IH q Hq) as (chain & Hchain & Hall).
    cbn [ancestors root_of Package.parent]. rewrite Hchain.
    eexists (_ :: chain). split; [done|]. by apply Forall_cons.
  - exists []. done.
Qed.

Lemma chain_has_zipped p :
  well_formed p ->
  Forall (fun q => JS.truthy (Package.zipped q) = true)
         (drop 1 (install_packages p)).
Proof.
  intros (chain & Hchain & Hall)%ancestors_well_formed.
  unfold install_packages. rewrite Hchain, reverse_app. cbn.
  by apply Forall_reverse.
Qed.

Lemma getZippedSlice_Ok q :
  JS.truthy (Package.zipped q) = true ->
  exists s, Package.getZippedSlice q = Ok s.
Proof. intros Hz. unfold Package.getZippedSlice. rewrite Hz. by eexists. Qed.

Lemma getZippedDecompressor_inv q :
  JS.truthy (Package.zipped q) = true ->
  (exists d, Package.getZippedDecompressor q = Ok d) \/
  (exists e, Package.getZippedDecompressor q = Throw e /\ unsupported [q] e).
Proof.
  intros Hz. unfold Package.getZippedDecompressor.
  destruct (Package.getZippedCompression q) as [method|e] eqn:Hm.
  - cbn. destruct (JS.strict_eq method (JS.Num 0)) eqn:H0; [by eauto|].
    destruct (JS.strict_eq method (JS.Num 8)) eqn:H8; [by eauto|].
    right. eexists. split; [done|]. exists q, method.
    repeat split; try done. by left.
  - unfold Package.getZippedCompression in Hm. by rewrite Hz in Hm.
Qed.

Lemma unsupported_mono l l' e :
  l ⊆ l' -> unsupported l e -> unsupported l' e.
Proof.
  intros Hsub (q & method & Hq & Hrest). exists q, method.
  split; [by apply Hsub|done].
Qed.

Lemma install_slice_loop_inv l : forall slice,
  Forall (fun q => JS.truthy (Package.zipped q) = true) l ->
  match install_slice_loop l slice with
  | Ok (_, _, rest) => rest ⊆ l
  | Throw e => unsupported l e
  end.
Proof.
  induction l as [|q l IH]; intros slice Hall; [apply list_subseteq_nil|].
  apply Forall_cons in Hall as (Hq & Hall). cbn [install_slice_loop].
  destruct (getZippedSlice_Ok q Hq) as ([ss sl] & ->). cbn.
  destruct (getZippedDecompressor_inv q Hq) as [(d & ->)|(e & -> & He)]; cbn.
  - destruct d as [d|].
    + by apply list_subseteq_cons.
    + specialize (IH (match slice with
                      | Some (start, _) => Some (JS.add start ss, sl)
                      | None => Some (ss, sl)
                      end) Hall).
      destruct (install_slice_loop l _) as [[[s ts] rest]|e].
      * by apply list_subseteq_cons.
      * eapply unsupported_mono; [|done]. by apply list_subseteq_cons.
  - eapply unsupported_mono; [|done].
    intros x ->%list_elem_of_singleton. by left.
Qed.

Lemma install_transform_loop_inv l : forall transforms,
  Forall (fun q => JS.truthy (Package.zipped q) = true) l ->
  match install_transform_loop l transforms with
  | Ok _ => True
  | Throw e => unsupported l e
  end.
Proof.
  induction l as [|q l IH]; intros transforms Hall; [done|].
  apply Forall_cons in Hall as (Hq & Hall). cbn [install_transform_loop].
  destruct (getZippedSlice_Ok q Hq) as ([ss sl] & ->). cbn.
  destruct (getZippedDecompressor_inv q Hq) as [(d & ->)|(e & -> & He)]; cbn.
  - destruct d as [d|].
    + specialize (IH ((transforms ++ [SliceStream ss sl]) ++ [d]) Hall).
      destruct (install_transform_loop l _); [done|].
      eapply unsupported_mono; [|done]. by apply list_subseteq_cons.
    + specialize (IH (transforms ++ [SliceStream ss sl]) Hall).
      destruct (install_transform_loop l _); [done|].
      eapply unsupported_mono; [|done]. by apply list_subseteq_cons.
  - eapply unsupported_mono; [|done].
    intros x ->%list_elem_of_singleton. by left.
Qed.

(** The packages of a catalogue are well formed, and [install] can build
    their chain. After an update that returned, every package the
    catalogue lists is a root without zipped info or has zipped info and
    such a parent; so [getZippedSlice] never throws "Not a child package"
    on the chain below the root, and the construction of the slice and the
    transforms of [install] fails in one way only: a package of the chain
    has a compression method that is neither 0 nor 8. *)
Theorem catalogue_chains_are_well_formed (data : string)
    (c : Packages) (report : Report) (c' : Packages) (p : Package) :
  Packages.update data c = (Ok report, c') ->
  p ∈ Packages.packages c' ->
  well_formed p /\
  Package.parent (root_of p) = None /\
  Forall (fun q => exists s, Package.getZippedSlice q = Ok s)
         (drop 1 (install_packages p)) /\
  match install_transforms (install_packages p) with
  | Ok _ => True
  | Throw e => unsupported (drop 1 (install_packages p)) e
  end.
Proof.
  intros (packagesList & _ & Hset & _)%update_Ok_inv Hp.
  apply _setPackagesList_Ok in Hset
    as (roots & byName & bySha256 & bySha1 & byMd5 & byUnique
        & _ & Hr & _ & _ & _ & _ & _ & ->).
  cbn [Packages.packages _packages] in Hp.
  pose proof (_parsePackages_well_formed _ _ Hr) as Hall.
  rewrite Forall_forall in Hall. specialize (Hall p Hp).
  pose proof (chain_has_zipped p Hall) as Hchain.
  split; [done|]. split; [apply root_has_no_parent|]. split.
  { eapply Forall_impl; [exact Hchain|]. intros q. apply getZippedSlice_Ok. }
  unfold install_transforms.
  pose proof (install_slice_loop_inv _ None Hchain) as Hslice.
  destruct (install_slice_loop _ None) as [[[slice ts] rest]|e]; [|done]. cbn.
  assert (Forall (fun q => JS.truthy (Package.zipped q) = true) rest) as Hrest.
  { rewrite Forall_forall in Hchain. apply Forall_forall.
    intros q Hq. by apply Hchain, Hslice. }
  pose proof (install_transform_loop_inv _ ts Hrest) as Htrans.
  destruct (install_transform_loop rest ts); [done|]. cbn.
  by eapply unsupported_mono.
Qed.

End Chains.

(** The child of the archive of the first catalogue: its slice can be
    read, and the chain of [install] is built. *)
Lemma catalogue_chains_are_well_formed_witness :
  let run := @Packages.update Examples.runtime "catalog-1"
               (Manager._createPackages (Manager.path Examples.manager)) in
  let archive :=
    Package.build
      (Examples.info "archive" 100 "https://example.com/archive"
         (Some [Examples.info "child" 4 "child.bin" None (Some "0-10-4")])
         None) None in
  let child :=
    Package.build (Examples.info "child" 4 "child.bin" None (Some "0-10-4"))
      (Some archive) in
  child ∈ Packages.packages run.2 /\
  well_formed child /\
  @install_transforms Examples.runtime (install_packages child) =
    Ok (Some (JS.Num 10, JS.Num 4), []).
Proof.
  intros run archive child.
  assert (Hok : exists report, run.1 = Ok report)
    by (eexists; vm_compute; reflexivity).
  destruct Hok as (report & Hr).
  assert (Hrun : @Packages.update Examples.runtime "catalog-1"
                   (Manager._createPackages (Manager.path Examples.manager)) =
                 (Ok report, run.2)).
  { rewrite <- Hr. vm_compute. reflexivity. }
  assert (Hin : child ∈ Packages.packages run.2)
    by (vm_compute; repeat constructor).
  destruct (@catalogue_chains_are_well_formed Examples.runtime _ _ _ _ child
              Hrun Hin) as (Hwf & _).
  split; [exact Hin|]. split; [exact Hwf|]. vm_compute. reflexivity.
Defined.

End WellFormedFacts.

(** ** What cleanup removes *)

Module ObsoleteFacts.
Import Manager ManagerSpec ManagerFacts FSFacts InstallFacts CleanupFacts.

Section Obsolete.
Context `{Runtime} (this : Manager).
Implicit Types (w : World) (d : string).

Lemma cleanup_effects_of d c n dirs :
  d ∈ dirs ->
  exists pre post,
    flat_map (cleanup_effects this c n) dirs =
      pre ++ cleanup_effects this c n d ++ post.
Proof.
  intros Hd. apply list_elem_of_split in Hd as (l1 & l2 & ->).
  exists (flat_map (cleanup_effects this c n) l1),
         (flat_map (cleanup_effects this c n) l2).
  by rewrite flat_map_app.
Qed.

Lemma cleanup_effects_keep d c n dirs :
  obsolete_dir this c n d = false ->
  Rm true (pathTo this [d]) ∉ flat_map (cleanup_effects this c n) dirs.
Proof.
  intros Ho Hin. apply list_elem_of_In, in_flat_map in Hin as (d' & _ & Hin).
  apply list_elem_of_In in Hin. unfold cleanup_effects in Hin.
  apply elem_of_cons in Hin as [Heq|Hin].
  { injection Heq as Heq. apply app_inv_head in Heq. discriminate. }
  destruct (obsolete_dir this c n d') eqn:Ho'; [|by apply elem_of_nil in Hin].
  apply elem_of_cons in Hin as [Heq|Hin]; [done|].
  apply elem_of_cons in Hin as [Heq|Hin].
  { injection Heq as Heq. apply app_inv_head in Heq. discriminate. }
  apply elem_of_cons in Hin as [Heq|Hin].
  { injection Heq as Heq. apply app_inv_head in Heq. injection Heq as ->.
    congruence. }
  apply elem_of_cons in Hin as [Heq|Hin]; [done|]. by apply elem_of_nil in Hin.
Qed.

(** C8, amended. [cleanup()] on a loaded catalogue whose root is a
    directory, when no listed directory name is a hash key of a package of
    the catalogue and no listed directory has a regular file in the place
    of its meta directory: [cleanup] returns, and for every non-dotted
    directory of the root it removes the temporary directory; a directory
    that no package of the catalogue is named after and that has a meta
    directory is removed, the meta directory before the directory and
    between the event before and the event after the removal, and is
    reported as removed; a directory that has no meta directory, or that a
    package is named after, is not removed and not reported, and what it
    holds outside its meta directory is kept. *)
Theorem cleanup_removes_directories_with_meta (w : World) :
  loaded_world w ->
  FS.is_dir <$> FS.lookup (path this) (fs w) = Some true ->
  Forall (fun d =>
            resolved_name (catalog w) d = d /\
            FS.is_dir <$> FS.lookup (pathTo this [d; META_DIR]) (fs w)
              <> Some false)
         (local_directories this (fs w)) ->
  exists removed w',
    cleanup this w = (Ok removed, w') /\
    forall d, visited this (fs w) d ->
      let referenced := is_Some (Packages.byName (catalog w) d) in
      let has_meta := FS.exists_at (pathTo this [d; META_DIR]) (fs w) in
      (Rm true (pathTo this [d; META_DIR; TEMP_DIR]) ∈ effects_since w w' /\
       FS.lookup (pathTo this [d; META_DIR; TEMP_DIR]) (fs w') = None) /\
      (~ referenced -> has_meta = true ->
       (d, true) ∈ removed /\
       FS.lookup (pathTo this [d]) (fs w') = None /\
       exists pre post,
         effects_since w w' =
           pre ++ [Trigger (PackageCleanupBefore d);
                   Rm true (pathTo this [d; META_DIR]);
                   Rm true (pathTo this [d]);
                   Trigger (PackageCleanupAfter d true)] ++ post) /\
      (referenced \/ has_meta = false ->
       (d ∉ removed.*1) /\
       (Rm true (pathTo this [d]) ∉ effects_since w w') /\
       forall x q, x <> META_DIR ->
         FS.resolve (pathTo this (d :: x :: q)) (fs w') =
         FS.resolve (pathTo this (d :: x :: q)) (fs w)).
Proof.
  intros Hl Hroot Hready.
  assert (exists m, FS.resolve (path this) (fs w) = Ok (FS.Dir m)) as (m & HP).
  { destruct (FS.lookup (path this) (fs w)) as [[|m]|] eqn:Hv; try done.
    exists m. by apply lookup_resolve. }
  destruct (local_directories_spec this _ _ HP) as (Hnd & Hdirs).
  set (dirs := local_directories this (fs w)) in *.
  destruct (cleanup_loop_run this dirs [] w Hl Hnd)
    as (w' & Hrun & Hs & _ & _ & Hfacts).
  { intros d Hd. rewrite Forall_forall in Hready.
    destruct (Hready d Hd) as (Hres & Hmeta). split; [done|].
    apply Hdirs in Hd as (Hdot & m' & Hm'). split; [done|].
    exists m'. apply lookup_resolve in Hm'. split; [done|].
    intros data Hdata. apply Hmeta.
    change (pathTo this [d; META_DIR]) with (path this ++ [d; META_DIR]).
    assert (path this ++ [d; META_DIR] = (path this ++ [d]) ++ [META_DIR]) as ->
      by by rewrite <- app_assoc.
    change (pathTo this [d]) with (path this ++ [d]) in Hm'.
    by rewrite (resolve_snoc _ _ _ _ Hm'), Hdata. }
  apply steps_effects_since in Hs.
  eexists _, w'. split.
  { unfold cleanup. erewrite bind_Ok by by apply ensureLoaded_run.
    erewrite bind_Ok; cycle 1.
    { rewrite _packageDirectories_run. unfold FS.readdir.
      rewrite HP. reflexivity. }
    exact Hrun. }
  intros d Hvis referenced has_meta. apply Hdirs in Hvis as Hd.
  destruct (Hfacts d Hd) as (Htmp & Hrest).
  destruct (cleanup_effects_of d (catalog w) (fs w) dirs Hd) as (pre & post & Heff).
  assert (obsolete_dir this (catalog w) (fs w) d =
          negb (bool_decide referenced) && has_meta) as Hobs.
  { unfold obsolete_dir, referenced, has_meta, package_meta_path. cbn [name_of].
    rewrite Forall_forall in Hready. destruct (Hready d Hd) as (-> & _).
    destruct (Packages.byName (catalog w) d) as [q|].
    - by rewrite bool_decide_true by by eexists.
    - by rewrite bool_decide_false by by intros [? [=]]. }
  rewrite Hs. split; [|split].
  - split; [|done]. rewrite Heff. rewrite !elem_of_app. right. left. by left.
  - intros Hnot Hmeta. rewrite bool_decide_false, Hmeta in Hobs by done.
    cbn in Hobs. rewrite Hobs in Hrest. split; [|split; [done|]].
    + cbn [app]. apply list_elem_of_fmap. exists d. split; [done|].
      apply list_elem_of_filter. by split.
    + exists (pre ++ [Rm true (pathTo this [d; META_DIR; TEMP_DIR])]), post.
      rewrite Heff. unfold cleanup_effects. rewrite Hobs.
      by rewrite <- !app_assoc.
  - intros Hkeep.
    assert (obsolete_dir this (catalog w) (fs w) d = false) as Ho.
    { rewrite Hobs. destruct Hkeep as [Href| ->].
      - by rewrite bool_decide_true.
      - by rewrite andb_false_r. }
    rewrite Ho in Hrest. destruct Hrest as (Hk1 & _). split; [|split; [|done]].
    + cbn [app]. rewrite <- list_fmap_compose. intros Hin.
      apply list_elem_of_fmap in Hin as (d' & Heq & Hin). cbn in Heq. subst d'.
      apply list_elem_of_filter in Hin as (Ho' & _). congruence.
    + by apply cleanup_effects_keep.
Qed.

End Obsolete.

(** The directory [stray] of the world with the three directories is a
    directory of the root whose name is not dotted and that no package of
    the catalogue is named after. It has no meta directory, and [cleanup],
    which returns, leaves it in place: not every such directory is
    removed. *)
Lemma cleanup_keeps_directory_without_meta :
  let this := Examples.manager in
  let w := Examples.world_leftovers in
  ~ (forall removed w',
       @cleanup Examples.runtime this w = (Ok removed, w') ->
       forall d,
         visited this (fs w) d ->
         Packages.byName (catalog w) d = None ->
         FS.lookup (pathTo this [d]) (fs w') = None).
Proof.
  intros this w Hall.
  assert (Hrun : @cleanup Examples.runtime this w =
                 (Ok [("gone", true)], (@cleanup Examples.runtime this w).2))
    by (vm_compute; reflexivity).
  assert (Hvis : visited this (fs w) "stray").
  { split; [reflexivity|].
    exists (list_to_map [("notes.txt", Examples.file "text")]).
    vm_compute. reflexivity. }
  assert (Hname : Packages.byName (catalog w) "stray" = None)
    by (vm_compute; reflexivity).
  pose proof (Hall _ _ Hrun "stray" Hvis Hname) as Hnone.
  revert Hnone. vm_compute. discriminate.
Qed.

(** Cleaning the world with the three directories: [gone], which has a meta
    directory, is removed and reported; [stray], which has none, is not. *)
Lemma cleanup_removes_directories_with_meta_witness :
  let this := Examples.manager in
  let w := Examples.world_leftovers in
  exists removed w',
    @cleanup Examples.runtime this w = (Ok removed, w') /\
    (("gone", true) ∈ removed /\
     FS.lookup [MAIN_DIR; "gone"] (fs w') = None) /\
    (("stray" ∉ removed.*1) /\
     (Rm true [MAIN_DIR; "stray"] ∉ effects_since w w') /\
     FS.resolve [MAIN_DIR; "stray"; "notes.txt"] (fs w') =
       Ok (Examples.file "text")).
Proof.
  intros this w.
  assert (Hl : loaded_world w) by reflexivity.
  assert (Hroot : FS.is_dir <$> FS.lookup (path this) (fs w) = Some true)
    by (vm_compute; reflexivity).
  assert (Hdirs : local_directories this (fs w) = ["gone"; "single"; "stray"])
    by (vm_compute; reflexivity).
  assert (Hready :
    Forall (fun d =>
              @resolved_name (catalog w) d = d /\
              FS.is_dir <$> FS.lookup (pathTo this [d; META_DIR]) (fs w)
                <> Some false)
           (local_directories this (fs w))).
  { rewrite Hdirs.
    repeat (constructor; [split; [vm_compute; reflexivity
                                 |vm_compute; discriminate]|]).
    constructor. }
  destruct (@cleanup_removes_directories_with_meta Examples.runtime this w
              Hl Hroot Hready) as (removed & w' & Hrun & Hfacts).
  exists removed, w'. split; [exact Hrun|]. split.
  - destruct (Hfacts "gone") as (_ & Hgone & _).
    { split; [reflexivity|].
      exists (list_to_map [("gone.bin", Examples.file "data");
                           (META_DIR, Examples.dir
                              [(PACKAGE_FILE, Examples.file "gone")])]).
      vm_compute. reflexivity. }
    destruct Hgone as (Hin & Hnone & _).
    + intros [q Hq]. vm_compute in Hq. discriminate.
    + vm_compute. reflexivity.
    + split; [exact Hin|exact Hnone].
  - destruct (Hfacts "stray") as (_ & _ & Hstray).
    { split; [reflexivity|].
      exists (list_to_map [("notes.txt", Examples.file "text")]).
      vm_compute. reflexivity. }
    destruct Hstray as (Hout & Hrm & Hkept).
    + right. vm_compute. reflexivity.
    + split; [exact Hout|]. split; [exact Hrm|].
      change [MAIN_DIR; "stray"; "notes.txt"]
        with (pathTo this ("stray" :: "notes.txt" :: [])).
      rewrite Hkept; [|vm_compute; discriminate].
      vm_compute. reflexivity.
Defined.

End ObsoleteFacts.

(** ** The chain, the requests and the input of an install *)

Module FetchFacts.
Import Manager ManagerSpec ChainSpec ChainFacts ManagerFacts FSFacts InstallFacts
  InstallOutcomes.

Section Quiet.
Implicit Types (w : World).

Lemma quiet_ret {A} (a : A) : quiet (mret a).
Proof. intros w r w' _ [= <- <-]. exists []. split; [apply steps_refl|done]. Qed.

Lemma quiet_pure {A} (m : M A) :
  (forall w, exists r, m w = (r, w)) -> quiet m.
Proof.
  intros Hm w r w' _ Hrun. destruct (Hm w) as (r0 & Hr0).
  rewrite Hr0 in Hrun. injection Hrun as <- <-.
  exists []. split; [apply steps_refl|done].
Qed.

Lemma quiet_bind {A B} (m : M A) (f : A -> M B) :
  quiet m -> (forall a, quiet (f a)) -> quiet (m ≫= f).
Proof.
  intros Hm Hf w r w' Hl Hrun.
  apply bind_inv in Hrun as [(e & Hc & ->)|(a & w1 & Hc & Hrun)].
  - destruct (Hm _ _ _ Hl Hc) as (effs & Hs & Hq). by exists effs.
  - destruct (Hm _ _ _ Hl Hc) as (effs1 & Hs1 & Hq1).
    destruct (Hf a _ _ _ (steps_loaded _ _ _ Hs1 Hl) Hrun) as (effs2 & Hs2 & Hq2).
    exists (effs1 ++ effs2). split; [by eapply steps_trans|by apply Forall_app].
Qed.

Lemma quiet_ext {A} (m m' : M A) :
  (forall w, loaded_world w -> m w = m' w) -> quiet m' -> quiet m.
Proof.
  intros Hext Hm w r w' Hl Hrun. rewrite Hext in Hrun by done.
  by apply (Hm w r w').
Qed.

Lemma quiet_log e : is_fetch e = false -> quiet (log e).
Proof.
  intros He w r w' _ [= <- <-]. exists [e]. split; [done|by constructor].
Qed.

Lemma quiet_fs_call e op : is_fetch e = false -> quiet (fs_call e op).
Proof.
  intros He w r w' _ Hrun.
  apply fs_call_inv in Hrun as [(err & _ & -> & ->)|(n & Hn & -> & ->)];
    exists [e]; (split; [done|]); by constructor.
Qed.

Lemma filter_quiet effects :
  Forall (fun e => is_fetch e = false) effects -> filter is_fetch effects = [].
Proof.
  induction 1 as [|e l He _ IH]; [done|].
  rewrite filter_cons_False; [done|]. rewrite He. by intros [].
Qed.

Lemma filter_fetches effects :
  Forall (fun e => is_fetch e = true) effects -> filter is_fetch effects = effects.
Proof.
  induction 1 as [|e l He _ IH]; [done|].
  rewrite filter_cons_True; [by rewrite IH|]. by rewrite He.
Qed.

End Quiet.

Section InstallFetch.
Context `{Runtime} (this : Manager) (p : Package).
Implicit Types (w : World).

Lemma quiet_throw {A} e : quiet (throw e : M A).
Proof. apply quiet_pure. intros w. by eexists. Qed.

Lemma quiet_trigger ev : quiet (trigger ev).
Proof. by apply quiet_log. Qed.

Lemma quiet_write_chunks tmpFile chunks : forall bytesWritten,
  quiet (write_chunks p tmpFile chunks bytesWritten).
Proof.
  induction chunks as [|c rest IH]; intros bytesWritten; cbn [write_chunks].
  - apply quiet_ret.
  - apply quiet_bind; [by apply quiet_fs_call|intros _].
    apply quiet_bind; [apply quiet_trigger|intros _]. apply IH.
Qed.

Lemma quiet_pipeline tmpFile input transforms :
  quiet (install_pipeline p tmpFile input transforms).
Proof.
  unfold install_pipeline.
  destruct (apply_transforms _ _); [|apply quiet_throw].
  destruct (body_completes input); [|apply quiet_throw].
  apply quiet_bind; [apply quiet_write_chunks|intros bw]. apply quiet_ret.
Qed.

Lemma quiet_verify bytesWritten hashed :
  quiet (install_verify p bytesWritten hashed).
Proof.
  apply quiet_pure. intros w. unfold install_verify, mbind, ST_bind.
  destruct (negb (bytesWritten =? Package.size p)); cbn; [by eexists|].
  destruct (negb (String.eqb hashed (Package.sha256 p))); by eexists.
Qed.

Lemma quiet_commit outFile tmpFile metaFile :
  quiet (install_commit this p outFile tmpFile metaFile).
Proof.
  unfold install_commit.
  apply quiet_bind.
  { eapply quiet_ext; [intros w Hl; by apply _packageDirsEnsure_run|].
    apply quiet_bind; [by apply quiet_fs_call|intros _]. by apply quiet_fs_call. }
  intros _. apply quiet_bind; [by apply quiet_fs_call|intros _].
  apply quiet_bind; [by apply quiet_fs_call|intros _].
  apply quiet_bind; [by apply quiet_fs_call|intros _].
  eapply quiet_ext; [intros w Hl; by apply _packageMetaReceiptWrite_run|].
  apply quiet_bind; [by apply quiet_fs_call|intros _].
  apply quiet_bind; [by apply quiet_fs_call|intros _]. by apply quiet_fs_call.
Qed.

Lemma concat_nonempty (chunks : list (list byte)) :
  concat (filter (fun c => c ≠ []) chunks) = concat chunks.
Proof.
  induction chunks as [|c rest IH]; [done|]. rewrite filter_cons.
  destruct (decide (c ≠ [])) as [Hc|Hc]; cbn; [by rewrite IH|].
  apply dec_stable in Hc. by rewrite Hc, IH.
Qed.

Lemma write_chunks_total tmpFile chunks : forall bytesWritten w total w',
  write_chunks p tmpFile chunks bytesWritten w = (Ok total, w') ->
  total = bytesWritten + Z.of_nat (length (concat chunks)).
Proof.
  induction chunks as [|c rest IH]; intros bytesWritten w total w' Hrun.
  - cbn in Hrun. injection Hrun as <- _. cbn. lia.
  - cbn [write_chunks] in Hrun.
    apply bind_inv in Hrun as [(e & _ & [=])|([] & w1 & _ & Hrun)].
    rewrite trigger_bind in Hrun. apply IH in Hrun. subst total.
    cbn [concat]. rewrite length_app. lia.
Qed.

(** A pipeline that returns has read a complete input through the
    transforms; it returns the length and the digest of their output. *)
Lemma install_pipeline_Ok tmpFile input transforms w bytesWritten hashed w' :
  install_pipeline p tmpFile input transforms w = (Ok (bytesWritten, hashed), w') ->
  exists data,
    piped transforms input = Some data /\
    bytesWritten = Z.of_nat (length data) /\ hashed = sha256_hex data.
Proof.
  unfold install_pipeline, piped.
  destruct (apply_transforms transforms (body_chunks input)) as [out|]; [|done].
  destruct (body_completes input); [|done]. intros Hrun.
  apply bind_inv in Hrun as [(e & _ & [=])|(total & w1 & Hc & Hrun)].
  injection Hrun as <- <- _. apply write_chunks_total in Hc.
  rewrite concat_nonempty in *. exists (concat out). split; [done|].
  split; [lia|done].
Qed.

(** What follows the fetch step returns only for a verified payload. *)
Lemma after_input_Ok transforms outFile tmpFile metaFile input w u w' :
  ('(bytesWritten, hashed) ← install_pipeline p tmpFile input transforms;
   install_verify p bytesWritten hashed;;
   trigger (PackageDownloadAfter p);;
   install_commit this p outFile tmpFile metaFile) w = (Ok u, w') ->
  exists data, piped transforms input = Some data /\ verified p data.
Proof.
  intros Hrun.
  apply bind_inv in Hrun as [(e & _ & [=])|([bw hashed] & w1 & Hc & Hrun)].
  apply install_pipeline_Ok in Hc as (data & Hpiped & -> & ->).
  apply bind_inv in Hrun as [(e & _ & [=])|([] & w2 & Hc & _)].
  apply install_verify_inv in Hc as (_ & Hver).
  destruct (Hver eq_refl) as (Hsize & Hhash). exists data. by repeat split.
Qed.

(** What follows the fetch step inside the [try] of [install]. *)
Lemma quiet_after_input transforms outFile tmpFile metaFile input :
  quiet ('(bytesWritten, hashed) ← install_pipeline p tmpFile input transforms;
         install_verify p bytesWritten hashed;;
         trigger (PackageDownloadAfter p);;
         install_commit this p outFile tmpFile metaFile).
Proof.
  apply quiet_bind; [apply quiet_pipeline|intros [bw hashed]].
  apply quiet_bind; [apply quiet_verify|intros _].
  apply quiet_bind; [apply quiet_trigger|intros _]. apply quiet_commit.
Qed.

Lemma quiet_finally tmpFile tmpDir : quiet (close tmpFile;; rm true tmpDir).
Proof.
  apply quiet_bind; [by apply quiet_log|intros _]. by apply quiet_fs_call.
Qed.

Lemma steps_requests w w' effects :
  steps w w' effects -> requests_since w w' = filter is_fetch effects.
Proof.
  intros Hs. unfold requests_since. by rewrite (steps_effects_since _ _ _ Hs).
Qed.

Lemma steps_fetch_count w w' effects :
  steps w w' effects -> filter is_fetch effects = [] ->
  fetch_count (trace w') = fetch_count (trace w).
Proof.
  intros (_ & _ & ->) Hq. unfold fetch_count.
  by rewrite filter_app, Hq, app_nil_r.
Qed.

(** A run that stops before the download. *)
Lemma stopped_early w w' effects :
  steps w w' effects ->
  effects `prefix_of` [Trigger (PackageInstallBefore p);
                       Rm true (install_tmpDir this p);
                       Mkdir (install_tmpDir this p);
                       Open (install_tmpFile this p)] ->
  ~ download_started p w w' /\ requests_since w w' = [].
Proof.
  intros Hs (rest & Hpre). unfold download_started.
  rewrite (steps_requests _ _ _ Hs), (steps_effects_since _ _ _ Hs).
  assert (forall e, e ∈ effects -> is_fetch e = false /\
                    e <> Trigger (PackageDownloadBefore p)) as Hall.
  { intros e He.
    assert (e ∈ effects ++ rest) as Hin by (apply elem_of_app; by left).
    rewrite <- Hpre in Hin.
    repeat (apply elem_of_cons in Hin as [->|Hin]; [done|]).
    by apply elem_of_nil in Hin. }
  split.
  - intros Hin. by destruct (Hall _ Hin).
  - apply filter_quiet, Forall_forall. intros e He. by destruct (Hall _ He).
Qed.

(** The fetch step inside a run of [install_run]: either the run stops
    before its download and makes no request, or the requests of the run
    are those of [install_input] for the root and the slice, in a world
    with the transport and the call count of the start. *)
Lemma install_run_fetch w r w' slice transforms :
  loaded_world w ->
  install_transforms (install_packages p) = Ok (slice, transforms) ->
  install_run this p w = (r, w') ->
  (~ download_started p w w' /\ requests_since w w' = [] /\
   exists e, r = Throw e) \/
  (download_started p w w' /\
   exists w_in ri w_out,
     transport w_in = transport w /\
     fetch_count (trace w_in) = fetch_count (trace w) /\
     install_input this (root_of p) slice w_in = (ri, w_out) /\
     requests_since w w' = effects_since w_in w_out /\
     (forall pkgs, r = Ok pkgs ->
        pkgs = install_packages p /\
        exists input data,
          ri = Ok input /\ piped transforms input = Some data /\
          verified p data)).
Proof.
  intros Hl Hchain Hrun. unfold install_run in Hrun.
  rewrite Hchain, install_packages_root in Hrun.
  change (lift_result (Ok ?a) ≫= ?k) with (k a) in Hrun. cbn beta iota in Hrun.
  rewrite trigger_bind in Hrun.
  set (w1 := with_effects w [Trigger (PackageInstallBefore p)]) in *.
  assert (loaded_world w1) as Hl1 by done.
  erewrite bind_Ok in Hrun by by apply pathToPackage_run.
  erewrite bind_Ok in Hrun by by apply pathToPackageMeta_run.
  erewrite bind_Ok in Hrun by by apply pathToPackageMeta_run.
  change (package_path this (catalog w1) (ByObject p) [Package.file p])
    with (install_outFile this p) in Hrun.
  change (package_meta_path this (catalog w1) (ByObject p) [TEMP_DIR])
    with (install_tmpDir this p) in Hrun.
  change (package_meta_path this (catalog w1) (ByObject p) [packageFile])
    with (install_metaFile this p) in Hrun.
  assert (install_tmpDir this p ++ [Package.sha256 p +:+ TEMP_EXT] =
          install_tmpFile this p) as EtmpFile.
  { destruct (install_paths this p) as (_ & _ & -> & -> & _).
    by rewrite <- app_assoc. }
  rewrite EtmpFile in Hrun.
  unfold rm at 1 in Hrun. fs_step Hrun.
  { left. apply and_assoc. split; [|by eexists].
    eapply stopped_early; [unfold w1; steps_done|]. by eexists [_; _]. }
  unfold mkdir at 1 in Hrun. fs_step Hrun.
  { left. apply and_assoc. split; [|by eexists].
    eapply stopped_early; [unfold w1; steps_done|]. by eexists [_]. }
  unfold open_wx at 1 in Hrun. fs_step Hrun.
  { left. apply and_assoc. split; [|by eexists].
    eapply stopped_early; [unfold w1; steps_done|]. by eexists []. }
  set (E0 := [Trigger (PackageInstallBefore p); Rm true (install_tmpDir this p);
              Mkdir (install_tmpDir this p); Open (install_tmpFile this p)]).
  set (w3 := with_fs (with_effects _ [Open _]) n1) in Hrun.
  assert (steps w w3 E0) as Hs0 by (unfold w3, w1, E0; steps_done).
  assert (loaded_world w3) as Hl3 by done.
  clearbody w3. clear Hop Hop0 Hop1 w1 Hl1 n n0 n1.
  right.
  assert (exists r0 w5, try_finally
            (install_try this p (root_of p) slice transforms
               (install_outFile this p) (install_tmpFile this p)
               (install_metaFile this p))
            (close (install_tmpFile this p);; rm true (install_tmpDir this p))
            w3 = (r0, w5) /\
          exists tail, steps w5 w' tail /\
            Forall (fun e => is_fetch e = false) tail /\
            (forall pkgs, r = Ok pkgs ->
               pkgs = install_packages p /\ exists u, r0 = Ok u)) as
    (r0 & w5 & Hc & tail & Hs5 & Hq5 & Hok5).
  { apply bind_inv in Hrun as [(e & Hc & ->)|([] & w5 & Hc & Hrun)].
    - exists (Throw e), w'. split; [done|]. exists [].
      split; [apply steps_refl|]. split; [done|]. by intros pkgs.
    - exists (Ok tt), w5. split; [done|]. rewrite trigger_bind in Hrun.
      injection Hrun as <- <-. exists [Trigger (PackageInstallAfter p)].
      split; [steps_done|]. split; [by repeat constructor|].
      intros pkgs [= <-]. split; [done|by eexists]. }
  clear Hrun.
  apply try_finally_inv in Hc as (r1 & w4 & rf & Htry & Hfin & Hr).
  unfold install_try in Htry. rewrite !trigger_bind in Htry.
  set (E1 := [Trigger (PackageDownloadBefore p);
              Trigger (PackageDownloadProgress p (Package.size p) 0)]).
  set (w_in := with_effects (with_effects w3 _) _) in Htry.
  assert (steps w3 w_in E1) as Hs1 by (unfold w_in, E1; steps_done).
  pose proof (steps_trans _ _ _ _ _ Hs0 Hs1) as Hs01.
  assert (loaded_world w_in) as Hlin by done.
  clearbody w_in. clear Hs0 Hs1.
  assert (exists ri w_out Ein Epost,
            install_input this (root_of p) slice w_in = (ri, w_out) /\
            steps w_in w_out Ein /\
            Forall (fun e => is_fetch e = true) Ein /\
            steps w_out w4 Epost /\
            Forall (fun e => is_fetch e = false) Epost /\
            (forall u, r1 = Ok u ->
               exists input data,
                 ri = Ok input /\ piped transforms input = Some data /\
                 verified p data)) as
    (ri & w_out & Ein & Epost & Hin & Hsin & Hfin' & Hspost & Hqpost & Hri).
  { apply bind_inv in Htry as [(e & Hc & ->)|(input & w_out & Hc & Htry)].
    - exists (Throw e), w4.
      destruct (install_input_inv _ _ _ _ _ _ Hc) as (Ein & Hsin & Hf & _).
      exists Ein, []. split; [done|]. split; [done|]. split; [done|].
      split; [apply steps_refl|]. split; [done|]. by intros u.
    - exists (Ok input), w_out.
      destruct (install_input_inv _ _ _ _ _ _ Hc) as (Ein & Hsin & Hf & _).
      destruct (quiet_after_input _ _ _ _ _ _ _ _
                  (steps_loaded _ _ _ Hsin Hlin) Htry) as (Epost & Hsp & Hqp).
      exists Ein, Epost. split; [done|]. split; [done|]. split; [done|].
      split; [done|]. split; [done|]. intros u ->.
      apply after_input_Ok in Htry as (data & Hpiped & Hver).
      by exists input, data. }
  clear Htry.
  assert (loaded_world w4) as Hl4.
  { eapply steps_loaded; [exact Hspost|]. by eapply steps_loaded. }
  destruct (quiet_finally _ _ _ _ _ Hl4 Hfin) as (Efin & Hsfin & Hqfin).
  pose proof (steps_trans _ _ _ _ _ Hs01
    (steps_trans _ _ _ _ _ Hsin
       (steps_trans _ _ _ _ _ Hspost
          (steps_trans _ _ _ _ _ Hsfin Hs5)))) as Hs.
  split.
  { unfold download_started. rewrite (steps_effects_since _ _ _ Hs).
    rewrite !elem_of_app. left. right. by left. }
  exists w_in, ri, w_out.
  split; [by destruct Hs01 as (_ & -> & _)|].
  split; [by apply (steps_fetch_count _ _ _ Hs01)|].
  split; [done|]. split.
  - rewrite (steps_requests _ _ _ Hs), (steps_effects_since _ _ _ Hsin).
    rewrite !filter_app, (filter_fetches _ Hfin'), (filter_quiet _ Hqpost),
      (filter_quiet _ Hqfin), (filter_quiet _ Hq5).
    by rewrite !app_nil_r.
  - intros pkgs Hpkgs. destruct (Hok5 _ Hpkgs) as (Hchain' & u & ->).
    split; [done|]. destruct rf as [[]|e]; [|done]. subst r1. by apply (Hri u).
Qed.

Lemma effects_since_with_effects w effects :
  effects_since w (with_effects w effects) = effects.
Proof. unfold effects_since. cbn. by rewrite drop_app_length. Qed.

(** The outcome of a request depends on the transport and on the number
    of calls made so far only. *)
Lemma retry_outcome_from w w_in request :
  transport w_in = transport w ->
  fetch_count (trace w_in) = fetch_count (trace w) ->
  fst (retry_outcome w_in request) = fst (retry_outcome w request) /\
  effects_since w_in (snd (retry_outcome w_in request)) =
    effects_since w (snd (retry_outcome w request)).
Proof.
  intros Ht Hn. unfold retry_outcome. rewrite Ht, Hn.
  destruct (transport w _ request); cbn [fst snd];
    by rewrite !effects_since_with_effects.
Qed.

Lemma install_slice_loop_Some : forall l s sl ts rest,
  install_slice_loop l (Some s) = Ok (sl, ts, rest) -> is_Some sl.
Proof.
  induction l as [|q l IH]; intros s sl ts rest; cbn.
  - intros [= <- _ _]. by eexists.
  - destruct (Package.getZippedSlice q) as [[ss sz]|e]; [|done]. cbn.
    destruct (Package.getZippedDecompressor q) as [[d|]|e]; cbn; [| |done].
    + destruct s. intros [= <- _ _]. by eexists.
    + destruct s. apply IH.
Qed.

Lemma install_transforms_slice slice transforms :
  install_transforms (install_packages p) = Ok (slice, transforms) ->
  (slice = None <-> Package.parent p = None).
Proof.
  unfold install_transforms, install_packages. intros Hrun.
  destruct p as [n f sz s256 s1 m5 src z [q|] infos];
    cbn [ancestors Package.parent] in *.
  - split; [|done]. intros ->. exfalso.
    rewrite reverse_cons in Hrun.
    destruct (ancestors_head q) as (l & Hq).
    destruct (reverse (ancestors q)) as [|x l'] eqn:Hrev.
    { apply (f_equal reverse) in Hrev. rewrite reverse_involutive in Hrev.
      by rewrite Hq in Hrev. }
    cbn [app drop] in Hrun.
    destruct (l' ++ [_]) as [|y l2] eqn:Hl2; [by destruct l'|].
    cbn in Hrun.
    destruct (Package.getZippedSlice y) as [[ss sl]|e]; [|done]. cbn in Hrun.
    destruct (Package.getZippedDecompressor y) as [[d|]|e]; cbn in Hrun;
      [| |done].
    + by destruct (install_transform_loop l2 [d]).
    + destruct (install_slice_loop l2 (Some (ss, sl)))
        as [[[sl' ts] rest]|e] eqn:Hloop; [|done].
      apply install_slice_loop_Some in Hloop as (s' & ->). cbn in Hrun.
      by destruct (install_transform_loop rest ts).
  - split; [done|]. intros _. cbn in Hrun. by injection Hrun as <- _.
Qed.

(** The requests and the input of a run of [install]. Either the run
    stops before its download, makes no request and installs nothing; or
    it starts the download, its requests are those of the request of the
    slice with one retry, and it returns only with the chain of the
    package, after a response of the status and the length asked for (or
    no request, for a slice of length 0), whose body, read through the
    transforms, has the size and the digest of the package. *)
Lemma install_requests w pkg r w' slice transforms :
  loaded_world w ->
  as_package (catalog w) pkg = Some p ->
  install_transforms (install_packages p) = Ok (slice, transforms) ->
  install this pkg w = (r, w') ->
  (~ download_started p w w' /\ requests_since w w' = [] /\
   forall pkgs, r = Ok pkgs -> pkgs = []) \/
  (download_started p w w' /\
   requests_since w w' =
     match install_request this p slice with
     | Some request => effects_since w (snd (retry_outcome w request))
     | None => []
     end /\
   ((exists e, r = Throw e) \/
    r = Ok (install_packages p) /\
    exists input data,
      install_source this p slice w input /\
      piped transforms input = Some data /\ verified p data)).
Proof.
  intros Hl Has Hchain Hrun. rewrite (install_unfold this p) in Hrun by done.
  assert (forall effects,
            steps w w' effects ->
            Forall (fun e => is_fetch e = false) effects ->
            Trigger (PackageDownloadBefore p) ∉ effects ->
            ~ download_started p w w' /\ requests_since w w' = []) as Hstop.
  { intros effects Hs Hq Hnot. unfold download_started.
    rewrite (steps_requests _ _ _ Hs), (steps_effects_since _ _ _ Hs).
    split; [done|by apply filter_quiet]. }
  destruct (fetch this); cycle 1.
  { injection Hrun as <- <-. left. apply and_assoc. split; [|done].
    apply (Hstop []); [apply steps_refl|done|by intros ?%elem_of_nil]. }
  destruct (match read_receipt _ _ with Some _ => _ | None => _ end).
  { injection Hrun as <- <-. left. apply and_assoc.
    split; [|by intros ? [= <-]].
    apply (Hstop [Trigger (PackageInstallCurrent p)]);
      [apply steps_with_effects|by repeat constructor|].
    intros Hin. apply list_elem_of_singleton in Hin. discriminate. }
  clear Hstop.
  destruct (install_run_fetch w r w' slice transforms Hl Hchain Hrun)
    as [(Hnot & Hreq & e & ->)|(Hstart & w_in & ri & w_out & Ht & Hn & Hin & Hreq & Hok)].
  { left. by repeat split. }
  right. split; [done|]. rewrite Hreq. clear Hreq Hrun.
  assert (effects_since w_in w_out =
            match install_request this p slice with
            | Some request => effects_since w (snd (retry_outcome w request))
            | None => []
            end /\
          forall input, ri = Ok input -> install_source this p slice w input)
    as (Hcalls & Hsource).
  { unfold install_source, install_request, expected_status, expected_length.
    destruct slice as [[start size]|].
    - destruct (JS.gt size (JS.Num 0)) eqn:Hsize.
      + rewrite install_input_ranged in Hin by done. injection Hin as <- <-.
        destruct (retry_outcome_from w w_in
                    (range_request this (root_of p) start size) Ht Hn)
          as (Hfst & Hsnd).
        split; [done|]. intros input Hr. rewrite Hfst in Hr.
        destruct (fst (retry_outcome w _)) as [res|e]; [|done]. exists res.
        destruct (Z.eqb_spec (status res) 206) as [H206|H206]; [|done].
        cbn [negb] in Hr. destruct (content_length_ok res size); [|done].
        by injection Hr as <-.
      + unfold install_input in Hin. rewrite Hsize in Hin.
        assert (effects_since w_in w_in = []) as Hnil
          by (unfold effects_since; by rewrite drop_all).
        destruct size as [|z]; cbn [JS.strict_eq] in Hin.
        { by injection Hin as <- <-. }
        destruct (Z.eqb_spec z 0) as [->|Hz]; injection Hin as <- <-;
          (split; [done|]); [|done].
        intros input [= <-]. split; [by eexists|done].
    - rewrite install_input_plain in Hin. injection Hin as <- <-.
      destruct (retry_outcome_from w w_in (plain_request this (root_of p)) Ht Hn)
        as (Hfst & Hsnd).
      split; [done|]. intros input Hr. rewrite Hfst in Hr.
      destruct (fst (retry_outcome w _)) as [res|e]; [|done]. exists res.
      destruct (Z.eqb_spec (status res) 200) as [H200|H200]; [|done].
      cbn [negb] in Hr. destruct (content_length_ok res _); [|done].
      by injection Hr as <-. }
  split; [done|].
  destruct r as [pkgs|e]; [right|left; by eexists].
  destruct (Hok _ eq_refl) as (-> & input & data & -> & Hpiped & Hver).
  split; [done|]. exists input, data. split; [by apply Hsource|done].
Qed.

(** C7. The fetch step of [install], for a package whose chain gives the
    slice [slice]. The requests of the run go to the source of the first
    package of the chain, the root: the ancestor that has no parent; there
    is no slice exactly when the target is itself a root. A run that
    installs starts its download, and a run that does not start it makes no
    request. With a slice of positive length a download that starts makes
    the ranged request [Range: bytes=start-(start+length-1)] against the
    source of the root, once or twice, and the run throws unless the
    response has status 206 and its content-length header, if present, is
    the length of the slice. With a slice of length 0, or another length
    that is not positive, no request is made; for the length 0 the input is
    the empty stream, and a run that installs has read the empty stream
    through its transforms. Without a slice a download that starts makes
    the plain request against the source of the root, and the run throws
    unless the response has status 200 and its content-length header, if
    present, is the declared size of the root. A run that installs has
    read the body of that response. *)
Theorem install_fetch_step (w : World) (pkg : PackageLike)
    (slice : option (JS.number * JS.number)) (transforms : list Transform)
    (r : Result (list Package)) (w' : World) :
  loaded_world w ->
  as_package (catalog w) pkg = Some p ->
  install_transforms (install_packages p) = Ok (slice, transforms) ->
  install this pkg w = (r, w') ->
  let root := root_of p in
  let started := download_started p w w' in
  let requests := requests_since w w' in
  let installs := exists pkgs, r = Ok pkgs /\ pkgs <> [] in
  let reads input :=
    exists data, piped transforms input = Some data /\ verified p data in
  (hd p (install_packages p) = root /\ Package.parent root = None /\
   (slice = None <-> Package.parent p = None)) /\
  ((installs -> started) /\ (~ started -> requests = [])) /\
  (forall start size,
     slice = Some (start, size) -> JS.gt size (JS.Num 0) = true ->
     let request := range_request this root start size in
     request_url request = Package.source root /\
     (forall a b, start = JS.Num a -> size = JS.Num b ->
        request_headers request !! "Range" =
          Some ("bytes=" +:+ pretty a +:+ "-" +:+ pretty (a + b - 1))) /\
     (started ->
        (requests = [Fetch request] \/ requests = [Fetch request; Fetch request]) /\
        requests = effects_since w (snd (retry_outcome w request)) /\
        ((exists e, r = Throw e) \/
         exists res,
           fst (retry_outcome w request) = Ok res /\ status res = 206 /\
           content_length_ok res size = true /\ reads (body res)))) /\
  (forall start size,
     slice = Some (start, size) -> JS.gt size (JS.Num 0) = false ->
     requests = [] /\
     (size = JS.Num 0 ->
      forall w0, install_input this root slice w0 =
                   (Ok (mkBody Stream.EmptyStream true), w0)) /\
     (installs -> size = JS.Num 0 /\ reads (mkBody Stream.EmptyStream true))) /\
  (slice = None ->
     let request := plain_request this root in
     request = mkRequest (Package.source root) (headers this) /\
     (started ->
        (requests = [Fetch request] \/ requests = [Fetch request; Fetch request]) /\
        requests = effects_since w (snd (retry_outcome w request)) /\
        ((exists e, r = Throw e) \/
         exists res,
           fst (retry_outcome w request) = Ok res /\ status res = 200 /\
           content_length_ok res (JS.Num (Package.size root)) = true /\
           reads (body res)))).
Proof.
  intros Hl Has Hchain Hrun root started requests installs reads.
  pose proof (install_requests w pkg r w' slice transforms Hl Has Hchain Hrun)
    as Hreq. fold started requests in Hreq.
  assert (forall request,
            requests = effects_since w (snd (retry_outcome w request)) ->
            requests = [Fetch request] \/
            requests = [Fetch request; Fetch request]) as Hcalls.
  { intros request ->.
    destruct (retry_outcome_effects w request) as (calls & Hc & ->).
    by rewrite effects_since_with_effects. }
  split.
  { split; [apply install_packages_root|]. split; [apply root_of_parent|].
    by eapply install_transforms_slice. }
  split.
  { split.
    - intros (pkgs & -> & Hne).
      destruct Hreq as [(_ & _ & Hnil)|(Hs & _)]; [|done].
      by destruct (Hne (Hnil _ eq_refl)).
    - intros Hnot. destruct Hreq as [(_ & Hnil & _)|(Hs & _)]; [done|].
      by destruct (Hnot Hs). }
  split; [|split].
  - intros start size -> Hsize request. split; [done|]. split.
    { intros a b -> ->. unfold request, range_request. cbn [request_headers].
      by rewrite lookup_insert_eq. }
    intros Hs.
    destruct Hreq as [(Hnot & _)|(_ & Hcalls' & Hout)]; [by destruct (Hnot Hs)|].
    unfold install_source, install_request, expected_status, expected_length
      in Hcalls', Hout.
    rewrite Hsize in Hcalls', Hout.
    split; [by apply Hcalls|]. split; [done|].
    destruct Hout as [Hr|(_ & input & data & (res & Hres & H206 & Hcl & ->) & Hp)];
      [by left|right].
    exists res. do 3 (split; [done|]). by exists data.
  - intros start size -> Hsize.
    assert (requests = [] /\
            (installs ->
             size = JS.Num 0 /\ reads (mkBody Stream.EmptyStream true)))
      as (Hnil & Hzero).
    { destruct Hreq as [(_ & Hnil & Hnone)|(_ & Hcalls' & Hout)].
      - split; [done|]. intros (pkgs & -> & Hne).
        by destruct (Hne (Hnone _ eq_refl)).
      - unfold install_source, install_request in Hcalls', Hout.
        rewrite Hsize in Hcalls', Hout. split; [done|].
        intros (pkgs & -> & Hne).
        destruct Hout as [(e & [=])|(_ & input & data & ((s0 & [= _ ->]) & ->) & Hp)].
        split; [done|]. by exists data. }
    split; [done|]. split; [by intros -> w0|done].
  - intros -> request. split; [done|]. intros Hs.
    destruct Hreq as [(Hnot & _)|(_ & Hcalls' & Hout)]; [by destruct (Hnot Hs)|].
    unfold install_source, install_request, expected_status, expected_length
      in Hcalls', Hout.
    split; [by apply Hcalls|]. split; [done|].
    destruct Hout as [Hr|(_ & input & data & (res & Hres & H200 & Hcl & ->) & Hp)];
      [by left|right].
    exists res. do 3 (split; [done|]). by exists data.
Qed.

(** C9. A top-level request calls the fetch function once, and a second
    time exactly when the first call itself fails. [_requestPackages], on a
    manager that has a fetch function: when the first call resolves it is
    the only call, and a response whose status is not 200 is a hard
    failure; when the first call is rejected there are exactly two calls,
    with the same request, and the outcome is that of the second: its
    response, checked in the same way, or the failure of the fetch. The
    fetch of a root resource in a run of [install] that starts its
    download, be the request plain or ranged: one call when the first call
    resolves, and the run throws when the status is not the one asked for
    (200, or 206 for a ranged request); two calls when the first call is
    rejected, and the run throws when the second call is rejected too or
    its response has another status. *)
Theorem one_retry_on_transport_failure (w : World) :
  let n := fetch_count (trace w) in
  (fetch this = true ->
   let request := packages_request this in
   let outcome := _requestPackages this w in
   let checked res :=
     (status res <> 200 ->
      fst outcome =
        Throw (InvalidResponseStatus (status res) (packagesUrl this))) /\
     (status res = 200 -> forall data, text res = Some data ->
      fst outcome = Ok data) in
   (forall res,
      transport w n request = Resolved res ->
      snd outcome = with_effects w [Fetch request] /\ checked res) /\
   (forall reason,
      transport w n request = Rejected reason ->
      snd outcome = with_effects w [Fetch request; Fetch request] /\
      match transport w (S n) request with
      | Resolved res => checked res
      | Rejected (Some reason') =>
          fst outcome = Throw (FetchFailed (_fetchErrorMessage reason'))
      | Rejected None => fst outcome = Throw (Rejection None)
      end)) /\
  (forall pkg slice transforms request r w',
     loaded_world w ->
     as_package (catalog w) pkg = Some p ->
     install_transforms (install_packages p) = Ok (slice, transforms) ->
     install_request this p slice = Some request ->
     install this pkg w = (r, w') ->
     download_started p w w' ->
     request_url request = Package.source (root_of p) /\
     (forall res,
        transport w n request = Resolved res ->
        requests_since w w' = [Fetch request] /\
        (status res <> expected_status slice -> exists e, r = Throw e)) /\
     (forall reason,
        transport w n request = Rejected reason ->
        requests_since w w' = [Fetch request; Fetch request] /\
        match transport w (S n) request with
        | Resolved res =>
            status res <> expected_status slice -> exists e, r = Throw e
        | Rejected _ => exists e, r = Throw e
        end)).
Proof.
  intros n. split.
  - intros Hfetch request outcome checked. subst outcome checked.
    rewrite _requestPackages_run by done. fold request. cbn [fst snd].
    unfold retry_outcome. fold n. split.
    + intros res ->. cbn [fst snd]. split; [done|]. split.
      * intros Hstatus. by rewrite (proj2 (Z.eqb_neq _ _) Hstatus).
      * intros -> data ->. done.
    + intros reason ->. cbn [fst snd]. split; [done|].
      destruct (transport w (S n) request) as [res|[reason'|]]; [|done|done].
      split.
      * intros Hstatus. by rewrite (proj2 (Z.eqb_neq _ _) Hstatus).
      * intros -> data ->. done.
  - intros pkg slice transforms request r w' Hl Has Hchain Hrequest Hrun Hs.
    destruct (install_requests w pkg r w' slice transforms Hl Has Hchain Hrun)
      as [(Hnot & _)|(_ & Hcalls & Hout)]; [by destruct (Hnot Hs)|].
    unfold install_source in Hout. rewrite Hrequest in Hcalls, Hout.
    rewrite Hcalls. clear Hcalls.
    split.
    { unfold install_request in Hrequest. destruct slice as [[start size]|].
      - destruct (JS.gt size (JS.Num 0)); [|done]. by injection Hrequest as <-.
      - by injection Hrequest as <-. }
    assert (forall res, fst (retry_outcome w request) = Ok res ->
              status res <> expected_status slice -> exists e, r = Throw e)
      as Hhard.
    { intros res Hres Hstatus.
      destruct Hout as [Hr|(_ & input & data & (res' & Hres' & Hst & _) & _)];
        [done|]. rewrite Hres in Hres'. injection Hres' as <-. done. }
    assert (forall e, fst (retry_outcome w request) = Throw e ->
              exists e, r = Throw e) as Hfail.
    { intros e He.
      destruct Hout as [Hr|(_ & input & data & (res' & Hres' & _) & _)];
        [done|]. by rewrite He in Hres'. }
    revert Hhard Hfail. unfold retry_outcome. fold n.
    split.
    + intros res Hres. rewrite Hres in *. cbn [fst snd] in *.
      rewrite effects_since_with_effects. split; [done|]. by apply Hhard.
    + intros reason Hrej. rewrite Hrej in *. cbn [fst snd] in *.
      rewrite effects_since_with_effects. split; [done|].
      destruct (transport w (S n) request) as [res|[reason'|]].
      * by apply Hhard.
      * by eapply Hfail.
      * by eapply Hfail.
Qed.

(** C1. The block of [install] that builds the slice and the transforms
    walks the ancestor chain of the target [p]: the chain starts with the
    root ancestor, the package without a parent; each further node is a
    child of the node in front of it, from the direct child of the root to
    [p], the last node. Over the nodes below the root the block computes
    the walk of the specification: the accumulator starts as the first
    node's slice; while no decompression layer is open a node adds its
    offset to the accumulator's offset and replaces its length; the first
    non-null decompressor is appended and ends the merging; every node
    behind it contributes a byte-range filter with its own offset and
    length, then its own decompressor when it has one, in chain order.
    The slice and the decompressor of the nodes below the root have to be
    readable. An install of [p] that runs and returns has used this chain,
    this accumulator and these transforms: it returns the chain, its input
    is the body of the response to the request for the accumulator slice
    (the empty stream for a slice of length 0), and that input, read
    through the transform chain of the walk, has the size and the digest of
    [p]. *)
Theorem install_transform_chain (views : list NodeView) :
  read_nodes (drop 1 (install_packages p)) = Ok views ->
  (exists nodes,
     install_packages p = root_of p :: nodes /\
     Package.parent (root_of p) = None /\
     last (install_packages p) = Some p /\
     (forall pre a b post,
        install_packages p = pre ++ a :: b :: post ->
        Package.parent b = Some a) /\
     read_nodes nodes = Ok views)
  /\ install_transforms (install_packages p) =
       Ok (accumulator (walk views), chain (walk views))
  /\ walk [] = mkWalk None false []
  /\ (forall v vs,
        views = v :: vs ->
        Forall (fun v => view_decompressor v = None) views ->
        walk views =
          mkWalk (Some (sum_offsets (view_offset v) vs,
                        view_length (List.last vs v)))
                 false [])
  /\ (forall pre c post t,
        views = pre ++ c :: post ->
        Forall (fun v => view_decompressor v = None) pre ->
        view_decompressor c = Some t ->
        walk views =
          mkWalk (Some (sum_offsets (view_offset (hd c pre))
                                    (tail (pre ++ [c])),
                        view_length c))
                 true (t :: peel post))
  /\ (forall w pkg pkgs w',
        loaded_world w ->
        as_package (catalog w) pkg = Some p ->
        install this pkg w = (Ok pkgs, w') ->
        pkgs <> [] ->
        pkgs = install_packages p /\
        exists input data,
          install_source this p (accumulator (walk views)) w input /\
          piped (chain (walk views)) input = Some data /\
          verified p data).
Proof.
  intros Hread.
  destruct (install_packages_chain p) as (nodes & Hchain & Hlast & Hlinks).
  rewrite Hchain in Hread. cbn [drop] in Hread.
  split.
  { exists nodes. split; [done|]. split; [apply root_of_parent|].
    split; [done|]. split; [done|done]. }
  assert (install_transforms (install_packages p) =
          Ok (accumulator (walk views), chain (walk views))) as Hwalk.
  { rewrite Hchain. by apply install_transforms_walk. }
  split; [done|]. split; [done|]. split; [|split].
  - intros v vs -> Hall. exact (walk_stored v vs None Hall).
  - intros pre c post t -> Hpre Hc. by apply walk_compressed.
  - intros w pkg pkgs w' Hl Has Hrun Hne.
    destruct (install_requests w pkg (Ok pkgs) w' _ _ Hl Has Hwalk Hrun)
      as [(_ & _ & Hnil)|(_ & _ & [(e & [=])|([= ->] & Hsource)])].
    + by destruct (Hne (Hnil _ eq_refl)).
    + done.
Qed.

End InstallFetch.

(** The target d of the examples, below c, b, a and the root: the chain is
    root, a, b, c, d; the slices of a and b merge into the range [15, 50)
    of the root, b opens the first layer, and c and d are peeled from
    it. *)
Lemma install_transform_chain_witness :
  install_packages Examples.pkg_d =
    [Examples.pkg_root; Examples.pkg_a; Examples.pkg_b; Examples.pkg_c;
     Examples.pkg_d]
  /\ @read_nodes Examples.runtime (drop 1 (install_packages Examples.pkg_d)) =
    Ok [mkView (JS.Num 10) (JS.Num 100) None;
        mkView (JS.Num 5) (JS.Num 50) (Some InflateRaw);
        mkView (JS.Num 3) (JS.Num 7) None;
        mkView (JS.Num 1) (JS.Num 2) (Some InflateRaw)]
  /\ @install_transforms Examples.runtime (install_packages Examples.pkg_d) =
     Ok (Some (JS.Num 15, JS.Num 50),
         [InflateRaw; SliceStream (JS.Num 3) (JS.Num 7);
          SliceStream (JS.Num 1) (JS.Num 2); InflateRaw]).
Proof.
  split; [reflexivity|]. split; [reflexivity|].
  exact (proj1 (proj2 (@install_transform_chain Examples.runtime
                         Examples.manager Examples.pkg_d _ eq_refl))).
Defined.

(** The install of [leaf], a stored entry of the archive [root], from a
    server that answers 206 with the four bytes of the entry: the package
    is installed after one ranged request, for [bytes=10-13] against the
    source of [root]. *)
Lemma install_fetch_step_witness :
  let this := Examples.manager in
  let p := Examples.pkg_leaf in
  let res := Examples.response 206 (Some "4")
               [String.list_byte_of_string "leaf"] in
  let w := Examples.world_with (Examples.always res) in
  let run := @install Examples.runtime this (ByObject p) w in
  let request := range_request this Examples.pkg_root (JS.Num 10) (JS.Num 4) in
  run.1 = Ok [Examples.pkg_root; p] /\
  download_started p w run.2 /\
  request_url request = "https://example.com/root" /\
  request_headers request !! "Range" = Some "bytes=10-13" /\
  requests_since w run.2 = [Fetch request] /\
  ((exists e, run.1 = Throw e) \/
   exists res',
     fst (retry_outcome w request) = Ok res' /\ status res' = 206 /\
     @content_length_ok Examples.runtime res' (JS.Num 4) = true /\
     exists data,
       @piped Examples.runtime [] (body res') = Some data /\
       @verified Examples.runtime p data).
Proof.
  intros this p res w run request.
  assert (Hl : loaded_world w) by reflexivity.
  assert (Has : as_package (catalog w) (ByObject p) = Some p) by reflexivity.
  assert (Hchain : @install_transforms Examples.runtime (install_packages p) =
                   Ok (Some (JS.Num 10, JS.Num 4), []))
    by (vm_compute; reflexivity).
  assert (Hrun : @install Examples.runtime this (ByObject p) w = (run.1, run.2))
    by (vm_compute; reflexivity).
  assert (Hok : run.1 = Ok [Examples.pkg_root; p]) by (vm_compute; reflexivity).
  assert (Hsize : JS.gt (JS.Num 4) (JS.Num 0) = true) by reflexivity.
  destruct (@install_fetch_step Examples.runtime this p w (ByObject p)
              (Some (JS.Num 10, JS.Num 4)) [] run.1 run.2 Hl Has Hchain Hrun)
    as (_ & (Hstarted & _) & Hranged & _).
  assert (Hs : download_started p w run.2).
  { apply Hstarted. eexists. split; [exact Hok|discriminate]. }
  destruct (Hranged (JS.Num 10) (JS.Num 4) eq_refl Hsize)
    as (Hurl & Hrange & Hstep).
  destruct (Hstep Hs) as (_ & Hcalls & Hout).
  split; [exact Hok|]. split; [exact Hs|]. split; [exact Hurl|].
  split; [exact (Hrange 10 4 eq_refl eq_refl)|].
  split; [exact Hcalls|exact Hout].
Defined.

(** A transport that rejects the first call and then answers. The
    catalogue is requested twice and the second answer is the result; the
    install of [leaf] requests the range of the root twice and goes on with
    the second answer. *)
Lemma one_retry_on_transport_failure_witness :
  let this := Examples.manager in
  let p := Examples.pkg_leaf in
  let reason := Some (mkTransportError "fetch failed"
                        (Some ("Error", "ECONNRESET"))) in
  let w := Examples.world_with
             (Examples.flaky (Examples.response 200 None [])) in
  let w2 := Examples.world_with
              (Examples.flaky (Examples.response 206 (Some "4")
                                 [String.list_byte_of_string "leaf"])) in
  let run := @install Examples.runtime this (ByObject p) w2 in
  let request := range_request this Examples.pkg_root (JS.Num 10) (JS.Num 4) in
  (transport w 0%nat (packages_request this) = Rejected reason /\
   snd (_requestPackages this w) =
     with_effects w [Fetch (packages_request this);
                     Fetch (packages_request this)] /\
   fst (_requestPackages this w) = Ok "catalog-2") /\
  (transport w2 0%nat request = Rejected reason /\
   download_started p w2 run.2 /\
   requests_since w2 run.2 = [Fetch request; Fetch request] /\
   run.1 = Ok [Examples.pkg_root; p]).
Proof.
  intros this p reason w w2 run request.
  destruct (@one_retry_on_transport_failure Examples.runtime this p w)
    as (Hcatalogue & _).
  destruct (@one_retry_on_transport_failure Examples.runtime this p w2)
    as (_ & Hinstall).
  split.
  - assert (Hfetch : fetch this = true) by reflexivity.
    assert (Hrej : transport w (fetch_count (trace w)) (packages_request this) =
                   Rejected reason) by reflexivity.
    destruct (Hcatalogue Hfetch) as (_ & Hretry).
    destruct (Hretry reason Hrej) as (Hcalls & _ & Hdata).
    split; [exact Hrej|]. split; [exact Hcalls|].
    exact (Hdata eq_refl "catalog-2" eq_refl).
  - assert (Hl : loaded_world w2) by reflexivity.
    assert (Has : as_package (catalog w2) (ByObject p) = Some p) by reflexivity.
    assert (Hchain : @install_transforms Examples.runtime (install_packages p) =
                     Ok (Some (JS.Num 10, JS.Num 4), []))
      by (vm_compute; reflexivity).
    assert (Hrequest : install_request this p (Some (JS.Num 10, JS.Num 4)) =
                       Some request) by reflexivity.
    assert (Hrun : @install Examples.runtime this (ByObject p) w2 =
                   (run.1, run.2)) by (vm_compute; reflexivity).
    assert (Hs : download_started p w2 run.2).
    { apply (list_elem_of_lookup_2 _ 4%nat). vm_compute. reflexivity. }
    assert (Hrej : transport w2 (fetch_count (trace w2)) request =
                   Rejected reason) by reflexivity.
    destruct (Hinstall (ByObject p) (Some (JS.Num 10, JS.Num 4)) [] request
                run.1 run.2 Hl Has Hchain Hrequest Hrun Hs)
      as (_ & _ & Hretry).
    destruct (Hretry reason Hrej) as (Hcalls & _).
    split; [exact Hrej|]. split; [exact Hs|]. split; [exact Hcalls|].
    vm_compute. reflexivity.
Defined.

End FetchFacts.
